(* ===== verification/_CoqProject ===== *)
-Q . S2P
Prelude.v
Heap.v
ContainerList.v
QueueInterface.v
PriorityQueue.v
GoStrings.v
GoPath.v
Errors.v
GoReflect.v
Slices.v
Maps.v
Predicates.v
SyncMap.v
PartiQL.v
DynamoDB.v
DynamoDBUpdate.v
DistributedLock.v
RedisLock.v
Database.v
Connections.v
PostgresLock.v
LockExclusion.v
LocalLock.v
Worker.v
Config.v
ConfigStart.v
Providers.v
ErrorHandler.v
ErrorMappers.v
Log.v
Loggers.v
GoContext.v
LogPackage.v
Router.v
Middleware.v
RequestLogger.v
Pipeline.v
HTTPServer.v
DI.v
Modules.v
Commands.v
Wiring.v
Examples.v
Binding.v
Slack.v
SlackMessage.v
Version.v
Tag.v
Task.v
Executor.v
ExecutorInvariant.v
ExecutorSystem.v
ExecutorSpec.v
ExecutorSafety.v
ExecutorScenarios.v
