(* ===== verification/Prelude.v ===== *)
(** * go-fw: a verification library

    A model of the framework [go-fw] (packages under [src/]) with the theorems that make
    its parts correct. Each file opens with the source files it models.

    ** The program and its parts

    go-fw is a library of parts that services put together: executors that run
    tasks ([executors], over [queue]), errors with codes and traces ([errors]),
    collection functions ([functional/*]), a concurrent map ([sync]), DynamoDB with
    its statements in PartiQL ([aws/*]), locks between processes ([distributedlock], over
    Redis, Postgres through [database], or the file system), long running workers
    that such a lock protects ([worker], [panics]), configuration ([config],
    [secrets]), logging ([log]) and HTTP ([rest]). An executor keeps its scheduled tasks
    in a priority queue and its ready tasks in a list; a worker runs under a lock whose
    lease it extends; the configuration is decoded through texts of its own; nearly
    everything returns the errors of [errors].

    ** Files

    - Prelude: stores with panic ([M]), Go's (value, error) pairs ([result]), machine
      integers, and the automation that the other files share.
    - GoStrings, GoPath, GoReflect: what the program uses of packages strings, path and
      reflect.
    - Heap, ContainerList: package container/heap over an interface, package
      container/list over a store of elements.
    - QueueInterface, PriorityQueue: [queue/*.go]. The executor is proved against the
      class of QueueInterface, which PriorityQueue implements.
    - Task, Executor, ExecutorInvariant, ExecutorSystem, ExecutorSpec, ExecutorSafety,
      ExecutorScenarios: [executors/task.go] and [executors_default.go]: a task and its
      atomic operations; the handlers of the event loop; what each keeps; clients, loop
      and goroutines as steps that interleave; the abstract executor of
      [executors/executors.go] and the abstraction to it; absence of panics; concrete runs.
    - Errors: [errors/*.go].
    - Slices, Maps, Predicates: [functional/*].
    - SyncMap: [sync/map.go], [LoadOrStoreFunc] step by step.
    - PartiQL, DynamoDB, DynamoDBUpdate: [aws/partiql], [aws/dynamodb].
    - DistributedLock, RedisLock, PostgresLock, LockExclusion, LocalLock: [distributedlock/*.go].
      The class [LeaseLock] states what an implementation promises to those who use locks;
      Redis and Postgres discharge it, and so exclude. The local lock has no leases on a server and its
      own step relation.
    - Database, Connections: [database/database.go], nested transactions; connection strings,
      what opening and closing do, [redis/redis.go] and the health checks of connections.
    - Worker: [worker/worker.go] and [panics/panic.go].
    - Config, ConfigStart: [config/*.go] and [secrets/key_transformer.go]: how settings are
      loaded; their structures, variables and what a process loads once.
    - Providers: [rest/providers/jwt.go], [cache], [ptr], [secrets/secrets_aws.go], resources.
    - GoContext: [context/*.go], [sync/sync.go], [worker/worker_context.go]: Go's contexts with
      causes, and those that outlive their parent.
    - LogPackage: the functions of [log] that are not methods: the default factory, and the
      factory of a context.
    - ErrorHandler, ErrorMappers: [rest/middleware/error_handler.go] and [panic_recovery.go].
    - Log, Loggers: [log/*.go]; the adapters of [di/fx_logger.go], [database/logger_*.go] and
      [rest/logger_gin.go].
    - Router, Middleware, RequestLogger, Binding: [rest/gin_routergroup*.go], the other files of
      [rest/middleware], and [rest/gin.go].
    - Pipeline, Commands: the composition: the middleware as it is registered, a request through
      all of it, with the state of all parts in one record; [cmd], [bootstrap] and the order
      in which an application starts.
    - DI, Modules, Wiring: [di/di.go] and the functions that give things to the container; every
      constructor with its parameters and the modules of all packages; what the promises of
      the container make of them: what is there in time, the order of hooks, what is missing.
    - Examples: [examples/gin] and [examples/gin-plus-worker].
    - HTTPServer: the life of the server of [rest/http_handler.go].
    - Slack, SlackMessage, Version, Tag: [slack/*.go], with the texts of messages as a
      JSON automaton reads them; [version]; [tag].
    ** How the code is read

    A struct is a record with the fields of the source, a pointer an index into a store
    that operations take and return, a method a definition of the same name (with the
    name of its part when two have the same). A function that may panic returns an
    option or a value of [M]; one that returns an error a [result], or the pair where
    both values matter. Strings are lists of bytes, integers [Z] with their wrap-around
    where the code may reach it. Concurrency is a step relation or a function on labels:
    a step is what the code does without giving way, an atomic operation in Task and
    SyncMap, an event of the loop in the executor (the completed event, whose case races with
    clients' [Cancel], by its atomic operations), a request with its reply in the
    locks. Iteration over a Go map follows a list that stands for the order Go chose.

    Libraries and services are parameters with their documented behaviour as laws, each
    with an instance for the witnesses: the commands of Redis ([RedisLaws]), those of SQL
    transactions, each of which may fail ([SqlLaws]), the clients of AWS, the container (the record [fx_run] of DI), the decoders of configuration, the
    formatting of floats and times, clocks. The statements of the Postgres lock are
    written out from the SQL in the source.

    ** The theorems

    - Executor: [executor_refines_spec] (every run is a run of the abstract executor, each step
      by the actions that its label is permitted) with
      [executor_promises] (what follows for clients); [executor_accounting],
      [concurrency_bound], [status_monotone] (invariants of every interleaving),
      [no_crash], [submitted_dispatch], [orderly_shutdown].
    - Queue: [Push_refines], [Pop_refines], [Remove_refines] against a sorted list,
      [reachable_wf].
    - Task: [future_contract], [no_double_close].
    - Errors: [code_search], [WriteStacktrace_chunks].
    - Functions: [slices_in_order], [find_stops], [maps_any_order]; SyncMap:
      [LoadOrStoreFunc_once], [LoadOrStoreFunc_ends].
    - DynamoDB: [Marshal_document] (what is written can be read back),
      [placeholders], [by_key_not_scan], [execute_errors].
    - Locks: [mutual_exclusion] of the Redis and of the Postgres lock, [redis_operations], [postgres_operations], [local_lock_exclusive]; transactions:
      [transactions_all_or_nothing].
    - Worker: [single_worker], [handler_runs]. Config: [settings_loaded],
      [nested_placeholders_stay], [search_nearest], [texts_of_settings], [variables_distinct], [Config_well_keyed], [settings_of_process].
      Contexts: [detached_context], [sleep_result], [worker_context]. Providers:
      [jwt_round_trip], [cache_get_set]. Connections: [dsn_read_back], [redis_url_logged],
      [no_connections_in_tests].
    - Rest: [error_response], [guarded_request], [middleware_order], [request_transactions],
      [route_metadata], [binding_answers], [request_context]; composed: [request_served],
      [request_logged], [routes_registered], [start_order]; the server: [server_life];
      mappers: [registered_as_mapper]. Container: [registered_in_time], [worker_lifecycle], [server_first],
      [missing_parts]. Examples: [example_routes], [simple_worker], [examples_start].
    - Log: [level_of_path], [context_attributes], [package_loggers], [log_calls], [fx_event_logged], [gorm_trace],
      [gorm_log_mode].
    - Slack: [message_text], [message_sent], [slack_body_json], [slack_events]. Version:
      [semver_text]. Tag: [fieldNames_first], [FieldNames_cached].
    Some theorems state what the code does where that is surely not what it means to do:
    [await_lost_wakeup], [cancel_now_blocks], [cancel_race_crashes], [marshal_nil_panics],
    [errors_without_answer], [nested_placeholders_stay], [refused_savepoint_exits], [lock_in_callers_transaction], and, with concrete runs, [late_reading_two_owners], [failed_commit_two_owners],
    [stale_goroutine_unlocks], [twin_is_never_run], [returned_task_is_run].

    ** Bounds and fuel

    [marshal] takes fuel and [marshal_terminates] shows that the nesting of the value is
    enough. The executor's [start_queued] and [drain] take the length of their queue, which
    every turn shortens. [complete] takes six turns, the most that the case of the completed event
    has operations. [replace_all] and [split_fuel] take the length of their string.
    The search for a file takes the levels it may climb, and [search_nearest] says when no
    number is enough. Loops that wait ([Lock_loop], [singleWorkerRunner]) take a list of
    what each turn meets, and a run that uses it up is told from one that ended.

    ** Assumptions

    Clocks: processes and servers share one clock (the bounds of [mutual_exclusion] are up
    to [margin]); leases are attended, that is, replies that a lock needs to learn of
    arrive and are read in time. A command of SQL that fails in a transaction has no effect, and
    one on a savepoint that exists fails only with the transaction aborted or the connection lost. Names of savepoints, identifiers of lock objects and
    file descriptors are distinct. Two errors that [Newf] made with the same stack and
    texts are not told apart.

    ** Not modelled

    Values of [aws/partiql] on which encoding does not end: a pointer that leads back to itself,
    and a [MarshalPartiQL] that returns its receiver; values are finite trees, and
    [marshal_terminates] is about these.
    Logging inside the modelled operations, except in the files Log, Loggers, RequestLogger and HTTPServer;
    the mocks and test helpers, and generated code (except the texts of log levels). The
    manifest lists every part with its reason. *)

From stdpp Require Export base list gmap strings.
From Stdlib Require Export ZArith Lia Sorted.

#[global] Open Scope Z_scope.

(** ** State and panic

    A Go function that reads and writes shared memory is a value of [M S A]: it
    takes the store and returns a result with the new store, or [None] when the
    Go code panics. *)
Definition M (S A : Type) : Type := S -> option (A * S).

#[global] Instance M_ret {S} : MRet (M S) := fun A a s => Some (a, s).
#[global] Instance M_bind {S} : MBind (M S) := fun A B f m s =>
  match m s with
  | Some (a, s') => f a s'
  | None => None
  end.

Definition get_state {S} : M S S := fun s => Some (s, s).
Definition gets {S A} (f : S -> A) : M S A := fun s => Some (f s, s).
Definition modify {S} (f : S -> S) : M S unit := fun s => Some (tt, f s).
Definition panic {S A} : M S A := fun _ => None.
Definition lift_option {S A} (o : option A) : M S A := fun s =>
  match o with
  | Some a => Some (a, s)
  | None => None
  end.

(** ** Fallible results: Go's [(value, error)] pairs *)
Inductive result (E A : Type) : Type :=
| Ok (a : A)
| Err (e : E).
Arguments Ok {E A} a.
Arguments Err {E A} e.

#[global] Instance result_ret {E} : MRet (result E) := fun A a => Ok a.
#[global] Instance result_bind {E} : MBind (result E) := fun A B f r =>
  match r with
  | Ok a => f a
  | Err e => Err e
  end.

Definition is_ok {E A} (r : result E A) : bool :=
  match r with Ok _ => true | Err _ => false end.

(** ** Machine integers *)
Definition two63 : Z := 9223372036854775808.
Definition two64 : Z := 18446744073709551616.
Definition uint64_wrap (z : Z) : Z := z mod two64.
Definition int64_wrap (z : Z) : Z := (z + two63) mod two64 - two63.
Definition int64_range (z : Z) : Prop := - two63 <= z < two63.

(** ** Lists updated by index *)
Definition swap_list {A} (i j : nat) (l : list A) : list A :=
  match l !! i, l !! j with
  | Some a, Some b => <[i:=b]> (<[j:=a]> l)
  | _, _ => l
  end.

(** Total correctness: from [s], [m] does not panic and ends as [Q] says. *)
Definition wp {S A} (m : M S A) (Q : A -> S -> Prop) (s : S) : Prop :=
  match m s with
  | Some (a, s') => Q a s'
  | None => False
  end.

Create HintDb gofw.

Lemma int64_wrap_id (z : Z) : int64_range z -> int64_wrap z = z.
Proof. unfold int64_range, int64_wrap, two63, two64. intros. rewrite Z.mod_small; lia. Qed.

Lemma uint64_wrap_id (z : Z) : 0 <= z < two64 -> uint64_wrap z = z.
Proof. apply Z.mod_small. Qed.

Lemma int64_wrap_range (z : Z) : int64_range (int64_wrap z).
Proof.
  unfold int64_range, int64_wrap, two63, two64.
  pose proof (Z.mod_pos_bound (z + 9223372036854775808) 18446744073709551616). lia.
Qed.

Section swap.
Context {A : Type}.
Implicit Types (l : list A) (i j k : nat).

Lemma length_swap_list l i j : length (swap_list i j l) = length l.
Proof. unfold swap_list. repeat case_match; rewrite ?length_insert; done. Qed.

Lemma lookup_swap_list l i j k :
  (i < length l)%nat -> (j < length l)%nat ->
  swap_list i j l !! k =
  if decide (k = i) then l !! j else if decide (k = j) then l !! i else l !! k.
Proof.
  intros Hi Hj. unfold swap_list.
  destruct (lookup_lt_is_Some_2 l i Hi) as [a Ha].
  destruct (lookup_lt_is_Some_2 l j Hj) as [b Hb].
  rewrite Ha, Hb.
  repeat case_decide; subst.
  - rewrite list_lookup_insert_eq by (rewrite length_insert; lia). done.
  - rewrite list_lookup_insert_ne by done. by rewrite list_lookup_insert_eq.
  - by rewrite !list_lookup_insert_ne by done.
Qed.

Lemma swap_list_id l i : swap_list i i l = l.
Proof.
  unfold swap_list. destruct (l !! i) as [a|] eqn:E; [|done].
  rewrite list_insert_insert_eq. by apply list_insert_id.
Qed.

Lemma swap_list_Permutation l i j : swap_list i j l ≡ₚ l.
Proof.
  unfold swap_list.
  destruct (l !! i) as [a|] eqn:Ha; [|done].
  destruct (l !! j) as [b|] eqn:Hb; [|done].
  by apply Permutation_insert_swap.
Qed.
End swap.

Lemma insert_middle {A} (pre : list A) x r suf : <[length pre := r]> (pre ++ x :: suf) = (pre ++ [r]) ++ suf.
Proof. rewrite insert_app_r_alt by lia. by rewrite Nat.sub_diag, <- app_assoc. Qed.

(** Invariants of a step relation hold in every reachable state. *)
Lemma rtc_invariant {A} (R : A -> A -> Prop) (P : A -> Prop) (x y : A) :
  (forall a b, P a -> R a b -> P b) -> P x -> rtc R x y -> P y.
Proof. intros Hstep Hx Hr. induction Hr; eauto. Qed.

(** Presence checked by computation. *)
Lemma is_Some_check {A} (o : option A) :
  (match o with Some _ => true | None => false end) = true -> is_Some o.
Proof. destruct o; [eauto|done]. Qed.

(** ** Total correctness of [M] *)
Section wp.
Context {S : Type}.
Implicit Types s : S.

Lemma wp_bind {A B} (m : M S A) (f : A -> M S B) (Q : B -> S -> Prop) s :
  wp m (fun a s' => wp (f a) Q s') s -> wp (m ≫= f) Q s.
Proof. unfold wp, mbind, M_bind. by destruct (m s) as [[]|]. Qed.

Lemma wp_mono {A} (m : M S A) (Q Q' : A -> S -> Prop) s :
  wp m Q s -> (forall a s', Q a s' -> Q' a s') -> wp m Q' s.
Proof. unfold wp. destruct (m s) as [[]|]; eauto. Qed.

Lemma wp_run {A} (m : M S A) (Q : A -> S -> Prop) s :
  wp m Q s -> exists a s', m s = Some (a, s') /\ Q a s'.
Proof. unfold wp. destruct (m s) as [[a s']|]; [eauto|done]. Qed.

Lemma wp_intro {A} (m : M S A) (Q : A -> S -> Prop) s a s' :
  m s = Some (a, s') -> Q a s' -> wp m Q s.
Proof. unfold wp. by intros ->. Qed.
End wp.

(** ** Inverting successful runs of [M] *)
Section M_inv.
Context {S : Type}.
Implicit Types s : S.

Lemma M_bind_inv {A B} (m : M S A) (f : A -> M S B) s b s' :
  (m ≫= f) s = Some (b, s') -> exists a s1, m s = Some (a, s1) /\ f a s1 = Some (b, s').
Proof. unfold mbind, M_bind. destruct (m s) as [[a s1]|]; [eauto|done]. Qed.

Lemma M_bind_run {A B} (m : M S A) (f : A -> M S B) s a s1 :
  m s = Some (a, s1) -> (m ≫= f) s = f a s1.
Proof. unfold mbind, M_bind. by intros ->. Qed.

Lemma M_ret_inv {A} (a b : A) s s' : (mret a : M S A) s = Some (b, s') -> b = a /\ s' = s.
Proof. unfold mret, M_ret. by intros [= -> ->]. Qed.

Lemma M_get_inv b s s' : get_state s = Some (b, s') -> b = s /\ s' = s.
Proof. unfold get_state. by intros [= -> ->]. Qed.

Lemma M_gets_inv {A} (f : S -> A) b s s' : gets f s = Some (b, s') -> b = f s /\ s' = s.
Proof. unfold gets. by intros [= -> ->]. Qed.

Lemma M_modify_inv (f : S -> S) u s s' : modify f s = Some (u, s') -> s' = f s.
Proof. unfold modify. by intros [= _ <-]. Qed.

Lemma M_lift_inv {A} (o : option A) b s s' : lift_option o s = Some (b, s') -> o = Some b /\ s' = s.
Proof. unfold lift_option. destruct o; by intros [= -> ->]. Qed.
End M_inv.

(** [minv] turns the hypothesis that a computation succeeded into the
    intermediate states; conditions are split, with their equations. *)
Ltac minv_step :=
  match goal with
  | Hm : (_ ≫= _) _ = Some (_, _) |- _ =>
      apply M_bind_inv in Hm; let a := fresh "a" in let s := fresh "s" in let Hx := fresh "Hx" in
      destruct Hm as (a & s & Hx & Hm)
  | Hm : mret _ _ = Some (_, _) |- _ => apply M_ret_inv in Hm as [? ?]; subst
  | Hm : get_state _ = Some (_, _) |- _ => apply M_get_inv in Hm as [? ?]; subst
  | Hm : gets _ _ = Some (_, _) |- _ => apply M_gets_inv in Hm as [? ?]; subst
  | Hm : modify _ _ = Some (_, _) |- _ => apply M_modify_inv in Hm; subst
  | Hm : lift_option _ _ = Some (_, _) |- _ =>
      let E := fresh "Eq" in apply M_lift_inv in Hm as [E ?]; subst
  | Hm : panic _ = Some _ |- _ => discriminate Hm
  | Hm : (if ?b then _ else _) _ = Some (_, _) |- _ => destruct b eqn:?
  end.
Ltac minv := repeat minv_step.
