(* ===== verification/Heap.v ===== *)
(** * container/heap

    The algorithms of Go's [container/heap] over its [heap.Interface], which is
    the class [HeapInterface]: the queue package of the repository provides the
    instance.  The theorems of the section [laws] are proved against the laws
    of the interface ([HeapLaws]) only: they say that the array that the
    interface presents stays heap ordered and is only permuted. *)

From S2P Require Import Prelude.

(** [heap.Interface]: [Len], [Less] and [Swap]; [None] is an index out of
    range, which panics. *)
Class HeapInterface (S : Type) := {
  hLen : S -> nat;
  hLess : S -> nat -> nat -> option bool;
  hSwap : S -> nat -> nat -> option S;
}.

(** Go's [(j - 1) / 2], which truncates toward zero. *)
Definition parent (i : nat) : nat := ((i - 1) / 2)%nat.
Arguments parent : simpl never.

Section algorithms.
Context {S : Type} `{HeapInterface S}.

(** [up(h, j)]; [fuel] bounds the loop. *)
Fixpoint up (fuel : nat) (h : S) (j : nat) : option S :=
  match fuel with
  | O => None
  | Datatypes.S fuel' =>
      let i := parent j in
      if decide (i = j) then Some h
      else less ← hLess h j i;
           if (less : bool) then h' ← hSwap h i j; up fuel' h' i else Some h
  end.

(** [down(h, i0, n)] returns the heap and the final [i]; Go returns [i > i0]. *)
Fixpoint down (fuel : nat) (h : S) (i n : nat) : option (S * nat) :=
  match fuel with
  | O => None
  | Datatypes.S fuel' =>
      let j1 := (2 * i + 1)%nat in
      if decide (n <= j1)%nat then Some (h, i)
      else
        j ← (if decide (j1 + 1 < n)%nat
             then less ← hLess h (j1 + 1) j1;
                  Some (if (less : bool) then (j1 + 1)%nat else j1)
             else Some j1);
        less ← hLess h j i;
        if (less : bool) then h' ← hSwap h i j; down fuel' h' j n
        else Some (h, i)
  end.

(** Enough fuel for either loop: [up] at least halves [j], [down] increases
    [i] below [n]. *)
Definition heap_fuel (h : S) : nat := Datatypes.S (hLen h).

(** The part of [heap.Push] after [h.Push(x)]. *)
Definition push_fix (h : S) : option S := up (heap_fuel h) h (hLen h - 1).

(** The part of [heap.Pop] before [h.Pop()]. *)
Definition pop_fix (h : S) : option S :=
  if decide (hLen h = 0)%nat then None
  else
    let n := (hLen h - 1)%nat in
    h' ← hSwap h 0 n;
    r ← down (heap_fuel h') h' 0 n;
    Some r.1.

(** The part of [heap.Remove] before [h.Pop()]. *)
Definition remove_fix (h : S) (i : nat) : option S :=
  if decide (hLen h = 0)%nat then None
  else
    let n := (hLen h - 1)%nat in
    if decide (n = i) then Some h
    else
      h' ← hSwap h i n;
      r ← down (heap_fuel h') h' i n;
      if decide (i < r.2)%nat then Some r.1 else up (heap_fuel h') r.1 i.
End algorithms.

(** The laws of the interface: [view] is the array of the keys, [keyLess] the
    order of the keys, [valid] the invariant under which the operations are
    defined. *)
Class HeapLaws (S K : Type) `{HeapInterface S} (valid : S -> Prop)
    (view : S -> list K) (keyLess : K -> K -> bool) := {
  keyLess_irrefl : forall a, keyLess a a = false;
  keyLess_negtrans : forall a b c,
    keyLess b a = false -> keyLess c b = false -> keyLess c a = false;
  keyLess_asym : forall a b, keyLess a b = true -> keyLess b a = false;
  hLen_view : forall s, valid s -> hLen s = length (view s);
  hLess_view : forall s i j a b, valid s ->
    view s !! i = Some a -> view s !! j = Some b ->
    hLess s i j = Some (keyLess a b);
  hSwap_view : forall s i j, valid s ->
    (i < length (view s))%nat -> (j < length (view s))%nat ->
    exists s', hSwap s i j = Some s' /\ valid s' /\ view s' = swap_list i j (view s);
}.

(** [le_at l i j]: the key at [i] is not greater than the key at [j]. *)
Definition le_at {K} (keyLess : K -> K -> bool) (l : list K) (i j : nat) : Prop :=
  forall a b, l !! i = Some a -> l !! j = Some b -> keyLess b a = false.

(** The first [n] keys of [l] are heap ordered. *)
Definition heap_ordered {K} (keyLess : K -> K -> bool) (n : nat) (l : list K) : Prop :=
  forall i, (0 < i < n)%nat -> le_at keyLess l (parent i) i.

(** Heap ordered but for the key at [j], which may be too small. *)
Definition up_inv {K} (keyLess : K -> K -> bool) (n : nat) (l : list K) (j : nat) : Prop :=
  (forall i, (0 < i < n)%nat -> i <> j -> le_at keyLess l (parent i) i) /\
  (forall i, (0 < j)%nat -> (0 < i < n)%nat -> parent i = j ->
    le_at keyLess l (parent j) i).

(** Heap ordered but for the key at [j], which may be too large. *)
Definition down_inv {K} (keyLess : K -> K -> bool) (n : nat) (l : list K) (j : nat) : Prop :=
  (forall i, (0 < i < n)%nat -> parent i <> j -> le_at keyLess l (parent i) i) /\
  (forall i, (0 < j)%nat -> (0 < i < n)%nat -> parent i = j ->
    le_at keyLess l (parent j) i).

(** Heap ordered but for the key at [j], too small or too large. *)
Definition hole_inv {K} (keyLess : K -> K -> bool) (n : nat) (l : list K) (j : nat) : Prop :=
  (forall i, (0 < i < n)%nat -> i <> j -> parent i <> j ->
    le_at keyLess l (parent i) i) /\
  (forall i, (0 < j)%nat -> (0 < i < n)%nat -> parent i = j ->
    le_at keyLess l (parent j) i).

Lemma parent_lt (i : nat) : (0 < i)%nat -> (parent i < i)%nat.
Proof. unfold parent. intros. apply Nat.Div0.div_lt_upper_bound; lia. Qed.

Lemma parent_le (i : nat) : (parent i <= i)%nat.
Proof. unfold parent. apply Nat.Div0.div_le_upper_bound; lia. Qed.

Lemma parent_child (i j : nat) :
  (0 < j)%nat -> parent j = i <-> j = (2 * i + 1)%nat \/ j = (2 * i + 2)%nat.
Proof.
  unfold parent. intros Hj. pose proof (Nat.div_mod_eq (j - 1) 2).
  pose proof (Nat.mod_upper_bound (j - 1) 2). lia.
Qed.

Section laws.
Context {S K : Type} `{HeapInterface S} {valid : S -> Prop} {view : S -> list K}
  {keyLess : K -> K -> bool} `{!HeapLaws S K valid view keyLess}.
Implicit Types (s : S) (l : list K).

Abbreviation leq_at := (le_at keyLess).

Lemma le_at_intro l i j a b :
  l !! i = Some a -> l !! j = Some b -> keyLess b a = false -> leq_at l i j.
Proof. intros Ha Hb Hab a' b' Ha' Hb'. congruence. Qed.

Lemma le_at_less l i j a b :
  l !! i = Some a -> l !! j = Some b -> keyLess a b = true -> leq_at l i j.
Proof. intros. eapply le_at_intro; [done..|]. by apply (keyLess_asym (S:=S)). Qed.

Lemma le_at_refl l i : leq_at l i i.
Proof. intros a b ??. simplify_eq. apply (keyLess_irrefl (S:=S)). Qed.

Lemma le_at_trans l i j k : (j < length l)%nat ->
  leq_at l i j -> leq_at l j k -> leq_at l i k.
Proof.
  intros Hj Hij Hjk a b Ha Hb.
  destruct (lookup_lt_is_Some_2 l j Hj) as [c Hc].
  eapply (keyLess_negtrans (S:=S)); [by apply Hij|by apply Hjk].
Qed.

(** What a swap does to [le_at]. *)
Lemma le_at_swap l i j a b : (i < length l)%nat -> (j < length l)%nat ->
  leq_at (swap_list i j l) a b <->
  leq_at l (if decide (a = i) then j else if decide (a = j) then i else a)
          (if decide (b = i) then j else if decide (b = j) then i else b).
Proof.
  intros Hi Hj. unfold le_at. rewrite !lookup_swap_list by done.
  repeat case_decide; done.
Qed.

Lemma root_minimal n l (i : nat) : (n <= length l)%nat ->
  heap_ordered keyLess n l -> (i < n)%nat -> leq_at l 0 i.
Proof.
  intros Hn Hh. induction (lt_wf i) as [i _ IH]. intros Hi.
  destruct (decide (i = 0)%nat) as [->|Hne]; [apply le_at_refl|].
  pose proof (parent_lt i).
  apply (le_at_trans _ _ (parent i)); [lia|apply IH; lia|apply Hh; lia].
Qed.

Lemma up_step n l j : (n <= length l)%nat -> (0 < j < n)%nat ->
  up_inv keyLess n l j -> leq_at l j (parent j) ->
  up_inv keyLess n (swap_list (parent j) j l) (parent j).
Proof.
  intros Hn Hj [H1 H2] Hle. pose proof (parent_lt j).
  split.
  - intros i Hi Hne. rewrite le_at_swap by lia.
    pose proof (parent_lt i).
    repeat case_decide; try lia; subst; try done.
    + (* sibling *) apply (le_at_trans _ _ (parent j)); [lia|done|].
      assert (parent i = parent j) as <- by congruence. apply H1; lia.
    + apply H2; [lia|lia|done].
    + apply H1; lia.
  - intros i Hp Hi Hpar. rewrite le_at_swap by lia.
    pose proof (parent_lt i). pose proof (parent_lt (parent j)).
    repeat case_decide; try lia; subst.
    + apply H1; lia.
    + apply (le_at_trans _ _ (parent j)); [lia|apply H1; lia|].
      rewrite <- Hpar. apply H1; lia.
Qed.

Lemma up_spec (n : nat) fuel : forall s j, valid s ->
  (n <= length (view s))%nat -> (j < n)%nat -> (j < fuel)%nat ->
  up_inv keyLess n (view s) j ->
  exists s', up fuel s j = Some s' /\ valid s' /\
    view s' ≡ₚ view s /\ heap_ordered keyLess n (view s') /\
    (forall i, (n <= i)%nat -> view s' !! i = view s !! i).
Proof.
  induction fuel as [|fuel IH]; intros s j Hok Hn Hj Hf Hinv; [lia|].
  simpl.
  pose proof (parent_le j).
  destruct (lookup_lt_is_Some_2 (view s) j) as [b Hb]; [lia|].
  destruct (lookup_lt_is_Some_2 (view s) (parent j)) as [a Ha]; [lia|].
  case_decide as Hd.
  - exists s. split_and!; try done.
    intros i Hi. apply Hinv; [lia|]. intros ->.
    destruct (decide (j = 0)%nat) as [->|]; [lia|]. pose proof (parent_lt j). lia.
  - assert (0 < j)%nat as Hpos by (destruct j; [by cbv in Hd|lia]).
    pose proof (parent_lt j Hpos) as Hlt.
    erewrite hLess_view by done. simpl.
    destruct (keyLess b a) eqn:Hless.
    + destruct (hSwap_view s (parent j) j) as (s' & -> & Hok' & Hv); [done|lia|lia|].
      simpl. destruct (IH s' (parent j)) as (s2 & -> & ? & Hp & ? & Hrest);
        [done|by rewrite Hv, length_swap_list|lia|lia| |].
      { rewrite Hv. apply up_step; [done|lia|done|].
        by eapply le_at_less. }
      exists s2. split_and!; try done.
      * rewrite Hp, Hv. apply swap_list_Permutation.
      * intros i Hi. rewrite Hrest, Hv, lookup_swap_list by lia.
        repeat case_decide; by try lia.
    + exists s. split_and!; try done.
      intros i Hi. destruct (decide (i = j)) as [->|]; [|by apply Hinv].
      by eapply le_at_intro.
Qed.
(** The child that [down] compares with its parent is the smallest child. *)
Lemma pick_child s i n : valid s -> (n <= length (view s))%nat -> (2 * i + 1 < n)%nat ->
  exists j,
    (if decide (2 * i + 1 + 1 < n)%nat
     then less ← hLess s (2 * i + 1 + 1) (2 * i + 1);
          Some (if (less : bool) then (2 * i + 1 + 1)%nat else (2 * i + 1)%nat)
     else Some (2 * i + 1)%nat) = Some j /\
    parent j = i /\ (i < j < n)%nat /\
    (forall c, (0 < c < n)%nat -> parent c = i -> leq_at (view s) j c).
Proof.
  intros Hok Hn Hi.
  assert (forall c, (0 < c)%nat -> parent c = i -> c = (2 * i + 1)%nat \/ c = (2 * i + 2)%nat)
    as Hchild by (intros c ??; by apply parent_child).
  assert (parent (2 * i + 1) = i) as Hp1 by (apply parent_child; lia).
  assert (parent (2 * i + 1 + 1) = i) as Hp2 by (apply parent_child; lia).
  case_decide as Hd.
  - destruct (lookup_lt_is_Some_2 (view s) (2 * i + 1)) as [a Ha]; [lia|].
    destruct (lookup_lt_is_Some_2 (view s) (2 * i + 1 + 1)) as [b Hb]; [lia|].
    erewrite hLess_view by done. simpl.
    destruct (keyLess b a) eqn:E; eexists; split_and!; try done; try lia.
    + intros c Hc Hpc; pose proof (Hchild c (proj1 Hc) Hpc) as [Hc'|Hc']; rewrite Hc'.
      * by eapply le_at_less.
      * replace (2 * i + 2)%nat with (2 * i + 1 + 1)%nat by lia. apply le_at_refl.
    + intros c Hc Hpc; pose proof (Hchild c (proj1 Hc) Hpc) as [Hc'|Hc']; rewrite Hc'; [apply le_at_refl|].
      replace (2 * i + 2)%nat with (2 * i + 1 + 1)%nat by lia. by eapply le_at_intro.
  - eexists. split_and!; try done; try lia.
    intros c Hc Hpc; pose proof (Hchild c (proj1 Hc) Hpc) as [Hc'|Hc']; rewrite Hc'; [apply le_at_refl|lia].
Qed.

Lemma down_step n l i j : (n <= length l)%nat -> (i < j < n)%nat -> parent j = i ->
  hole_inv keyLess n l i -> leq_at l j i ->
  (forall c, (0 < c < n)%nat -> parent c = i -> leq_at l j c) ->
  down_inv keyLess n (swap_list i j l) j.
Proof.
  intros Hn Hj Hpj [HA HB] Hle Hmin. split.
  - intros k Hk Hpk. rewrite le_at_swap by lia. pose proof (parent_lt k).
    repeat case_decide; try lia; subst; try done.
    + by apply Hmin.
    + apply HB; [lia|lia|done].
    + by apply HA.
  - intros k _ Hk Hpk. rewrite le_at_swap by lia. pose proof (parent_lt k).
    rewrite Hpj. repeat case_decide; try lia; try congruence.
    rewrite <- Hpk. apply HA; lia.
Qed.

Lemma down_stay n l i j : (n <= length l)%nat -> (i < j < n)%nat ->
  hole_inv keyLess n l i -> leq_at l i j ->
  (forall c, (0 < c < n)%nat -> parent c = i -> leq_at l j c) ->
  up_inv keyLess n l i.
Proof.
  intros Hn Hj [HA HB] Hle Hmin. split; [|done].
  intros k Hk Hne. destruct (decide (parent k = i)) as [<-|]; [|by apply HA].
  apply (le_at_trans _ _ j); [lia|done|by apply Hmin].
Qed.

Lemma down_inv_hole n l i : down_inv keyLess n l i -> hole_inv keyLess n l i.
Proof. intros [HA HB]. split; [|done]. intros. by apply HA. Qed.

Lemma down_up_inv_heap n l i :
  down_inv keyLess n l i -> up_inv keyLess n l i -> heap_ordered keyLess n l.
Proof.
  intros [HA _] [HB _] k Hk. destruct (decide (k = i)) as [->|]; [|by apply HB].
  apply HA; [done|]. pose proof (parent_lt i). lia.
Qed.

Lemma hole_leaf n l i : (n <= 2 * i + 1)%nat -> hole_inv keyLess n l i ->
  up_inv keyLess n l i.
Proof.
  intros Hn [HA HB]. split; [|done]. intros k Hk Hne. apply HA; [done|done|].
  intros Hp. apply parent_child in Hp; lia.
Qed.

(** [down] from a hole: either it moves, and the heap is ordered, or it does
    nothing, and only the edge of [i] to its parent may be out of order. *)
Lemma down_spec (n : nat) fuel : forall s i, valid s ->
  (n <= length (view s))%nat -> (n - i < fuel)%nat ->
  hole_inv keyLess n (view s) i ->
  exists s' k, down fuel s i n = Some (s', k) /\ (i <= k)%nat /\ valid s' /\
    view s' ≡ₚ view s /\ (forall x, (n <= x)%nat -> view s' !! x = view s !! x) /\
    (k = i -> s' = s /\ up_inv keyLess n (view s) i) /\
    ((i < k)%nat -> heap_ordered keyLess n (view s')).
Proof.
  induction fuel as [|fuel IH]; intros s i Hok Hn Hf Hinv; [lia|].
  cbn [down]. case_decide as Hd.
  { exists s, i. split_and!; try done; [|lia]. eauto using hole_leaf. }
  destruct (pick_child s i n) as (j & -> & Hpj & Hj & Hmin); [done|done|lia|].
  destruct (lookup_lt_is_Some_2 (view s) j) as [b Hb]; [lia|].
  destruct (lookup_lt_is_Some_2 (view s) i) as [a Ha]; [lia|].
  cbn. erewrite hLess_view by done. cbn.
  destruct (keyLess b a) eqn:Hless.
  - assert (leq_at (view s) j i) as Hle.
    { by eapply le_at_less. }
    destruct (hSwap_view s i j) as (s' & -> & Hok' & Hv); [done|lia|lia|]. cbn.
    assert (down_inv keyLess n (view s') j) as Hdown by (rewrite Hv; by apply down_step).
    destruct (IH s' j) as (s2 & k & -> & Hk & ? & Hp & Hrest & Heq & Hlt);
      [done|by rewrite Hv, length_swap_list|lia|by apply down_inv_hole|].
    exists s2, k. split_and!; try done; try lia.
    + rewrite Hp, Hv. apply swap_list_Permutation.
    + intros x Hx. rewrite Hrest, Hv, lookup_swap_list by lia. repeat case_decide; by try lia.
    + intros _. destruct (decide (j < k)%nat); [by apply Hlt|].
      destruct Heq as [-> ?]; [lia|]. by eapply down_up_inv_heap.
  - exists s, i. split_and!; try done; [|lia]. intros _. split; [done|].
    apply (down_stay n _ i j); try done. by eapply le_at_intro.
Qed.

(** [heap.Push] restores the order after an element was appended. *)
Lemma push_fix_spec s (l : list K) (x : K) : valid s -> view s = l ++ [x] ->
  heap_ordered keyLess (length l) l ->
  exists s', push_fix s = Some s' /\ valid s' /\ view s' ≡ₚ view s /\
    heap_ordered keyLess (length (view s')) (view s').
Proof.
  intros Hok Hv Hh. unfold push_fix, heap_fuel. rewrite hLen_view by done.
  assert (length (view s) = Datatypes.S (length l)) as Hlen
    by (rewrite Hv, length_app; simpl; lia).
  destruct (up_spec (length (view s)) (Datatypes.S (length (view s))) s
    (length (view s) - 1)) as (s' & -> & ? & Hp & ? & _); try done; try lia.
  { split.
    - intros i Hi Hne a b Ha Hb. pose proof (parent_lt i). rewrite Hv in Ha, Hb.
      rewrite lookup_app_l in Ha, Hb by lia. by eapply (Hh i); [lia|..].
    - intros i Hj Hi Hpar. pose proof (parent_lt i). lia. }
  exists s'. split_and!; try done.
  by rewrite (Permutation_length Hp).
Qed.

Lemma heap_ordered_prefix n m l : (m <= n)%nat ->
  heap_ordered keyLess n l -> heap_ordered keyLess m l.
Proof. intros ? Hh i Hi. apply Hh. lia. Qed.

(** Swapping the key at [i] with the last one leaves a hole at [i]. *)
Lemma swap_last_hole l i : (i < length l - 1)%nat ->
  heap_ordered keyLess (length l) l ->
  hole_inv keyLess (length l - 1) (swap_list i (length l - 1) l) i.
Proof.
  intros Hi Hh. set (n := (length l - 1)%nat) in *.
  assert (forall a b, a <> i -> b <> i -> (a < n)%nat -> (b < n)%nat ->
    leq_at l a b -> leq_at (swap_list i n l) a b) as Hsame.
  { intros. rewrite le_at_swap by lia. repeat case_decide; by try lia. }
  split.
  - intros k Hk Hne Hpk. pose proof (parent_lt k). apply Hsame; try lia. apply Hh. lia.
  - intros k Hpos Hk Hpk. pose proof (parent_lt k). pose proof (parent_lt i).
    apply Hsame; try lia.
    apply (le_at_trans _ _ i); [lia|apply Hh; lia|]. rewrite <- Hpk. apply Hh. lia.
Qed.

(** [heap.Remove]: the key at [i] ends up last and the rest is ordered. *)
Lemma remove_fix_spec s i x : valid s -> view s !! i = Some x ->
  heap_ordered keyLess (length (view s)) (view s) ->
  exists s', remove_fix s i = Some s' /\ valid s' /\ view s' ≡ₚ view s /\
    view s' !! (length (view s) - 1)%nat = Some x /\
    heap_ordered keyLess (length (view s) - 1) (view s').
Proof.
  intros Hok Hi Hh. pose proof (lookup_lt_Some _ _ _ Hi) as Hlt.
  unfold remove_fix, heap_fuel. rewrite hLen_view by done.
  rewrite decide_False by lia. case_decide as Hd.
  { exists s. subst. split_and!; try done. eapply heap_ordered_prefix; [|done]. lia. }
  destruct (hSwap_view s i (length (view s) - 1)) as (s1 & -> & Hok1 & Hv1);
    [done|lia|lia|]. cbn [mbind option_bind fst snd].
  rewrite hLen_view by done.
  assert (length (view s1) = length (view s)) as Hlen by (by rewrite Hv1, length_swap_list).
  assert (view s1 !! (length (view s) - 1)%nat = Some x) as Hlast.
  { rewrite Hv1, lookup_swap_list by lia. by rewrite decide_False, decide_True by lia. }
  assert (hole_inv keyLess (length (view s) - 1) (view s1) i) as Hhole.
  { rewrite Hv1. apply swap_last_hole; [lia|done]. }
  destruct (down_spec (length (view s) - 1) (Datatypes.S (length (view s1))) s1 i)
    as (s2 & k & -> & Hk & Hok2 & Hp2 & Hrest & Heq & Hmoved); [done|lia|lia|done|]. cbn [mbind option_bind fst snd].
  assert (view s2 ≡ₚ view s) as Hperm by (rewrite Hp2, Hv1; apply swap_list_Permutation).
  case_decide.
  - exists s2. split_and!; try done; [|by apply Hmoved]. rewrite Hrest; [done|lia].
  - destruct Heq as [-> Hup]; [lia|].
    destruct (up_spec (length (view s) - 1) (Datatypes.S (length (view s1))) s1 i)
      as (s3 & -> & ? & Hp3 & ? & Hrest3); try done; try lia.
    exists s3. split_and!; try done; [by rewrite Hp3|rewrite Hrest3; [done|lia]].
Qed.

(** [heap.Pop]: the smallest key ends up last and the rest is ordered. *)
Lemma pop_fix_spec s x : valid s -> view s !! 0%nat = Some x ->
  heap_ordered keyLess (length (view s)) (view s) ->
  exists s', pop_fix s = Some s' /\ valid s' /\ view s' ≡ₚ view s /\
    view s' !! (length (view s) - 1)%nat = Some x /\
    heap_ordered keyLess (length (view s) - 1) (view s').
Proof.
  intros Hok H0 Hh. pose proof (lookup_lt_Some _ _ _ H0) as Hlt.
  unfold pop_fix, heap_fuel. rewrite hLen_view by done. rewrite decide_False by lia.
  destruct (hSwap_view s 0 (length (view s) - 1)) as (s1 & -> & Hok1 & Hv1);
    [done|lia|lia|]. cbn [mbind option_bind fst snd].
  rewrite hLen_view by done.
  assert (length (view s1) = length (view s)) as Hlen by (by rewrite Hv1, length_swap_list).
  assert (hole_inv keyLess (length (view s) - 1) (view s1) 0) as Hhole.
  { destruct (decide (length (view s) = 1)%nat) as [->|]; [split; lia|].
    rewrite Hv1. apply swap_last_hole; [lia|done]. }
  destruct (down_spec (length (view s) - 1) (Datatypes.S (length (view s1))) s1 0)
    as (s2 & k & -> & Hk & Hok2 & Hp2 & Hrest & Heq & Hmoved); [done|lia|lia|done|]. cbn [mbind option_bind fst snd].
  exists s2. split_and!; try done.
  - rewrite Hp2, Hv1. apply swap_list_Permutation.
  - rewrite Hrest, Hv1, lookup_swap_list by lia.
    destruct (decide (length (view s) - 1 = 0)%nat) as [E|]; [by rewrite E|].
    by rewrite decide_True by lia.
  - destruct (decide (k = 0)%nat) as [->|]; [|by apply Hmoved; lia].
    destruct Heq as [-> [Hup _]]; [done|]. intros i Hi. apply Hup; lia.
Qed.
End laws.
