(* ===== verification/ContainerList.v ===== *)
(** * container/list: the doubly linked ring of the Go standard library

    The executor keeps its ready tasks in a [list.List] and remembers the
    element of each task.  The pointers matter: [Init] empties the ring without
    detaching its elements, so a later [Remove] of such an element still
    rewrites the neighbours it remembers.  Address 0 is the list's root; the
    values are task numbers. *)

From S2P Require Import Prelude.

Record Node := MkNode {
  nd_next : option nat;
  nd_prev : option nat;
  nd_list : bool;   (** the element's [list] field points to the list *)
  nd_value : option nat;
}.

Record LList := MkLList {
  nodes : gmap nat Node;
  llen : Z;
}.

Definition root : nat := 0.

Definition set_next (p : option nat) (n : Node) : Node :=
  MkNode p (nd_prev n) (nd_list n) (nd_value n).
Definition set_prev (p : option nat) (n : Node) : Node :=
  MkNode (nd_next n) p (nd_list n) (nd_value n).

(** [e.next = p], [e.prev = p]: [None] when [e] is nil. *)
Definition write_next (e p : nat) (ns : gmap nat Node) : option (gmap nat Node) :=
  n ← ns !! e; Some (<[e := set_next (Some p) n]> ns).
Definition write_prev (e p : nat) (ns : gmap nat Node) : option (gmap nat Node) :=
  n ← ns !! e; Some (<[e := set_prev (Some p) n]> ns).

Definition list_Init (l : LList) : LList :=
  MkLList (<[root := MkNode (Some root) (Some root) false None]> (nodes l)) 0.

Definition list_New : LList := list_Init (MkLList ∅ 0).

Definition list_Len (l : LList) : Z := llen l.

Definition list_Front (l : LList) : option nat :=
  if bool_decide (llen l = 0) then None
  else r ← nodes l !! root; nd_next r.

Definition elem_Next (l : LList) (e : nat) : option nat :=
  n ← nodes l !! e;
  if nd_list n && bool_decide (nd_next n <> Some root) then nd_next n else None.

(** [insertValue(v, l.root.prev)] *)
Definition list_PushBack (v : nat) (l : LList) : option (LList * nat) :=
  let e := fresh (dom (nodes l)) in
  r ← nodes l !! root;
  at_ ← nd_prev r;
  a ← nodes l !! at_;
  nx ← nd_next a;
  ns ← write_next at_ e (<[e := MkNode (Some nx) (Some at_) true (Some v)]> (nodes l));
  ns ← write_prev nx e ns;
  Some (MkLList ns (llen l + 1), e).

(** [remove] *)
Definition list_remove (e : nat) (l : LList) : option LList :=
  n ← nodes l !! e;
  p ← nd_prev n;
  x ← nd_next n;
  ns ← write_next p x (nodes l);
  ns ← write_prev x p ns;
  n' ← ns !! e;
  Some (MkLList (<[e := MkNode None None false (nd_value n')]> ns) (llen l - 1)).

Definition list_Remove (e : nat) (l : LList) : option (LList * option nat) :=
  n ← nodes l !! e;
  if nd_list n then l' ← list_remove e l; Some (l', nd_value n)
  else Some (l, nd_value n).

(** [for item := l.Front(); item != nil; item = item.Next()]: the values met.
    [None] when the fuel runs out or an element has no value. *)
Fixpoint collect (fuel : nat) (l : LList) (item : option nat) : option (list nat) :=
  match item, fuel with
  | None, _ => Some []
  | Some _, O => None
  | Some e, S fuel =>
      n ← nodes l !! e;
      v ← nd_value n;
      r ← collect fuel l (elem_Next l e);
      Some (v :: r)
  end.

(** As many iterations as there are nodes. *)
Definition list_values (l : LList) : option (list nat) :=
  collect (size (nodes l)) l (list_Front l).

(** ** The ring and the sequence it stands for *)
Definition next_of (l : LList) (e : nat) : option nat := nodes l !! e ≫= nd_next.
Definition prev_of (l : LList) (e : nat) : option nat := nodes l !! e ≫= nd_prev.

Fixpoint linked (nx pv : nat -> option nat) (ys : list nat) : Prop :=
  match ys with
  | a :: ((b :: _) as r) => nx a = Some b /\ pv b = Some a /\ linked nx pv r
  | _ => True
  end.

(** The list [l] holds the elements [fst <$> xs] with the values [snd <$> xs],
    and no other element believes it is in [l]. *)
Definition is_list (l : LList) (xs : list (nat * nat)) : Prop :=
  NoDup (root :: (fst <$> xs)) /\
  linked (next_of l) (prev_of l) (root :: (fst <$> xs) ++ [root]) /\
  llen l = Z.of_nat (length xs) /\
  (forall e v, (e, v) ∈ xs -> exists n, nodes l !! e = Some n /\ nd_list n = true /\ nd_value n = Some v) /\
  (forall e n, nodes l !! e = Some n -> nd_list n = true -> e ∈ fst <$> xs).

(** ** Segments of the ring *)
Section linked.
Implicit Types (nx pv : nat -> option nat) (ys zs : list nat).

Lemma linked_cons nx pv a b ys :
  linked nx pv (a :: b :: ys) <-> nx a = Some b /\ pv b = Some a /\ linked nx pv (b :: ys).
Proof. done. Qed.

(** Two segments that share an element make one. *)
Lemma linked_app nx pv ys a zs :
  linked nx pv (ys ++ a :: zs) <-> linked nx pv (ys ++ [a]) /\ linked nx pv (a :: zs).
Proof.
  induction ys as [|y [|y' ys] IH]; [cbn; tauto| |].
  - cbn [app]. rewrite !linked_cons. cbn. tauto.
  - cbn [app] in *. rewrite !linked_cons. tauto.
Qed.

(** Only the [next] of all elements but the last and the [prev] of all but the
    first matter. *)
Lemma linked_ext nx pv nx' pv' ys z :
  linked nx pv (ys ++ [z]) ->
  (forall e, e ∈ ys -> nx' e = nx e) -> (forall e, e ∈ tail (ys ++ [z]) -> pv' e = pv e) ->
  linked nx' pv' (ys ++ [z]).
Proof.
  induction ys as [|a [|y ys] IH]; intros Hl Hn Hp; cbn [app] in *; [done| |].
  - rewrite linked_cons in *. rewrite Hn, Hp by (cbn; set_solver). done.
  - rewrite linked_cons in *. destruct Hl as (? & ? & Hl).
    rewrite Hn, Hp by (cbn; set_solver). split_and!; [done|done|].
    apply IH; [done|set_solver|]. intros e He. apply Hp. cbn in *. set_solver.
Qed.
End linked.

Lemma write_next_Some e p ns n : ns !! e = Some n ->
  write_next e p ns = Some (<[e := set_next (Some p) n]> ns).
Proof. unfold write_next. by intros ->. Qed.

Lemma write_prev_Some e p ns n : ns !! e = Some n ->
  write_prev e p ns = Some (<[e := set_prev (Some p) n]> ns).
Proof. unfold write_prev. by intros ->. Qed.

Lemma next_of_Some l e p : next_of l e = Some p -> exists n, nodes l !! e = Some n /\ nd_next n = Some p.
Proof. unfold next_of. destruct (nodes l !! e); cbn; eauto; done. Qed.

Lemma prev_of_Some l e p : prev_of l e = Some p -> exists n, nodes l !! e = Some n /\ nd_prev n = Some p.
Proof. unfold prev_of. destruct (nodes l !! e); cbn; eauto; done. Qed.

(** ** A new list is empty *)
Lemma list_New_is_list : is_list list_New [].
Proof.
  split_and!; [repeat constructor; set_solver|done|done|set_solver|].
  intros e n. cbn. rewrite insert_empty, lookup_singleton. by case_decide; intros; simplify_eq.
Qed.

Lemma is_list_Len l xs : is_list l xs -> list_Len l = Z.of_nat (length xs).
Proof. by intros (_ & _ & ? & _). Qed.

Lemma is_list_Front l xs : is_list l xs -> list_Front l = (fst <$> head xs).
Proof.
  intros (_ & Hl & Hlen & _). unfold list_Front. rewrite Hlen. destruct xs as [|[e v] xs]; cbn.
  - done.
  - rewrite bool_decide_eq_false_2 by lia. cbn [fmap list_fmap app] in Hl.
    apply linked_cons in Hl as (Hn & _). apply next_of_Some in Hn as (n & Hr & Hn).
    by rewrite Hr.
Qed.

(** Reads of a node map updated at a few addresses. *)
Ltac node_reads :=
  unfold next_of, prev_of; cbn [nodes]; rewrite ?lookup_insert;
  repeat case_decide; subst; cbn; try congruence; try done;
  repeat match goal with
  | H : ?m !! ?k = Some _ |- context [?m !! ?k] => rewrite H
  end; cbn; try congruence; try done.

(** The last element before the root, and what surrounds it. *)
Lemma is_list_last l xs : is_list l xs -> exists ys z r n,
  root :: (fst <$> xs) = ys ++ [z] /\ nodes l !! root = Some r /\ nd_prev r = Some z /\
  nodes l !! z = Some n /\ nd_next n = Some root.
Proof.
  intros (_ & Hl & _). destruct (exists_last (l := root :: (fst <$> xs))) as (ys & z & E); [done|].
  exists ys, z. rewrite app_comm_cons, E, <- app_assoc in Hl. apply linked_app in Hl as [_ Hl].
  destruct Hl as (Hn & Hp & _). apply next_of_Some in Hn as (n & ? & ?).
  apply prev_of_Some in Hp as (r & ? & ?). eauto 10.
Qed.

Lemma is_list_PushBack l xs v : is_list l xs ->
  exists l' e, list_PushBack v l = Some (l', e) /\ nodes l !! e = None /\ is_list l' (xs ++ [(e, v)]).
Proof.
  intros Hil. destruct (is_list_last _ _ Hil) as (ys & z & r & n & E & Hr & Hrp & Hz & Hzn).
  destruct Hil as (HND & Hl & Hlen & Hin & Hout).
  unfold list_PushBack. set (e := fresh (dom (nodes l))).
  assert (nodes l !! e = None) as He by (apply not_elem_of_dom, is_fresh).
  assert (e <> root /\ e <> z) as [Her Hez] by (split; intros ->; congruence).
  rewrite Hr. cbn [mbind option_bind]. rewrite Hrp. cbn [mbind option_bind]. rewrite Hz.
  cbn [mbind option_bind]. rewrite Hzn. cbn [mbind option_bind].
  rewrite (write_next_Some _ _ _ n) by (by rewrite lookup_insert_ne). cbn [mbind option_bind].
  set (r' := if decide (z = root) then set_next (Some e) n else r).
  rewrite (write_prev_Some _ _ _ r').
  2: { unfold r'. case_decide; subst; [by rewrite lookup_insert_eq|by rewrite !lookup_insert_ne]. }
  cbn [mbind option_bind]. eexists _, e. split_and!; [done..|].
  assert (e ∉ root :: (fst <$> xs)) as Hnin.
  { rewrite elem_of_cons, list_elem_of_fmap. intros [->|([e' v'] & -> & Hx)]; [done|].
    destruct (Hin _ _ Hx) as (? & ? & _). cbn in *. congruence. }
  unfold is_list. rewrite fmap_app. cbn [fmap list_fmap fst llen].
  split_and!.
  - rewrite app_comm_cons. apply NoDup_app. split_and!; [done|set_solver|by apply NoDup_singleton].
  - rewrite !app_comm_cons, E, <- !app_assoc. cbn [app]. apply linked_app. split.
    + rewrite app_comm_cons, E, <- app_assoc in Hl. apply linked_app in Hl as [Hl _].
      assert (root ∉ fst <$> xs) as Hroot by (by apply NoDup_cons in HND as [? _]).
      rewrite E in HND, Hnin. apply NoDup_app in HND as (_ & HND & _).
      eapply linked_ext; [done| |].
      * intros k Hk. assert (k <> z /\ k <> e) as [??] by set_solver. unfold r'. node_reads.
      * intros k Hk. assert (k <> root /\ k <> e) as [??]; [|unfold r'; node_reads].
        rewrite <- E in *. cbn in *. set_solver.
    + unfold r'. cbn. node_reads.
  - rewrite length_app. cbn. lia.
  - intros e' v' [Hx|[= -> ->]%list_elem_of_singleton]%elem_of_app.
    + destruct (Hin _ _ Hx) as (m & Hm & ? & ?). assert (e' <> e) by congruence.
      cbn [nodes]. rewrite !lookup_insert. unfold r'.
      repeat case_decide; subst; simplify_eq; eauto 10; cbn; eauto 10.
    + cbn [nodes]. rewrite !lookup_insert. repeat case_decide; subst; simplify_eq; cbn; eauto.
  - intros e' n'. cbn [nodes]. rewrite elem_of_app, !lookup_insert. unfold r'.
    repeat case_decide; intros; subst; simplify_eq; cbn in *; eauto; right; set_solver.
Qed.

Lemma is_list_split l xs1 e v xs2 : is_list l (xs1 ++ (e, v) :: xs2) ->
  exists ys p x zs, root :: (fst <$> xs1) = ys ++ [p] /\ (fst <$> xs2) ++ [root] = x :: zs /\
    linked (next_of l) (prev_of l) (ys ++ [p]) /\ linked (next_of l) (prev_of l) (x :: zs) /\
    next_of l p = Some e /\ prev_of l e = Some p /\ next_of l e = Some x /\ prev_of l x = Some e.
Proof.
  intros (_ & Hl & _). destruct (exists_last (l := root :: (fst <$> xs1))) as (ys & p & E); [done|].
  destruct ((fst <$> xs2) ++ [root]) as [|x zs] eqn:Ez; [by destruct xs2|].
  exists ys, p, x, zs. rewrite fmap_app, fmap_cons in Hl. cbn [fst] in Hl.
  rewrite <- app_assoc, <- app_comm_cons, Ez, app_comm_cons, E, <- app_assoc in Hl. cbn [app] in Hl.
  apply linked_app in Hl as [? Hl]. cbn [linked] in Hl. tauto.
Qed.

Lemma is_list_Remove l xs1 e v xs2 : is_list l (xs1 ++ (e, v) :: xs2) ->
  exists l', list_Remove e l = Some (l', Some v) /\ is_list l' (xs1 ++ xs2).
Proof.
  intros Hil. destruct (is_list_split _ _ _ _ _ Hil)
    as (ys & p & x & zs & E & Ez & Hl1 & Hl2 & Hpn & Hep & Hen & Hxp).
  destruct Hil as (HND & _ & Hlen & Hin & Hout).
  destruct (Hin e v) as (n & Hn & Hnl & Hnv); [set_solver|].
  unfold next_of, prev_of in Hpn, Hep, Hen, Hxp.
  destruct (nodes l !! p) as [np|] eqn:Hp; [|done].
  destruct (nodes l !! x) as [nx|] eqn:Hx; [|done].
  rewrite Hn in Hep, Hen. cbn in Hpn, Hep, Hen, Hxp.
  rewrite fmap_app, fmap_cons in HND. cbn [fst] in HND.
  assert (e <> root /\ e ∉ fst <$> xs1 /\ e ∉ fst <$> xs2 /\ root ∉ fst <$> xs1 /\
    root ∉ fst <$> xs2 /\ (forall k, k ∈ fst <$> xs1 -> k ∉ fst <$> xs2) /\
    NoDup (fst <$> xs1) /\ NoDup (fst <$> xs2)) as (He0 & He1 & He2 & Hr1 & Hr2 & H12 & HN1 & HN2).
  { apply NoDup_cons in HND as [Hr HND]. apply NoDup_app in HND as (? & Hd & HND).
    apply NoDup_cons in HND as [? ?]. split_and!; try done; set_solver. }
  assert (e <> p) as Hep' by (intros ->; assert (p ∈ ys ++ [p]) by set_solver; rewrite <- E in *; set_solver).
  assert (e <> x) as Hex by (intros ->; assert (x ∈ x :: zs) by set_solver; rewrite <- Ez in *; set_solver).
  set (nx' := if decide (x = p) then set_next (Some x) np else nx).
  assert (list_Remove e l = Some (MkLList (<[e := MkNode None None false (Some v)]>
    (<[x := set_prev (Some p) nx']> (<[p := set_next (Some x) np]> (nodes l)))) (llen l - 1), Some v)) as ->.
  { unfold list_Remove, list_remove. rewrite Hn. cbn [mbind option_bind]. rewrite Hnl, Hep, Hen.
    cbn [mbind option_bind]. rewrite (write_next_Some _ _ _ np) by done. cbn [mbind option_bind].
    rewrite (write_prev_Some _ _ _ nx')
      by (unfold nx'; rewrite lookup_insert; repeat case_decide; subst; congruence).
    cbn [mbind option_bind]. rewrite !lookup_insert_ne, Hn by done. cbn [mbind option_bind].
    by rewrite Hnv. }
  eexists. split; [done|]. unfold is_list. rewrite fmap_app. split_and!.
  - apply NoDup_cons. split; [set_solver|]. apply NoDup_app. done.
  - assert (forall k, k ∈ fst <$> xs2 -> k <> p /\ k <> e) as Hk2.
    { intros k Hk. split; [|by intros ->]. intros ->.
      assert (p ∈ root :: (fst <$> xs1)) by (rewrite E; set_solver). set_solver. }
    rewrite <- app_assoc, Ez, app_comm_cons, E, <- app_assoc. cbn [app].
    apply linked_app. split; [|rewrite linked_cons; split_and!].
    + apply (linked_ext _ _ _ _ _ _ Hl1).
      * intros k Hk. assert (k <> p) as Hkp.
        { intros ->. assert (NoDup (ys ++ [p])) as HN by (rewrite <- E; by apply NoDup_cons).
          apply NoDup_app in HN as (_ & HN & _). set_solver. }
        assert (k <> e) by (intros ->; assert (e ∈ ys ++ [p]) by set_solver; rewrite <- E in *; set_solver).
        unfold nx'. node_reads.
      * rewrite <- E. cbn. intros k Hk. assert (k <> e) by congruence. assert (k <> x) as Hkx.
        { intros ->. assert (x ∈ (fst <$> xs2) ++ [root]) by (rewrite Ez; set_solver). set_solver. }
        unfold nx'. node_reads.
    + unfold nx'. node_reads.
    + unfold nx'. node_reads.
    + destruct (exists_last (l := x :: zs)) as (ws & w & Ew); [done|].
      assert (w = root /\ ws = fst <$> xs2) as [-> ->].
      { rewrite Ew in Ez. by apply app_inj_tail in Ez as [-> ->]. }
      rewrite Ew in *. apply (linked_ext _ _ _ _ _ _ Hl2).
      * intros k Hk. destruct (Hk2 k Hk). unfold nx'. node_reads.
      * intros k Hk. assert (k <> e /\ k <> x) as [??]; [|unfold nx'; node_reads].
        assert (NoDup ((fst <$> xs2) ++ [root])) as HN.
        { apply NoDup_app. split_and!; [done|set_solver|apply NoDup_singleton]. }
        rewrite <- Ew in Hk. cbn in Hk. rewrite <- Ew in HN. apply NoDup_cons in HN as [? _].
        split; [|by intros ->]. intros ->.
        assert (e ∈ (fst <$> xs2) ++ [root]) by (rewrite <- Ew; set_solver). set_solver.
  - cbn [llen]. rewrite Hlen, !length_app. cbn. lia.
  - intros k w Hk. destruct (Hin k w) as (m & Hm & ? & ?); [set_solver|].
    assert (k <> e).
    { intros ->. apply elem_of_app in Hk as [Hk|Hk]; apply (list_elem_of_fmap_2 fst) in Hk; done. }
    cbn [nodes]. unfold nx'. rewrite !lookup_insert.
    repeat case_decide; subst; simplify_eq; cbn; eauto.
  - intros k m. cbn [nodes]. unfold nx'. rewrite !lookup_insert, <- fmap_app.
    assert (forall j n, nodes l !! j = Some n -> nd_list n = true -> j <> e -> j ∈ fst <$> xs1 ++ xs2) as Hout'.
    { intros j m' Hj Hjl Hje. specialize (Hout _ _ Hj Hjl). set_solver. }
    repeat case_decide; intros; subst; simplify_eq; cbn in *; eauto.
Qed.

Lemma list_Remove_detached e n l : nodes l !! e = Some n -> nd_list n = false ->
  list_Remove e l = Some (l, nd_value n).
Proof. intros Hn Hf. unfold list_Remove. rewrite Hn. cbn [mbind option_bind]. by rewrite Hf. Qed.

(** ** The traversal *)
Lemma collect_suffix l xs1 xs2 fuel : is_list l (xs1 ++ xs2) -> (length xs2 <= fuel)%nat ->
  collect fuel l (fst <$> head xs2) = Some (snd <$> xs2).
Proof.
  revert xs1 fuel. induction xs2 as [|[e v] xs2 IH]; intros xs1 fuel Hil Hf; [by destruct fuel|].
  destruct fuel as [|fuel]; [cbn in Hf; lia|].
  pose proof (is_list_split _ _ _ _ _ Hil) as (ys & p & x & zs & _ & Ez & _ & _ & _ & _ & Hen & _).
  destruct Hil as (HND & Hl & Hlen & Hin & Hout).
  destruct (Hin e v) as (n & Hn & Hnl & Hnv); [set_solver|].
  cbn [collect head fmap option_fmap option_map fst]. rewrite Hn. cbn [mbind option_bind].
  rewrite Hnv. cbn [mbind option_bind].
  assert (elem_Next l e = (fst <$> head xs2)) as ->.
  { unfold next_of in Hen. unfold elem_Next. rewrite Hn in *. cbn in *. rewrite Hnl, Hen. cbn.
    rewrite fmap_app, fmap_cons in HND. destruct xs2 as [|[e' v'] xs2]; cbn in *; simplify_eq; cbn.
    - rewrite bool_decide_eq_false_2; [done|]. by intros [].
    - rewrite bool_decide_eq_true_2; [done|]. intros [= ->]. apply NoDup_cons in HND as [HND _].
      set_solver. }
  rewrite (IH (xs1 ++ [(e, v)])); [done| |cbn in Hf; lia].
  rewrite <- app_assoc. cbn. by split_and!.
Qed.

Lemma is_list_size l xs : is_list l xs -> (length xs <= size (nodes l))%nat.
Proof.
  intros (HND & _ & _ & Hin & _). apply NoDup_cons in HND as [_ HND].
  rewrite <- (length_fmap fst), <- size_dom, <- (size_list_to_set (C := gset nat)) by done.
  apply subseteq_size. intros e He. apply elem_of_list_to_set in He.
  apply list_elem_of_fmap in He as ([? v] & -> & He). apply elem_of_dom.
  destruct (Hin _ _ He) as (? & ? & _). eauto.
Qed.

Lemma list_values_spec l xs : is_list l xs -> list_values l = Some (snd <$> xs).
Proof.
  intros Hil. unfold list_values. rewrite (is_list_Front _ _ Hil).
  apply (collect_suffix l [] xs); [done|]. by apply is_list_size.
Qed.

(** ** What [Init] leaves behind

    The emptied ring is well formed but for its old elements, which still
    believe they are in it: removing one of them makes the length negative. *)
Lemma list_Init_Len l : list_Len (list_Init l) = 0.
Proof. done. Qed.

Example Init_then_Remove :
  (r1 ← list_PushBack 7 list_New; r2 ← list_Remove r1.2 (list_Init r1.1); Some (list_Len r2.1))
  = Some (-1).
Proof. vm_compute. reflexivity. Qed.

(** ** Elements are never freed *)
Lemma write_next_dom e p ns ns' : write_next e p ns = Some ns' -> dom ns' = dom ns.
Proof.
  unfold write_next. destruct (ns !! e) as [n|] eqn:E; cbn; [|done]. intros [= <-].
  apply elem_of_dom_2 in E. rewrite dom_insert_L. set_solver.
Qed.

Lemma write_prev_dom e p ns ns' : write_prev e p ns = Some ns' -> dom ns' = dom ns.
Proof.
  unfold write_prev. destruct (ns !! e) as [n|] eqn:E; cbn; [|done]. intros [= <-].
  apply elem_of_dom_2 in E. rewrite dom_insert_L. set_solver.
Qed.

Lemma list_PushBack_dom v l l' e : list_PushBack v l = Some (l', e) ->
  dom (nodes l') = {[e]} ∪ dom (nodes l).
Proof.
  unfold list_PushBack. intros Hm.
  destruct (nodes l !! root) as [r|]; [|done]. cbn [mbind option_bind] in Hm.
  destruct (nd_prev r) as [p|]; [|done]. cbn [mbind option_bind] in Hm.
  destruct (nodes l !! p) as [a|]; [|done]. cbn [mbind option_bind] in Hm.
  destruct (nd_next a) as [x|]; [|done]. cbn [mbind option_bind] in Hm.
  destruct (write_next _ _ _) as [n1|] eqn:E1; [|done]. cbn [mbind option_bind] in Hm.
  destruct (write_prev _ _ _) as [n2|] eqn:E2; [|done]. cbn [mbind option_bind] in Hm.
  apply write_next_dom in E1. apply write_prev_dom in E2. simplify_eq. cbn [nodes].
  by rewrite E2, E1, dom_insert_L.
Qed.

Lemma list_Remove_dom e l l' v : list_Remove e l = Some (l', v) -> dom (nodes l') = dom (nodes l).
Proof.
  unfold list_Remove, list_remove. intros Hm.
  destruct (nodes l !! e) as [n|] eqn:En; [|done]. cbn [mbind option_bind] in Hm.
  destruct (nd_list n); [|by simplify_eq].
  destruct (nd_prev n) as [p|]; [|done]. cbn [mbind option_bind] in Hm.
  destruct (nd_next n) as [x|]; [|done]. cbn [mbind option_bind] in Hm.
  destruct (write_next _ _ _) as [n1|] eqn:E1; [|done]. cbn [mbind option_bind] in Hm.
  destruct (write_prev _ _ _) as [n2|] eqn:E2; [|done]. cbn [mbind option_bind] in Hm.
  destruct (n2 !! e) as [n'|] eqn:E3; [|done]. cbn [mbind option_bind] in Hm.
  apply write_next_dom in E1. apply write_prev_dom in E2. simplify_eq. cbn [nodes].
  rewrite dom_insert_L. apply elem_of_dom_2 in E3. set_solver.
Qed.
