(* ===== verification/QueueInterface.v ===== *)
(** * What the executor needs of its scheduled queue

    The interface between [executors] and [queue]: the operations of
    [queue.PriorityQueue[*_Task]] that the executor calls, and what they
    promise.  File Executor is proved against it; file PriorityQueue discharges
    it for the heap. *)

From S2P Require Import Prelude.

(** [Q] is the store of the queue, [H] the type of [*queue.Element]; the values
    are tasks, by their number. [None] is a panic. *)
Class TaskQueue (Q H : Type) := {
  tq_push : Q -> nat -> Z -> option (Q * H);
  tq_pop : Q -> option (Q * nat);
  tq_peek : Q -> option nat;
  tq_remove : Q -> H -> option (Q * bool);
  tq_len : Q -> nat;
}.

(** [tq_items q]: the elements of the queue, with the task and the priority of
    each; [tq_known q h]: the pointer [h] was returned by a [Push]. *)
Class TaskQueueLaws (Q H : Type) `{TaskQueue Q H} := {
  tq_ok : Q -> Prop;
  tq_items : Q -> list (H * nat * Z);
  tq_known : Q -> H -> Prop;
  tq_len_items : forall q, tq_ok q -> tq_len q = length (tq_items q);
  tq_push_law : forall q t p, tq_ok q ->
    exists q' h, tq_push q t p = Some (q', h) /\ tq_ok q' /\
      tq_items q' ≡ₚ (h, t, p) :: tq_items q /\ tq_known q' h /\
      (forall h', tq_known q h' -> tq_known q' h');
  tq_pop_law : forall q, tq_ok q -> tq_items q <> [] ->
    exists q' h t p, tq_pop q = Some (q', t) /\ tq_peek q = Some t /\ tq_ok q' /\
      tq_items q ≡ₚ (h, t, p) :: tq_items q' /\
      (forall x, x ∈ tq_items q' -> p <= x.2) /\
      (forall h', tq_known q h' -> tq_known q' h');
  tq_remove_law : forall q h, tq_ok q -> tq_known q h ->
    (exists q' t p, tq_remove q h = Some (q', true) /\ tq_ok q' /\
       tq_items q ≡ₚ (h, t, p) :: tq_items q' /\ (forall h', tq_known q h' -> tq_known q' h')) \/
    (tq_remove q h = Some (q, false) /\ h ∉ ((fun x => x.1.1) <$> tq_items q));
}.
