(* ===== verification/PriorityQueue.v ===== *)
(** * queue: the priority queue

    Models [queue/priority_queue.go] and [queue/priority_queue_heap.go]: the
    elements are heap cells reached through pointers ([nat]), a heap is a slice
    of pointers reached through a pointer, and the package variable [sequence]
    is part of the store.  [_Heap] provides the [HeapInterface] of file Heap. *)

From S2P Require Import Prelude.
From S2P Require Import Heap.
From S2P Require Import QueueInterface.

(** ** Data *)
Record Element (V : Type) := MkElement {
  Value : V;
  priority : Z;
  seq : Z;
  index : Z;
  heap : option nat;
}.
Arguments MkElement {V}.
Arguments Value {V}.
Arguments priority {V}.
Arguments seq {V}.
Arguments index {V}.
Arguments heap {V}.

(** The store: elements and heaps by address, and the package's [sequence]. *)
Record World (V : Type) := MkWorld {
  elements : gmap nat (Element V);
  heaps : gmap nat (list nat);
  sequence : Z;
}.
Arguments MkWorld {V}.
Arguments elements {V}.
Arguments heaps {V}.
Arguments sequence {V}.

Section operations.
Context {V : Type}.
Implicit Types (w : World V) (e hid i j : nat).

Definition with_elements w (es : gmap nat (Element V)) : World V :=
  MkWorld es (heaps w) (sequence w).
Definition with_heap w hid (h : list nat) : World V :=
  MkWorld (elements w) (<[hid := h]> (heaps w)) (sequence w).
Definition heap_of w hid : list nat := default [] (heaps w !! hid).

(** [x.index = i] *)
Definition set_index w e (i : Z) : option (World V) :=
  el ← elements w !! e;
  Some (with_elements w
    (<[e := MkElement (Value el) (priority el) (seq el) i (heap el)]> (elements w))).

(** [x.heap = h] *)
Definition set_heap w e (h : option nat) : option (World V) :=
  el ← elements w !! e;
  Some (with_elements w
    (<[e := MkElement (Value el) (priority el) (seq el) (index el) h]> (elements w))).

(** *** [_Heap] *)
Definition Heap_Len hid w : nat := length (heap_of w hid).

Definition Heap_Less hid w i j : option bool :=
  hi ← heap_of w hid !! i;
  hj ← heap_of w hid !! j;
  ei ← elements w !! hi;
  ej ← elements w !! hj;
  let eq := bool_decide (priority ei = priority ej) in
  if negb eq then Some (bool_decide (priority ei < priority ej))
  else Some (bool_decide (seq ei < seq ej)).

Definition Heap_Swap hid w i j : option (World V) :=
  hi ← heap_of w hid !! i;
  hj ← heap_of w hid !! j;
  let w1 := with_heap w hid (<[i := hj]> (<[j := hi]> (heap_of w hid))) in
  hi' ← heap_of w1 hid !! i;
  w2 ← set_index w1 hi' (Z.of_nat i);
  hj' ← heap_of w2 hid !! j;
  set_index w2 hj' (Z.of_nat j).

Definition Heap_Push hid w (item : nat) : option (World V) :=
  w1 ← set_index w item (Z.of_nat (length (heap_of w hid)));
  w2 ← set_heap w1 item (Some hid);
  Some (with_heap w2 hid (heap_of w2 hid ++ [item])).

Definition Heap_Pop hid w : option (World V * nat) :=
  let old := heap_of w hid in
  let n := length old in
  x ← (if decide (n = 0)%nat then None else old !! (n - 1)%nat);
  let w1 := with_heap w hid (take (n - 1) old) in
  w2 ← set_index w1 x (-1);
  w3 ← set_heap w2 x None;
  Some (w3, x).

Definition Heap_Peek hid w : option nat := heap_of w hid !! 0%nat.

(** [_Heap] implements [heap.Interface]. *)
Definition Heap_Interface hid : HeapInterface (World V) := {|
  hLen := Heap_Len hid;
  hLess := Heap_Less hid;
  hSwap := Heap_Swap hid;
|}.

(** *** [container/heap]'s operations on a [_Heap] *)
Definition heap_Push hid w (item : nat) : option (World V) :=
  w1 ← Heap_Push hid w item;
  @push_fix _ (Heap_Interface hid) w1.

Definition heap_Pop hid w : option (World V * nat) :=
  w1 ← @pop_fix _ (Heap_Interface hid) w;
  Heap_Pop hid w1.

Definition heap_Remove hid w (i : Z) : option (World V * nat) :=
  if bool_decide (i < 0) then None
  else
    w1 ← @remove_fix _ (Heap_Interface hid) w (Z.to_nat i);
    Heap_Pop hid w1.

(** *** [PriorityQueue] *)
Definition NewPriorityQueue w : World V * nat :=
  let hid := fresh (dom (heaps w)) in
  (with_heap w hid [], hid).

Definition Push hid w (x : V) (prio : Z) : option (World V * nat) :=
  let s := uint64_wrap (sequence w + 1) in
  let item := fresh (dom (elements w)) in
  let w1 := MkWorld (<[item := MkElement x prio s 0 None]> (elements w)) (heaps w) s in
  w2 ← heap_Push hid w1 item;
  Some (w2, item).

Definition Pop hid w : option (World V * nat) := heap_Pop hid w.

Definition Peek hid w : option nat := Heap_Peek hid w.

Definition Remove hid w (item : nat) : option (World V * bool) :=
  el ← elements w !! item;
  if bool_decide (heap el <> Some hid) || bool_decide (index el = -1) then Some (w, false)
  else
    r ← heap_Remove hid w (index el);
    Some (r.1, true).

Definition Len hid w : nat := Heap_Len hid w.

Definition Priority w e : option Z := priority <$> elements w !! e.
End operations.

(** ** Invariants *)
Section invariants.
Context {V : Type}.
Implicit Types (w : World V) (e hid i j : nat).

(** Key of an element: what [Less] compares. *)
Definition key_of w e : Z * Z :=
  match elements w !! e with
  | Some el => (priority el, seq el)
  | None => (0, 0)
  end.

Definition key_less (a b : nat * (Z * Z)) : bool :=
  bool_decide (a.2.1 < b.2.1 \/ a.2.1 = b.2.1 /\ a.2.2 < b.2.2).

(** The slice and the [index]/[heap] fields of the elements agree. *)
Definition coherent w hid : Prop :=
  (forall i e, heap_of w hid !! i = Some e ->
    exists el, elements w !! e = Some el /\ index el = Z.of_nat i /\ heap el = Some hid) /\
  (forall e el, elements w !! e = Some el -> heap el = Some hid ->
    exists i, index el = Z.of_nat i /\ heap_of w hid !! i = Some e).

Definition keys_at w0 w hid : list (nat * (Z * Z)) :=
  (fun e => (e, key_of w0 e)) <$> heap_of w hid.
Definition keys w hid : list (nat * (Z * Z)) := keys_at w w hid.

(** A queue is well formed: it exists, is coherent and heap ordered. *)
Definition wf_queue w hid : Prop :=
  is_Some (heaps w !! hid) /\ coherent w hid /\
  heap_ordered key_less (length (keys w hid)) (keys w hid).

(** What sifting in heap [hid] leaves alone: all but the [index] fields of the
    elements of [hid] and the order of its slice. *)
Definition same_core (a b : Element V) : Prop :=
  Value a = Value b /\ priority a = priority b /\ seq a = seq b /\ heap a = heap b.

Definition frame hid w0 w : Prop :=
  sequence w = sequence w0 /\
  (forall h, h <> hid -> heaps w !! h = heaps w0 !! h) /\
  is_Some (heaps w !! hid) /\
  (forall e, option_Forall2 same_core (elements w0 !! e) (elements w !! e)) /\
  (forall e el, elements w0 !! e = Some el -> heap el <> Some hid -> elements w !! e = Some el).

(** What an operation on heap [hid] guarantees about the rest of the store:
    other heaps and the elements outside [hid] are untouched, and no element
    changes its value, priority or sequence number. *)
Definition same_data (a b : Element V) : Prop :=
  Value a = Value b /\ priority a = priority b /\ seq a = seq b.

Definition local_to hid w0 w : Prop :=
  (forall h, h <> hid -> heaps w !! h = heaps w0 !! h) /\
  (forall e el, elements w0 !! e = Some el ->
    exists el', elements w !! e = Some el' /\ same_data el el' /\
      (heap el <> Some hid -> el' = el)) /\
  (forall e el h, h <> hid -> elements w !! e = Some el -> heap el = Some h ->
    elements w0 !! e = Some el).

(** [w'] is [w] after the element [x] left the heap [hid]. *)
Definition removed hid w w' (x : nat) : Prop :=
  wf_queue w' hid /\ local_to hid w w' /\ dom (elements w') = dom (elements w) /\
  sequence w' = sequence w /\
  heap_of w hid ≡ₚ x :: heap_of w' hid /\
  (exists el, elements w' !! x = Some el /\ index el = -1 /\ heap el = None).

(** [w'] is [w] after the new element [item] entered the heap [hid]. *)
Definition added hid w w' (item : nat) (x : V) (p : Z) : Prop :=
  wf_queue w' hid /\ local_to hid w w' /\
  elements w !! item = None /\ dom (elements w') = {[item]} ∪ dom (elements w) /\
  sequence w' = uint64_wrap (sequence w + 1) /\
  heap_of w' hid ≡ₚ item :: heap_of w hid /\
  (exists el, elements w' !! item = Some el /\ Value el = x /\ priority el = p /\
    seq el = sequence w' /\ heap el = Some hid).
End invariants.

(** ** Specification

    A queue of the specification is the list of its elements in serving order:
    by priority, and by insertion among equal priorities. *)
Section specification.
Context {V : Type}.
Implicit Types (w : World V) (e hid : nat).

Definition Entry : Type := nat * V * Z.
Definition ptr (x : Entry) : nat := x.1.1.

Fixpoint spec_push (x : Entry) (l : list Entry) : list Entry :=
  match l with
  | [] => [x]
  | y :: l' => if bool_decide (y.2 <= x.2) then y :: spec_push x l' else x :: y :: l'
  end.

Definition spec_remove (e : nat) (l : list Entry) : list Entry :=
  filter (fun x => ptr x <> e) l.

(** Sequence numbers: below the counter, which has not wrapped around, and
    distinct. *)
Definition seqs_ok w : Prop :=
  0 <= sequence w < two64 /\
  (forall e el, elements w !! e = Some el -> seq el <= sequence w) /\
  (forall e1 e2 el1 el2, elements w !! e1 = Some el1 -> elements w !! e2 = Some el2 ->
    seq el1 = seq el2 -> e1 = e2).

Definition entry_in w (x : Entry) : Prop :=
  exists el, elements w !! ptr x = Some el /\ Value el = x.1.2 /\ priority el = x.2.

Definition served_before w (x y : Entry) : Prop :=
  key_less (ptr x, key_of w (ptr x)) (ptr y, key_of w (ptr y)) = true.

(** The queue [hid] of the store [w] implements the list [l]. *)
Definition refines w hid (l : list Entry) : Prop :=
  wf_queue w hid /\ seqs_ok w /\ ptr <$> l ≡ₚ heap_of w hid /\
  Forall (entry_in w) l /\ StronglySorted (served_before w) l.
End specification.
Arguments Entry : clear implicits.

(** ** Lemmas *)
Section lemmas.
Context {V : Type}.
Implicit Types (w : World V) (e hid i j : nat) (el : Element V).

Lemma heap_of_with_heap w hid h : heap_of (with_heap w hid h) hid = h.
Proof. unfold heap_of. simpl. by rewrite lookup_insert_eq. Qed.

Lemma heap_of_with_elements w es hid : heap_of (with_elements w es) hid = heap_of w hid.
Proof. done. Qed.

Definition at_index el (i : Z) : Element V :=
  MkElement (Value el) (priority el) (seq el) i (heap el).

Lemma set_index_Some w e el (z : Z) : elements w !! e = Some el ->
  set_index w e z = Some (with_elements w (<[e := at_index el z]> (elements w))).
Proof. intros H. unfold set_index. by rewrite H. Qed.

Lemma coherent_lookup w hid i e : coherent w hid -> heap_of w hid !! i = Some e ->
  exists el, elements w !! e = Some el /\ index el = Z.of_nat i /\ heap el = Some hid.
Proof. intros [H _]. apply H. Qed.

Lemma coherent_inj w hid i j e : coherent w hid ->
  heap_of w hid !! i = Some e -> heap_of w hid !! j = Some e -> i = j.
Proof.
  intros Hc Hi Hj.
  destruct (coherent_lookup _ _ _ _ Hc Hi) as (el & ? & ? & _).
  destruct (coherent_lookup _ _ _ _ Hc Hj) as (el' & ? & ? & _).
  simplify_eq. lia.
Qed.

Lemma coherent_NoDup w hid : coherent w hid -> NoDup (heap_of w hid).
Proof. intros Hc. apply NoDup_alt. eauto using coherent_inj. Qed.

(** [Swap] exchanges two slots and records their new indices. *)
Lemma Heap_Swap_Some w hid i j a b : coherent w hid ->
  heap_of w hid !! i = Some a -> heap_of w hid !! j = Some b ->
  exists w', Heap_Swap hid w i j = Some w' /\
    heaps w' = <[hid := swap_list i j (heap_of w hid)]> (heaps w) /\
    sequence w' = sequence w /\
    (forall e, elements w' !! e =
      (fun el => at_index el (if decide (e = a) then Z.of_nat j
                              else if decide (e = b) then Z.of_nat i
                              else index el)) <$> elements w !! e).
Proof.
  intros Hc Ha Hb.
  pose proof (lookup_lt_Some _ _ _ Ha). pose proof (lookup_lt_Some _ _ _ Hb).
  destruct (coherent_lookup _ _ _ _ Hc Ha) as (ea & Hea & Hia & _).
  destruct (coherent_lookup _ _ _ _ Hc Hb) as (eb & Heb & Hib & _).
  assert (<[i := b]> (<[j := a]> (heap_of w hid)) = swap_list i j (heap_of w hid)) as Hsw
    by (unfold swap_list; by rewrite Ha, Hb).
  unfold Heap_Swap. rewrite Ha, Hb. cbn. rewrite heap_of_with_heap, Hsw.
  rewrite !lookup_swap_list by done. rewrite decide_True by done. rewrite Hb. cbn.
  erewrite set_index_Some by done. cbn.
  rewrite heap_of_with_elements, heap_of_with_heap, lookup_swap_list by done.
  destruct (decide (j = i)) as [->|Hne].
  - rewrite Hb. cbn. erewrite set_index_Some by (simpl; by rewrite lookup_insert_eq).
    eexists. split_and!; try done. simplify_eq. simpl. intros e.
    rewrite insert_insert_eq. destruct (decide (e = a)) as [->|].
    + by rewrite lookup_insert_eq, Hea.
    + rewrite lookup_insert_ne by done. by destruct (elements w !! e) as [[]|].
  - rewrite decide_True by done. rewrite Ha. cbn.
    assert (a <> b) as Hab by (intros ->; by eapply Hne, coherent_inj).
    erewrite set_index_Some by (simpl; by rewrite lookup_insert_ne).
    eexists. split_and!; try done. simpl. intros e.
    destruct (decide (e = a)) as [->|]; [|destruct (decide (e = b)) as [->|]].
    + by rewrite lookup_insert_eq, Hea.
    + by rewrite lookup_insert_ne, lookup_insert_eq, Heb by done.
    + rewrite !lookup_insert_ne by done. by destruct (elements w !! e) as [[]|].
Qed.

Lemma Heap_Swap_coherent w w' hid i j : coherent w hid ->
  (i < length (heap_of w hid))%nat -> (j < length (heap_of w hid))%nat ->
  Heap_Swap hid w i j = Some w' -> coherent w' hid.
Proof.
  intros Hc Hi Hj Hw'.
  destruct (lookup_lt_is_Some_2 _ _ Hi) as [a Ha], (lookup_lt_is_Some_2 _ _ Hj) as [b Hb].
  destruct (Heap_Swap_Some w hid i j a b) as (? & ? & Hh & _ & Hel); [done..|].
  simplify_eq. pose proof (coherent_inj w hid) as Hinj.
  assert (heap_of w' hid = swap_list i j (heap_of w hid)) as Hh'
    by (unfold heap_of at 1; by rewrite Hh, lookup_insert_eq).
  split; rewrite Hh'.
  - intros k e. rewrite lookup_swap_list by done. rewrite Ha, Hb. intros Hk.
    assert (exists k0, heap_of w hid !! k0 = Some e) as [k0 Hk0]
      by (repeat case_decide; simplify_eq; eauto).
    destruct (coherent_lookup _ _ _ _ Hc Hk0) as (el & He & Hidx & ?).
    rewrite Hel, He. eexists. split_and!; [done| |done]. simpl.
    destruct (decide (k = i)) as [->|Hki]; [|destruct (decide (k = j)) as [->|Hkj]];
      simplify_eq.
    + destruct (decide (e = a)) as [->|]; [|by rewrite decide_True].
      f_equal. by eapply Hinj.
    + by rewrite decide_True.
    + rewrite decide_False by (intros ->; by eapply Hki, Hinj).
      rewrite decide_False by (intros ->; by eapply Hkj, Hinj).
      rewrite Hidx. f_equal. by eapply Hinj.
  - intros e el'. rewrite Hel. intros (el & He & ->)%fmap_Some Hhp. simpl in Hhp |- *.
    destruct (proj2 Hc _ _ He Hhp) as (k & Hk & Hke).
    destruct (decide (e = a)) as [->|Hea]; [|destruct (decide (e = b)) as [->|Heb]].
    + exists j. rewrite lookup_swap_list by done. rewrite Ha, Hb.
      split; [done|]. repeat case_decide; by simplify_eq.
    + exists i. rewrite lookup_swap_list by done. by rewrite decide_True.
    + exists k. rewrite lookup_swap_list by done. split; [done|].
      rewrite !decide_False by congruence. done.
Qed.
Lemma frame_refl w hid : is_Some (heaps w !! hid) -> frame hid w w.
Proof.
  intros ?. split_and!; try done. intros e. by destruct (elements w !! e); constructor.
Qed.

Lemma same_core_trans (a b c : Element V) :
  same_core a b -> same_core b c -> same_core a c.
Proof. unfold same_core. intuition congruence. Qed.

Lemma frame_trans w0 w1 w2 hid : frame hid w0 w1 -> frame hid w1 w2 -> frame hid w0 w2.
Proof.
  intros (Hs1 & Hh1 & ? & Hc1 & Hf1) (Hs2 & Hh2 & ? & Hc2 & Hf2).
  split_and!; try congruence; try done.
  - intros h Hne. rewrite Hh2, Hh1; done.
  - intros e. specialize (Hc1 e). specialize (Hc2 e).
    destruct Hc1; inv Hc2; constructor. by eapply same_core_trans.
  - intros e el He Hne. apply Hf2; [by apply Hf1|done].
Qed.

Lemma frame_key w0 w hid e : frame hid w0 w -> key_of w e = key_of w0 e.
Proof.
  intros (_ & _ & _ & Hc & _). unfold key_of. specialize (Hc e).
  destruct Hc as [x y (? & ? & ? & ?)|]; congruence.
Qed.

Lemma Heap_Swap_frame w w' hid i j : coherent w hid ->
  (i < length (heap_of w hid))%nat -> (j < length (heap_of w hid))%nat ->
  Heap_Swap hid w i j = Some w' -> frame hid w w'.
Proof.
  intros Hc Hi Hj Hw'.
  destruct (lookup_lt_is_Some_2 _ _ Hi) as [a Ha], (lookup_lt_is_Some_2 _ _ Hj) as [b Hb].
  destruct (Heap_Swap_Some w hid i j a b) as (? & ? & Hh & Hs & Hel); [done..|].
  simplify_eq. split_and!; [done| | | |].
  - intros h Hne. by rewrite Hh, lookup_insert_ne.
  - rewrite Hh, lookup_insert_eq. eauto.
  - intros e. rewrite Hel. destruct (elements w !! e); by repeat constructor.
  - intros e el He Hne. rewrite Hel, He. simpl.
    destruct (coherent_lookup _ _ _ _ Hc Ha) as (? & ? & _ & ?).
    destruct (coherent_lookup _ _ _ _ Hc Hb) as (? & ? & _ & ?).
    rewrite !decide_False by congruence. by destruct el.
Qed.

(** [_Heap] satisfies the laws of [heap.Interface] on coherent queues, and
    sifting stays within the frame. *)
#[export] Instance Heap_Laws w0 hid : @HeapLaws (World V) (nat * (Z * Z)) (Heap_Interface hid)
  (fun w => frame hid w0 w /\ coherent w hid) (fun w => keys_at w0 w hid) key_less.
Proof.
  split.
  - intros a. unfold key_less. apply bool_decide_eq_false. lia.
  - intros a b c. unfold key_less. rewrite !bool_decide_eq_false. lia.
  - intros a b. unfold key_less. rewrite bool_decide_eq_true, bool_decide_eq_false. lia.
  - intros w _. simpl. unfold Heap_Len, keys_at. by rewrite length_fmap.
  - intros w i j a b [Hf Hc]. unfold keys_at. rewrite !list_lookup_fmap.
    intros (ea & Hea & ->)%fmap_Some_1 (eb & Heb & ->)%fmap_Some_1. simpl.
    unfold Heap_Less. rewrite Hea, Heb. simpl.
    destruct (coherent_lookup _ _ _ _ Hc Hea) as (xa & Hxa & _).
    destruct (coherent_lookup _ _ _ _ Hc Heb) as (xb & Hxb & _).
    rewrite Hxa, Hxb. simpl. rewrite <- !(frame_key w0 w hid) by done.
    unfold key_of, key_less. rewrite Hxa, Hxb. simpl.
    repeat case_bool_decide; simpl in *; first [done|exfalso; lia].
  - intros w i j [Hf Hc]. unfold keys_at. rewrite length_fmap. intros Hi Hj. simpl.
    destruct (lookup_lt_is_Some_2 _ _ Hi) as [a Ha], (lookup_lt_is_Some_2 _ _ Hj) as [b Hb].
    destruct (Heap_Swap_Some w hid i j a b) as (w' & Hw' & Hh & _); [done..|].
    exists w'. split_and!; [done| | |].
    + eapply frame_trans; [done|]. by apply (Heap_Swap_frame w w' hid i j).
    + by apply (Heap_Swap_coherent w w' hid i j).
    + unfold heap_of at 1. rewrite Hh, lookup_insert_eq. simpl.
      unfold swap_list. rewrite !list_lookup_fmap, Ha, Hb. simpl.
      by rewrite !list_fmap_insert.
Qed.
Definition moved el (z : Z) (h : option nat) : Element V :=
  MkElement (Value el) (priority el) (seq el) z h.

Lemma Heap_Push_Some w hid item el : coherent w hid -> is_Some (heaps w !! hid) ->
  elements w !! item = Some el -> heap el = None ->
  exists w', Heap_Push hid w item = Some w' /\
    heap_of w' hid = heap_of w hid ++ [item] /\ coherent w' hid /\
    elements w' = <[item := moved el (Z.of_nat (length (heap_of w hid))) (Some hid)]> (elements w) /\
    heaps w' = <[hid := heap_of w hid ++ [item]]> (heaps w) /\ sequence w' = sequence w.
Proof.
  intros Hc Hh He Hnone. unfold Heap_Push. erewrite set_index_Some by done. cbn.
  unfold set_heap. cbn. rewrite lookup_insert_eq. cbn.
  eexists. split; [done|]. rewrite heap_of_with_heap. rewrite insert_insert_eq.
  assert (forall k e, heap_of w hid !! k = Some e -> e <> item) as Hne.
  { intros k e Hk ->. destruct (coherent_lookup _ _ _ _ Hc Hk) as (? & ? & _ & ?). congruence. }
  split_and!; try done. split; rewrite heap_of_with_heap; cbn.
  - intros k e [Hk|[Hle Hk]]%lookup_app_Some.
    + rewrite lookup_insert_ne by (apply not_eq_sym; eauto). by apply Hc.
    + apply list_lookup_singleton_Some in Hk as [Hk <-].
      rewrite lookup_insert_eq. eexists. split_and!; [done| |done]. simpl.
      unfold heap_of in *. cbn in *. lia.
  - intros e el'. destruct (decide (e = item)) as [->|Hd].
    + rewrite lookup_insert_eq. intros [= <-] _. eexists. split; [done|].
      by rewrite list_lookup_middle.
    + rewrite lookup_insert_ne by done. intros He' Hhp.
      destruct (proj2 Hc _ _ He' Hhp) as (k & ? & Hk). exists k. split; [done|].
      change (heap_of (with_elements w _) hid) with (heap_of w hid).
      by apply lookup_app_l_Some.
Qed.

Lemma Heap_Pop_Some w hid l x : coherent w hid -> is_Some (heaps w !! hid) ->
  heap_of w hid = l ++ [x] ->
  exists w' el, Heap_Pop hid w = Some (w', x) /\ elements w !! x = Some el /\
    heap el = Some hid /\
    heap_of w' hid = l /\ coherent w' hid /\
    elements w' = <[x := moved el (-1) None]> (elements w) /\
    heaps w' = <[hid := l]> (heaps w) /\ sequence w' = sequence w.
Proof.
  intros Hc Hh Hl.
  assert (heap_of w hid !! length l = Some x) as Hx by (by rewrite Hl, list_lookup_middle).
  destruct (coherent_lookup _ _ _ _ Hc Hx) as (el & He & Hidx & Hhp).
  unfold Heap_Pop. rewrite Hl, length_app. cbn [length].
  rewrite decide_False by lia. replace (length l + 1 - 1)%nat with (length l) by lia.
  rewrite list_lookup_middle by done. cbn [mbind option_bind].
  rewrite take_app_length. erewrite set_index_Some by done. cbn [mbind option_bind].
  unfold set_heap. cbn. rewrite lookup_insert_eq. cbn. rewrite insert_insert_eq.
  assert (forall k, l !! k <> Some x) as Hnin.
  { intros k Hk. assert (heap_of w hid !! k = Some x) as Hk' by (rewrite Hl; by apply lookup_app_l_Some).
    pose proof (coherent_inj _ _ _ _ _ Hc Hx Hk'). apply lookup_lt_Some in Hk. lia. }
  eexists _, el. split_and!; try done.
  { by rewrite heap_of_with_heap || (unfold heap_of; cbn; by rewrite lookup_insert_eq). }
  split; unfold heap_of; cbn; rewrite lookup_insert_eq; cbn.
  - intros k e Hk. rewrite lookup_insert_ne by (intros ->; by eapply Hnin).
    apply Hc. rewrite Hl. by apply lookup_app_l_Some.
  - intros e el'. destruct (decide (e = x)) as [->|Hd].
    + rewrite lookup_insert_eq. by intros [= <-] ?.
    + rewrite lookup_insert_ne by done. intros He' Hhp'.
      destruct (proj2 Hc _ _ He' Hhp') as (k & ? & Hk). exists k. split; [done|].
      rewrite Hl in Hk. apply lookup_app_Some in Hk as [?|[? Hk]]; [done|].
      apply list_lookup_singleton_Some in Hk as [_ <-]. done.
Qed.
Lemma frame_dom w0 w hid : frame hid w0 w -> dom (elements w) = dom (elements w0).
Proof.
  intros (_ & _ & _ & Hc & _). apply set_eq. intros e. rewrite !elem_of_dom.
  destruct (Hc e); [|done]. split; eauto.
Qed.

Lemma frame_local w0 w hid : frame hid w0 w -> local_to hid w0 w.
Proof.
  intros (_ & Hh & _ & Hc & Hf). split_and!; [done| |].
  - intros e el He. specialize (Hc e). rewrite He in Hc. inv Hc as [? el' Hcore|].
    exists el'. destruct Hcore as (? & ? & ? & ?). split_and!; try done.
    intros Hne. specialize (Hf _ _ He Hne). congruence.
  - intros e el h Hne He Hhp. specialize (Hc e). rewrite He in Hc.
    inv Hc as [el0 ? (? & ? & ? & ?) E|]. rewrite <- He. symmetry.
    apply Hf; congruence.
Qed.

Lemma frame_keys w0 w hid : frame hid w0 w -> keys w hid = keys_at w0 w hid.
Proof.
  intros Hf. unfold keys, keys_at. apply list_fmap_ext. intros _ e _.
  by rewrite (frame_key w0 w hid).
Qed.

Lemma keys_at_perm w0 w1 w2 hid :
  keys_at w0 w1 hid ≡ₚ keys_at w0 w2 hid -> heap_of w1 hid ≡ₚ heap_of w2 hid.
Proof.
  intros Hp. apply (Permutation_map fst) in Hp. unfold keys_at in Hp.
  rewrite <- !list_fmap_compose in Hp. by rewrite !list_fmap_id in Hp.
Qed.

Lemma heap_ordered_ext n (l l' : list (nat * (Z * Z))) :
  (forall i, (i < n)%nat -> l !! i = l' !! i) ->
  heap_ordered key_less n l -> heap_ordered key_less n l'.
Proof.
  intros Hl Ho i Hi a b Ha Hb. pose proof (parent_lt i). rewrite <- Hl in Ha, Hb by lia.
  by apply (Ho i Hi a b).
Qed.

(** The last step of [Pop] and [Remove]: dropping the last slot. *)
Lemma Heap_Pop_removed w w1 hid x k : frame hid w w1 -> coherent w1 hid ->
  keys_at w w1 hid ≡ₚ keys w hid ->
  keys_at w w1 hid !! (length (keys w hid) - 1)%nat = Some (x, k) ->
  heap_ordered key_less (length (keys w hid) - 1) (keys_at w w1 hid) ->
  exists w', Heap_Pop hid w1 = Some (w', x) /\ removed hid w w' x.
Proof.
  intros Hf Hc Hp Hlast Ho.
  assert (length (heap_of w1 hid) = length (keys w hid)) as Hlen.
  { apply Permutation_length in Hp. unfold keys, keys_at in *. by rewrite !length_fmap in *. }
  unfold keys_at in Hlast. rewrite list_lookup_fmap in Hlast.
  apply fmap_Some_1 in Hlast as (x' & Hx & [= <- _]).
  assert (exists l, heap_of w1 hid = l ++ [x]) as [l Hl].
  { exists (take (length (keys w hid) - 1) (heap_of w1 hid)).
    rewrite <- (take_drop (length (keys w hid) - 1) (heap_of w1 hid)) at 1. f_equal.
    pose proof (lookup_lt_Some _ _ _ Hx).
    rewrite (drop_S _ x) by done. f_equal. apply drop_ge. lia. }
  destruct (Heap_Pop_Some w1 hid l x) as (w' & el & -> & Hel & Hhel & Hl' & Hc' & Hes & Hhs & Hs);
    [done|apply Hf|done|].
  exists w'. split; [done|].
  assert (length l = (length (keys w hid) - 1)%nat) as Hll.
  { rewrite <- Hlen, Hl, length_app. simpl. lia. }
  assert (forall e, e ∈ l -> key_of w' e = key_of w e) as Hkey.
  { intros e He. rewrite <- (frame_key w w1 hid) by done. unfold key_of. rewrite Hes.
    rewrite lookup_insert_ne; [done|]. intros ->.
    pose proof (coherent_NoDup _ _ Hc) as Hnd. rewrite Hl in Hnd.
    apply NoDup_app in Hnd as (_ & Hnd & _). apply (Hnd e); [done|]. by left. }
  split_and!.
  - split_and!; [by rewrite Hhs, lookup_insert_eq|done|].
    unfold keys, keys_at. rewrite Hl', length_fmap, Hll.
    eapply heap_ordered_ext; [|exact Ho]. intros i Hi.
    unfold keys_at. rewrite Hl, !list_lookup_fmap, lookup_app_l by lia.
    destruct (l !! i) as [e|] eqn:E; [|done]. simpl. rewrite Hkey; [done|].
    by eapply list_elem_of_lookup_2.
  - destruct (frame_local _ _ _ Hf) as (Hh & Hd & Ho'). split_and!.
    + intros h Hne. by rewrite Hhs, lookup_insert_ne, Hh.
    + intros e e0 He. destruct (Hd e e0 He) as (e1 & He1 & Hdata & Hsame). rewrite Hes.
      destruct (decide (e = x)) as [->|]; [|rewrite lookup_insert_ne by done; eauto].
      rewrite lookup_insert_eq. eexists. split_and!; [done| |].
      * simplify_eq. by destruct Hdata as (? & ? & ?).
      * intros Hne. simplify_eq. rewrite (Hsame Hne) in Hhel. done.
    + intros e e0 h Hne. rewrite Hes. destruct (decide (e = x)) as [->|].
      * rewrite lookup_insert_eq. by intros [= <-].
      * rewrite lookup_insert_ne by done. by apply Ho'.
  - rewrite Hes, dom_insert_L, <- (frame_dom _ _ _ Hf). apply elem_of_dom_2 in Hel. set_solver.
  - rewrite Hs. apply Hf.
  - rewrite <- (keys_at_perm w w1 w hid Hp), Hl, Hl'. by rewrite Permutation_app_comm.
  - exists (moved el (-1) None). by rewrite Hes, lookup_insert_eq.
Qed.
Lemma keys_lookup w hid i e : heap_of w hid !! i = Some e ->
  keys w hid !! i = Some (e, key_of w e).
Proof. intros H. unfold keys, keys_at. by rewrite list_lookup_fmap, H. Qed.

(** *** The operations *)
Lemma Pop_empty w hid : heap_of w hid = [] -> Pop hid w = None.
Proof. intros H. unfold Pop, heap_Pop, pop_fix. simpl. unfold Heap_Len. by rewrite H. Qed.

Lemma Pop_head w hid x : wf_queue w hid -> heap_of w hid !! 0%nat = Some x ->
  exists w', Pop hid w = Some (w', x) /\ removed hid w w' x.
Proof.
  intros (Hs & Hc & Ho) Hx. unfold Pop, heap_Pop.
  destruct (@pop_fix_spec _ _ (Heap_Interface hid) _ _ _ (Heap_Laws w hid) w (x, key_of w x))
    as (w1 & -> & [Hf Hc1] & Hp & Hlast & Ho1);
    [by split; [apply frame_refl|]|by apply keys_lookup|done|].
  cbn [mbind option_bind]. by eapply Heap_Pop_removed.
Qed.

(** The root has a smallest key. *)
Lemma head_minimal w hid x e : wf_queue w hid -> heap_of w hid !! 0%nat = Some x ->
  e ∈ heap_of w hid -> key_less (e, key_of w e) (x, key_of w x) = false.
Proof.
  intros (Hs & Hc & Ho) Hx [i Hi]%list_elem_of_lookup_1.
  pose proof (keys_lookup _ _ _ _ Hi) as Hk.
  assert (le_at key_less (keys w hid) 0 i) as Hle.
  { apply (@root_minimal _ _ (Heap_Interface hid) _ _ _ (Heap_Laws w hid) (length (keys w hid)));
      [done|done|by eapply lookup_lt_Some]. }
  apply (Hle _ _ (keys_lookup _ _ _ _ Hx) Hk).
Qed.

Lemma Remove_absent w hid item el : elements w !! item = Some el ->
  heap el <> Some hid -> Remove hid w item = Some (w, false).
Proof. intros He Hne. unfold Remove. rewrite He. simpl. by rewrite bool_decide_true. Qed.

Lemma Remove_present w hid item : wf_queue w hid -> item ∈ heap_of w hid ->
  exists w', Remove hid w item = Some (w', true) /\ removed hid w w' item.
Proof.
  intros (Hs & Hc & Ho) [i Hi]%list_elem_of_lookup_1.
  destruct (coherent_lookup _ _ _ _ Hc Hi) as (el & He & Hidx & Hhp).
  unfold Remove. rewrite He. cbn [mbind option_bind].
  rewrite bool_decide_false by (rewrite Hhp; auto). rewrite bool_decide_false by lia. cbn [orb].
  unfold heap_Remove. rewrite bool_decide_false by lia. rewrite Hidx, Nat2Z.id.
  destruct (@remove_fix_spec _ _ (Heap_Interface hid) _ _ _ (Heap_Laws w hid) w i
    (item, key_of w item))
    as (w1 & -> & [Hf Hc1] & Hp & Hlast & Ho1);
    [by split; [apply frame_refl|]|by apply keys_lookup|done|].
  cbn [mbind option_bind].
  destruct (Heap_Pop_removed w w1 hid item (key_of w item)) as (w' & -> & Hr); try done.
  exists w'. by split.
Qed.

Lemma Push_added w hid x p : wf_queue w hid ->
  exists w' item, Push hid w x p = Some (w', item) /\ added hid w w' item x p.
Proof.
  intros (Hs & Hc & Ho). unfold Push.
  set (item := fresh (dom (elements w))).
  assert (elements w !! item = None) as Hfresh by (apply not_elem_of_dom, is_fresh).
  set (w1 := MkWorld _ _ _).
  assert (coherent w1 hid) as Hc1.
  { split; unfold w1; cbn.
    - intros i e Hi. destruct (coherent_lookup _ _ _ _ Hc Hi) as (el & He & ? & ?).
      exists el. rewrite lookup_insert_ne by congruence. done.
    - intros e el'. destruct (decide (e = item)) as [->|].
      + rewrite lookup_insert_eq. by intros [= <-].
      + rewrite lookup_insert_ne by done. apply Hc. }
  destruct (Heap_Push_Some w1 hid item (MkElement x p (uint64_wrap (sequence w + 1)) 0 None))
    as (w2 & Hw2 & Hh2 & Hc2 & Hes2 & Hhs2 & Hs2); [done|done|by cbn; rewrite lookup_insert_eq|done|].
  change (heap_of w1 hid) with (heap_of w hid) in *.
  assert (forall e, e ∈ heap_of w hid -> key_of w2 e = key_of w e) as Hkey.
  { intros e [i Hi]%list_elem_of_lookup_1.
    destruct (coherent_lookup _ _ _ _ Hc Hi) as (el & He & _).
    unfold key_of. rewrite Hes2. cbn. by rewrite !lookup_insert_ne by congruence. }
  assert (keys_at w2 w2 hid = keys w hid ++ [(item, key_of w2 item)]) as Hkeys.
  { unfold keys, keys_at. rewrite Hh2, fmap_app. f_equal.
    apply list_fmap_ext. intros i e Hi. rewrite Hkey; [done|]. by eapply list_elem_of_lookup_2. }
  unfold heap_Push. fold item w1. rewrite Hw2. cbn [mbind option_bind].
  destruct (@push_fix_spec _ _ (Heap_Interface hid) _ _ _ (Heap_Laws w2 hid) w2
    (keys w hid) (item, key_of w2 item)) as (w3 & -> & [Hf Hc3] & Hp & Ho3);
    [|done|done|].
  { split; [apply frame_refl; rewrite Hhs2, lookup_insert_eq; eauto|done]. }
  cbn [mbind option_bind]. exists w3, item. split; [done|].
  destruct (frame_local _ _ _ Hf) as (Hlh & Hld & Hlo).
  split_and!.
  - split_and!; [apply Hf|done|]. rewrite (frame_keys w2) by done. done.
  - split_and!.
    + intros h Hne. rewrite Hlh, Hhs2, lookup_insert_ne by done. done.
    + intros e el He. destruct (Hld e el) as (el' & ? & ? & ?); [|by exists el'].
      rewrite Hes2. cbn. by rewrite !lookup_insert_ne by congruence.
    + intros e el h Hne He Hhp. specialize (Hlo e el h Hne He Hhp).
      rewrite Hes2 in Hlo. cbn in Hlo. destruct (decide (e = item)) as [->|].
      * rewrite lookup_insert_eq in Hlo. simplify_eq. cbn in Hhp. congruence.
      * by rewrite !lookup_insert_ne in Hlo by done.
  - done.
  - rewrite (frame_dom _ _ _ Hf), Hes2. cbn. rewrite !dom_insert_L. set_solver.
  - rewrite (proj1 Hf), Hs2. done.
  - rewrite (keys_at_perm w2 w3 w2 hid Hp), Hh2. by rewrite Permutation_app_comm.
  - destruct (Hld item (moved (MkElement x p (uint64_wrap (sequence w + 1)) 0 None)
      (Z.of_nat (length (heap_of w hid))) (Some hid))) as (el' & Hel' & (? & ? & ?) & _).
    { by rewrite Hes2, lookup_insert_eq. }
    exists el'. split_and!; try done.
    + rewrite <- H1. cbn. by rewrite (proj1 Hf), Hs2.
    + destruct (Hf) as (_ & _ & _ & Hcore & _). specialize (Hcore item).
      rewrite Hes2, lookup_insert_eq, Hel' in Hcore. inv Hcore as [?? (? & ? & ? & Hh)|]. done.
Qed.

(** Operations on another heap preserve a well-formed queue. *)
Lemma local_wf hid h w w' : h <> hid -> local_to hid w w' ->
  wf_queue w h -> wf_queue w' h /\ heap_of w' h = heap_of w h /\
    (forall e, e ∈ heap_of w h -> elements w' !! e = elements w !! e).
Proof.
  intros Hne (Hh & Hd & Hold) (Hs & Hc & Ho).
  assert (heap_of w' h = heap_of w h) as Hheap by (unfold heap_of; by rewrite Hh).
  assert (forall e, e ∈ heap_of w h -> elements w' !! e = elements w !! e) as Hsame.
  { intros e [i Hi]%list_elem_of_lookup_1.
    destruct (coherent_lookup _ _ _ _ Hc Hi) as (el & He & _ & Hhp).
    destruct (Hd _ _ He) as (el' & -> & _ & Heq). rewrite Heq; [done|]. congruence. }
  split; [|done]. split_and!; [by rewrite Hh| |].
  - split; rewrite Hheap.
    + intros i e Hi. rewrite Hsame by (by eapply list_elem_of_lookup_2). by apply Hc.
    + intros e el' He' Hhp. apply (proj2 Hc e el'); [|done]. by eapply Hold.
  - assert (keys w' h = keys w h) as ->; [|done]. unfold keys, keys_at. rewrite Hheap.
    apply list_fmap_ext. intros i e Hi. unfold key_of. rewrite Hsame; [done|].
    by eapply list_elem_of_lookup_2.
Qed.
End lemmas.

(** ** The queue implements the specification *)
Section refinement.
Context {V : Type}.
Implicit Types (w : World V) (e hid : nat) (l : list (Entry V)).

Lemma local_data w w' hid e : local_to hid w w' -> e ∈ dom (elements w) ->
  key_of w' e = key_of w e.
Proof.
  intros (_ & Hd & _) [el He]%elem_of_dom. destruct (Hd _ _ He) as (el' & He' & (? & ? & ?) & _).
  unfold key_of. rewrite He, He'. congruence.
Qed.

Lemma local_entry w w' hid (x : Entry V) : local_to hid w w' -> entry_in w x -> entry_in w' x.
Proof.
  intros (_ & Hd & _) (el & He & Hv & Hp). destruct (Hd _ _ He) as (el' & He' & (? & ? & ?) & _).
  exists el'. split_and!; congruence.
Qed.

Lemma entry_in_dom w (x : Entry V) : entry_in w x -> ptr x ∈ dom (elements w).
Proof. intros (el & He & _). by apply elem_of_dom_2 in He. Qed.

Lemma local_served w w' hid (x y : Entry V) : local_to hid w w' ->
  entry_in w x -> entry_in w y -> served_before w x y -> served_before w' x y.
Proof.
  intros Hl Hx%entry_in_dom Hy%entry_in_dom. unfold served_before.
  by rewrite !(local_data w w' hid) by done.
Qed.

Lemma StronglySorted_Forall_impl {A} (P : A -> Prop) (R1 R2 : A -> A -> Prop) (l : list A) :
  (forall x y, P x -> P y -> R1 x y -> R2 x y) -> Forall P l ->
  StronglySorted R1 l -> StronglySorted R2 l.
Proof.
  intros HR HP HS. induction HS as [|x l' HS IH Hx]; constructor;
    apply Forall_cons in HP as [HPx HPl]; [by apply IH|].
  rewrite Forall_forall in *. eauto.
Qed.

Lemma local_sorted w w' hid l : local_to hid w w' -> Forall (entry_in w) l ->
  StronglySorted (served_before w) l -> StronglySorted (served_before w') l.
Proof. intros. eapply StronglySorted_Forall_impl; [|done..]. eauto using local_served. Qed.

Lemma seqs_ok_kept w w' hid : local_to hid w w' -> dom (elements w') = dom (elements w) ->
  sequence w' = sequence w -> seqs_ok w -> seqs_ok w'.
Proof.
  intros (_ & Hd & _) Hdom Hs (Hr & Hle & Hinj).
  assert (forall e el', elements w' !! e = Some el' ->
    exists el, elements w !! e = Some el /\ seq el = seq el') as Hback.
  { intros e el' He'. assert (e ∈ dom (elements w)) as [el He]%elem_of_dom
      by (rewrite <- Hdom; by apply elem_of_dom_2 in He').
    destruct (Hd _ _ He) as (? & ? & (? & ? & ?) & _). exists el. split; congruence. }
  split_and!; rewrite ?Hs; try lia.
  - intros e el' He'. destruct (Hback _ _ He') as (? & ? & <-). eauto.
  - intros e1 e2 el1 el2 H1 H2 Heq.
    destruct (Hback _ _ H1) as (? & ? & ?), (Hback _ _ H2) as (? & ? & ?).
    eapply Hinj; [done|done|congruence].
Qed.

Lemma seqs_ok_added w w' hid item x p : added hid w w' item x p ->
  sequence w + 1 < two64 -> seqs_ok w -> seqs_ok w'.
Proof.
  intros (_ & (_ & Hd & _) & Hnone & Hdom & Hs & _ & (el0 & Hel0 & _ & _ & Hseq & _)) Hroom
    (Hr & Hle & Hinj).
  rewrite uint64_wrap_id in Hs by lia.
  assert (forall e el', elements w' !! e = Some el' -> e <> item ->
    exists el, elements w !! e = Some el /\ seq el = seq el') as Hback.
  { intros e el' He' Hne. assert (e ∈ dom (elements w)) as [el He]%elem_of_dom
      by (apply elem_of_dom_2 in He'; set_solver).
    destruct (Hd _ _ He) as (? & ? & (? & ? & ?) & _). exists el. split; congruence. }
  split_and!; try lia.
  - intros e el' He'. destruct (decide (e = item)) as [->|Hne]; [simplify_eq; lia|].
    destruct (Hback _ _ He' Hne) as (? & He & <-). specialize (Hle _ _ He). lia.
  - intros e1 e2 el1 el2 H1 H2 Heq.
    destruct (decide (e1 = item)) as [->|Hne1], (decide (e2 = item)) as [->|Hne2]; try done.
    + destruct (Hback _ _ H2 Hne2) as (? & He & ?). specialize (Hle _ _ He). simplify_eq. lia.
    + destruct (Hback _ _ H1 Hne1) as (? & He & ?). specialize (Hle _ _ He). simplify_eq. lia.
    + destruct (Hback _ _ H1 Hne1) as (? & ? & ?), (Hback _ _ H2 Hne2) as (? & ? & ?).
      eapply Hinj; [done|done|congruence].
Qed.

Lemma spec_push_Permutation (x : Entry V) l : spec_push x l ≡ₚ x :: l.
Proof.
  induction l as [|y l IH]; [done|]. simpl. case_bool_decide; [|done].
  rewrite IH. by constructor.
Qed.

Lemma key_of_entry w (x : Entry V) el : elements w !! ptr x = Some el ->
  key_of w (ptr x) = (priority el, seq el).
Proof. intros H. unfold key_of. by rewrite H. Qed.

Lemma spec_push_sorted w (x : Entry V) l : entry_in w x -> Forall (entry_in w) l ->
  Forall (fun y => (key_of w (ptr y)).2 < (key_of w (ptr x)).2) l ->
  StronglySorted (served_before w) l -> StronglySorted (served_before w) (spec_push x l).
Proof.
  intros Hx HP Hseq HS.
  assert (forall y, entry_in w y -> (key_of w (ptr y)).1 = y.2) as Hprio.
  { intros y (ey & Hey & _ & Hpy). by rewrite (key_of_entry w y ey). }
  induction HS as [|y l HS IH Hy]; simpl; [by repeat constructor|].
  apply Forall_cons in HP as [HPy HPl]. apply Forall_cons in Hseq as [Hsy Hsl].
  pose proof (Hprio _ HPy) as Ey. pose proof (Hprio _ Hx) as Ex.
  case_bool_decide as Hle.
  - constructor; [by apply IH|]. rewrite (spec_push_Permutation x l). constructor; [|done].
    unfold served_before, key_less. apply bool_decide_eq_true. simpl. lia.
  - assert (served_before w x y) as Hxy.
    { unfold served_before, key_less. apply bool_decide_eq_true. simpl. lia. }
    constructor; [by constructor|]. constructor; [done|].
    eapply Forall_impl; [exact Hy|]. intros z. unfold served_before, key_less in *.
    rewrite !bool_decide_eq_true in *. simpl in *. lia.
Qed.

Lemma spec_remove_absent e l : e ∉ ptr <$> l -> spec_remove e l = l.
Proof.
  induction l as [|x l IH]; [done|]. rewrite fmap_cons, elem_of_cons. intros Hn.
  unfold spec_remove. rewrite filter_cons, decide_True by (intros Heq; apply Hn; auto).
  f_equal. apply IH. auto.
Qed.

Lemma refines_length w hid l : refines w hid l -> Len hid w = length l.
Proof.
  intros (_ & _ & Hp & _). apply Permutation_length in Hp. rewrite length_fmap in Hp.
  by rewrite Hp.
Qed.

Lemma refines_head w hid x l : refines w hid (x :: l) -> heap_of w hid !! 0%nat = Some (ptr x).
Proof.
  intros (Hwf & _ & Hp & _ & HS).
  destruct (heap_of w hid) as [|e h] eqn:E; [by apply Permutation_length in Hp|].
  assert (heap_of w hid !! 0%nat = Some e) as He by (by rewrite E).
  assert (e ∈ ptr <$> x :: l) as Hin by (rewrite Hp; left).
  assert (ptr x ∈ heap_of w hid) as Hx by (rewrite E, <- Hp; left).
  apply list_elem_of_fmap in Hin as (y & -> & [->|Hy]%elem_of_cons); [done|].
  pose proof (head_minimal _ _ _ _ Hwf He Hx) as Hmin.
  apply StronglySorted_inv in HS as [HS' Hall]. rewrite Forall_forall in Hall. specialize (Hall _ Hy).
  unfold served_before in Hall. congruence.
Qed.

Lemma removed_refines w w' hid l e : refines w hid l -> removed hid w w' e ->
  refines w' hid (spec_remove e l).
Proof.
  intros (Hwf & Hseq & Hp & HF & HS) (Hwf' & Hloc & Hdom & Hs & Hh & _).
  split_and!; [done|by eapply seqs_ok_kept| | |].
  - apply (Permutation_cons_inv (a := e)). rewrite <- Hh, <- Hp.
    assert (NoDup (ptr <$> l)) as Hnd by (rewrite Hp; apply coherent_NoDup, Hwf).
    assert (e ∈ ptr <$> l) as Hin by (rewrite Hp, Hh; left).
    clear -Hnd Hin. induction l as [|x l IH]; [by apply not_elem_of_nil in Hin|].
    apply NoDup_cons in Hnd as [Hx Hnd]. unfold spec_remove. rewrite filter_cons.
    destruct (decide (ptr x = e)) as [<-|Hne].
    + rewrite decide_False by auto. rewrite fmap_cons. f_equiv.
      fold (spec_remove (ptr x) l). by rewrite (spec_remove_absent (ptr x) l Hx).
    + rewrite decide_True by done. rewrite !fmap_cons.
      rewrite fmap_cons, elem_of_cons in Hin. destruct Hin as [->|Hin]; [done|].
      rewrite perm_swap. f_equiv. by apply IH.
  - apply Forall_forall. intros x [_ Hx]%list_elem_of_filter.
    rewrite Forall_forall in HF. eauto using local_entry.
  - eapply local_sorted; [done| |].
    + apply Forall_forall. intros x [_ Hx]%list_elem_of_filter. rewrite Forall_forall in HF. auto.
    + clear -HS. induction HS as [|x l HS IH Hx]; [constructor|].
      unfold spec_remove. rewrite filter_cons. case_decide; [|done].
      constructor; [done|]. apply Forall_forall. intros y [_ Hy]%list_elem_of_filter.
      rewrite Forall_forall in Hx. auto.
Qed.

(** C8: [Push] inserts behind every element of the same or a higher priority:
    elements of equal priority are served in insertion order, as long as the
    package counter [sequence] does not wrap around. *)
Theorem Push_refines w hid l x p :
  refines w hid l -> sequence w + 1 < two64 ->
  exists w' item, Push hid w x p = Some (w', item) /\
    refines w' hid (spec_push (item, x, p) l) /\
    elements w !! item = None.
Proof.
  intros (Hwf & Hseq & Hp & HF & HS) Hroom.
  destruct (Push_added w hid x p Hwf) as (w' & item & -> & Hadd).
  exists w', item. split; [done|].
  pose proof Hadd as (Hwf' & Hloc & Hnone & Hdom & Hs & Hh & (el & Hel & Hv & Hpr & Hsq & _)).
  assert (entry_in w' (item, x, p)) as Hin by (exists el; done).
  assert (Forall (entry_in w') l) as HF'.
  { eapply Forall_impl; [done|]. eauto using local_entry. }
  split; [|done]. split_and!; [done|by eapply seqs_ok_added| | |].
  - rewrite spec_push_Permutation, fmap_cons. by rewrite Hh, Hp.
  - rewrite spec_push_Permutation. by constructor.
  - apply spec_push_sorted; [done|done| |by eapply local_sorted].
    rewrite Forall_forall in HF |- *. intros y Hy.
    pose proof (HF _ Hy) as (ey & Hey & _).
    rewrite (local_data w w' hid) by (done || by apply elem_of_dom_2 in Hey).
    rewrite (key_of_entry w y ey), (key_of_entry w' (item, x, p) el) by done. simpl.
    rewrite Hsq, Hs, uint64_wrap_id by (destruct Hseq; lia).
    destruct Hseq as (_ & Hle & _). specialize (Hle _ _ Hey). lia.
Qed.

(** C9: [Pop] and [Peek] serve the head of the specification's list; both
    panic on an empty queue. *)
Theorem Pop_refines w hid l :
  refines w hid l ->
  match l with
  | [] => Pop hid w = None /\ Peek hid w = None
  | x :: l' => Peek hid w = Some (ptr x) /\
      exists w', Pop hid w = Some (w', ptr x) /\ refines w' hid l' /\ entry_in w' x
  end.
Proof.
  intros Href. destruct l as [|x l'].
  - destruct Href as (_ & _ & Hp & _). apply Permutation_nil_l in Hp. symmetry in Hp.
    split; [by apply Pop_empty|]. unfold Peek, Heap_Peek. by rewrite Hp.
  - pose proof (refines_head _ _ _ _ Href) as Hhead. split; [done|].
    destruct (Pop_head w hid (ptr x)) as (w' & Hpop & Hrem); [apply Href|done|].
    exists w'. split; [done|].
    assert (spec_remove (ptr x) (x :: l') = l') as Hl'.
    { unfold spec_remove. rewrite filter_cons, decide_False by auto.
      apply spec_remove_absent. destruct Href as (Hwf & _ & Hp & _).
      assert (NoDup (ptr <$> x :: l')) as Hnd by (rewrite Hp; apply coherent_NoDup, Hwf).
      rewrite fmap_cons in Hnd. by apply NoDup_cons in Hnd as [Hnin _]. }
    split; [rewrite <- Hl'; by apply (removed_refines w)|].
    destruct Href as (_ & _ & _ & HF & _). apply Forall_cons in HF as [Hx _].
    eapply local_entry; [apply Hrem|done].
Qed.

(** C10: [Remove] takes out exactly the given element when it is in this queue,
    and otherwise, for instance when it was popped before or belongs to
    another queue, changes nothing and returns [false]. *)
Theorem Remove_refines w hid l item el :
  refines w hid l -> elements w !! item = Some el ->
  exists w' b, Remove hid w item = Some (w', b) /\
    b = bool_decide (item ∈ ptr <$> l) /\
    refines w' hid (spec_remove item l) /\ (b = false -> w' = w).
Proof.
  intros Href He. pose proof Href as (Hwf & _ & Hp & _).
  destruct (decide (item ∈ ptr <$> l)) as [Hin|Hnin].
  - destruct (Remove_present w hid item) as (w' & -> & Hrem); [done|by rewrite <- Hp|].
    exists w', true. rewrite bool_decide_true by done. split_and!; try done.
    by eapply removed_refines.
  - exists w, false. rewrite bool_decide_false by done. split_and!; try done.
    + eapply Remove_absent; [done|]. intros Hhp. apply Hnin. rewrite Hp.
      destruct Hwf as (_ & Hc & _). destruct (proj2 Hc _ _ He Hhp) as (i & _ & Hi).
      by eapply list_elem_of_lookup_2.
    + by rewrite spec_remove_absent.
Qed.
End refinement.

(** ** All the queues of a store *)
Section reachable.
Context {V : Type}.
Implicit Types (w : World V) (e hid : nat).

(** One call of the package's functions; a [Push] that would wrap the 64-bit
    counter around is excluded. *)
Inductive pq_step : World V -> World V -> Prop :=
| step_new w : pq_step w (NewPriorityQueue w).1
| step_push w w' hid x p e : is_Some (heaps w !! hid) -> sequence w + 1 < two64 ->
    Push hid w x p = Some (w', e) -> pq_step w w'
| step_pop w w' hid e : is_Some (heaps w !! hid) -> Pop hid w = Some (w', e) -> pq_step w w'
| step_remove w w' hid e b : is_Some (heaps w !! hid) -> Remove hid w e = Some (w', b) ->
    pq_step w w'.

(** Every heap of the store is well formed and no element points to a heap
    that does not exist. *)
Definition wf_world w : Prop :=
  seqs_ok w /\
  (forall e el hid, elements w !! e = Some el -> heap el = Some hid -> is_Some (heaps w !! hid)) /\
  (forall hid, is_Some (heaps w !! hid) -> wf_queue w hid).

Definition empty_world : World V := MkWorld ∅ ∅ 0.

Lemma wf_world_local w w' hid : wf_world w -> wf_queue w' hid -> local_to hid w w' ->
  seqs_ok w' -> wf_world w'.
Proof.
  intros (_ & Hdang & Hwf) Hq Hloc Hseq. split_and!; [done| |].
  - intros e el h He Hhp. destruct (decide (h = hid)) as [->|Hne]; [apply Hq|].
    destruct Hloc as (Hh & _ & Hold). rewrite Hh by done. eapply Hdang; [|done]. by eapply Hold.
  - intros h Hh. destruct (decide (h = hid)) as [->|Hne]; [done|].
    eapply local_wf; [done|done|]. apply Hwf. destruct Hloc as (Heq & _). by rewrite <- Heq.
Qed.

Lemma removed_wf_world w w' hid e : wf_world w -> removed hid w w' e -> wf_world w'.
Proof.
  intros Hw (Hq & Hloc & Hdom & Hs & _). eapply wf_world_local; [done..|].
  eapply seqs_ok_kept; [done..|]. apply Hw.
Qed.

Lemma Pop_inv w w' hid e : wf_queue w hid -> Pop hid w = Some (w', e) -> removed hid w w' e.
Proof.
  intros Hq Hpop. destruct (heap_of w hid !! 0%nat) as [x|] eqn:Hx.
  - destruct (Pop_head w hid x) as (w2 & ? & ?); [done..|]. by simplify_eq.
  - rewrite Pop_empty in Hpop; [done|]. by destruct (heap_of w hid).
Qed.

Lemma Remove_inv w w' hid e b : wf_queue w hid -> Remove hid w e = Some (w', b) ->
  (b = true /\ removed hid w w' e) \/ (b = false /\ w' = w).
Proof.
  intros Hq Hrem. destruct (decide (e ∈ heap_of w hid)) as [Hin|Hnin].
  - destruct (Remove_present w hid e) as (w2 & ? & ?); [done..|]. simplify_eq. auto.
  - destruct (elements w !! e) as [el|] eqn:He; [|by unfold Remove in Hrem; rewrite He in Hrem].
    right. destruct (decide (heap el = Some hid)) as [Hhp|Hne].
    + destruct Hq as (_ & Hc & _). destruct (proj2 Hc _ _ He Hhp) as (i & _ & Hi).
      by apply list_elem_of_lookup_2 in Hi.
    + rewrite (Remove_absent w hid e el) in Hrem by done. by simplify_eq.
Qed.

Lemma wf_world_step w w' : wf_world w -> pq_step w w' -> wf_world w'.
Proof.
  intros Hw Hstep. pose proof Hw as (Hseq & Hdang & Hwf).
  destruct Hstep as [w|w w' hid x p e Hh Hroom Hpush|w w' hid e Hh Hpop|w w' hid e b Hh Hrem].
  - unfold NewPriorityQueue. cbn [fst].
    assert (heaps w !! fresh (dom (heaps w)) = None) as Hn by (apply not_elem_of_dom, is_fresh).
    set (hid := fresh _) in *.
    assert (forall e el, elements w !! e = Some el -> heap el <> Some hid) as Hno.
    { intros e el He Hhp. destruct (Hdang _ _ _ He Hhp). congruence. }
    eapply (wf_world_local w _ hid); [done| | |exact Hseq].
    + split_and!; [cbn; rewrite lookup_insert_eq; eauto| |].
      * split; rewrite heap_of_with_heap; [by intros|]. intros e el He Hhp.
        by destruct (Hno _ _ He).
      * unfold keys, keys_at. rewrite heap_of_with_heap. intros i Hi. simpl in Hi. lia.
    + split_and!; cbn; [by intros; rewrite lookup_insert_ne| |done].
      intros e el He. by exists el.
  - destruct (Push_added w hid x p) as (w2 & e2 & ? & Hadd); [by apply Hwf|]. simplify_eq.
    pose proof Hadd as (? & ? & _). eapply wf_world_local; [done..|]. by eapply seqs_ok_added.
  - eapply removed_wf_world; [done|]. apply Pop_inv; [by apply Hwf|done].
  - destruct (Remove_inv w w' hid e b) as [[_ Hr]|[_ ->]]; [by apply Hwf|done| |done].
    by eapply removed_wf_world.
Qed.

(** C11: whatever sequence of [NewPriorityQueue], [Push], [Pop] and [Remove]
    calls a program makes on any number of queues, fewer of [Push] than the counter
    can count without wrapping, every queue stays heap
    ordered with the [index] and [heap] fields of its elements consistent with
    its slice. *)
Theorem reachable_wf w : rtc pq_step empty_world w -> wf_world w.
Proof.
  apply rtc_invariant; [apply wf_world_step|].
  unfold wf_world, seqs_ok. cbn. split_and!.
  1-2: unfold two64; lia.
  all: intros *; rewrite ?lookup_empty; try done; by intros [? ?].
Qed.

(** an operation on one queue does not disturb another one. *)
Theorem queues_independent w w' hid h l :
  h <> hid -> refines w h l ->
  ((exists e, wf_queue w hid /\ Pop hid w = Some (w', e)) \/
   (exists e b, wf_queue w hid /\ Remove hid w e = Some (w', b)) \/
   (exists x p e, wf_queue w hid /\ sequence w + 1 < two64 /\ Push hid w x p = Some (w', e))) ->
  refines w' h l.
Proof.
  intros Hne (Hwf & Hseq & Hp & HF & HS) Hop.
  assert (w' = w \/ local_to hid w w' /\ seqs_ok w') as [->|[Hloc Hseq']].
  { destruct Hop as [(e & Hq & Hpop)|[(e & b & Hq & Hrem)|(x & p & e & Hq & Hroom & Hpush)]].
    - right. pose proof (Pop_inv _ _ _ _ Hq Hpop) as (_ & ? & ? & ? & _).
      split; [done|]. by eapply seqs_ok_kept.
    - destruct (Remove_inv _ _ _ _ _ Hq Hrem) as [[_ (_ & ? & ? & ? & _)]|[_ ->]]; [|by left].
      right. split; [done|]. by eapply seqs_ok_kept.
    - right. destruct (Push_added w hid x p Hq) as (w2 & e2 & ? & Hadd). simplify_eq.
      split; [apply Hadd|]. by eapply seqs_ok_added. }
  - by split_and!.
  - destruct (local_wf hid h w w') as (Hwf' & Hheap & _); [done..|].
    split_and!; [done|done|by rewrite Hheap| |by eapply local_sorted].
    eapply Forall_impl; [done|]. eauto using local_entry.
Qed.

Lemma New_refines w : wf_world w ->
  refines (NewPriorityQueue w).1 (NewPriorityQueue w).2 [].
Proof.
  intros Hw. assert (wf_world (NewPriorityQueue w).1) as (Hs & _ & Hwf)
    by (eapply wf_world_step; [done|constructor]).
  split_and!; [|done| |constructor|constructor].
  - apply Hwf. cbn. rewrite lookup_insert_eq. eauto.
  - unfold NewPriorityQueue. cbn [fst snd]. by rewrite heap_of_with_heap.
Qed.
End reachable.

(** ** The interface of the executor *)
Section instance.
Context (hid : nat).

#[export] Instance PriorityQueue_TaskQueue : TaskQueue (World nat) nat := {|
  tq_push := Push hid;
  tq_pop w := r ← Pop hid w; el ← elements r.1 !! r.2; Some (r.1, Value el);
  tq_peek w := e ← Peek hid w; el ← elements w !! e; Some (Value el);
  tq_remove := Remove hid;
  tq_len := Len hid;
|}.

Definition pq_item (w : World nat) (e : nat) : nat * nat * Z :=
  match elements w !! e with
  | Some el => (e, Value el, priority el)
  | None => (e, 0%nat, 0)
  end.

Lemma pq_item_local (w w' : World nat) e : local_to hid w w' -> e ∈ dom (elements w) ->
  pq_item w' e = pq_item w e.
Proof.
  intros (_ & Hd & _) [el He]%elem_of_dom. destruct (Hd _ _ He) as (el' & He' & (? & ? & ?) & _).
  unfold pq_item. rewrite He, He'. congruence.
Qed.

Lemma pq_items_local (w w' : World nat) h : local_to hid w w' -> Forall (fun e => e ∈ dom (elements w)) h ->
  pq_item w' <$> h = pq_item w <$> h.
Proof.
  intros Hl HF. apply list_fmap_ext. intros i e Hi. apply pq_item_local; [done|].
  eapply Forall_lookup_1 in HF; [|done]. done.
Qed.

Lemma wf_queue_allocated (w : World nat) : wf_queue w hid ->
  Forall (fun e => e ∈ dom (elements w)) (heap_of w hid).
Proof.
  intros (_ & Hc & _). apply Forall_lookup. intros i e Hi.
  destruct (coherent_lookup _ _ _ _ Hc Hi) as (el & He & _). by apply elem_of_dom_2 in He.
Qed.

Lemma local_known (w w' : World nat) e : local_to hid w w' -> is_Some (elements w !! e) ->
  is_Some (elements w' !! e).
Proof. intros (_ & Hd & _) [el He]. destruct (Hd _ _ He) as (? & ? & _). eauto. Qed.

Lemma removed_items (w w' : World nat) e : wf_queue w hid -> removed hid w w' e ->
  pq_item w <$> heap_of w hid ≡ₚ pq_item w e :: (pq_item w' <$> heap_of w' hid).
Proof.
  intros Hq (_ & Hloc & _ & _ & Hh & _). pose proof (wf_queue_allocated _ Hq) as HF.
  rewrite Hh in HF |- *. apply Forall_cons in HF as [_ HF]. rewrite fmap_cons.
  by rewrite (pq_items_local w w').
Qed.

(** The heap keeps the promises of the interface. *)
#[export] Instance PriorityQueue_TaskQueueLaws : TaskQueueLaws (World nat) nat.
Proof.
  refine {|
    tq_ok := fun (w : World nat) => wf_queue w hid;
    tq_items := fun (w : World nat) => pq_item w <$> heap_of w hid;
    tq_known := fun (w : World nat) e => is_Some (elements w !! e);
  |}.
  - intros w _. simpl. unfold Len, Heap_Len. by rewrite length_fmap.
  - intros w t p Hq. destruct (Push_added w hid t p Hq) as (w' & e & Hp & Hadd).
    pose proof Hadd as (Hq' & Hloc & _ & _ & _ & Hh & (el & He & Hv & Hpr & _)).
    exists w', e. split_and!; try done.
    + rewrite Hh, fmap_cons, (pq_items_local w w') by (done || by apply wf_queue_allocated).
      unfold pq_item at 1. rewrite He. by rewrite Hv, Hpr.
    + intros h'. by apply local_known.
  - intros w Hq Hne. destruct (heap_of w hid !! 0%nat) as [x|] eqn:Hx.
    2: { by destruct (heap_of w hid). }
    destruct (Pop_head w hid x Hq Hx) as (w' & Hp & Hrem).
    pose proof Hrem as (Hq' & Hloc & _ & _ & Hh & _).
    pose proof (wf_queue_allocated _ Hq) as HF. rewrite Forall_forall in HF.
    assert (x ∈ heap_of w hid) as Hin by by eapply list_elem_of_lookup_2.
    destruct (proj1 (elem_of_dom _ _) (HF _ Hin)) as [el He].
    pose proof Hloc as (_ & Hd & _). destruct (Hd _ _ He) as (el' & He' & (Hv & Hpr & _) & _).
    exists w', x, (Value el), (priority el). split_and!.
    + simpl. rewrite Hp. simpl. rewrite He'. simpl. by rewrite Hv.
    + simpl. unfold Peek, Heap_Peek. rewrite Hx. simpl. by rewrite He.
    + done.
    + rewrite (removed_items _ _ _ Hq Hrem). unfold pq_item at 1. by rewrite He.
    + intros y (e & -> & Hein)%list_elem_of_fmap.
      assert (e ∈ heap_of w hid) as Hein' by (rewrite Hh; by right).
      pose proof (head_minimal _ _ _ _ Hq Hx Hein') as Hmin.
      rewrite (pq_item_local w) by eauto.
      destruct (proj1 (elem_of_dom _ _) (HF _ Hein')) as [ey Hey].
      unfold pq_item, key_less, key_of in *. rewrite He, Hey in Hmin. rewrite Hey. simpl in *.
      apply bool_decide_eq_false in Hmin. lia.
    + intros h'. by apply local_known.
  - intros w e Hq [el He]. destruct (decide (e ∈ heap_of w hid)) as [Hin|Hnin].
    + left. destruct (Remove_present w hid e Hq Hin) as (w' & ? & Hrem).
      exists w', (Value el), (priority el). split_and!; [done|apply Hrem| |intros h'; apply local_known, Hrem].
      rewrite (removed_items _ _ _ Hq Hrem). unfold pq_item at 1. by rewrite He.
    + right. split.
      { simpl. eapply Remove_absent; [done|]. intros Hhp. apply Hnin. destruct Hq as (_ & Hc & _).
        destruct (proj2 Hc _ _ He Hhp) as (i & _ & Hi). by eapply list_elem_of_lookup_2. }
      rewrite <- list_fmap_compose.
      intros (x & E & Hx)%list_elem_of_fmap. cbn in E. unfold pq_item in E. case_match; cbn in E; congruence.
Defined.
End instance.

(** ** Witnesses: a queue that serves 20, then 10 *)
Section witnesses.
Definition demo0 : World nat := (NewPriorityQueue empty_world).1.
Definition demo_hid : nat := (NewPriorityQueue (V := nat) empty_world).2.
Definition demo1 : World nat := default demo0 (fst <$> Push demo_hid demo0 10%nat 3).
Definition demo2 : World nat := default demo0 (fst <$> Push demo_hid demo1 20%nat 1).
Definition demo_list : list (Entry nat) := [(1%nat, 20%nat, 1); (0%nat, 10%nat, 3)].

Lemma demo0_wf : wf_world demo0.
Proof.
  eapply wf_world_step; [|apply step_new]. unfold wf_world, seqs_ok. cbn.
  split_and!; try (unfold two64; lia); intros *; rewrite ?lookup_empty; try done; by intros [? ?].
Qed.

Lemma demo_wf : wf_world demo2.
Proof.
  apply (wf_world_step demo1).
  - apply (wf_world_step demo0); [apply demo0_wf|].
    apply (step_push _ _ demo_hid 10%nat 3 0%nat); [|done|vm_compute; reflexivity].
    apply is_Some_check. vm_compute. reflexivity.
  - apply (step_push _ _ demo_hid 20%nat 1 1%nat); [|done|vm_compute; reflexivity].
    apply is_Some_check. vm_compute. reflexivity.
Qed.

Lemma demo_refines : refines demo2 demo_hid demo_list.
Proof.
  pose proof demo_wf as (Hs & _ & Hwf). split_and!.
  - apply Hwf. apply is_Some_check. vm_compute. reflexivity.
  - done.
  - replace (heap_of demo2 demo_hid) with [1; 0]%nat by (vm_compute; reflexivity). done.
  - repeat constructor; eexists; split_and!; try (vm_compute; reflexivity).
  - repeat constructor; vm_compute; reflexivity.
Qed.

Lemma Push_refines_witness : exists w' item,
  Push demo_hid demo2 30%nat 1 = Some (w', item) /\
  refines w' demo_hid (spec_push (item, 30%nat, 1) demo_list).
Proof.
  destruct (Push_refines demo2 demo_hid demo_list 30%nat 1)
    as (w' & item & ? & ? & _); [exact demo_refines|vm_compute; reflexivity|eauto].
Defined.

Lemma Pop_refines_witness : Peek demo_hid demo2 = Some 1%nat /\
  exists w', Pop demo_hid demo2 = Some (w', 1%nat) /\ refines w' demo_hid [(0%nat, 10%nat, 3)].
Proof.
  destruct (Pop_refines demo2 demo_hid demo_list demo_refines)
    as (? & w' & ? & ? & _). eauto.
Defined.

Lemma Remove_refines_witness : exists w', Remove demo_hid demo2 0%nat = Some (w', true) /\
  refines w' demo_hid [(1%nat, 20%nat, 1)].
Proof.
  destruct (elements demo2 !! 0%nat) as [el|] eqn:He; [|vm_compute in He; discriminate].
  destruct (Remove_refines demo2 demo_hid demo_list 0%nat el demo_refines He)
    as (w' & b & ? & -> & ? & _). eauto.
Defined.

(** A second queue is not disturbed by a [Pop] of the first. *)
Definition demo3 : World nat := (NewPriorityQueue demo2).1.
Definition demo_hid' : nat := (NewPriorityQueue demo2).2.
Definition demo4 : World nat := default demo0 (fst <$> Pop demo_hid demo3).

(** Two queues, two [Push] into the first, and a [Pop] of it. *)
Lemma reachable_wf_witness : wf_world demo4.
Proof.
  apply (reachable_wf demo4).
  apply (rtc_l _ _ demo0); [apply step_new|]. apply (rtc_l _ _ demo1).
  { eapply (step_push _ _ demo_hid 10%nat 3); [apply is_Some_check|reflexivity|]; vm_compute; reflexivity. }
  apply (rtc_l _ _ demo2).
  { eapply (step_push _ _ demo_hid 20%nat 1); [apply is_Some_check|reflexivity|]; vm_compute; reflexivity. }
  apply (rtc_l _ _ demo3); [apply step_new|]. apply rtc_once.
  eapply (step_pop _ _ demo_hid); [apply is_Some_check|]; vm_compute; reflexivity.
Defined.

Lemma queues_independent_witness : refines demo4 demo_hid' [].
Proof.
  apply (queues_independent demo3 demo4 demo_hid demo_hid' []).
  - vm_compute. discriminate.
  - apply New_refines, demo_wf.
  - left. exists 1%nat. split; [|vm_compute; reflexivity].
    destruct (wf_world_step _ _ demo_wf (step_new _)) as (_ & _ & Hwf). apply Hwf.
    apply is_Some_check. vm_compute. reflexivity.
Defined.
End witnesses.
