(* ===== verification/GoStrings.v ===== *)
(** * The functions of Go's package strings that the program uses

    Over [string]: bytes are [ascii] characters.  Each function is written out
    for the arguments the program gives it (a separator or an old string that is
    not empty). *)

From S2P Require Import Prelude.
From Stdlib Require Import Ascii.

Open Scope string_scope.
Open Scope list_scope.
Open Scope Z_scope.

Definition char (n : nat) : string := String (ascii_of_nat n) "".

(** [s[n:]] *)
Fixpoint drop_bytes (n : nat) (s : string) : string :=
  match n, s with
  | O, _ => s
  | S n, String _ s => drop_bytes n s
  | S _, EmptyString => ""
  end.

(** [s[:n]] *)
Fixpoint take_bytes (n : nat) (s : string) : string :=
  match n, s with
  | S n, String c s => String c (take_bytes n s)
  | _, _ => ""
  end.

Definition HasPrefix (s p : string) : bool := String.prefix p s.
Definition HasSuffix (s p : string) : bool :=
  bool_decide (String.length p <= String.length s)%nat &&
  bool_decide (drop_bytes (String.length s - String.length p) s = p).

Definition TrimSuffix (s p : string) : string :=
  if HasSuffix s p then take_bytes (String.length s - String.length p) s else s.
Definition TrimPrefix (s p : string) : string :=
  if HasPrefix s p then drop_bytes (String.length p) s else s.

(** [strings.Index]: the first occurrence. *)
Fixpoint Index (s sub : string) : option nat :=
  if String.prefix sub s then Some 0%nat
  else match s with
       | EmptyString => None
       | String _ s => S <$> Index s sub
       end.

Definition Contains (s sub : string) : bool :=
  match Index s sub with Some _ => true | None => false end.

(** [strings.Cut] *)
Definition Cut (s sep : string) : string * string * bool :=
  match Index s sep with
  | Some i => (take_bytes i s, drop_bytes (i + String.length sep) s, true)
  | None => (s, "", false)
  end.

(** [strings.ReplaceAll] for a non-empty [old]; as many steps as bytes. *)
Fixpoint replace_all (fuel : nat) (old new s : string) : string :=
  match fuel with
  | O => s
  | S fuel =>
      match s with
      | EmptyString => ""
      | String c s' =>
          if String.prefix old s then new +:+ replace_all fuel old new (drop_bytes (String.length old) s)
          else String c (replace_all fuel old new s')
      end
  end.
Definition ReplaceAll (s old new : string) : string := replace_all (String.length s) old new s.

Fixpoint Repeat (s : string) (n : nat) : string :=
  match n with O => "" | S n => s +:+ Repeat s n end.

Definition Join (l : list string) (sep : string) : string := String.concat sep l.

(** [strings.Split] for a non-empty separator. *)
Fixpoint split_fuel (fuel : nat) (s sep : string) : list string :=
  match fuel with
  | O => [s]
  | S fuel =>
      match Cut s sep with
      | (before, after, true) => before :: split_fuel fuel after sep
      | (_, _, false) => [s]
      end
  end.
Definition Split (s sep : string) : list string := split_fuel (S (String.length s)) s sep.

(** ASCII case folding. *)
Definition lower_char (c : ascii) : ascii :=
  let n := nat_of_ascii c in
  if bool_decide (65 <= n <= 90)%nat then ascii_of_nat (n + 32) else c.
Definition upper_char (c : ascii) : ascii :=
  let n := nat_of_ascii c in
  if bool_decide (97 <= n <= 122)%nat then ascii_of_nat (n - 32) else c.
Fixpoint ToLower (s : string) : string :=
  match s with String c s => String (lower_char c) (ToLower s) | EmptyString => "" end.
Fixpoint ToUpper (s : string) : string :=
  match s with String c s => String (upper_char c) (ToUpper s) | EmptyString => "" end.

(** Occurrences of a byte. *)
Fixpoint count_char (c : ascii) (s : string) : nat :=
  match s with
  | EmptyString => 0
  | String d s => (if decide (d = c) then 1 else 0) + count_char c s
  end%nat.

(** ** Lemmas *)
Lemma string_app_String c (s t : string) : String c s +:+ t = String c (s +:+ t).
Proof. reflexivity. Qed.

Lemma string_app_nil (t : string) : "" +:+ t = t.
Proof. reflexivity. Qed.

Lemma app_empty_r (s : string) : s +:+ "" = s.
Proof. induction s as [|c s IH]; [done|]. by rewrite string_app_String, IH. Qed.

Lemma app_assoc_string (a b c : string) : (a +:+ b) +:+ c = a +:+ (b +:+ c).
Proof. induction a as [|x a IH]; [done|]. by rewrite !string_app_String, IH. Qed.

Lemma length_app_string (a b : string) : String.length (a +:+ b) = (String.length a + String.length b)%nat.
Proof. induction a as [|x a IH]; [done|]. rewrite string_app_String. cbn. by rewrite IH. Qed.

Lemma app_inj_l (a b c : string) : a +:+ b = a +:+ c -> b = c.
Proof. induction a as [|x a IH]; [done|]. rewrite !string_app_String. intros [= E]. auto. Qed.

Lemma prefix_app (a b : string) : String.prefix a (a +:+ b) = true.
Proof.
  induction a as [|x a IH]; [by destruct b|]. rewrite string_app_String. cbn.
  destruct (ascii_dec x x); [done|congruence].
Qed.

Lemma prefix_spec (p s : string) : String.prefix p s = true <-> exists r, s = p +:+ r.
Proof.
  revert s. induction p as [|x p IH]; intros s.
  - split; [intros _; by exists s|by destruct s].
  - destruct s as [|y s]; [split; [done|by intros [r ?]]|]. cbn. destruct (ascii_dec x y) as [->|Hne].
    + rewrite IH. split; intros [r Hr]; exists r; rewrite ?string_app_String in *; congruence.
    + split; [done|]. intros [r Hr]. rewrite string_app_String in Hr. congruence.
Qed.

Lemma drop_bytes_app (a b : string) : drop_bytes (String.length a) (a +:+ b) = b.
Proof. induction a; [done|]. by rewrite string_app_String. Qed.

Lemma take_bytes_app (a b : string) : take_bytes (String.length a) (a +:+ b) = a.
Proof. induction a as [|x a IH]; [by destruct b|]. rewrite string_app_String. cbn. by rewrite IH. Qed.

Lemma count_char_app c (a b : string) : count_char c (a +:+ b) = (count_char c a + count_char c b)%nat.
Proof. induction a as [|x a IH]; [done|]. rewrite string_app_String. cbn. rewrite IH. lia. Qed.

Lemma count_char_Repeat c s n : count_char c (Repeat s n) = (n * count_char c s)%nat.
Proof. induction n as [|n IH]; cbn; [done|]. rewrite count_char_app, IH. lia. Qed.

Lemma take_bytes_length (s : string) : take_bytes (String.length s) s = s.
Proof. induction s as [|c s IH]; cbn; [done|by rewrite IH]. Qed.

Lemma TrimSuffix_app (s p : string) : TrimSuffix (s +:+ p) p = s.
Proof.
  unfold TrimSuffix, HasSuffix. rewrite length_app_string.
  replace (String.length s + String.length p - String.length p)%nat with (String.length s) by lia.
  rewrite drop_bytes_app, take_bytes_app.
  rewrite !bool_decide_eq_true_2; [done|done|lia].
Qed.
