(* ===== verification/GoPath.v ===== *)
(** * Package path

    [path.Clean] and [path.Join], as [log/logger_factory.go], [rest/gin_routergroup_internal.go]
    and [rest/middleware/*.go] use them. *)

From S2P Require Import Prelude.
From S2P Require Import GoStrings.
From Stdlib Require Import Ascii.

Open Scope string_scope.
Open Scope list_scope.

(** ** [path.Clean] *)

Fixpoint clean_parts (rooted : bool) (parts : list string) (out : list string) : list string :=
  match parts with
  | [] => out
  | p :: parts =>
      clean_parts rooted parts
        (if bool_decide (p = "") || bool_decide (p = ".") then out
         else if bool_decide (p = "..") then
           match last out with
           | Some q => if bool_decide (q = "..") then out ++ [".."] else removelast out
           | None => if rooted then out else [".."]
           end
         else out ++ [p])
  end.
Definition Clean (path : string) : string :=
  if bool_decide (path = "") then "."
  else
    let rooted := HasPrefix path "/" in
    let out := clean_parts rooted (Split path "/") [] in
    if rooted then "/" +:+ GoStrings.Join out "/"
    else if bool_decide (out = []) then "." else GoStrings.Join out "/".

(** [path.Join] of two elements. *)
Definition Join2 (a b : string) : string :=
  let elems := filter (fun e => e <> "") [a; b] in
  if bool_decide (elems = []) then "" else Clean (GoStrings.Join elems "/").

Example Clean_examples :
  Clean "" = "." /\ Clean "/api//v1/./x/../y/" = "/api/v1/y" /\ Clean "../a/../.." = "../.." /\ Clean "/.." = "/" /\
  Join2 "/api" "orders/" = "/api/orders" /\ Join2 "/" "" = "/" /\ Join2 "" "" = "".
Proof. split_and!; vm_compute; reflexivity. Qed.

(** ** [filepath.Rel]

    For a target that is absolute, as every target of the code is; [None] is an error. *)
Fixpoint drop_common (base targ : list string) : list string * list string :=
  match base, targ with
  | b :: base', t :: targ' => if bool_decide (b = t) then drop_common base' targ' else (base, targ)
  | _, _ => (base, targ)
  end.
Definition path_parts (path : string) : list string := clean_parts true (Split path "/") [].
Definition Rel_abs (basepath targpath : string) : option string :=
  if bool_decide (Clean basepath = Clean targpath) then Some "."
  else if negb (HasPrefix basepath "/") then None
  else
    let r := drop_common (path_parts basepath) (path_parts targpath) in
    Some (GoStrings.Join (repeat ".." (length r.1) ++ r.2) "/").

Example Rel_examples :
  map (fun b => Rel_abs b "/health") ["/api/v1/"; "/"; "/health"; "/health/x"; "/heal"; ""; "api"] =
  [Some "../../health"; Some "health"; Some "."; Some ".."; Some "../health"; None; None].
Proof. vm_compute. reflexivity. Qed.

(** ** Paths as their elements *)
Definition no_slash (p : string) : bool := bool_decide (count_char "/"%char p = 0)%nat.
(** An element that [Clean] keeps. *)
Definition plain_part (p : string) : Prop := no_slash p = true /\ p <> "" /\ p <> "." /\ p <> "..".

#[local] Lemma slash_prefix c s : String.prefix "/" (String c s) = bool_decide (c = "/"%char).
Proof.
  change (String.prefix "/" (String c s)) with (if ascii_dec "/"%char c then String.prefix "" s else false).
  destruct (ascii_dec _ c) as [<-|Hc]; [by rewrite bool_decide_eq_true_2; destruct s|].
  rewrite bool_decide_eq_false_2; [done|]. intros E. by apply Hc.
Qed.

#[local] Lemma Index_cons c s : Index (String c s) "/" = if bool_decide (c = "/"%char) then Some 0%nat else S <$> Index s "/".
Proof. rewrite <- (slash_prefix c s). reflexivity. Qed.

Lemma no_slash_cons c s : no_slash (String c s) = true <-> c <> "/"%char /\ no_slash s = true.
Proof. unfold no_slash. rewrite !bool_decide_eq_true. cbn. destruct (decide (c = "/"%char)); [split; [lia|naive_solver]|naive_solver]. Qed.

Lemma Index_slash p s : no_slash p = true -> Index (p +:+ String "/"%char s) "/" = Some (String.length p).
Proof.
  induction p as [|c p IH]; [by destruct s|]. rewrite no_slash_cons. intros [Hc Hp].
  rewrite string_app_String, Index_cons, bool_decide_eq_false_2, IH by done. done.
Qed.

Lemma Index_no_slash p : no_slash p = true -> Index p "/" = None.
Proof.
  induction p as [|c p IH]; [done|]. rewrite no_slash_cons. intros [Hc Hp].
  by rewrite Index_cons, bool_decide_eq_false_2, IH by done.
Qed.

Lemma Cut_slash p s : no_slash p = true -> Cut (p +:+ String "/"%char s) "/" = (p, s, true).
Proof.
  intros Hp. unfold Cut. rewrite Index_slash by done. rewrite take_bytes_app. do 2 f_equal.
  replace (p +:+ String "/"%char s) with ((p +:+ "/") +:+ s) by by rewrite app_assoc_string.
  replace (String.length p + String.length "/")%nat with (String.length (p +:+ "/")) by by rewrite length_app_string.
  apply drop_bytes_app.
Qed.

(** Every string is its elements joined. *)
Lemma elements_of s : exists l, l <> [] /\ Forall (fun p => no_slash p = true) l /\ s = GoStrings.Join l "/".
Proof.
  induction s as [|c s (l & Hne & Hl & ->)]; [by exists [""]; repeat constructor|].
  destruct l as [|p l]; [done|]. apply Forall_cons in Hl as [Hp Hl]. destruct (decide (c = "/"%char)) as [->|Hc].
  - exists ("" :: p :: l). repeat constructor; done.
  - exists (String c p :: l). split; [done|]. split; [|by destruct l].
    constructor; [by rewrite no_slash_cons|done].
Qed.

Lemma Join_cons p q l : GoStrings.Join (p :: q :: l) "/" = p +:+ String "/"%char (GoStrings.Join (q :: l) "/").
Proof. done. Qed.

Lemma Join_nonempty p l : p <> "" -> GoStrings.Join (p :: l) "/" <> "".
Proof. destruct l; [done|]. rewrite Join_cons. by destruct p. Qed.

Lemma split_fuel_Join fuel l : l <> [] -> Forall (fun p => no_slash p = true) l ->
  (String.length (GoStrings.Join l "/") < fuel)%nat -> split_fuel fuel (GoStrings.Join l "/") "/" = l.
Proof.
  revert l. induction fuel as [|fuel IH]; intros l Hne Hl Hf; [lia|]. destruct l as [|p l]; [done|].
  apply Forall_cons in Hl as [Hp Hl]. destruct l as [|q l].
  - cbn [split_fuel]. unfold Cut. cbn [GoStrings.Join String.concat]. by rewrite Index_no_slash.
  - rewrite Join_cons in Hf |- *. cbn [split_fuel]. rewrite Cut_slash by done. f_equal. apply IH; [done..|].
    rewrite length_app_string in Hf. cbn [String.length] in Hf. lia.
Qed.

Lemma Split_Join l : l <> [] -> Forall (fun p => no_slash p = true) l -> Split (GoStrings.Join l "/") "/" = l.
Proof. intros. apply split_fuel_Join; [done..|lia]. Qed.

Lemma Join_app l m : l <> [] -> m <> [] ->
  GoStrings.Join (l ++ m) "/" = GoStrings.Join l "/" +:+ String "/"%char (GoStrings.Join m "/").
Proof.
  intros Hl Hm. induction l as [|p l IH]; [done|]. destruct l as [|q l]; [by destruct m|].
  cbn [app]. rewrite Join_cons. cbn [app] in IH. rewrite IH, Join_cons by done. by rewrite app_assoc_string.
Qed.

Lemma Split_no_slash s : Forall (fun p => no_slash p = true) (Split s "/").
Proof. destruct (elements_of s) as (l & Hne & Hl & ->). by rewrite Split_Join. Qed.

Lemma Split_app a b : Split (a +:+ String "/"%char b) "/" = Split a "/" ++ Split b "/".
Proof.
  destruct (elements_of a) as (l & Hne & Hl & ->). destruct (elements_of b) as (m & Hme & Hm & ->).
  rewrite <- Join_app, !Split_Join by (try done; by apply Forall_app || by destruct l). done.
Qed.

Lemma clean_parts_app r xs ys out : clean_parts r (xs ++ ys) out = clean_parts r ys (clean_parts r xs out).
Proof. revert out. induction xs as [|x xs IH]; intros out; [done|]. apply IH. Qed.

Lemma clean_parts_plain r xs out : Forall plain_part xs -> clean_parts r xs out = out ++ xs.
Proof.
  intros Hx. revert out. induction Hx as [|x xs (_ & He & Hd & Hu) Hx IH]; intros out; cbn [clean_parts]; [by rewrite app_nil_r|].
  rewrite !bool_decide_eq_false_2 by done. cbn [orb]. by rewrite IH, <- app_assoc.
Qed.

Lemma path_parts_plain xs out : Forall (fun p => no_slash p = true) xs -> Forall plain_part out ->
  Forall plain_part (clean_parts true xs out).
Proof.
  intros Hx. revert out. induction Hx as [|x xs Hn Hx IH]; intros out Ho; cbn [clean_parts]; [done|]. apply IH.
  repeat case_bool_decide; cbn [orb]; try done.
  - destruct (last out) as [q|] eqn:El; [|done]. apply last_Some in El as (l & ->). apply Forall_app in Ho as [Hl Hq].
    apply Forall_singleton in Hq as (_ & _ & _ & Hq). rewrite bool_decide_eq_false_2 by done. by rewrite removelast_last.
  - apply Forall_app. split; [done|]. by constructor.
Qed.

Lemma clean_up pre b : Forall plain_part b -> clean_parts true (repeat ".." (length b)) (pre ++ b) = pre.
Proof.
  induction b as [|x b IH] using rev_ind; intros Hb; [by rewrite app_nil_r|]. apply Forall_app in Hb as [Hb Hx].
  apply Forall_singleton in Hx as (_ & _ & _ & Hx). rewrite length_app. cbn [length]. rewrite Nat.add_comm. cbn [repeat Nat.add clean_parts].
  rewrite (bool_decide_eq_false_2 (".." = "")), (bool_decide_eq_false_2 (".." = ".")), (bool_decide_eq_true_2 (".." = "..")) by done.
  cbn [orb]. rewrite app_assoc, last_snoc, bool_decide_eq_false_2, removelast_last by done. by apply IH.
Qed.

Lemma drop_common_spec base targ : let r := drop_common base targ in
  exists pre, base = pre ++ r.1 /\ targ = pre ++ r.2.
Proof.
  revert targ. induction base as [|b base IH]; intros [|t targ]; cbn; [by exists []..|].
  case_bool_decide as E; [|by exists []]. subst t. destruct (IH targ) as (pre & E1 & E2). exists (b :: pre).
  cbn [app]. by rewrite <- E1, <- E2.
Qed.

Lemma Clean_rooted p : HasPrefix p "/" = true -> Clean p = "/" +:+ GoStrings.Join (path_parts p) "/".
Proof. intros Hp. unfold Clean. rewrite Hp, bool_decide_eq_false_2; [done|]. by intros ->. Qed.

Lemma suffix_spec s p : HasSuffix s p = true -> exists t, s = t +:+ p.
Proof.
  unfold HasSuffix. rewrite andb_true_iff, !bool_decide_eq_true. intros [_ E].
  exists (take_bytes (String.length s - String.length p) s). rewrite <- E at 2. clear E.
  generalize (String.length s - String.length p)%nat as n. induction s as [|c s IH]; intros [|n]; [done..|].
  cbn [take_bytes drop_bytes]. rewrite string_app_String. by rewrite <- IH.
Qed.

(** Elements that are neither empty nor hold a slash. *)
Definition filled (p : string) : Prop := no_slash p = true /\ p <> "".

Lemma filled_no_slash l : Forall filled l -> Forall (fun p => no_slash p = true) l.
Proof. intros Hl. eapply Forall_impl; [exact Hl|]. by intros ? []. Qed.

Lemma plain_filled l : Forall plain_part l -> Forall filled l.
Proof. intros Hl. eapply Forall_impl; [exact Hl|]. by intros ? (? & ? & _). Qed.

Lemma path_parts_filled p : Forall filled (path_parts p).
Proof. apply plain_filled, path_parts_plain; [apply Split_no_slash|constructor]. Qed.

Lemma Join_filled l : l <> [] -> Forall filled l -> GoStrings.Join l "/" <> "" /\ HasSuffix (GoStrings.Join l "/") "/" = false.
Proof.
  intros Hne Hl. split; [destruct Hl as [|p l [_ Hp] _]; [done|by apply Join_nonempty]|].
  apply not_true_iff_false. intros (t & Et)%suffix_spec.
  pose proof (Split_app t "") as Hs. rewrite <- Et, Split_Join in Hs by (done || by apply filled_no_slash).
  rewrite Hs in Hl. apply Forall_app in Hl as [_ Hl]. by apply Forall_singleton in Hl as [_ Hl].
Qed.

Lemma Clean_parts p q : HasPrefix p "/" = true -> HasPrefix q "/" = true -> Clean p = Clean q -> path_parts p = path_parts q.
Proof.
  intros Hp Hq. rewrite !Clean_rooted by done. intros E%app_inj_l.
  pose proof (path_parts_filled p) as P1. pose proof (path_parts_filled q) as P2.
  destruct (path_parts p) as [|a l], (path_parts q) as [|b m]; [done|..].
  - symmetry in E. apply Forall_cons in P2 as [[_ Hb] _]. by apply Join_nonempty in E.
  - apply Forall_cons in P1 as [[_ Ha] _]. by apply Join_nonempty in E.
  - rewrite <- (Split_Join (a :: l)), <- (Split_Join (b :: m)) by (done || by apply filled_no_slash). by rewrite E.
Qed.

(** From an absolute base, going the way of [l] is going to the target, when it is so by elements. *)
Lemma Join2_parts basepath targpath l : HasPrefix basepath "/" = true -> HasPrefix targpath "/" = true ->
  l <> [] -> Forall filled l -> clean_parts true l (path_parts basepath) = path_parts targpath ->
  Join2 basepath (GoStrings.Join l "/") = Clean targpath.
Proof.
  intros Hb Ht Hne Hl Hc. destruct (Join_filled l Hne Hl) as [Hj _]. unfold Join2.
  assert (basepath <> "") as Hb0 by (intros E; by rewrite E in Hb).
  rewrite !filter_cons_True, filter_nil by done. rewrite bool_decide_eq_false_2 by done. rewrite Join_cons, Clean_rooted.
  2:{ unfold HasPrefix in Hb |- *. apply prefix_spec in Hb as (r & ->). rewrite app_assoc_string. apply prefix_app. }
  rewrite (Clean_rooted targpath) by done. f_equal. f_equal. rewrite <- Hc. unfold path_parts at 1.
  cbn [GoStrings.Join String.concat]. rewrite Split_app, Split_Join by (done || by apply filled_no_slash). apply clean_parts_app.
Qed.

(** The relative path leads from an absolute base, however it is written, back to the target. *)
Lemma Rel_abs_Join basepath base' targpath : HasPrefix basepath "/" = true -> HasPrefix targpath "/" = true ->
  HasPrefix base' "/" = true -> path_parts base' = path_parts basepath ->
  exists r, Rel_abs basepath targpath = Some r /\ Join2 base' r = Clean targpath /\ r <> "" /\ HasSuffix r "/" = false.
Proof.
  intros Hb Ht Hb' Eb. unfold Rel_abs. case_bool_decide as E.
  - exists ".". split; [done|]. split; [|done]. apply (Join2_parts _ _ ["."]); [done..|by repeat constructor|].
    rewrite Eb. exact (Clean_parts _ _ Hb Ht E).
  - rewrite Hb. cbn [negb]. eexists. split; [reflexivity|].
    destruct (drop_common_spec (path_parts basepath) (path_parts targpath)) as (pre & E1 & E2).
    pose proof (path_parts_plain _ [] (Split_no_slash basepath) (Forall_nil_2 _)) as P1. fold (path_parts basepath) in P1.
    pose proof (path_parts_plain _ [] (Split_no_slash targpath) (Forall_nil_2 _)) as P2. fold (path_parts targpath) in P2.
    destruct (drop_common _ _) as [up down]. cbn [fst snd] in *.
    rewrite E1 in P1. rewrite E2 in P2. apply Forall_app in P1 as [_ P1]. apply Forall_app in P2 as [_ P2].
    assert (Forall filled (repeat ".." (length up) ++ down)) as Hf.
    { apply Forall_app. split; [|by apply plain_filled]. generalize (length up). intros n. by induction n; constructor. }
    assert (repeat ".." (length up) ++ down <> []) as Hne.
    { intros Hn. apply app_eq_nil in Hn as [Hn1 Hn2]. destruct up; [|done]. destruct E.
      rewrite !Clean_rooted by done. by rewrite E1, E2, Hn2. }
    split; [|by apply Join_filled]. apply Join2_parts; [done..|].
    rewrite clean_parts_app, Eb, E1, clean_up, clean_parts_plain by done. by rewrite E2.
Qed.

(** A path is the same by elements when it is cleaned, whether a slash follows or not. *)
Lemma path_parts_Clean p : HasPrefix p "/" = true -> path_parts (Clean p) = path_parts p /\ path_parts (Clean p +:+ "/") = path_parts p.
Proof.
  intros Hp. pose proof (path_parts_plain _ [] (Split_no_slash p) (Forall_nil_2 _)) as P. fold (path_parts p) in P.
  assert (path_parts (Clean p) = path_parts p) as E.
  { rewrite Clean_rooted by done. unfold path_parts at 1. change ("/" +:+ ?x) with ("" +:+ String "/"%char x). rewrite Split_app.
    destruct (path_parts p) as [|x l] eqn:El; [done|]. rewrite Split_Join by (done || by apply filled_no_slash, plain_filled).
    rewrite clean_parts_app, clean_parts_plain by done. done. }
  split; [exact E|]. unfold path_parts at 1. change (Clean p +:+ "/") with (Clean p +:+ String "/"%char "").
  rewrite Split_app, clean_parts_app. fold (path_parts (Clean p)). by rewrite E.
Qed.

Lemma Join2_root p : p <> "" -> Join2 "/" p = Clean ("/" +:+ "/" +:+ p) /\ path_parts ("/" +:+ "/" +:+ p) = path_parts p.
Proof.
  intros Hp. split.
  - unfold Join2. rewrite !filter_cons_True, filter_nil by done. rewrite bool_decide_eq_false_2 by done. by rewrite Join_cons.
  - unfold path_parts. change ("/" +:+ "/" +:+ p) with ("" +:+ String "/"%char ("" +:+ String "/"%char p)). by rewrite !Split_app.
Qed.
