(* ===== verification/Errors.v ===== *)
(** * errors: error trees

    Models [errors/errors.go] and [errors/errors_stack.go]: the framework's
    error with its code, keys and wrapped errors, the search for a code in a
    tree of errors, and the text of stack traces.  [fmt.Errorf] is a parameter;
    the errors of other packages are known by their type, their message and what
    they unwrap to. *)

From S2P Require Import Prelude.
From stdpp Require Import pretty.

Open Scope string_scope.
Open Scope list_scope.
Open Scope Z_scope.

(** [runtime.Frame] *)
Record Frame := MkFrame { f_Function : string; f_File : string; f_Line : N }.

Record Fields := MkFields {
  Code : string;
  Message : string;
  shortErrorString : string;
  stack : list Frame;
  codeKey : string;
  messageKey : string;
  stackKey : string;
}.

(** A value of the interface [error]: nil, a [*Error] with its [wrappedErrs], or
    an error of another type without [Unwrap], with [Unwrap() error], or with
    [Unwrap() []error]. *)
Inductive error :=
| NilErr
| FwErr (f : Fields) (wrapped : list error)
| OpaqueErr (ty msg : string)
| WrapOne (ty msg : string) (w : error)
| WrapMany (ty msg : string) (ws : list error).

(** The package variables [defaultCodeKey], [defaultMessageKey] and
    [defaultStackKey]. *)
Record Defaults := MkDefaults { defaultCodeKey : string; defaultMessageKey : string; defaultStackKey : string }.
Definition initial_defaults : Defaults := MkDefaults "kind" "message" "stack".

(** [None] is a panic. *)
Definition SetDefaultCodeKey (key : string) (d : Defaults) : option Defaults :=
  if bool_decide (key = "") then None
  else Some (MkDefaults key (defaultMessageKey d) (defaultStackKey d)).
Definition SetDefaultMessageKey (key : string) (d : Defaults) : Defaults :=
  MkDefaults (defaultCodeKey d) key (defaultStackKey d).
Definition SetDefaultStackKey (key : string) (d : Defaults) : Defaults :=
  MkDefaults (defaultCodeKey d) (defaultMessageKey d) key.

Definition ErrCodePanic : string := "PANIC".
Definition ErrCodeUnknown : string := "UNKNOWN".
Definition ErrCodeBadArgument : string := "BAD_ARGUMENT".
Definition ErrCodeBadState : string := "BAD_STATE".
Definition ErrCodeNotFound : string := "NOT_FOUND".
Definition ErrCodeNotAuthenticated : string := "NOT_AUTHENTICATED".
Definition ErrCodeNotAllowed : string := "NOT_ALLOWED".
Definition ErrCodeValidationFailed : string := "NOT_VALID".
Definition ErrCodeConflict : string := "CONFLICT".

(** ** Creating errors *)

(** The mutex and [hideStack] of the [*Error] arguments of [Newf], by pointer. *)
Record Flags := MkFlags { locked : bool; hideStack : bool }.

(** The arguments of [Newf]: [Some p] for a [*Error] at [p]. The loop that locks
    them and hides their stacks; [None] when a lock is never obtained because
    this very call holds it. *)
Fixpoint newf_lock (args : list (option nat)) (h : gmap nat Flags) : option (gmap nat Flags) :=
  match args with
  | [] => Some h
  | None :: args => newf_lock args h
  | Some p :: args =>
      fl ← h !! p;
      if locked fl then None else newf_lock args (<[p := MkFlags true true]> h)
  end.

(** The deferred loop. *)
Fixpoint newf_unlock (args : list (option nat)) (h : gmap nat Flags) : gmap nat Flags :=
  match args with
  | [] => h
  | None :: args => newf_unlock args h
  | Some p :: args => newf_unlock args (<[p := MkFlags false false]> h)
  end.

(** [err] is what [fmt.Errorf] returned for the format and the arguments, with
    its message; [st] the stack of the caller. *)
Definition Newf (d : Defaults) (code : string) (err : error) (msg : string) (st : list Frame) : error :=
  let wrappedErrs :=
    match err with
    | WrapOne _ _ w => [w]
    | WrapMany _ _ ws => ws
    | FwErr _ ws => ws
    | _ => []
    end in
  FwErr (MkFields code msg ("{" +:+ code +:+ "} " +:+ msg) st
    (defaultCodeKey d) (defaultMessageKey d) (defaultStackKey d)) wrappedErrs.

Definition NewUnknownf (d : Defaults) (err : error) (msg : string) (st : list Frame) : error :=
  Newf d ErrCodeUnknown err msg st.

Definition Copy (f : Fields) (ws : list error) : error :=
  FwErr (MkFields (Code f) (Message f) "" (stack f) (codeKey f) (messageKey f) (stackKey f)) ws.

Definition SetCodeKey (key : string) (f : Fields) : option Fields :=
  if bool_decide (key = "") then None
  else Some (MkFields (Code f) (Message f) (shortErrorString f) (stack f) key (messageKey f) (stackKey f)).
Definition SetMessageKey (key : string) (f : Fields) : Fields :=
  MkFields (Code f) (Message f) (shortErrorString f) (stack f) (codeKey f) key (stackKey f).
Definition SetStackKey (key : string) (f : Fields) : Fields :=
  MkFields (Code f) (Message f) (shortErrorString f) (stack f) (codeKey f) (messageKey f) key.

(** ** Unwrapping *)
Definition UnwrapMulti (err : error) : list error :=
  match err with
  | WrapOne _ _ w => match w with NilErr => [] | _ => [w] end
  | WrapMany _ _ ws => ws
  | FwErr _ ws => ws
  | _ => []
  end.

(** The standard library's [errors.As] for a target of type [*Error]: the first
    one in the tree, depth first. *)
Fixpoint As (err : error) : option Fields :=
  match err with
  | NilErr | OpaqueErr _ _ => None
  | FwErr f _ => Some f
  | WrapOne _ _ w => As w
  | WrapMany _ _ ws =>
      (fix first (ws : list error) : option Fields :=
         match ws with
         | [] => None
         | w :: ws => match As w with Some f => Some f | None => first ws end
         end) ws
  end.

Definition has_code (code : string) (o : option Fields) : bool :=
  match o with Some f => bool_decide (Code f = code) | None => false end.

Fixpoint IsCode (err : error) (code : string) : bool :=
  if has_code code (As err) then true
  else
    match err with
    | WrapOne _ _ w => IsCode w code
    | WrapMany _ _ ws => existsb (fun w => IsCode w code) ws
    | FwErr _ ws => existsb (fun w => IsCode w code) ws
    | _ => false
    end.

(** The loop of [AsCode] over the unwrapped errors. *)
Definition as_code_any (rec : error -> option Fields -> bool * option Fields) :=
  fix any (ws : list error) (target : option Fields) : bool * option Fields :=
    match ws with
    | [] => (false, target)
    | w :: ws =>
        let r := rec w target in
        if r.1 then r else any ws r.2
    end.

(** The result, and the error that [target] points to. *)
Fixpoint AsCode (err : error) (target : option Fields) (code : string) : bool * option Fields :=
  let target1 := match As err with Some f => Some f | None => target end in
  if has_code code (As err) then (true, target1)
  else
    match err with
    | WrapOne _ _ w => AsCode w target1 code
    | WrapMany _ _ ws => as_code_any (fun w t => AsCode w t code) ws target1
    | FwErr _ ws => as_code_any (fun w t => AsCode w t code) ws target1
    | _ => (false, target1)
    end.

(** ** Stack traces

    A writer takes chunks of text into its state and may fail. *)
Section writer.
Context {S E : Type} (write : S -> string -> result E S).

(** Writes that may fail, in a computation that may panic. *)
Definition writes : Type := S -> option (result E S).

Definition emit (chunk : string) (k : writes) : writes := fun s =>
  match write s chunk with
  | Ok s' => k s'
  | Err e => Some (Err e)
  end.
Definition stop : writes := fun s => Some (Ok s).

(** A [return err] of the callee's error. *)
Definition then_ (m k : writes) : writes := fun s =>
  r ← m s;
  match r with
  | Ok s' => k s'
  | Err e => Some (Err e)
  end.

Definition packageFuncPrefix : string := "github.com/southernlabs-io/go-fw/errors.".

Definition newline : string := String (Ascii.ascii_of_nat 10) "".
Definition tab : string := String (Ascii.ascii_of_nat 9) "".

Fixpoint write_frames (fs : list Frame) : writes :=
  match fs with
  | [] => stop
  | f :: fs =>
      let more := negb (bool_decide (fs = [])) in
      if negb (bool_decide (f_Function f = "")) && negb (String.prefix packageFuncPrefix (f_Function f)) then
        emit (f_Function f +:+ newline +:+ tab +:+ f_File f +:+ ":" +:+ pretty (f_Line f))
          (if more then emit newline (write_frames fs) else write_frames fs)
      else write_frames fs
  end.

Definition WriteSelfStacktrace (f : Fields) : writes :=
  match stack f with
  | [] => stop
  | fs => write_frames fs
  end.

(** [reflect.TypeOf(wErr).String()]; nil has no type. *)
Definition type_string (err : error) : option string :=
  match err with
  | NilErr => None
  | FwErr _ _ => Some "*errors.Error"
  | OpaqueErr ty _ | WrapOne ty _ _ | WrapMany ty _ _ => Some ty
  end.

(** The body of the loop over [UnwrapMulti(err)], [rec] being the recursive
    call. *)
Definition write_wrapped_one (rec : writes) (curIndent : string) (wErr : error) (k : writes) : writes :=
  emit (newline +:+ curIndent)
    (match wErr with
     | FwErr f _ =>
         emit ("] wrapped stacktrace:" +:+ newline) (then_ (WriteSelfStacktrace f) (then_ rec k))
     | _ =>
         emit "] wrapped stacktrace not available for error type: "
           (match type_string wErr with
            | None => fun _ => None
            | Some ty => emit ty (then_ rec k)
            end)
     end).

Definition next_indent (indent : string) : string :=
  if bool_decide (indent = "[") then indent else indent +:+ ".".

(** The loop over [UnwrapMulti(err)]. *)
Definition write_children (rec : error -> string -> writes) (indent : string) :=
  fix loop (i : nat) (ws : list error) : writes :=
    match ws with
    | [] => stop
    | w :: ws =>
        let curIndent := indent +:+ pretty (i + 1)%nat in
        write_wrapped_one (rec w curIndent) curIndent w (loop (i + 1)%nat ws)
    end.

Fixpoint writeWrappedStacktrace (err : error) (indent : string) : writes :=
  let indent := next_indent indent in
  match err with
  | WrapOne _ _ w =>
      match w with NilErr => stop | _ => write_children writeWrappedStacktrace indent 0%nat [w] end
  | WrapMany _ _ ws => write_children writeWrappedStacktrace indent 0%nat ws
  | FwErr _ ws => write_children writeWrappedStacktrace indent 0%nat ws
  | _ => stop
  end.

Definition WriteStacktrace (f : Fields) (ws : list error) : writes :=
  then_ (WriteSelfStacktrace f) (writeWrappedStacktrace (FwErr f ws) "[").
End writer.

(** [strings.Builder], which does not fail. *)
Definition builder_write (s chunk : string) : result Empty_set string := Ok (s +:+ chunk).
Definition builder_string (w : string -> option (result Empty_set string)) (s : string) : option string :=
  match w s with
  | Some (Ok s') => Some s'
  | Some (Err e) => match e with end
  | None => None
  end.

Definition Stacktrace (f : Fields) (ws : list error) : option string :=
  builder_string (WriteStacktrace builder_write f ws) "".
Definition SelfStacktrace (f : Fields) : option string :=
  builder_string (WriteSelfStacktrace builder_write f) "".

Definition buildFullErrorString (f : Fields) (ws : list error) : option string :=
  builder_string (WriteStacktrace builder_write f ws)
    (shortErrorString f +:+ (newline +:+ "stacktrace:" +:+ newline)).

(** [inErrorf]: [fmt.Errorf] is among the callers. *)
Definition Error_string (hide inErrorf : bool) (f : Fields) (ws : list error) : option string :=
  if hide then Some (shortErrorString f)
  else if inErrorf then Some (shortErrorString f)
  else buildFullErrorString f ws.

(** ** Structured representations *)
Definition LogValue (f : Fields) (ws : list error) : option (list (string * string)) :=
  st ← (if bool_decide (stackKey f = "") then Some [] else
          s ← Stacktrace f ws; Some [(stackKey f, s)]);
  Some ([(codeKey f, Code f)] ++
    (if bool_decide (messageKey f = "") then [] else [(messageKey f, Message f)]) ++ st).

Definition MarshalJSON_map (f : Fields) (ws : list error) : option (gmap string string) :=
  let m1 : gmap string string := {[ codeKey f := Code f ]} in
  let m2 := if bool_decide (messageKey f = "") then m1 else <[messageKey f := Message f]> m1 in
  if bool_decide (stackKey f = "") then Some m2
  else s ← Stacktrace f ws; Some (<[stackKey f := s]> m2).

(** ** Induction over error trees *)
Lemma error_rec_strong (P : error -> Prop) :
  P NilErr ->
  (forall f ws, Forall P ws -> P (FwErr f ws)) ->
  (forall ty msg, P (OpaqueErr ty msg)) ->
  (forall ty msg w, P w -> P (WrapOne ty msg w)) ->
  (forall ty msg ws, Forall P ws -> P (WrapMany ty msg ws)) ->
  forall e, P e.
Proof.
  intros Hnil Hfw Hop Hone Hmany. fix IH 1. intros [ |f ws|ty msg|ty msg w|ty msg ws].
  - exact Hnil.
  - apply Hfw. induction ws; constructor; auto.
  - apply Hop.
  - apply Hone, IH.
  - apply Hmany. induction ws; constructor; auto.
Qed.

(** ** Specifications *)

(** The framework errors of a tree, in the order a reader meets them. *)
Fixpoint fw_errors (e : error) : list Fields :=
  match e with
  | NilErr | OpaqueErr _ _ => []
  | FwErr f ws => f :: flat_map fw_errors ws
  | WrapOne _ _ w => fw_errors w
  | WrapMany _ _ ws => flat_map fw_errors ws
  end.

Definition first_with_code (code : string) (l : list Fields) : option Fields :=
  head (filter (fun f => Code f = code) l).

(** The chunks that [writeWrappedStacktrace] writes; [None] when it panics. *)
Fixpoint frame_chunks (fs : list Frame) : list string :=
  match fs with
  | [] => []
  | f :: fs' =>
      (if negb (bool_decide (f_Function f = "")) && negb (String.prefix packageFuncPrefix (f_Function f))
       then (f_Function f +:+ newline +:+ tab +:+ f_File f +:+ ":" +:+ pretty (f_Line f))
            :: (if negb (bool_decide (fs' = [])) then [newline] else [])
       else []) ++ frame_chunks fs'
  end.

(** Writing the chunks one after the other, up to the first error. *)
Fixpoint write_all {S E} (write : S -> string -> result E S) (chunks : list string) (s : S) : result E S :=
  match chunks with
  | [] => Ok s
  | c :: chunks => s' ← write s c; write_all write chunks s'
  end.

Definition label (w : error) : list string :=
  match w with
  | FwErr f _ => ("] wrapped stacktrace:" +:+ newline) :: frame_chunks (stack f)
  | _ => ["] wrapped stacktrace not available for error type: "; default "" (type_string w)]
  end.

Definition children_chunks (rec : error -> string -> list string) (indent : string) :=
  fix children (i : nat) (ws : list error) : list string :=
    match ws with
    | [] => []
    | w :: ws =>
        let curIndent := indent +:+ pretty (i + 1)%nat in
        ((newline +:+ curIndent) :: label w ++ rec w curIndent) ++ children (i + 1)%nat ws
    end.

Fixpoint wrapped_chunks (e : error) (indent : string) : list string :=
  let indent := next_indent indent in
  match e with
  | WrapOne _ _ w => match w with NilErr => [] | _ => children_chunks wrapped_chunks indent 0%nat [w] end
  | WrapMany _ _ ws => children_chunks wrapped_chunks indent 0%nat ws
  | FwErr _ ws => children_chunks wrapped_chunks indent 0%nat ws
  | _ => []
  end.

(** No nil among the errors that a list of errors gives. *)
Fixpoint no_nil (e : error) : bool :=
  match e with
  | NilErr => false
  | OpaqueErr _ _ => true
  | WrapOne _ _ w => match w with NilErr => true | _ => no_nil w end
  | FwErr _ ws => forallb no_nil ws
  | WrapMany _ _ ws => forallb no_nil ws
  end.

(** ** The search for a code *)
Lemma first_with_code_app code l1 l2 : first_with_code code (l1 ++ l2) =
  match first_with_code code l1 with Some f => Some f | None => first_with_code code l2 end.
Proof. unfold first_with_code. rewrite filter_app. by destruct (filter _ l1). Qed.

Lemma As_spec e : As e = head (fw_errors e).
Proof.
  induction e as [|f ws _| |ty msg w IH|ty msg ws IH] using error_rec_strong; try done.
  cbn. induction IH as [|w ws Hw _ IHws]; [done|]. cbn. rewrite Hw, IHws.
  by destruct (fw_errors w).
Qed.

Lemma has_code_As e code : has_code code (As e) = true ->
  As e = first_with_code code (fw_errors e).
Proof.
  rewrite As_spec. unfold has_code, first_with_code. destruct (fw_errors e) as [|f l]; [done|].
  cbn [head]. intros Hc%bool_decide_eq_true. by rewrite filter_cons_True.
Qed.

Definition isSome {A} (o : option A) : bool := match o with Some _ => true | None => false end.

Lemma IsCode_first e code : IsCode e code = isSome (first_with_code code (fw_errors e)).
Proof.
  assert (forall ws, Forall (fun e => IsCode e code = isSome (first_with_code code (fw_errors e))) ws ->
    existsb (fun w => IsCode w code) ws = isSome (first_with_code code (flat_map fw_errors ws))) as Hws.
  { induction 1 as [|w ws Hw _ IH]; [done|]. cbn [existsb flat_map].
    rewrite first_with_code_app, Hw, IH. by destruct (first_with_code code (fw_errors w)). }
  induction e as [|f ws IH| |ty msg w IH|ty msg ws IH] using error_rec_strong; try done.
  - cbn [IsCode]. specialize (Hws _ IH). cbn [As has_code fw_errors]. unfold first_with_code in *.
    rewrite filter_cons. case_bool_decide; case_decide; done.
  - cbn [IsCode fw_errors]. destruct (has_code code (As (WrapOne ty msg w))) eqn:Hc; [|done].
    pose proof (has_code_As _ _ Hc) as E. cbn [fw_errors] in E. rewrite <- E.
    destruct (As _); [done|discriminate Hc].
  - cbn [IsCode fw_errors]. destruct (has_code code (As (WrapMany ty msg ws))) eqn:Hc; [|by apply Hws].
    pose proof (has_code_As _ _ Hc) as E. cbn [fw_errors] in E. rewrite <- E.
    destruct (As _); [done|discriminate Hc].
Qed.

Definition as_code_ok (code : string) (e : error) : Prop := forall target,
  (AsCode e target code).1 = isSome (first_with_code code (fw_errors e)) /\
  (forall f, first_with_code code (fw_errors e) = Some f -> (AsCode e target code).2 = Some f).

(** What [AsCode] answers on a list of children. *)
Lemma as_code_any_first code ws target : Forall (as_code_ok code) ws ->
  let r := as_code_any (fun w t => AsCode w t code) ws target in
  r.1 = isSome (first_with_code code (flat_map fw_errors ws)) /\
  (forall f, first_with_code code (flat_map fw_errors ws) = Some f -> r.2 = Some f).
Proof.
  intros HF. revert target. induction HF as [|w ws Hw _ IH]; intros target; [done|].
  cbn [as_code_any flat_map]. rewrite first_with_code_app. cbv zeta.
  destruct (Hw target) as [E1 E2]. rewrite E1.
  destruct (first_with_code code (fw_errors w)) as [f|]; [|apply IH].
  split; [done|]. intros f' [= <-]. by apply E2.
Qed.

Lemma AsCode_first code e : as_code_ok code e.
Proof.
  induction e as [|f ws IH| |ty msg w IH|ty msg ws IH] using error_rec_strong; intros target; try done.
  - cbn [AsCode As fw_errors]. cbv zeta. unfold has_code.
    pose proof (as_code_any_first code ws (Some f) IH) as Hany. cbv zeta in Hany.
    unfold first_with_code in *. rewrite filter_cons.
    destruct (decide (Code f = code)) as [Hc|Hc].
    + rewrite bool_decide_eq_true_2 by done. split; [done|]. by intros f' [= <-].
    + by rewrite bool_decide_eq_false_2.
  - cbn [AsCode fw_errors]. cbv zeta. destruct (has_code code (As (WrapOne ty msg w))) eqn:Hc; [|by apply IH].
    pose proof (has_code_As _ _ Hc) as E. cbn [fw_errors] in E. rewrite <- E.
    destruct (As _) as [f|]; [|discriminate Hc]. split; [done|]. by intros f' [= <-].
  - cbn [AsCode fw_errors]. cbv zeta. destruct (has_code code (As (WrapMany ty msg ws))) eqn:Hc.
    2: by apply as_code_any_first.
    pose proof (has_code_As _ _ Hc) as E. cbn [fw_errors] in E. rewrite <- E.
    destruct (As _) as [f|]; [|discriminate Hc]. split; [done|]. by intros f' [= <-].
Qed.

Lemma IsCode_spec err code : IsCode err code = true <-> exists f, f ∈ fw_errors err /\ Code f = code.
Proof.
  rewrite IsCode_first. unfold first_with_code. destruct (filter _ (fw_errors err)) as [|f l] eqn:E; cbn; split; try done.
  - intros (f & Hin & Hc). assert (f ∈ filter (fun f => Code f = code) (fw_errors err)) as Hf
      by by apply list_elem_of_filter. rewrite E in Hf. by apply elem_of_nil in Hf.
  - intros _. exists f. assert (f ∈ filter (fun f => Code f = code) (fw_errors err)) as Hf
      by (rewrite E; set_solver). by apply list_elem_of_filter in Hf as [? ?].
Qed.

(** C14: [IsCode] finds a code wherever it is in the tree of an error, beyond the
    first framework error of a chain; and [AsCode] agrees with it and sets the
    target to the first error with the code, depth first. *)
Theorem code_search err target code :
  (IsCode err code = true <-> exists f, f ∈ fw_errors err /\ Code f = code) /\
  (AsCode err target code).1 = IsCode err code /\
  (forall f, first_with_code code (fw_errors err) = Some f -> (AsCode err target code).2 = Some f).
Proof.
  destruct (AsCode_first code err target) as [E1 E2]. rewrite E1, <- IsCode_first. split_and!; [apply IsCode_spec|done|exact E2].
Qed.

(** ** Stack traces *)
Section traces.
Context {S E : Type} (write : S -> string -> result E S).

Lemma write_all_app c1 c2 s : write_all write (c1 ++ c2) s =
  match write_all write c1 s with Ok s' => write_all write c2 s' | Err e => Err e end.
Proof.
  revert s. induction c1 as [|c c1 IH]; intros s; [done|]. cbn.
  unfold mbind, result_bind. by destruct (write s c).
Qed.

Lemma write_frames_spec fs s : write_frames write fs s = Some (write_all write (frame_chunks fs) s).
Proof.
  revert s. induction fs as [|f fs IH]; intros s; [done|]. cbn [write_frames frame_chunks].
  destruct (_ && _); [|apply IH].
  unfold emit at 1. cbn [app write_all]. unfold mbind, result_bind.
  destruct (write s _) as [s1|]; [|done].
  destruct (bool_decide (fs = [])); cbn [negb app]; [apply IH|].
  unfold emit. cbn [app write_all]. unfold mbind, result_bind. destruct (write s1 _); [apply IH|done].
Qed.

Lemma WriteSelfStacktrace_spec f s :
  WriteSelfStacktrace write f s = Some (write_all write (frame_chunks (stack f)) s).
Proof. unfold WriteSelfStacktrace. destruct (stack f); [done|apply write_frames_spec]. Qed.

Lemma then_spec c1 c2 (m k : writes) s :
  (forall s, m s = Some (write_all write c1 s)) -> (forall s, k s = Some (write_all write c2 s)) ->
  then_ m k s = Some (write_all write (c1 ++ c2) s).
Proof.
  intros Hm Hk. unfold then_. rewrite Hm. cbn [mbind option_bind]. rewrite write_all_app.
  destruct (write_all write c1 s); [apply Hk|done].
Qed.

Lemma emit_spec c cs (k : writes) s : (forall s, k s = Some (write_all write cs s)) ->
  emit write c k s = Some (write_all write (c :: cs) s).
Proof.
  intros Hk. unfold emit. cbn [write_all]. unfold mbind, result_bind. by destruct (write s c).
Qed.

Lemma write_wrapped_one_spec w cur rec k cr ck s : w <> NilErr ->
  (forall s, rec s = Some (write_all write cr s)) -> (forall s, k s = Some (write_all write ck s)) ->
  write_wrapped_one write rec cur w k s =
  Some (write_all write (((newline +:+ cur) :: label w ++ cr) ++ ck) s).
Proof.
  intros Hw Hr Hk. unfold write_wrapped_one. cbn [app]. apply emit_spec. clear s. intros s.
  pose proof (fun s => then_spec cr ck rec k s Hr Hk) as Hrk.
  destruct w as [|f ws|ty msg|ty msg w|ty msg ws]; [done| |
    apply emit_spec; intros s'; apply emit_spec; exact Hrk..].
  cbn [label app]. apply emit_spec. clear s. intros s. rewrite <- app_assoc. cbn [app].
  apply then_spec; [apply WriteSelfStacktrace_spec|done].
Qed.

Definition wrapped_ok (e : error) : Prop := no_nil e = true -> forall indent s,
  writeWrappedStacktrace write e indent s = Some (write_all write (wrapped_chunks e indent) s).

Lemma write_children_spec ws indent i s : Forall wrapped_ok ws -> forallb no_nil ws = true ->
  write_children write (writeWrappedStacktrace write) indent i ws s =
  Some (write_all write (children_chunks wrapped_chunks indent i ws) s).
Proof.
  intros HF. revert i s. induction HF as [|w ws Hw _ IH]; intros i s Hn; [done|].
  cbn [forallb] in Hn. apply andb_prop in Hn as [Hn1 Hn2].
  cbn [write_children children_chunks]. apply write_wrapped_one_spec.
  - by intros ->.
  - intros s'. by apply Hw.
  - intros s'. by apply IH.
Qed.

Lemma writeWrappedStacktrace_spec e : wrapped_ok e.
Proof.
  induction e as [|f ws IH| |ty msg w IH|ty msg ws IH] using error_rec_strong; intros Hn indent s; try done;
    cbn [writeWrappedStacktrace wrapped_chunks]; cbv zeta.
  - by apply write_children_spec.
  - assert (w = NilErr \/ no_nil w = true) as [->|Hw] by (destruct w; auto); [done|].
    destruct w; try done; (apply write_children_spec; [by repeat constructor|cbn [forallb]; by rewrite Hw]).
  - by apply write_children_spec.
Qed.
End traces.

(** the text of a stack trace, whatever the writer: [WriteStacktrace] writes
    the frames of the error and of every wrapped error, depth first, each wrapped
    error under its position in the tree ("[1]", "[1.2]"), chunk by chunk until
    the writer fails, and returns the writer's error; it does not panic unless an
    error wraps nil. *)
Theorem WriteStacktrace_chunks {S E} (write : S -> string -> result E S) f ws s :
  no_nil (FwErr f ws) = true ->
  WriteStacktrace write f ws s =
  Some (write_all write (frame_chunks (stack f) ++ wrapped_chunks (FwErr f ws) "[") s).
Proof.
  intros Hn. unfold WriteStacktrace. apply then_spec.
  - intros s'. apply WriteSelfStacktrace_spec.
  - intros s'. by apply writeWrappedStacktrace_spec.
Qed.

(** [Newf] with a [%w] whose argument is nil makes an error whose [Error]
    method panics: the nil ends up among the wrapped errors. *)
Theorem Newf_nil_panics d code ty msg st :
  exists f ws, Newf d code (WrapOne ty msg NilErr) msg st = FwErr f ws /\ In NilErr ws /\
    Error_string false false f ws = None.
Proof.
  eexists _, _. split; [reflexivity|]. split; [by left|].
  unfold Error_string, buildFullErrorString, builder_string, WriteStacktrace, then_.
  rewrite WriteSelfStacktrace_spec. cbn [mbind option_bind].
  match goal with |- context [write_all builder_write ?c ?s] => destruct (write_all builder_write c s) as [s'|[]] end.
  done.
Qed.

(** ** Structured representations *)

Lemma LogValue_shape f ws attrs : LogValue f ws = Some attrs -> exists st,
  (if bool_decide (stackKey f = "") then Some [] else s ← Stacktrace f ws; Some [(stackKey f, s)]) = Some st /\
  attrs = [(codeKey f, Code f)] ++
    (if bool_decide (messageKey f = "") then [] else [(messageKey f, Message f)]) ++ st.
Proof.
  unfold LogValue. intros Ha.
  destruct (if bool_decide (stackKey f = "") then _ else _) as [st|]; [|done].
  cbn [mbind option_bind] in Ha. simplify_eq. eauto.
Qed.

(** The log and JSON representations agree when the three keys differ; when
    two keys collide the JSON object has fewer members than the log group. *)
Theorem LogValue_MarshalJSON f ws attrs m :
  LogValue f ws = Some attrs -> MarshalJSON_map f ws = Some m ->
  (NoDup (fst <$> attrs) -> m = list_to_map attrs) /\
  (forall k, is_Some (m !! k) <-> k ∈ fst <$> attrs).
Proof.
  intros Ha Hm. destruct (LogValue_shape f ws attrs Ha) as (st & Est & ->).
  assert (m = list_to_map (rev ([(codeKey f, Code f)] ++
    (if bool_decide (messageKey f = "") then [] else [(messageKey f, Message f)]) ++ st))) as ->.
  { unfold MarshalJSON_map in Hm. destruct (bool_decide (stackKey f = "")); [|
      destruct (Stacktrace f ws) as [tr|]; [|done]]; cbn [mbind option_bind] in *; simplify_eq;
      destruct (bool_decide (messageKey f = "")); reflexivity. }
  split.
  - intros Hnd. symmetry. apply list_to_map_proper; [done|]. apply Permutation_rev.
  - intros k. rewrite <- elem_of_dom, dom_list_to_map_L, elem_of_list_to_set.
    by rewrite <- (Permutation_rev (_ ++ _)).
Qed.

(** ** Locks of [Newf] *)
Lemma newf_lock_lookup args h h' p : newf_lock args h = Some h' ->
  h' !! p = if decide (Some p ∈ args) then Some (MkFlags true true) else h !! p.
Proof.
  revert h. induction args as [|[q|] args IH]; intros h Hl; cbn in Hl.
  - simplify_eq. case_decide as Hd; [by apply elem_of_nil in Hd|done].
  - destruct (h !! q) as [fl|]; [|done]. cbn in Hl. destruct (locked fl); [done|].
    rewrite (IH _ Hl), lookup_insert. repeat case_decide; set_solver.
  - rewrite (IH _ Hl). repeat case_decide; set_solver.
Qed.

Lemma newf_unlock_lookup args h p :
  newf_unlock args h !! p = if decide (Some p ∈ args) then Some (MkFlags false false) else h !! p.
Proof.
  revert h. induction args as [|[q|] args IH]; intros h; cbn.
  - case_decide as Hd; [by apply elem_of_nil in Hd|done].
  - rewrite IH, lookup_insert. repeat case_decide; set_solver.
  - rewrite IH. repeat case_decide; set_solver.
Qed.

Lemma newf_lock_free args h h' : newf_lock args h = Some h' ->
  NoDup (omap id args) /\ (forall p fl, Some p ∈ args -> h !! p = Some fl -> locked fl = false).
Proof.
  revert h. induction args as [|[q|] args IH]; intros h Hl; cbn in *.
  - split; [constructor|]. intros p fl Hp. by apply elem_of_nil in Hp.
  - destruct (h !! q) as [fl|] eqn:Eq; [|done]. cbn in Hl. destruct (locked fl) eqn:El; [done|].
    destruct (IH _ Hl) as [Hnd Hf]. split.
    + apply NoDup_cons. split; [|done]. intros Hin%list_elem_of_omap.
      destruct Hin as (o & Ho & E). cbn in E. subst o.
      specialize (Hf q (MkFlags true true) Ho). rewrite lookup_insert_eq in Hf. by specialize (Hf eq_refl).
    + intros p fl' [E|Hp]%elem_of_cons Hlk; [congruence|].
      destruct (decide (q = p)) as [->|Hne]; [congruence|]. eapply Hf; [exact Hp|]. by rewrite lookup_insert_ne.
  - destruct (IH _ Hl) as [Hnd Hf]. split; [done|]. intros p fl [E|Hp]%elem_of_cons Hlk; [done|eauto].
Qed.

Lemma newf_lock_total args h :
  NoDup (omap id args) -> (forall p, Some p ∈ args -> h !! p = Some (MkFlags false false)) ->
  is_Some (newf_lock args h).
Proof.
  revert h. induction args as [|[q|] args IH]; intros h Hnd Hf; cbn in *; [by eexists| |].
  - rewrite Hf by set_solver. cbn. apply NoDup_cons in Hnd as [Hq Hnd]. apply IH; [done|].
    intros p Hp. rewrite lookup_insert_ne; [apply Hf; set_solver|].
    intros ->. apply Hq, list_elem_of_omap. by exists (Some p).
  - apply IH; [done|]. set_solver.
Qed.

(** [Newf] locks its [*Error] arguments and unlocks them again: every flag
    is as before; but when the same error is passed twice the call blocks for
    ever. *)
Theorem Newf_locks args h :
  (forall p, Some p ∈ args -> h !! p = Some (MkFlags false false)) ->
  (NoDup (omap id args) -> exists h', newf_lock args h = Some h' /\ newf_unlock args h' = h /\
     (forall p, Some p ∈ args -> h' !! p = Some (MkFlags true true))) /\
  (~ NoDup (omap id args) -> newf_lock args h = None).
Proof.
  intros Hf. split.
  - intros Hnd. destruct (newf_lock_total args h Hnd Hf) as [h' Hl]. exists h'. split_and!; [done| |].
    + apply map_eq. intros p. rewrite newf_unlock_lookup, (newf_lock_lookup _ _ _ p Hl).
      case_decide; [by rewrite Hf|done].
    + intros p Hp. rewrite (newf_lock_lookup _ _ _ p Hl). by rewrite decide_True.
  - intros Hnd. destruct (newf_lock args h) as [h'|] eqn:El; [|done].
    by destruct (newf_lock_free _ _ _ El).
Qed.

(** ** Witnesses *)
Definition sample (code : string) : Fields :=
  MkFields code "m" ("{" +:+ code +:+ "} m") [MkFrame "main.main" "main.go" 7] "kind" "message" "stack".

Lemma WriteStacktrace_chunks_witness :
  WriteStacktrace builder_write (sample "A")
    [WrapOne "*fmt.wrapError" "w" (FwErr (sample "B") []); OpaqueErr "*os.PathError" "p"] "" =
  Some (write_all builder_write (frame_chunks (stack (sample "A")) ++
    wrapped_chunks (FwErr (sample "A")
      [WrapOne "*fmt.wrapError" "w" (FwErr (sample "B") []); OpaqueErr "*os.PathError" "p"]) "[") "").
Proof. apply WriteStacktrace_chunks. reflexivity. Defined.

Definition sample_trace : string := "main.main" +:+ newline +:+ tab +:+ "main.go:7".

Lemma LogValue_MarshalJSON_witness : exists m, MarshalJSON_map (sample "A") [] = Some m /\
  is_Some (m !! "kind").
Proof.
  eexists (<["stack" := sample_trace]> (<["message" := "m"]> {[ "kind" := "A" ]})).
  split; [reflexivity|].
  apply (LogValue_MarshalJSON (sample "A") []
    [("kind", "A"); ("message", "m"); ("stack", sample_trace)]); [reflexivity|reflexivity|].
  cbn. set_solver.
Defined.

Lemma Newf_locks_witness :
  let h : gmap nat Flags := {[ 1%nat := MkFlags false false; 2%nat := MkFlags false false ]} in
  newf_lock [Some 1%nat; None; Some 1%nat] h = None.
Proof.
  intros h. apply (Newf_locks [Some 1%nat; None; Some 1%nat] h).
  - intros p Hp. apply elem_of_cons in Hp as [[= ->]|Hp]; [done|].
    apply elem_of_cons in Hp as [?|Hp]; [done|]. apply elem_of_cons in Hp as [[= ->]|Hp]; [done|].
    by apply elem_of_nil in Hp.
  - cbn. intros [Hn _]%NoDup_cons. apply Hn. set_solver.
Defined.
