(* ===== verification/GoReflect.v ===== *)
(** * Go values as package reflect shows them

    A [val] is what [reflect.ValueOf] gives: the value with the kind of its type.
    Pointers and interfaces are followed as trees.  The widths of the integer
    kinds are left out: no function modelled here looks at them. *)

From S2P Require Import Prelude.
From Stdlib Require Export SpecFloat.

(** [reflect.StructField]: name, whether it is exported or embedded, and its tags
    by key. *)
Record StructField := MkField {
  sf_Name : string;
  sf_exported : bool;
  sf_Anonymous : bool;
  sf_Tag : list (string * string);
}.

(** [Tag.Lookup] *)
Fixpoint tag_lookup (tags : list (string * string)) (key : string) : option string :=
  match tags with
  | [] => None
  | (k, v) :: tags => if bool_decide (k = key) then Some v else tag_lookup tags key
  end.

Inductive val :=
| VInvalid                                     (** the zero [reflect.Value]: a nil interface *)
| VBool (b : bool)
| VInt (z : Z)
| VUint (z : Z)
| VUintptr (z : Z)
| VFloat (f : spec_float)
| VComplex (re im : spec_float)
| VString (s : string)
| VChan (len : option nat)                     (** [None] is a nil channel *)
| VFunc (is_nil : bool)
| VUnsafePointer (is_nil : bool)
| VArray (l : list val)
| VSlice (l : option (list val))
| VMap (m : option (list (string * val)))      (** by [String()] of the key, in the order of iteration *)
| VPtr (p : option val)
| VInterface (i : option val)                  (** a field or element of an interface type *)
| VStruct (fields : list (StructField * val))
| VTime (nanos : Z)                            (** a [time.Time]; 0 is the zero time *)
| VMarshaler (data : result string val) (v : val). (** [v], of a type with [MarshalPartiQL], and what that returns *)

Inductive Kind :=
| Invalid | Bool | Int | Uint | Uintptr | Float | Complex | String_ | Chan | Func
| UnsafePointer | Array | Slice | Map | Pointer | Interface | Struct.

#[global] Instance Kind_eq_dec : EqDecision Kind.
Proof. solve_decision. Defined.

Fixpoint kind (v : val) : Kind :=
  match v with
  | VInvalid => Invalid
  | VBool _ => Bool
  | VInt _ => Int
  | VUint _ => Uint
  | VUintptr _ => Uintptr
  | VFloat _ => Float
  | VComplex _ _ => Complex
  | VString _ => String_
  | VChan _ => Chan
  | VFunc _ => Func
  | VUnsafePointer _ => UnsafePointer
  | VArray _ => Array
  | VSlice _ => Slice
  | VMap _ => Map
  | VPtr _ => Pointer
  | VInterface _ => Interface
  | VStruct _ | VTime _ => Struct
  | VMarshaler _ v => kind v
  end.

Definition is_none {A} (o : option A) : bool := match o with Some _ => false | None => true end.

(** [Value.IsNil], which panics for the kinds that have no nil. *)
Fixpoint IsNil (v : val) : option bool :=
  match v with
  | VChan l => Some (is_none l)
  | VFunc b | VUnsafePointer b => Some b
  | VSlice l => Some (is_none l)
  | VMap m => Some (is_none m)
  | VPtr p => Some (is_none p)
  | VInterface i => Some (is_none i)
  | VMarshaler _ v => IsNil v
  | _ => None
  end.

(** [Value.Len] for the kinds it is called on. *)
Fixpoint Len (v : val) : option nat :=
  match v with
  | VChan l => Some (default 0%nat l)
  | VSlice l => Some (length (default [] l))
  | VArray l => Some (length l)
  | VMap m => Some (length (default [] m))
  | VMarshaler _ v => Len v
  | _ => None
  end.

(** [Value.Elem] of a pointer or an interface. *)
Fixpoint Elem (v : val) : option val :=
  match v with
  | VPtr p => Some (default VInvalid p)
  | VInterface i => Some (default VInvalid i)
  | VMarshaler _ v => Elem v
  | _ => None
  end.

(** [reflect.ValueOf(v.Interface())]: an interface gives its dynamic value; the
    zero Value panics. *)
Definition Interface_of (v : val) : option val :=
  match v with
  | VInvalid => None
  | VInterface i => Some (default VInvalid i)
  | _ => Some v
  end.

Definition float_is_zero (f : spec_float) : bool :=
  match f with S754_zero _ => true | _ => false end.

(** [reflect.DeepEqual] with the zero value of its type. *)
Fixpoint DeepZero (v : val) : bool :=
  match v with
  | VInvalid => true
  | VBool b => negb b
  | VInt z | VUint z | VUintptr z | VTime z => bool_decide (z = 0)
  | VFloat f => float_is_zero f
  | VComplex r i => float_is_zero r && float_is_zero i
  | VString s => bool_decide (s = ""%string)
  | VChan l => is_none l
  | VFunc b | VUnsafePointer b => b
  | VArray l => forallb DeepZero l
  | VSlice l => is_none l
  | VMap m => is_none m
  | VPtr p => is_none p
  | VInterface i => is_none i
  | VStruct fs => forallb (fun f => DeepZero f.2) fs
  | VMarshaler _ v => DeepZero v
  end.
