(* ===== verification/Slices.v ===== *)
(** * functional/slices

    Models [functional/slices/slices.go].  A callback is a computation in [M W]:
    it may read and change any state [W] and it may panic, so the theorems speak
    of which calls are made, in which order, as well as of the results. *)

From S2P Require Import Prelude.

(** ** Slices *)

(** A slice; [None] is the nil slice. *)
Definition slice (A : Type) : Type := option (list A).
Definition elems {A} (s : slice A) : list A := default [] s.

(** [append(s, l...)]: appending nothing to nil is nil. *)
Definition append {A} (s : slice A) (l : list A) : slice A :=
  match s, l with
  | None, [] => None
  | _, _ => Some (elems s ++ l)
  end.

Section slices.
Context {W E R Er : Type} (zero : R).

Fixpoint FilterI_loop (predicate : nat -> E -> M W bool) (i : nat) (s : list E) (filtered : slice E) : M W (slice E) :=
  match s with
  | [] => mret filtered
  | e :: s =>
      keep ← predicate i e;
      FilterI_loop predicate (S i) s (if keep : bool then append filtered [e] else filtered)
  end.
Definition FilterI (s : slice E) (predicate : nat -> E -> M W bool) : M W (slice E) :=
  FilterI_loop predicate 0 (elems s) None.
Definition Filter (s : slice E) (predicate : E -> M W bool) : M W (slice E) :=
  FilterI s (fun _ e => predicate e).

(** [mapped] has its final length from the start and is filled by index. *)
Fixpoint MapI_loop (mapFunc : nat -> E -> M W R) (i : nat) (s : list E) (mapped : list R) : M W (slice R) :=
  match s with
  | [] => mret (Some mapped)
  | e :: s =>
      r ← mapFunc i e;
      MapI_loop mapFunc (S i) s (<[i := r]> mapped)
  end.
Definition MapI (s : slice E) (mapFunc : nat -> E -> M W R) : M W (slice R) :=
  MapI_loop mapFunc 0 (elems s) (replicate (length (elems s)) zero).
Definition Map (s : slice E) (mapFunc : E -> M W R) : M W (slice R) :=
  MapI s (fun _ e => mapFunc e).

(** Go's pair of a value and an error: [(nil, Some err)] or [(value, None)]. *)
Fixpoint MapIE_loop (mapFunc : nat -> E -> M W (R * option Er)) (i : nat) (s : list E) (mapped : list R)
    : M W (slice R * option Er) :=
  match s with
  | [] => mret (Some mapped, None)
  | e :: s =>
      r ← mapFunc i e;
      match r.2 with
      | Some err => mret (None, Some err)
      | None => MapIE_loop mapFunc (S i) s (<[i := r.1]> mapped)
      end
  end.
Definition MapIE (s : slice E) (mapFunc : nat -> E -> M W (R * option Er)) : M W (slice R * option Er) :=
  MapIE_loop mapFunc 0 (elems s) (replicate (length (elems s)) zero).

Fixpoint FlatMapI_loop (flatMapFunc : nat -> E -> M W (slice R)) (i : nat) (s : list E) (mapped : slice R) : M W (slice R) :=
  match s with
  | [] => mret mapped
  | e :: s =>
      rs ← flatMapFunc i e;
      FlatMapI_loop flatMapFunc (S i) s (append mapped (elems rs))
  end.
Definition FlatMapI (s : slice E) (flatMapFunc : nat -> E -> M W (slice R)) : M W (slice R) :=
  FlatMapI_loop flatMapFunc 0 (elems s) None.
Definition FlatMap (s : slice E) (flatMapFunc : E -> M W (slice R)) : M W (slice R) :=
  FlatMapI s (fun _ e => flatMapFunc e).

Fixpoint FlatMapIE_loop (flatMapFunc : nat -> E -> M W (slice R * option Er)) (i : nat) (s : list E) (mapped : slice R)
    : M W (slice R * option Er) :=
  match s with
  | [] => mret (mapped, None)
  | e :: s =>
      rs ← flatMapFunc i e;
      match rs.2 with
      | Some err => mret (None, Some err)
      | None => FlatMapIE_loop flatMapFunc (S i) s (append mapped (elems rs.1))
      end
  end.
Definition FlatMapIE (s : slice E) (flatMapFunc : nat -> E -> M W (slice R * option Er)) : M W (slice R * option Er) :=
  FlatMapIE_loop flatMapFunc 0 (elems s) None.

(** The index found is a Go int, -1 when there is none. *)
Fixpoint FindMapI_loop (mapIFunc : nat -> E -> M W (R * bool)) (i : nat) (s : list E) : M W (R * Z) :=
  match s with
  | [] => mret (zero, -1)
  | e :: s =>
      r ← mapIFunc i e;
      if r.2 : bool then mret (r.1, Z.of_nat i) else FindMapI_loop mapIFunc (S i) s
  end.
Definition FindMapI (s : slice E) (mapIFunc : nat -> E -> M W (R * bool)) : M W (R * Z) :=
  FindMapI_loop mapIFunc 0 (elems s).
Definition FindMap (s : slice E) (mapFunc : E -> M W (R * bool)) : M W (R * Z) :=
  FindMapI s (fun _ e => mapFunc e).

Fixpoint FindMapIE_loop (mapIFunc : nat -> E -> M W (R * bool * option Er)) (i : nat) (s : list E)
    : M W (R * Z * option Er) :=
  match s with
  | [] => mret (zero, -1, None)
  | e :: s =>
      r ← mapIFunc i e;
      match r.2 with
      | Some err => mret (zero, -1, Some err)
      | None => if r.1.2 : bool then mret (r.1.1, Z.of_nat i, None) else FindMapIE_loop mapIFunc (S i) s
      end
  end.
Definition FindMapIE (s : slice E) (mapIFunc : nat -> E -> M W (R * bool * option Er)) : M W (R * Z * option Er) :=
  FindMapIE_loop mapIFunc 0 (elems s).

(** [for i := count - 1; i > 0; i--], with [s[i]] in range. *)
Fixpoint FindLastMapI_loop (mapIFunc : nat -> E -> M W (R * bool)) (s : list E) (i : nat) : M W (R * Z) :=
  match i with
  | O => mret (zero, -1)
  | S i' =>
      e ← lift_option (s !! i);
      r ← mapIFunc i e;
      if r.2 : bool then mret (r.1, Z.of_nat i) else FindLastMapI_loop mapIFunc s i'
  end.
Definition FindLastMapI (s : slice E) (mapIFunc : nat -> E -> M W (R * bool)) : M W (R * Z) :=
  FindLastMapI_loop mapIFunc (elems s) (pred (length (elems s))).
Definition FindLastMap (s : slice E) (mapFunc : E -> M W (R * bool)) : M W (R * Z) :=
  FindLastMapI s (fun _ e => mapFunc e).

Fixpoint FindLastMapIE_loop (mapIFunc : nat -> E -> M W (R * bool * option Er)) (s : list E) (i : nat)
    : M W (R * Z * option Er) :=
  match i with
  | O => mret (zero, -1, None)
  | S i' =>
      e ← lift_option (s !! i);
      r ← mapIFunc i e;
      match r.2 with
      | Some err => mret (zero, -1, Some err)
      | None => if r.1.2 : bool then mret (r.1.1, Z.of_nat i, None) else FindLastMapIE_loop mapIFunc s i'
      end
  end.
Definition FindLastMapIE (s : slice E) (mapIFunc : nat -> E -> M W (R * bool * option Er)) : M W (R * Z * option Er) :=
  FindLastMapIE_loop mapIFunc (elems s) (pred (length (elems s))).
End slices.

(** ** Slices: which calls are made, and with which result *)
Section traced.
Context {E R : Type}.

(** A callback that computes [f] and records its calls. *)
Definition traced (f : nat -> E -> R) : nat -> E -> M (list (nat * E)) R := fun i e =>
  modify (fun t => t ++ [(i, e)]) ≫= fun _ => mret (f i e).

(** The elements with their indices, from index [i] on. *)
Fixpoint indexed (i : nat) (l : list E) : list (nat * E) :=
  match l with [] => [] | e :: l => (i, e) :: indexed (S i) l end.

Lemma traced_run f i e t : traced f i e t = Some (f i e, t ++ [(i, e)]).
Proof. reflexivity. Qed.

Lemma traced_bind {B} f i e t (k : R -> M (list (nat * E)) B) :
  (traced f i e ≫= k) t = k (f i e) (t ++ [(i, e)]).
Proof. reflexivity. Qed.

Lemma indexed_app i l1 l2 : indexed i (l1 ++ l2) = indexed i l1 ++ indexed (i + length l1) l2.
Proof.
  revert i. induction l1 as [|e l1 IH]; intros i; cbn; [by rewrite Nat.add_0_r|].
  by rewrite IH, Nat.add_succ_r.
Qed.

Lemma indexed_imap i l : indexed i l = imap (fun k e => ((i + k)%nat, e)) l.
Proof.
  revert i. induction l as [|e l IH]; intros i; [done|]. cbn. rewrite Nat.add_0_r, IH. f_equal.
  apply imap_ext. intros k x _. cbn. f_equal. lia.
Qed.

Lemma indexed_lookup i l k : indexed i l !! k = (fun e => ((i + k)%nat, e)) <$> l !! k.
Proof. by rewrite indexed_imap, list_lookup_imap. Qed.
End traced.

Section slices_thms.
Context {E R Er : Type}.
Implicit Types (l : list E) (t : list (nat * E)).

Lemma elems_append {A} (s : slice A) r : elems (append s r) = elems s ++ r.
Proof. destruct s, r; cbn; by rewrite ?app_nil_r. Qed.

Lemma append_None {A} (s : slice A) r : append s r = None <-> s = None /\ r = [].
Proof. destruct s, r; cbn; naive_solver. Qed.

Lemma FilterI_loop_spec (p : nat -> E -> bool) i l acc t :
  exists r, FilterI_loop (traced p) i l acc t = Some (r, t ++ indexed i l) /\
    elems r = elems acc ++ (snd <$> filter (fun x => p x.1 x.2 = true) (indexed i l)) /\
    (r = None <-> acc = None /\ filter (fun x => p x.1 x.2 = true) (indexed i l) = []).
Proof.
  revert i acc t. induction l as [|e l IH]; intros i acc t.
  - cbn. eexists. rewrite !app_nil_r. repeat split; naive_solver.
  - cbn [FilterI_loop indexed]. rewrite traced_bind.
    destruct (IH (S i) (if p i e then append acc [e] else acc) (t ++ [(i, e)])) as (r & Hr & He & Hn).
    exists r. rewrite Hr, <- app_assoc. split; [done|]. rewrite filter_cons. cbn [fst snd].
    rewrite He, Hn. destruct (p i e); cbn [decide]; case_decide; try done.
    rewrite elems_append, append_None. cbn. rewrite <- app_assoc. split; [done|]. naive_solver.
Qed.

Lemma MapI_loop_spec (zero : R) f l pre t :
  MapI_loop (traced f) (length pre) l (pre ++ replicate (length l) zero) t =
  Some (Some (pre ++ ((fun x => f x.1 x.2) <$> indexed (length pre) l)), t ++ indexed (length pre) l).
Proof.
  revert pre t. induction l as [|e l IH]; intros pre t; [cbn; by rewrite !app_nil_r|].
  cbn [MapI_loop indexed length replicate]. rewrite traced_bind, insert_middle.
  specialize (IH (pre ++ [f (length pre) e]) (t ++ [(length pre, e)])).
  rewrite length_app, Nat.add_1_r in IH. rewrite IH, <- !app_assoc. done.
Qed.

(** The pairs up to the first error, with that error. *)
Fixpoint upto_error {A} (l : list (A * option Er)) : list A * option Er :=
  match l with
  | [] => ([], None)
  | (a, Some err) :: _ => ([], Some err)
  | (a, None) :: l => (a :: (upto_error l).1, (upto_error l).2)
  end.

(** The calls made: all of them, or up to the first that fails. *)
Fixpoint calls {A} (f : nat -> E -> A * option Er) (i : nat) (l : list E) : list (nat * E) :=
  match l with
  | [] => []
  | e :: l => (i, e) :: (if (f i e).2 then [] else calls f (S i) l)
  end.

Lemma MapIE_loop_spec (zero : R) (f : nat -> E -> R * option Er) l pre t :
  MapIE_loop (traced f) (length pre) l (pre ++ replicate (length l) zero) t =
  let r := upto_error ((fun x => f x.1 x.2) <$> indexed (length pre) l) in
  Some (match r.2 with Some err => (None, Some err) | None => (Some (pre ++ r.1), None) end,
        t ++ calls f (length pre) l).
Proof.
  revert pre t. induction l as [|e l IH]; intros pre t; [cbn; by rewrite !app_nil_r|].
  cbn [MapIE_loop indexed length replicate calls]. rewrite traced_bind. cbn [fmap list_fmap fst snd].
  destruct (f (length pre) e) as [r [err|]] eqn:Ef; cbn [snd fst upto_error]; [done|].
  rewrite insert_middle. specialize (IH (pre ++ [r]) (t ++ [(length pre, e)])).
  rewrite length_app, Nat.add_1_r in IH. rewrite IH. cbv zeta. cbn [fst snd].
  rewrite <- !app_assoc. cbn [app]. by destruct (upto_error _).2.
Qed.

Lemma FlatMapIE_loop_spec (f : nat -> E -> slice R * option Er) i l acc t :
  let r := upto_error ((fun x => f x.1 x.2) <$> indexed i l) in
  exists out, FlatMapIE_loop (traced f) i l acc t = Some (out, t ++ calls f i l) /\
    out.2 = r.2 /\
    (if r.2 then out.1 = None else elems out.1 = elems acc ++ concat (elems <$> r.1)).
Proof.
  revert i acc t. induction l as [|e l IH]; intros i acc t; cbv zeta.
  - cbn. eexists. rewrite app_nil_r. split; [done|]. split; [done|]. cbn. by rewrite app_nil_r.
  - cbn [FlatMapIE_loop indexed calls]. rewrite traced_bind. cbn [fmap list_fmap fst snd].
    destruct (f i e) as [rs [err|]] eqn:Ef; cbn [snd fst upto_error]; [eexists; split; [done|]; done|].
    destruct (IH (S i) (append acc (elems rs)) (t ++ [(i, e)])) as (out & Ho & E2 & E1). exists out.
    rewrite Ho, <- app_assoc. split; [done|]. split; [done|]. cbn [fst snd].
    destruct (upto_error _).2; [done|]. rewrite E1, elems_append. cbn. by rewrite <- app_assoc.
Qed.
End slices_thms.

(** [FilterI], [MapI], [MapIE] and [FlatMapIE] call their callback on the
    elements in order, once each, with their index, up to the first error;
    filtering keeps the order, mapping keeps the positions, flattening appends
    the parts; on an error the slice is nil and the error that of the callback. *)
Theorem slices_in_order {E R Er} (zero : R) (s : slice E) (t : list (nat * E))
    (p : nat -> E -> bool) (f : nat -> E -> R) (fe : nat -> E -> R * option Er)
    (ge : nat -> E -> slice R * option Er) :
  let kept := filter (fun x => p x.1 x.2 = true) (indexed 0 (elems s)) in
  (exists r, FilterI s (traced p) t = Some (r, t ++ indexed 0 (elems s)) /\
     elems r = snd <$> kept /\ (r = None <-> kept = [])) /\
  MapI zero s (traced f) t = Some (Some (imap f (elems s)), t ++ indexed 0 (elems s)) /\
  (let r := upto_error (imap fe (elems s)) in
   MapIE zero s (traced fe) t =
     Some (match r.2 with Some err => (None, Some err) | None => (Some r.1, None) end, t ++ calls fe 0 (elems s))) /\
  (let r := upto_error (imap ge (elems s)) in
   exists out, FlatMapIE s (traced ge) t = Some (out, t ++ calls ge 0 (elems s)) /\
     out.2 = r.2 /\ (if r.2 then out.1 = None else elems out.1 = concat (elems <$> r.1))).
Proof.
  assert (forall {A} (h : nat -> E -> A) l, (fun x => h x.1 x.2) <$> indexed 0 l = imap h l) as Himap.
  { intros A h l. rewrite indexed_imap, fmap_imap. apply imap_ext. by intros. }
  cbv zeta. split_and!.
  - destruct (FilterI_loop_spec p 0 (elems s) None t) as (r & Hr & He & Hn).
    exists r. split; [done|]. split; [done|]. rewrite Hn. naive_solver.
  - pose proof (MapI_loop_spec zero f (elems s) [] t) as Hm. by rewrite Himap in Hm.
  - pose proof (MapIE_loop_spec zero fe (elems s) [] t) as Hm. by rewrite Himap in Hm.
  - pose proof (FlatMapIE_loop_spec ge 0 (elems s) None t) as Hm. cbv zeta in Hm. by rewrite Himap in Hm.
Qed.

(** ** Slices: searching *)
Section find.
Context {E R Er : Type} (zero : R).
Implicit Types (l : list E) (t : list (nat * E)).

(** Where a search stops: at a value found or at an error; and what it returns. *)
Definition halts (r : R * bool * option Er) : bool := match r.2 with Some _ => true | None => r.1.2 end.
Definition outcome (r : R * bool * option Er) (i : nat) : R * Z * option Er :=
  match r.2 with Some err => (zero, -1, Some err) | None => (r.1.1, Z.of_nat i, None) end.

(** [j] is the first, or the last, index from [lo] on where [h] holds. *)
Definition first_at (h : nat -> E -> bool) l (j : nat) (e : E) : Prop :=
  l !! j = Some e /\ h j e = true /\ (forall k x, (k < j)%nat -> l !! k = Some x -> h k x = false).
Definition last_at (h : nat -> E -> bool) l (lo j : nat) (e : E) : Prop :=
  (lo <= j)%nat /\ l !! j = Some e /\ h j e = true /\
  (forall k x, (j < k)%nat -> l !! k = Some x -> h k x = false).
Definition nowhere (h : nat -> E -> bool) l (lo : nat) : Prop :=
  forall k x, (lo <= k)%nat -> l !! k = Some x -> h k x = false.

Lemma first_at_cons h e l j x :
  first_at h (e :: l) (S j) x <-> h 0%nat e = false /\ first_at (fun k => h (S k)) l j x.
Proof.
  split.
  - intros (Hj & Hh & Hk). split; [apply (Hk 0%nat); [lia|done]|]. split_and!; [done..|].
    intros k y Hlt Hy. by apply (Hk (S k)); [lia|].
  - intros (H0 & Hj & Hh & Hk). split_and!; [done..|]. intros [|k] y Hlt Hy; cbn in Hy; [congruence|].
    apply Hk; [lia|done].
Qed.

Lemma FindMapIE_loop_run (f : nat -> E -> R * bool * option Er) i e l t :
  FindMapIE_loop zero (traced f) i (e :: l) t =
  if halts (f i e) then Some (outcome (f i e) i, t ++ [(i, e)])
  else FindMapIE_loop zero (traced f) (S i) l (t ++ [(i, e)]).
Proof.
  cbn [FindMapIE_loop]. rewrite traced_bind. unfold halts, outcome.
  destruct (f i e) as [[r found] [err|]]; cbn [fst snd]; [done|]. by destruct found.
Qed.

Lemma FindMapIE_loop_found f i l j e t : first_at (fun k x => halts (f (i + k)%nat x)) l j e ->
  FindMapIE_loop zero (traced f) i l t =
  Some (outcome (f (i + j)%nat e) (i + j), t ++ take (S j) (indexed i l)).
Proof.
  revert i l t. induction j as [|j IH]; intros i [|x l] t; try by intros [[=] _].
  - intros ([= ->] & Hh & _). rewrite FindMapIE_loop_run. rewrite Nat.add_0_r in *. by rewrite Hh.
  - intros [H0 Hf]%first_at_cons. rewrite Nat.add_0_r in H0.
    rewrite FindMapIE_loop_run, H0, (IH (S i)).
    + rewrite <- app_assoc, Nat.add_succ_comm. done.
    + destruct Hf as (Hj & Hh & Hk). rewrite Nat.add_succ_r in Hh. split_and!; [done..|].
      intros k y Hlt Hy. specialize (Hk k y Hlt Hy). by rewrite Nat.add_succ_r in Hk.
Qed.

Lemma FindMapIE_loop_none f i l t : nowhere (fun k x => halts (f (i + k)%nat x)) l 0 ->
  FindMapIE_loop zero (traced f) i l t = Some ((zero, -1, None), t ++ indexed i l).
Proof.
  revert i t. induction l as [|e l IH]; intros i t Hn; [cbn; by rewrite app_nil_r|].
  rewrite FindMapIE_loop_run. pose proof (Hn 0%nat e) as H0. cbn in H0. rewrite Nat.add_0_r in H0.
  rewrite H0 by (done || lia). rewrite IH; [by rewrite <- app_assoc|].
  intros k x _ Hx. specialize (Hn (S k) x). cbn in Hn. rewrite Nat.add_succ_r in Hn. apply Hn; [lia|done].
Qed.

Lemma FindLastMapIE_loop_run (f : nat -> E -> R * bool * option Er) l i e t : l !! S i = Some e ->
  FindLastMapIE_loop zero (traced f) l (S i) t =
  if halts (f (S i) e) then Some (outcome (f (S i) e) (S i), t ++ [(S i, e)])
  else FindLastMapIE_loop zero (traced f) l i (t ++ [(S i, e)]).
Proof.
  intros Hi. cbn [FindLastMapIE_loop]. rewrite Hi. unfold lift_option, mbind at 1, M_bind at 1.
  rewrite traced_bind. unfold halts, outcome.
  destruct (f (S i) e) as [[r found] [err|]]; cbn [fst snd]; [done|]. by destruct found.
Qed.

(** The calls made going down from index [i] to index [j]. *)
Definition down (l : list E) (i j : nat) : list (nat * E) :=
  rev (drop j (take (S i) (indexed 0 l))).

Lemma down_cons l i j e : (j <= i)%nat -> l !! i = Some e -> down l i j = (i, e) :: rev (drop j (take i (indexed 0 l))).
Proof.
  intros Hj Hi. unfold down. rewrite (take_S_r _ i (i, e)) by (rewrite indexed_lookup, Hi; done).
  assert (j <= length (take i (indexed 0 l)))%nat as Hlen.
  { rewrite length_take, indexed_imap, length_imap. apply lookup_lt_Some in Hi. lia. }
  rewrite drop_app_le by done. by rewrite rev_app_distr.
Qed.

Lemma down_stop l i e : l !! i = Some e -> down l i i = [(i, e)].
Proof.
  intros Hi. rewrite (down_cons _ _ _ e) by done. rewrite drop_ge; [done|]. rewrite length_take. lia.
Qed.

Lemma down_empty l i : down l i (S i) = [].
Proof. unfold down. rewrite drop_ge; [done|]. rewrite length_take. lia. Qed.

Lemma FindLastMapIE_loop_spec f l i t : (i < length l)%nat \/ i = 0%nat ->
  (forall j e, (j <= i)%nat -> last_at (fun k x => halts (f k x)) (take (S i) l) 1 j e ->
     FindLastMapIE_loop zero (traced f) l i t = Some (outcome (f j e) j, t ++ down l i j)) /\
  (nowhere (fun k x => halts (f k x)) (take (S i) l) 1 ->
     FindLastMapIE_loop zero (traced f) l i t = Some ((zero, -1, None), t ++ down l i 1)).
Proof.
  revert t. induction i as [|i IH]; intros t Hi.
  - split; [intros j e Hj [Hlo _]; lia|]. intros _. by rewrite down_empty, app_nil_r.
  - destruct (lookup_lt_is_Some_2 l (S i)) as [x Hx]; [lia|].
    destruct (IH (t ++ [(S i, x)])) as [IHf IHn]; [destruct i; lia|].
    rewrite (FindLastMapIE_loop_run _ _ _ _ _ Hx).
    assert (Hat : take (S (S i)) l !! S i = Some x) by (rewrite lookup_take_lt; [done|lia]).
    assert (Hsub : forall k y, take (S i) l !! k = Some y -> take (S (S i)) l !! k = Some y).
    { intros k y Hk. apply lookup_take_Some in Hk as [Hk Hlt]. by rewrite lookup_take_lt by lia. }
    split.
    + intros j e Hj (Hlo & Hje & Hh & Hk). destruct (decide (j = S i)) as [->|Hne].
      * rewrite Hat in Hje. injection Hje as <-. by rewrite Hh, (down_stop _ _ _ Hx).
      * rewrite (Hk (S i) x) by (done || lia). rewrite (IHf j e).
        -- rewrite (down_cons _ _ _ _ Hj Hx), <- app_assoc. done.
        -- lia.
        -- split_and!; [done| |done|intros k y Hlt Hy; apply Hk; [done|by apply Hsub]].
           rewrite lookup_take_lt in Hje |- *; [done|lia..].
    + intros Hn. rewrite (Hn (S i) x) by (done || lia). rewrite IHn.
      * rewrite (down_cons l (S i) 1 x ltac:(lia) Hx), <- app_assoc. done.
      * intros k y Hk Hy. apply Hn; [done|by apply Hsub].
Qed.

(** The variants without errors. *)
Definition no_error (f : nat -> E -> R * bool) : nat -> E -> R * bool * option Er := fun i e => (f i e, None).
Definition drop_error {S} (o : option (R * Z * option Er * S)) : option (R * Z * S) :=
  (fun r => (r.1.1, r.2)) <$> o.

Lemma FindMapI_loop_no_error f i l t :
  FindMapI_loop zero (traced f) i l t = drop_error (FindMapIE_loop zero (traced (no_error f)) i l t).
Proof.
  revert i t. induction l as [|e l IH]; intros i t; [done|].
  rewrite FindMapIE_loop_run. cbn [FindMapI_loop]. rewrite traced_bind.
  unfold halts, outcome, no_error at 1 2 3 4. cbn [fst snd]. destruct (f i e) as [r []]; cbn [fst snd]; [reflexivity|apply IH].
Qed.

Lemma FindLastMapI_loop_no_error f l i t : (i < length l)%nat \/ i = 0%nat ->
  FindLastMapI_loop zero (traced f) l i t =
  drop_error (FindLastMapIE_loop zero (traced (no_error f)) l i t).
Proof.
  revert t. induction i as [|i IH]; intros t Hi; [done|].
  destruct (lookup_lt_is_Some_2 l (S i)) as [x Hx]; [lia|].
  rewrite (FindLastMapIE_loop_run _ _ _ _ _ Hx). cbn [FindLastMapI_loop].
  rewrite Hx. unfold lift_option, mbind at 1, M_bind at 1. rewrite traced_bind.
  unfold halts, outcome, no_error at 1 2 3 4. cbn [fst snd].
  destruct (f (S i) x) as [r []]; cbn [fst snd]; [reflexivity|apply IH; destruct i; lia].
Qed.
End find.

Lemma take_all_S {A} (l : list A) : take (S (pred (length l))) l = l.
Proof. destruct l; [done|]. cbn [length pred]. by rewrite take_ge. Qed.
Lemma pred_length_bound {A} (l : list A) : (pred (length l) < length l)%nat \/ pred (length l) = 0%nat.
Proof. destruct l; cbn; lia. Qed.

(** The searches stop at the first element, or from the end at the last,
    that is found or fails, and call the callback on nothing beyond it; but the
    searches from the end never look at index 0: an element found only there is
    reported as not found. *)
Theorem find_stops {E R Er} (zero : R) (s : slice E) (t : list (nat * E))
    (f : nat -> E -> R * bool * option Er) (g : nat -> E -> R * bool) :
  let l := elems s in
  let n := pred (length l) in
  let h := fun k x => halts (f k x) in
  (forall j e, first_at h l j e ->
     FindMapIE zero s (traced f) t = Some (outcome zero (f j e) j, t ++ take (S j) (indexed 0 l))) /\
  (nowhere h l 0 -> FindMapIE zero s (traced f) t = Some ((zero, -1, None), t ++ indexed 0 l)) /\
  (forall j e, last_at h l 1 j e ->
     FindLastMapIE zero s (traced f) t = Some (outcome zero (f j e) j, t ++ down l n j)) /\
  (nowhere h l 1 ->
     FindLastMapIE zero s (traced f) t = Some ((zero, -1, None), t ++ down l n 1)) /\
  FindMapI zero s (traced g) t =
    drop_error (FindMapIE zero s (traced (no_error (Er:=Er) g)) t) /\
  FindLastMapI zero s (traced g) t =
    drop_error (FindLastMapIE zero s (traced (no_error (Er:=Er) g)) t).
Proof.
  cbv zeta. destruct (FindLastMapIE_loop_spec zero f (elems s) (pred (length (elems s))) t
    (pred_length_bound _)) as [Hf Hn]. rewrite take_all_S in Hf, Hn. split_and!.
  - intros j e Hj. by apply (FindMapIE_loop_found zero f 0).
  - intros Hno. by apply (FindMapIE_loop_none zero f 0).
  - intros j e Hj. apply Hf; [|done]. destruct Hj as (_ & Hj & _). apply lookup_lt_Some in Hj. lia.
  - done.
  - apply FindMapI_loop_no_error.
  - apply FindLastMapI_loop_no_error, pred_length_bound.
Qed.

Lemma find_stops_witness :
  let f := fun (_ : nat) (e : Z) => (e, bool_decide (e = 7), @None unit) in
  FindLastMapIE 0 (Some [7; 1; 2]) (traced f) [] =
    Some ((0, -1, None), [(2%nat, 2); (1%nat, 1)]) /\
  FindMapIE 0 (Some [7; 1; 2]) (traced f) [] = Some ((7, 0, None), [(0%nat, 7)]).
Proof.
  intros f. destruct (find_stops 0 (Some [7; 1; 2]) [] f (fun _ e => (e, true))) as (Hf & _ & _ & Hn & _).
  split.
  - apply Hn. intros [|[|[|k]]] x Hk Hx; cbn in Hx; simplify_eq; [lia|done..].
  - apply (Hf 0%nat 7). split_and!; [done|done|intros; lia].
Defined.
