(* ===== verification/Maps.v ===== *)
(** * functional/maps

    Models [functional/maps/maps.go], with the order in which the runtime ranges
    over a map as an argument.  Callbacks are computations in [M W]. *)

From S2P Require Import Prelude.

(** ** Maps

    [order] is the order in which the runtime ranges over the map: any
    permutation of its entries. *)
Section maps.
Context {W : Type} `{Countable K} `{Countable K2} {V V2 Er : Type}.

Record Entry (K V : Type) := MkEntry { Key : K; Value : V }.
Arguments MkEntry {K V}.
Arguments Key {K V}.
Arguments Value {K V}.

Definition ranges (order : list (K * V)) (m : gmap K V) : Prop := order ≡ₚ map_to_list m.

Fixpoint ToSlice_loop (i : nat) (order : list (K * V)) (entries : list (Entry K V)) : list (Entry K V) :=
  match order with
  | [] => entries
  | (k, v) :: order => ToSlice_loop (S i) order (<[i := MkEntry k v]> entries)
  end.
(** [zero] fills the slice first. *)
Definition ToSlice (zero : Entry K V) (m : gmap K V) (order : list (K * V)) : list (Entry K V) :=
  ToSlice_loop 0 order (replicate (size m) zero).

Fixpoint Filter (order : list (K * V)) (predicate : Entry K V -> M W bool) (filtered : gmap K V) : M W (gmap K V) :=
  match order with
  | [] => mret filtered
  | (k, v) :: order =>
      keep ← predicate (MkEntry k v);
      Filter order predicate (if keep : bool then <[k := v]> filtered else filtered)
  end.

(** [None] is the nil map. *)
Fixpoint MapE_loop (order : list (K * V)) (mapFunc : Entry K V -> M W (Entry K2 V2 * option Er)) (mapped : gmap K2 V2)
    : M W (option (gmap K2 V2) * option Er) :=
  match order with
  | [] => mret (Some mapped, None)
  | (k, v) :: order =>
      r ← mapFunc (MkEntry k v);
      match r.2 with
      | Some err => mret (None, Some err)
      | None => MapE_loop order mapFunc (<[Key r.1 := Value r.1]> mapped)
      end
  end.
Definition MapE (order : list (K * V)) (mapFunc : Entry K V -> M W (Entry K2 V2 * option Er)) :=
  MapE_loop order mapFunc ∅.
Definition Map (order : list (K * V)) (mapFunc : Entry K V -> M W (Entry K2 V2)) : M W (option (gmap K2 V2)) :=
  r ← MapE order (fun e => n ← mapFunc e; mret (n, None));
  mret r.1.

Fixpoint FromEntries_loop (entries : list (Entry K V)) (m : gmap K V) : gmap K V :=
  match entries with
  | [] => m
  | e :: entries => FromEntries_loop entries (<[Key e := Value e]> m)
  end.
Definition FromEntries (entries : list (Entry K V)) : gmap K V := FromEntries_loop entries ∅.
End maps.

(** ** Maps: whatever the order of iteration *)
Section maps_thms.
Context {W : Type} `{Countable K} `{Countable K2} {V V2 Er : Type}.
Implicit Types (order : list (K * V)) (m : gmap K V) (w : W).

Definition entry_of (kv : K * V) : Entry K V := MkEntry _ _ kv.1 kv.2.
Definition pair_of {A B} (e : Entry A B) : A * B := (Key _ _ e, Value _ _ e).

Lemma Filter_loop_spec order (p : Entry K V -> bool) (acc : gmap K V) w :
  Filter order (fun e => mret (p e)) acc w =
  Some (foldl (fun a kv => if p (entry_of kv) then <[kv.1 := kv.2]> a else a) acc order, w).
Proof. revert acc. induction order as [|[k v] order IH]; intros acc; [done|]. apply IH. Qed.

Lemma filter_fold_lookup order (p : Entry K V -> bool) (acc : gmap K V) k : NoDup order.*1 ->
  foldl (fun a kv => if p (entry_of kv) then <[kv.1 := kv.2]> a else a) acc order !! k =
  match (list_to_map order : gmap K V) !! k with
  | Some v => if p (entry_of (k, v)) then Some v else acc !! k
  | None => acc !! k
  end.
Proof.
  revert acc. induction order as [|[j v] order IH]; intros acc Hnd; [done|].
  cbn [fmap list_fmap fst] in Hnd. apply NoDup_cons in Hnd as [Hj Hnd]. cbn [foldl fst snd]. rewrite (IH _ Hnd).
  rewrite list_to_map_cons. destruct (decide (j = k)) as [->|Hne].
  - rewrite lookup_insert_eq, not_elem_of_list_to_map_1 by done.
    destruct (p (entry_of (k, v))); [by rewrite lookup_insert_eq|done].
  - rewrite lookup_insert_ne by done. destruct (p (entry_of (j, v))); [|done].
    by rewrite lookup_insert_ne by done.
Qed.

Lemma MapE_loop_ok order (f : Entry K V -> Entry K2 V2) (acc : gmap K2 V2) w :
  MapE_loop order (fun e => mret (f e, @None Er)) acc w =
  Some ((Some (list_to_map (rev (pair_of ∘ f ∘ entry_of <$> order)) ∪ acc), None), w).
Proof.
  revert acc. induction order as [|[k v] order IH]; intros acc.
  - cbn. by rewrite (left_id_L ∅ (∪)).
  - cbn [MapE_loop]. unfold mbind, M_bind, mret, M_ret. cbn [snd fst].
    unfold mret, M_ret in IH. rewrite IH. do 4 f_equal. cbn [fmap list_fmap rev].
    rewrite list_to_map_app. cbn. by rewrite insert_union_singleton_l, (assoc_L (∪)), insert_empty.
Qed.

Lemma MapE_loop_error order (f : Entry K V -> Entry K2 V2 * option Er) acc w :
  Exists (fun kv => is_Some (f (entry_of kv)).2) order ->
  exists kv err, kv ∈ order /\ (f (entry_of kv)).2 = Some err /\
    MapE_loop order (fun e => mret (f e)) acc w = Some ((None, Some err), w).
Proof.
  revert acc. induction order as [|[k v] order IH]; intros acc Hex; [by apply Exists_nil in Hex|].
  cbn [MapE_loop]. unfold mbind, M_bind, mret at 1, M_ret at 1.
  destruct (f (MkEntry _ _ k v)) as [e [err|]] eqn:Ef.
  - exists (k, v), err. split_and!; [set_solver|unfold entry_of; cbn; by rewrite Ef|done].
  - apply Exists_cons in Hex as [[err Herr]|Hex].
    { unfold entry_of in Herr. cbn in Herr. rewrite Ef in Herr. done. }
    cbn [snd fst]. destruct (IH (<[Key _ _ e := Value _ _ e]> acc) Hex) as (kv & err & Hin & He & Hr).
    exists kv, err. split_and!; [set_solver|done|done].
Qed.

Lemma ToSlice_loop_spec order pre zero :
  ToSlice_loop (length pre) order (pre ++ replicate (length order) zero) = pre ++ (entry_of <$> order).
Proof.
  revert pre. induction order as [|[k v] order IH]; intros pre; [done|].
  cbn [ToSlice_loop length replicate]. rewrite insert_middle.
  specialize (IH (pre ++ [MkEntry _ _ k v])). rewrite length_app, Nat.add_1_r in IH.
  rewrite IH, <- app_assoc. done.
Qed.

Lemma ToSlice_spec order m zero : Maps.ranges order m -> ToSlice zero m order = entry_of <$> order.
Proof.
  intros Ho. unfold ToSlice. pose proof (ToSlice_loop_spec order [] zero) as Hs. cbn [length app] in Hs.
  rewrite <- Hs. do 2 f_equal. rewrite <- length_map_to_list. by rewrite Ho.
Qed.

Lemma FromEntries_spec (es : list (Entry K V)) (acc : gmap K V) :
  FromEntries_loop es acc = list_to_map (rev (pair_of <$> es)) ∪ acc.
Proof.
  revert acc. induction es as [|e es IH]; intros acc; [cbn; by rewrite (left_id_L ∅ (∪))|].
  cbn [FromEntries_loop fmap list_fmap rev]. rewrite IH, list_to_map_app. cbn.
  by rewrite insert_union_singleton_l, (assoc_L (∪)), insert_empty.
Qed.

Lemma ranges_NoDup order m : Maps.ranges order m -> NoDup order.*1.
Proof. intros Ho. rewrite Ho. apply NoDup_fst_map_to_list. Qed.

Lemma ranges_list_to_map order m : Maps.ranges order m -> list_to_map order = m.
Proof.
  intros Ho. rewrite <- (list_to_map_to_list m). apply list_to_map_proper; [|done].
  by eapply ranges_NoDup.
Qed.

Lemma ranges_elem order m k v : Maps.ranges order m -> (k, v) ∈ order <-> m !! k = Some v.
Proof. intros Ho. rewrite Ho. apply elem_of_map_to_list. Qed.
End maps_thms.

(** the map functions, in whatever order the runtime ranges over the map:
    [Filter] keeps exactly the entries that satisfy the predicate; [MapE] without
    errors and without two entries mapped to one key holds exactly the mapped
    entries; with an error it returns the nil map and the error of an entry;
    [ToSlice] lists the entries, each once, and [FromEntries] rebuilds the map
    from them. *)
Theorem maps_any_order {W} `{Countable K} `{Countable K2} {V V2 Er : Type}
    (m : gmap K V) (order : list (K * V)) (p : Entry K V -> bool)
    (f : Entry K V -> Entry K2 V2) (fe : Entry K V -> Entry K2 V2 * option Er)
    (zero : Entry K V) (w : W) :
  Maps.ranges order m ->
  (exists m', Filter order (fun e => mret (p e)) ∅ w = Some (m', w) /\
     forall k v, m' !! k = Some v <-> m !! k = Some v /\ p (MkEntry _ _ k v) = true) /\
  (NoDup ((fun kv => Key _ _ (f (entry_of kv))) <$> map_to_list m) ->
     exists m', MapE order (fun e => mret (f e, @None Er)) w = Some ((Some m', None), w) /\
     forall k2 v2, m' !! k2 = Some v2 <->
       exists k v, m !! k = Some v /\ f (MkEntry _ _ k v) = MkEntry _ _ k2 v2) /\
  ((exists k v, m !! k = Some v /\ is_Some (fe (MkEntry _ _ k v)).2) ->
     exists k v err, m !! k = Some v /\ (fe (MkEntry _ _ k v)).2 = Some err /\
       MapE order (fun e => mret (fe e)) w = Some ((None, Some err), w)) /\
  (forall e, e ∈ ToSlice zero m order <-> m !! Key _ _ e = Some (Value _ _ e)) /\
  NoDup (ToSlice zero m order) /\
  FromEntries (ToSlice zero m order) = m.
Proof.
  intros Ho. pose proof (ranges_NoDup order m Ho) as Hnd. rewrite (ToSlice_spec _ _ _ Ho). split_and!.
  - eexists. split; [apply Filter_loop_spec|]. intros k v. rewrite filter_fold_lookup by done.
    rewrite (ranges_list_to_map _ _ Ho), lookup_empty. unfold entry_of; cbn.
    destruct (m !! k) as [v'|]; [|split; [done|by intros [? _]]].
    destruct (p (MkEntry _ _ k v')) eqn:Ep; (split; [|intros [[= <-] Hp]]); [intros [= <-]|..]; congruence || done.
  - intros Hk. eexists. split; [apply MapE_loop_ok|]. intros k2 v2. rewrite (right_id_L ∅ (∪)).
    rewrite <- elem_of_list_to_map.
    2: { rewrite <- Permutation_rev, <- list_fmap_compose, Ho. exact Hk. }
    rewrite <- Permutation_rev, list_elem_of_fmap. split.
    + intros ([k v] & E & Hin). rewrite (ranges_elem _ m) in Hin by done. exists k, v. split; [done|].
      unfold entry_of in E; cbn in E. destruct (f _); unfold pair_of in E; cbn in E. congruence.
    + intros (k & v & Hm & E). exists (k, v). split; [|by apply (ranges_elem _ m)].
      unfold entry_of, pair_of; cbn. by rewrite E.
  - intros (k & v & Hm & Hs). destruct (MapE_loop_error order fe ∅ w) as ([k' v'] & err & Hin & He & Hr).
    { apply Exists_exists. exists (k, v). split; [by apply (ranges_elem _ m)|done]. }
    exists k', v', err. split_and!; [by apply (ranges_elem order)|done|done].
  - intros [k v]. cbn. rewrite list_elem_of_fmap. split.
    + intros ([k' v'] & E & Hin). rewrite (ranges_elem _ m) in Hin by done. unfold entry_of in E; cbn in E. congruence.
    + intros Hm. exists (k, v). split; [done|by apply (ranges_elem _ m)].
  - apply (NoDup_fmap_2_strong _).
    + intros [k v] [k' v'] _ _ E. unfold entry_of in E; cbn in E. congruence.
    + by eapply NoDup_fmap_1.
  - unfold FromEntries. rewrite FromEntries_spec, (right_id_L ∅ (∪)), <- list_fmap_compose.
    rewrite (list_fmap_ext _ id order), list_fmap_id by (intros ? [k v] ?; done).
    rewrite <- (ranges_list_to_map _ _ Ho). apply list_to_map_proper; [|by rewrite <- Permutation_rev].
    by rewrite <- Permutation_rev.
Qed.

Lemma maps_any_order_witness :
  let m : gmap Z Z := <[1 := 10]> {[ 2 := 20 ]} in
  FromEntries (ToSlice (MkEntry _ _ 0 0) m [(2, 20); (1, 10)]) = m.
Proof.
  intros m. apply (maps_any_order (W:=unit) (K2:=Z) (V2:=Z) (Er:=unit) m [(2, 20); (1, 10)] (fun _ => true)
    (fun e => e) (fun e => (e, None)) (MkEntry _ _ 0 0) tt).
  unfold Maps.ranges, m. rewrite map_to_list_insert by done. rewrite map_to_list_singleton. apply perm_swap.
Defined.
