(* ===== verification/Predicates.v ===== *)
(** * functional/predicates

    Models [functional/predicates/predicates.go] over the values of file
    GoReflect. *)

From S2P Require Import Prelude.
From S2P Require Import GoReflect.

(** ** Predicates *)
Definition Not {E} (f : E -> bool) : E -> bool := fun e => negb (f e).
Definition NotI {E} (f : nat -> E -> bool) : nat -> E -> bool := fun i e => negb (f i e).

(** [reflect.ValueOf(e)] is the argument; [None] is a panic. *)
Definition isNillableKind (k : Kind) : bool :=
  bool_decide (k ∈ [Chan; Func; Interface; GoReflect.Map; Pointer; Slice; UnsafePointer]).
Definition NilI (i : nat) (e : val) : option bool :=
  if bool_decide (kind e = Invalid) then Some true
  else if isNillableKind (kind e) then IsNil e
  else Some false.
Definition Nil (e : val) : option bool := NilI 0 e.

Fixpoint EmptyI (i : nat) (e : val) : option bool :=
  match e with
  | VInvalid => Some true
  | VMarshaler _ v => EmptyI i v
  | VChan _ | VMap _ | VSlice _ => n ← Len e; Some (bool_decide (n = 0%nat))
  | VPtr None => Some true
  | VPtr (Some VInvalid) => None
  | VPtr (Some (VInterface o)) =>
      match o with Some v => EmptyI 0 v | None => Some true end
  | VPtr (Some v) => EmptyI 0 v
  | _ => Some (DeepZero e)
  end.
Definition Empty (e : val) : option bool := EmptyI 0 e.

(** ** Predicates *)

(** A value as Go builds it: what a pointer points to has a type. *)
Fixpoint typed (v : val) : bool :=
  match v with
  | VPtr (Some v) => negb (bool_decide (kind v = Invalid)) && typed v
  | VInterface (Some v) => typed v
  | VMarshaler _ v => typed v
  | _ => true
  end.

(** [EmptyI] as the code has it: by the kind, through [Elem] and [Interface]. *)
Lemma EmptyI_unfold i e : (forall r v, e <> VMarshaler r v) ->
  EmptyI i e =
  match kind e with
  | Invalid => Some true
  | Chan | GoReflect.Map | Slice => n ← Len e; Some (bool_decide (n = 0%nat))
  | Pointer =>
      is_nil ← IsNil e;
      if is_nil : bool then Some true
      else el ← Elem e; deref ← Interface_of el; EmptyI 0 deref
  | _ => Some (DeepZero e)
  end.
Proof.
  intros Hm. destruct e as [| | | | | | | | | | | | | |[[]|]| | | |]; try reflexivity; [|by edestruct Hm].
  match goal with |- context [VInterface ?o] => by destruct o end.
Qed.

Lemma EmptyI_total e : forall i, typed e = true -> is_Some (EmptyI i e).
Proof.
  revert e. fix IH 1. intros e i.
  destruct e as [| | | | | | | | | | | | | |[v|]|o| | |r v]; intros Ht; try by eexists.
  - cbn [typed] in Ht. apply andb_prop in Ht as [Hk Ht]. pose proof (IH v 0%nat Ht) as Hv.
    cbn [EmptyI].
    destruct v as [| | | | | | | | | | | | | | |[v'|]| | |]; try done; try exact Hv. apply (IH v'), Ht.
  - cbn in Ht |- *. by apply IH.
Qed.

Lemma EmptyI_index e i j : EmptyI i e = EmptyI j e.
Proof. induction e as [| | | | | | | | | | | | | | | | | |r v IH]; try reflexivity. apply IH. Qed.

(** [Nil] and [Empty] return for every value that Go can build, a nil value is
    empty, and a pointer is empty exactly when what it points to is. *)
Theorem predicates_total e : typed e = true ->
  is_Some (Nil e) /\ is_Some (Empty e) /\
  (Nil e = Some true -> Empty e = Some true) /\
  (forall v, e = VPtr (Some v) -> exists deref, Interface_of v = Some deref /\
     Empty e = Empty deref).
Proof.
  intros Ht. split_and!.
  - clear Ht. unfold Nil, NilI.
    induction e as [| | | | | | | | | | | | | | | | | |r v IH]; try by eexists. exact IH.
  - by apply EmptyI_total.
  - clear Ht. unfold Nil, NilI, Empty.
    induction e as [| | | | | | | |len|nil|nil| |l|m|p|o| | |r v IH]; try done; cbn.
    + by destruct len.
    + by destruct l.
    + by destruct m.
    + by destruct p.
  - intros v ->. cbn [typed] in Ht. apply andb_prop in Ht as [Hk Ht].
    destruct v as [| | | | | | | | | | | | | | |[v'|]| | |]; try done; by eexists.
Qed.

Lemma predicates_total_witness :
  Empty (VPtr (Some (VInterface (Some (VSlice (Some [])))))) =
  Empty (VSlice (Some [])).
Proof.
  destruct (predicates_total (VPtr (Some (VInterface (Some (VSlice (Some []))))))) as (_ & _ & _ & Hp);
    [reflexivity|].
  destruct (Hp _ eq_refl) as (deref & E & ->). injection E as <-. reflexivity.
Defined.
