(* ===== verification/SyncMap.v ===== *)
(** * sync.Map: a map with a generator run under a lock

    Models [sync/map.go].  The operations on [sync.Map] are atomic; a call of
    [LoadOrStoreFunc] is not: it is a sequence of atomic steps of the calling
    goroutine, and its generator may itself call [LoadOrStoreFunc] of the same
    map. *)

From S2P Require Import Prelude.

(** ** The operations that are one step *)
Section operations.
Context `{Countable K} {V W : Type}.
Implicit Types (m : gmap K V).

Definition NewMap : gmap K V := ∅.
Definition Store (key : K) (value : V) m : gmap K V := <[key := value]> m.
Definition Load (key : K) (zero : V) m : V * bool :=
  match m !! key with Some v => (v, true) | None => (zero, false) end.
(** The value in the map afterwards, whether it was there before, and the map. *)
Definition LoadOrStore (key : K) (store : V) m : (V * bool) * gmap K V :=
  match m !! key with Some v => ((v, true), m) | None => ((store, false), <[key := store]> m) end.
Definition Delete (key : K) m : gmap K V := delete key m.

(** [order]: the entries in the order [sync.Map.Range] shows them. *)
Fixpoint Range (order : list (K * V)) (f : K -> V -> M W bool) : M W unit :=
  match order with
  | [] => mret tt
  | (k, v) :: order =>
      more ← f k v;
      if more : bool then Range order f else mret tt
  end.
End operations.

Section collect.
Context `{Countable K} {V : Type}.

Definition Clear (order : list (K * V)) (m : gmap K V) : option (gmap K V) :=
  r ← Range order (fun k _ => modify (Delete k) ≫= fun _ => mret true) m;
  Some r.2.

(** [None] is the nil slice, the result for an empty map. *)
Definition Values (order : list (K * V)) : option (option (list V)) :=
  r ← Range order (fun _ value => modify (fun values => Some (default [] values ++ [value])) ≫= fun _ => mret true) None;
  Some r.2.
Definition Keys (order : list (K * V)) : option (option (list K)) :=
  r ← Range order (fun key _ => modify (fun keys => Some (default [] keys ++ [key])) ≫= fun _ => mret true) None;
  Some r.2.
End collect.

(** ** LoadOrStoreFunc, step by step *)
Section concurrent.
Context `{Countable K} {V : Type}.

(** What a generator does: return a value, panic, or call [LoadOrStoreFunc] of
    the same map and return its result. *)
Inductive Gen :=
| Const (v : V)
| Panics
| Nested (key : K) (g : Gen).

(** Control points of a call: before the first [Load]; before [Lock]; before the
    second [Load]; before the generator; in the generator, waiting for a nested
    call; before [Store]; before the deferred [Unlock], returning or panicking;
    ended. *)
Inductive pc :=
| Load1
| Lock
| Load2
| Generate
| Waiting
| StoreV (v : V)
| Unlock (v : V)
| Unwind
| Return (v : V)
| Panicked.

Record Frame := MkFrame { f_key : K; f_gen : Gen; f_pc : pc }.

(** The mutex remembers who locked it (goroutine and depth of the call) for the
    statements only.  [generated] lists the keys whose generator returned. *)
Record St := MkSt {
  store : gmap K V;
  mutex : option (nat * nat);
  threads : list (list Frame);     (** of each goroutine the calls, innermost first *)
  generated : list K;
}.

Definition set_pc (f : Frame) (p : pc) : Frame := MkFrame (f_key f) (f_gen f) p.

(** The next step of goroutine [t]; [None] when it has ended or is blocked. *)
Definition LoadOrStoreFunc_step (t : nat) (s : St) : option St :=
  stack ← threads s !! t;
  match stack with
  | [] => None
  | f :: rest =>
      let goto := fun p => <[t := set_pc f p :: rest]> (threads s) in
      match f_pc f with
      | Load1 =>
          let p := match store s !! f_key f with Some v => Return v | None => Lock end in
          Some (MkSt (store s) (mutex s) (goto p) (generated s))
      | Lock =>
          match mutex s with
          | None => Some (MkSt (store s) (Some (t, length rest)) (goto Load2) (generated s))
          | Some _ => None
          end
      | Load2 =>
          let p := match store s !! f_key f with Some v => Unlock v | None => Generate end in
          Some (MkSt (store s) (mutex s) (goto p) (generated s))
      | Generate =>
          match f_gen f with
          | Const v => Some (MkSt (store s) (mutex s) (goto (StoreV v)) (generated s ++ [f_key f]))
          | Panics => Some (MkSt (store s) (mutex s) (goto Unwind) (generated s))
          | Nested k g =>
              Some (MkSt (store s) (mutex s)
                (<[t := MkFrame k g Load1 :: set_pc f Waiting :: rest]> (threads s)) (generated s))
          end
      | Waiting => None
      | StoreV v => Some (MkSt (<[f_key f := v]> (store s)) (mutex s) (goto (Unlock v)) (generated s))
      | Unlock v => Some (MkSt (store s) None (goto (Return v)) (generated s))
      | Unwind => Some (MkSt (store s) None (goto Panicked) (generated s))
      | Return v =>
          match rest with
          | [] => None
          | p :: rest =>
              Some (MkSt (store s) (mutex s) (<[t := set_pc p (StoreV v) :: rest]> (threads s))
                (generated s ++ [f_key p]))
          end
      | Panicked =>
          match rest with
          | [] => None
          | p :: rest => Some (MkSt (store s) (mutex s) (<[t := set_pc p Unwind :: rest]> (threads s)) (generated s))
          end
      end
  end.

(** A step of a call, or one of the other operations by anyone. *)
Inductive label :=
| LCall (t : nat)
| LStore (key : K) (value : V)
| LLoadOrStore (key : K) (value : V)
| LDelete (key : K).

Definition do_label (l : label) (s : St) : option St :=
  match l with
  | LCall t => LoadOrStoreFunc_step t s
  | LStore k v => Some (MkSt (Store k v (store s)) (mutex s) (threads s) (generated s))
  | LLoadOrStore k v => Some (MkSt (LoadOrStore k v (store s)).2 (mutex s) (threads s) (generated s))
  | LDelete k => Some (MkSt (Delete k (store s)) (mutex s) (threads s) (generated s))
  end.

Definition steps (P : label -> Prop) : St -> St -> Prop :=
  rtc (fun s s' => exists l, P l /\ do_label l s = Some s').

Definition only_calls (l : label) : Prop := match l with LCall _ => True | _ => False end.
Definition no_delete (l : label) : Prop := match l with LDelete _ => False | _ => True end.
(** No deletion, and no other operation writes the key [k]. *)
Definition leaves (k : K) (l : label) : Prop :=
  match l with LCall _ => True | LStore k' _ | LLoadOrStore k' _ => k' <> k | LDelete _ => False end.

(** Goroutines that each call [LoadOrStoreFunc] once. *)
Definition initial (m : gmap K V) (cs : list (K * Gen)) : St :=
  MkSt m None ((fun c => [MkFrame c.1 c.2 Load1]) <$> cs) [].

(** The frame of goroutine [t] with [d] calls around it. *)
Definition frames (s : St) (t d : nat) : option Frame := threads s !! t ≫= fun stack => rev stack !! d.

Definition holds_lock (p : pc) : bool :=
  match p with Load2 | Generate | Waiting | StoreV _ | Unlock _ | Unwind => true | _ => false end.

(** The result of goroutine [t]. *)
Definition returned (s : St) (t : nat) (k : K) (v : V) : Prop :=
  exists g, threads s !! t = Some [MkFrame k g (Return v)].
Definition ended (stack : list Frame) : Prop :=
  exists f, stack = [f] /\ (f_pc f = Panicked \/ exists v, f_pc f = Return v).
Definition blocked (s : St) (t : nat) : Prop := LoadOrStoreFunc_step t s = None.

(** *** The invariant *)
Record Inv (s : St) : Prop := {
  inv_lock : forall t d f, frames s t d = Some f ->
    (holds_lock (f_pc f) = true <-> mutex s = Some (t, d));
  inv_owner : forall t d, mutex s = Some (t, d) -> is_Some (frames s t d);
  inv_stored : forall k, k ∈ generated s -> is_Some (store s !! k) \/
    exists t d f v, frames s t d = Some f /\ f_key f = k /\ f_pc f = StoreV v;
  inv_fresh : forall t d f, frames s t d = Some f -> f_pc f = Generate \/ f_pc f = Waiting ->
    f_key f ∉ generated s;
  inv_once : NoDup (generated s);
  inv_stack : forall t stack, threads s !! t = Some stack -> exists f outer,
    stack = f :: outer /\ f_pc f <> Waiting /\ Forall (fun f => f_pc f = Waiting) outer;
}.

Lemma rev_lookup_last {A} (x : A) l : rev (x :: l) !! length l = Some x.
Proof. cbn [rev]. rewrite lookup_app_r by (rewrite length_rev; lia). by rewrite length_rev, Nat.sub_diag. Qed.

Lemma rev_lookup_cons {A} (x : A) l d : d <> length l -> rev (x :: l) !! d = rev l !! d.
Proof.
  intros Hd. cbn [rev]. destruct (decide (d < length l)%nat).
  - by rewrite lookup_app_l by (rewrite length_rev; lia).
  - rewrite lookup_app_r by (rewrite length_rev; lia).
    rewrite (lookup_ge_None_2 [x]) by (rewrite length_rev; cbn; lia).
    symmetry. apply lookup_ge_None_2. rewrite length_rev. cbn. lia.
Qed.

Lemma frames_top s t f rest : threads s !! t = Some (f :: rest) -> frames s t (length rest) = Some f.
Proof. intros Ht. unfold frames. rewrite Ht. apply rev_lookup_last. Qed.

Lemma frames_goto s t f f' rest m mx g t' d : threads s !! t = Some (f :: rest) ->
  frames (MkSt m mx (<[t := f' :: rest]> (threads s)) g) t' d =
  if decide ((t', d) = (t, length rest)) then Some f' else frames s t' d.
Proof.
  intros Ht. unfold frames. cbn [threads]. case_decide as Hd.
  - injection Hd as -> ->. rewrite list_lookup_insert_eq by by eapply lookup_lt_Some. apply rev_lookup_last.
  - destruct (decide (t' = t)) as [->|Hne]; [|by rewrite list_lookup_insert_ne].
    rewrite list_lookup_insert_eq, Ht by by eapply lookup_lt_Some. cbn [mbind option_bind].
    by rewrite !rev_lookup_cons by congruence.
Qed.

Lemma frames_push s t f f1 f2 rest m mx g t' d : threads s !! t = Some (f :: rest) ->
  frames (MkSt m mx (<[t := f1 :: f2 :: rest]> (threads s)) g) t' d =
  if decide ((t', d) = (t, S (length rest))) then Some f1
  else if decide ((t', d) = (t, length rest)) then Some f2 else frames s t' d.
Proof.
  intros Ht. unfold frames. cbn [threads]. destruct (decide (t' = t)) as [->|Hne].
  - rewrite list_lookup_insert_eq, Ht by by eapply lookup_lt_Some. cbn [mbind option_bind].
    repeat case_decide; simplify_eq; try (apply (rev_lookup_last f1 (f2 :: rest))).
    + rewrite (rev_lookup_cons f1) by (cbn; lia). apply rev_lookup_last.
    + rewrite !(rev_lookup_cons _ _ d) by (cbn; congruence). done.
  - rewrite list_lookup_insert_ne by done. repeat case_decide; congruence.
Qed.

Lemma frames_pop s t f p p' rest m mx g t' d : threads s !! t = Some (f :: p :: rest) ->
  frames (MkSt m mx (<[t := p' :: rest]> (threads s)) g) t' d =
  if decide ((t', d) = (t, S (length rest))) then None
  else if decide ((t', d) = (t, length rest)) then Some p' else frames s t' d.
Proof.
  intros Ht. unfold frames. cbn [threads]. destruct (decide (t' = t)) as [->|Hne].
  - rewrite list_lookup_insert_eq, Ht by by eapply lookup_lt_Some. cbn [mbind option_bind].
    repeat case_decide; simplify_eq.
    + apply lookup_ge_None_2. rewrite length_rev. cbn. lia.
    + apply rev_lookup_last.
    + rewrite !(rev_lookup_cons _ _ d) by (cbn; congruence). done.
  - rewrite list_lookup_insert_ne by done. repeat case_decide; congruence.
Qed.

Lemma stack_update (ths : list (list Frame)) t stack :
  (exists f outer, stack = f :: outer /\ f_pc f <> Waiting /\ Forall (fun f => f_pc f = Waiting) outer) ->
  (forall t' st, ths !! t' = Some st -> exists f outer,
     st = f :: outer /\ f_pc f <> Waiting /\ Forall (fun f => f_pc f = Waiting) outer) ->
  forall t' st, <[t := stack]> ths !! t' = Some st -> exists f outer,
     st = f :: outer /\ f_pc f <> Waiting /\ Forall (fun f => f_pc f = Waiting) outer.
Proof.
  intros Hs Hi t' st Hl. apply list_lookup_insert_Some in Hl as [(-> & <- & _)|(_ & Hl)]; eauto.
Qed.

(** A step that only moves the control point of the innermost call, and may
    change the map and the mutex. *)
Lemma inv_goto s t f rest p m mx : Inv s -> threads s !! t = Some (f :: rest) -> p <> Waiting ->
  (holds_lock p = true <-> mx = Some (t, length rest)) ->
  (forall t' d, (t', d) <> (t, length rest) -> mx = Some (t', d) <-> mutex s = Some (t', d)) ->
  (forall k, is_Some (store s !! k) -> is_Some (m !! k)) ->
  (forall v, f_pc f = StoreV v -> is_Some (m !! f_key f)) ->
  (p = Generate -> f_key f ∉ generated s) -> (forall v, p <> StoreV v) ->
  Inv (MkSt m mx (<[t := set_pc f p :: rest]> (threads s)) (generated s)).
Proof.
  intros [Hl Ho Hs Hf Hn Hk] Ht Hp Hh Hmx Hm Hst Hg Hns.
  pose proof (fun f' => frames_goto s t f f' rest m mx (generated s)) as Hfr. split.
  - intros t' d f'. rewrite (Hfr _ _ _ Ht). cbn [mutex]. case_decide as Hd.
    + intros [= <-]. injection Hd as -> ->. exact Hh.
    + rewrite (Hmx _ _ Hd). apply Hl.
  - intros t' d Hmt. cbn [mutex] in Hmt. rewrite (Hfr _ _ _ Ht). case_decide as Hd; [by eexists|].
    by apply Ho, Hmx.
  - intros k Hin. cbn [generated store] in *.
    destruct (Hs k Hin) as [Hsk|(t' & d & f' & v & Hf' & Hkey & Hpc)]; [left; by apply Hm|].
    destruct (decide ((t', d) = (t, length rest))) as [Hd|Hd].
    + injection Hd as -> ->. rewrite (frames_top _ _ _ _ Ht) in Hf'. injection Hf' as <-.
      left. rewrite <- Hkey. by eapply Hst.
    + right. exists t', d, f', v. split; [|done]. rewrite (Hfr _ _ _ Ht). by rewrite decide_False.
  - intros t' d f'. rewrite (Hfr _ _ _ Ht). cbn [generated]. case_decide as Hd; [|apply Hf].
    intros [= <-] [Hpc|Hpc]; cbn in Hpc |- *; [by apply Hg|done].
  - done.
  - cbn [threads]. apply stack_update; [|exact Hk]. destruct (Hk _ _ Ht) as (f0 & outer & [= <- <-] & _ & Hw).
    by exists (set_pc f p), rest.
Qed.

(** The mutex has one holder. *)
Lemma holder_unique s t d f t' d' f' : Inv s ->
  frames s t d = Some f -> holds_lock (f_pc f) = true ->
  frames s t' d' = Some f' -> holds_lock (f_pc f') = true -> (t', d') = (t, d).
Proof.
  intros Hi Hf Hh Hf' Hh'. apply (inv_lock _ Hi _ _ _ Hf) in Hh. apply (inv_lock _ Hi _ _ _ Hf') in Hh'. congruence.
Qed.

(** A generator of the frame at [(t, n)] returned [v]. *)
Lemma inv_generated s t n f v ths : Inv s ->
  frames s t n = Some f -> f_pc f = Generate \/ f_pc f = Waiting ->
  let s' := MkSt (store s) (mutex s) ths (generated s ++ [f_key f]) in
  frames s' t n = Some (set_pc f (StoreV v)) ->
  (forall t' d f', (t', d) <> (t, n) -> frames s' t' d = Some f' -> frames s t' d = Some f') ->
  (forall t' stack, ths !! t' = Some stack -> exists f outer,
    stack = f :: outer /\ f_pc f <> Waiting /\ Forall (fun f => f_pc f = Waiting) outer) ->
  Inv s'.
Proof.
  intros Hi Hf Hpc s' Hnew Hold Hst.
  assert (holds_lock (f_pc f) = true) as Hh by (by destruct Hpc as [-> | ->]).
  assert (mutex s = Some (t, n)) as Hmx by by apply (inv_lock _ Hi _ _ _ Hf). split.
  - intros t' d f' Hf'. destruct (decide ((t', d) = (t, n))) as [[= -> ->]|Hne].
    + rewrite Hnew in Hf'. injection Hf' as <-. done.
    + cbn [mutex]. apply (inv_lock _ Hi), Hold; done.
  - intros t' d Hm. cbn in Hm. rewrite Hmx in Hm. injection Hm as <- <-. by rewrite Hnew.
  - intros k Hin. cbn [generated] in Hin. apply elem_of_app in Hin as [Hin|Hin].
    + destruct (inv_stored _ Hi _ Hin) as [?|(t' & d & f' & v' & Hf' & _ & Hpc')]; [by left|].
      assert ((t', d) = (t, n)) as [= -> ->] by (eapply holder_unique; eauto; by rewrite Hpc').
      rewrite Hf in Hf'. injection Hf' as <-. destruct Hpc; congruence.
    + apply list_elem_of_singleton in Hin as ->. right. by exists t, n, (set_pc f (StoreV v)), v.
  - intros t' d f' Hf' Hpc'. destruct (decide ((t', d) = (t, n))) as [[= -> ->]|Hne].
    + rewrite Hnew in Hf'. injection Hf' as <-. by destruct Hpc'.
    + exfalso. apply Hne. eapply holder_unique; eauto. by destruct Hpc' as [-> | ->].
  - cbn [generated]. apply NoDup_app. split_and!; [apply Hi| |apply NoDup_singleton].
    intros k Hin ->%list_elem_of_singleton. by eapply (inv_fresh _ Hi).
  - exact Hst.
Qed.

Lemma inv_push s t f rest k g : Inv s -> threads s !! t = Some (f :: rest) -> f_pc f = Generate ->
  Inv (MkSt (store s) (mutex s) (<[t := MkFrame k g Load1 :: set_pc f Waiting :: rest]> (threads s)) (generated s)).
Proof.
  intros Hi Ht Hpc. pose proof (frames_top _ _ _ _ Ht) as Hf.
  pose proof (fun t' d => frames_push s t f (MkFrame k g Load1) (set_pc f Waiting) rest
    (store s) (mutex s) (generated s) t' d Ht) as Hfr.
  assert (mutex s = Some (t, length rest)) as Hmx by (apply (inv_lock _ Hi _ _ _ Hf); by rewrite Hpc). split.
  - intros t' d f'. rewrite Hfr. cbn [mutex]. repeat case_decide; simplify_eq.
    + intros [= <-]. split; [done|]. rewrite Hmx. intros [= ?]. lia.
    + by intros [= <-].
    + apply (inv_lock _ Hi).
  - intros t' d Hm. cbn in Hm. rewrite Hmx in Hm. injection Hm as <- <-. rewrite Hfr.
    repeat case_decide; by eexists.
  - intros k' Hin. cbn [generated store] in *.
    destruct (inv_stored _ Hi _ Hin) as [?|(t' & d & f' & v' & Hf' & _ & Hpc')]; [by left|].
    assert ((t', d) = (t, length rest)) as [= -> ->] by (eapply holder_unique; eauto; by rewrite ?Hpc, ?Hpc').
    congruence.
  - intros t' d f'. rewrite Hfr. cbn [generated]. repeat case_decide; simplify_eq.
    + intros [= <-] [?|?]; done.
    + intros [= <-] _. apply (inv_fresh _ Hi _ _ _ Hf). by left.
    + apply (inv_fresh _ Hi).
  - apply Hi.
  - cbn [threads]. apply stack_update; [|apply Hi].
    destruct (inv_stack _ Hi _ _ Ht) as (f0 & outer & [= <- <-] & _ & Hw).
    exists (MkFrame k g Load1), (set_pc f Waiting :: rest). split_and!; [done..|]. by constructor.
Qed.

Lemma inv_pop_panic s t f p rest : Inv s -> threads s !! t = Some (f :: p :: rest) -> f_pc f = Panicked ->
  Inv (MkSt (store s) (mutex s) (<[t := set_pc p Unwind :: rest]> (threads s)) (generated s)).
Proof.
  intros Hi Ht Hpc. pose proof (frames_top _ _ _ _ Ht) as Hf.
  destruct (inv_stack _ Hi _ _ Ht) as (f0 & outer & [= <- <-] & _ & Hw).
  apply Forall_cons in Hw as [Hp Hw].
  assert (frames s t (length rest) = Some p) as Hfp.
  { unfold frames in *. rewrite Ht. cbn [mbind option_bind]. rewrite rev_lookup_cons by (cbn; lia).
    apply rev_lookup_last. }
  assert (mutex s = Some (t, length rest)) as Hmx by (apply (inv_lock _ Hi _ _ _ Hfp); by rewrite Hp).
  pose proof (fun t' d => frames_pop s t f p (set_pc p Unwind) rest
    (store s) (mutex s) (generated s) t' d Ht) as Hfr. split.
  - intros t' d f'. rewrite Hfr. cbn [mutex]. repeat case_decide; simplify_eq; [done|..].
    + by intros [= <-].
    + apply (inv_lock _ Hi).
  - intros t' d Hm. cbn in Hm. rewrite Hmx in Hm. injection Hm as <- <-. rewrite Hfr.
    repeat case_decide; simplify_eq; [lia|by eexists..].
  - intros k' Hin. cbn [generated store] in *.
    destruct (inv_stored _ Hi _ Hin) as [?|(t' & d & f' & v' & Hf' & _ & Hpc')]; [by left|].
    assert ((t', d) = (t, length rest)) as [= -> ->].
    { eapply (holder_unique s); [done|exact Hfp|by rewrite Hp|exact Hf'|by rewrite Hpc']. }
    congruence.
  - intros t' d f'. rewrite Hfr. cbn [generated]. repeat case_decide; simplify_eq; [done|..].
    + intros [= <-] [?|?]; done.
    + apply (inv_fresh _ Hi).
  - apply Hi.
  - cbn [threads]. apply stack_update; [|apply Hi]. by exists (set_pc p Unwind), rest.
Qed.

(** A step of a call that keeps the mutex. *)
Lemma inv_goto_same s t f rest p m : Inv s -> threads s !! t = Some (f :: rest) -> p <> Waiting ->
  holds_lock p = holds_lock (f_pc f) ->
  (forall k, is_Some (store s !! k) -> is_Some (m !! k)) ->
  (forall v, f_pc f = StoreV v -> is_Some (m !! f_key f)) ->
  (p = Generate -> f_key f ∉ generated s) -> (forall v, p <> StoreV v) ->
  Inv (MkSt m (mutex s) (<[t := set_pc f p :: rest]> (threads s)) (generated s)).
Proof.
  intros Hi Ht Hp Hh. intros. eapply inv_goto; eauto. rewrite Hh.
  apply (inv_lock _ Hi), (frames_top _ _ _ _ Ht).
Qed.

Lemma inv_unlock s t f rest p : Inv s -> threads s !! t = Some (f :: rest) -> p <> Waiting ->
  holds_lock p = false -> holds_lock (f_pc f) = true -> (forall v, f_pc f <> StoreV v) ->
  Inv (MkSt (store s) None (<[t := set_pc f p :: rest]> (threads s)) (generated s)).
Proof.
  intros Hi Ht Hp Hh Hf Hns. pose proof (frames_top _ _ _ _ Ht) as Htop.
  apply (inv_lock _ Hi _ _ _ Htop) in Hf.
  eapply inv_goto; eauto; try (by intros ->).
  - by rewrite Hh.
  - intros t' d Hne. rewrite Hf. split; congruence.
  - intros v Hv. by destruct (Hns v).
  - intros v ->. done.
Qed.

Lemma call_preserves t s s' : Inv s -> LoadOrStoreFunc_step t s = Some s' -> Inv s'.
Proof.
  intros Hi Hs. unfold LoadOrStoreFunc_step in Hs.
  destruct (threads s !! t) as [[|f rest]|] eqn:Ht; cbn [mbind option_bind] in Hs; try done.
  pose proof (frames_top _ _ _ _ Ht) as Hf.
  destruct (f_pc f) eqn:Hpc; cbv zeta in Hs.
  - injection Hs as <-. destruct (store s !! f_key f); apply inv_goto_same; auto; by rewrite ?Hpc.
  - destruct (mutex s) eqn:Hmx; [done|]. injection Hs as <-. eapply inv_goto; eauto; try done; try congruence.
    rewrite Hmx. intros t' d Hne. split; congruence.
  - injection Hs as <-. destruct (store s !! f_key f) as [v|] eqn:Hk.
    + apply inv_goto_same; auto; by rewrite ?Hpc.
    + apply inv_goto_same; auto; try (by rewrite ?Hpc). intros _ Hin.
      destruct (inv_stored _ Hi _ Hin) as [[? ?]|(t' & d & f' & v' & Hf' & _ & Hpc')]; [congruence|].
      assert ((t', d) = (t, length rest)) as [= -> ->] by (eapply holder_unique; eauto; by rewrite ?Hpc, ?Hpc').
      congruence.
  - destruct (f_gen f) as [v| |k g]; injection Hs as <-.
    + eapply inv_generated; [done|exact Hf|by left|..].
      * rewrite (frames_goto s t f) by done. by rewrite decide_True.
      * intros t' d f' Hne. rewrite (frames_goto s t f) by done. by rewrite decide_False.
      * apply stack_update; [|apply Hi]. destruct (inv_stack _ Hi _ _ Ht) as (f0 & outer & [= <- <-] & _ & Hw).
        by exists (set_pc f (StoreV v)), rest.
    + apply inv_goto_same; auto; by rewrite ?Hpc.
    + by apply inv_push.
  - done.
  - injection Hs as <-. apply inv_goto_same; auto; try (by rewrite ?Hpc).
    + intros k Hk. rewrite lookup_insert. case_decide; [by eexists|done].
    + intros v' _. rewrite lookup_insert_eq. by eexists.
  - injection Hs as <-. eapply inv_unlock; eauto; by rewrite Hpc.
  - injection Hs as <-. eapply inv_unlock; eauto; by rewrite Hpc.
  - destruct rest as [|p rest]; [done|]. injection Hs as <-.
    destruct (inv_stack _ Hi _ _ Ht) as (f0 & outer & [= <- <-] & _ & Hw). apply Forall_cons in Hw as [Hp Hw].
    apply (inv_generated s t (length rest) p v); [done| |by right|..].
    + unfold frames. rewrite Ht. cbn [mbind option_bind]. rewrite rev_lookup_cons by (cbn; lia). apply rev_lookup_last.
    + rewrite (frames_pop s t f p) by done. repeat case_decide; simplify_eq; done || lia.
    + intros t' d f' Hne. rewrite (frames_pop s t f p) by done. repeat case_decide; done.
    + apply stack_update; [|apply Hi]. by exists (set_pc p (StoreV v)), rest.
  - destruct rest as [|p rest]; [done|]. injection Hs as <-. by eapply inv_pop_panic.
Qed.

Lemma label_preserves l s s' : no_delete l -> Inv s -> do_label l s = Some s' -> Inv s'.
Proof.
  intros Hl Hi Hs. destruct l as [t|k v|k v|k]; [by eapply call_preserves| |  |done];
    cbn [do_label] in Hs; injection Hs as <-; destruct Hi as [H1 H2 H3 H4 H5 H6]; split; try assumption;
    intros k' Hk'; (destruct (H3 k' Hk') as [[w Hw]|?]; [left|by right]); cbn [store].
  - unfold Store. rewrite lookup_insert. case_decide; by eexists.
  - unfold LoadOrStore. destruct (store s !! k); cbn [snd]; [by eexists|].
    rewrite lookup_insert. case_decide; by eexists.
Qed.

Lemma frames_initial m cs t d f : frames (initial m cs) t d = Some f -> d = 0%nat /\ f_pc f = Load1.
Proof.
  unfold frames, initial. cbn [threads]. rewrite list_lookup_fmap.
  destruct (cs !! t) as [c|]; [|done]. cbn. destruct d; [by intros [= <-]|done].
Qed.

Lemma initial_inv m cs : Inv (initial m cs).
Proof.
  split; try done.
  - intros t d f Hf. destruct (frames_initial _ _ _ _ _ Hf) as [-> ->]. done.
  - intros k Hk. by apply elem_of_nil in Hk.
  - intros t d f _ _ Hk. by apply elem_of_nil in Hk.
  - constructor.
  - intros t stack. cbn [initial threads]. rewrite list_lookup_fmap. destruct (cs !! t) as [c|]; [|done].
    intros [= <-]. by exists (MkFrame c.1 c.2 Load1), [].
Qed.

Lemma steps_inv m cs s : steps no_delete (initial m cs) s -> Inv s.
Proof.
  intros Hr. eapply rtc_invariant; [|apply (initial_inv m cs)|exact Hr].
  intros a b Ha (l & Hl & Hd). by eapply label_preserves.
Qed.

(** *** Agreement of the results *)
Definition agrees (m : gmap K V) (f : Frame) : Prop :=
  match f_pc f with
  | Generate | Waiting | StoreV _ => m !! f_key f = None
  | Unlock v | Return v => m !! f_key f = Some v
  | _ => True
  end.
Definition Agree (k : K) (s : St) : Prop := forall t d f, frames s t d = Some f -> f_key f = k -> agrees (store s) f.

Lemma agree_goto k s t f f' rest mx g : Agree k s -> threads s !! t = Some (f :: rest) ->
  (f_key f' = k -> agrees (store s) f') ->
  Agree k (MkSt (store s) mx (<[t := f' :: rest]> (threads s)) g).
Proof.
  intros Ha Ht Hf t' d f0. rewrite (frames_goto s t f) by done. case_decide; [by intros [= <-]|apply Ha].
Qed.

Lemma agree_pop k s t f p p' rest mx g : Agree k s -> threads s !! t = Some (f :: p :: rest) ->
  (f_key p' = k -> agrees (store s) p') ->
  Agree k (MkSt (store s) mx (<[t := p' :: rest]> (threads s)) g).
Proof.
  intros Ha Ht Hf t' d f0. rewrite (frames_pop s t f p) by done.
  case_decide; [done|]. case_decide; [by intros [= <-]|apply Ha].
Qed.

Lemma agree_store k s t f rest v g : Inv s -> Agree k s -> threads s !! t = Some (f :: rest) -> f_pc f = StoreV v ->
  Agree k (MkSt (<[f_key f := v]> (store s)) (mutex s) (<[t := set_pc f (Unlock v) :: rest]> (threads s)) g).
Proof.
  intros Hi Ha Ht Hpc t' d f0. pose proof (frames_top _ _ _ _ Ht) as Hf.
  rewrite (frames_goto s t f) by done. cbn [store]. case_decide as Hd.
  - intros [= <-] _. unfold agrees. cbn. apply lookup_insert_eq.
  - intros Hf0 Hk0. pose proof (Ha _ _ _ Hf0 Hk0) as Hag. unfold agrees in *.
    assert (holds_lock (f_pc f0) = true -> False) as Hno.
    { intros Hh. apply Hd. eapply (holder_unique s); [done|exact Hf|by rewrite Hpc|exact Hf0|done]. }
    destruct (f_pc f0); try done; try (by destruct Hno).
    rewrite lookup_insert_ne; [done|]. intros E.
    specialize (Ha _ _ _ Hf ltac:(congruence)). unfold agrees in Ha. rewrite Hpc in Ha. congruence.
Qed.

Lemma call_agree k t s s' : Inv s -> Agree k s -> LoadOrStoreFunc_step t s = Some s' -> Agree k s'.
Proof.
  intros Hi Ha Hs. unfold LoadOrStoreFunc_step in Hs.
  destruct (threads s !! t) as [[|f rest]|] eqn:Ht; cbn [mbind option_bind] in Hs; try done.
  pose proof (frames_top _ _ _ _ Ht) as Hf. pose proof (Ha _ _ _ Hf) as Hag. unfold agrees in Hag.
  destruct (f_pc f) eqn:Hpc; cbv zeta in Hs.
  - injection Hs as <-. eapply agree_goto; [done..|]. unfold agrees. cbn.
    destruct (store s !! f_key f) eqn:E; done.
  - destruct (mutex s); [done|]. injection Hs as <-. by eapply agree_goto.
  - injection Hs as <-. eapply agree_goto; [done..|]. unfold agrees. cbn.
    destruct (store s !! f_key f) eqn:E; done.
  - destruct (f_gen f) as [v| |k0 g]; injection Hs as <-; [by eapply agree_goto..|].
    intros t' d f0. rewrite (frames_push s t f) by done.
    case_decide; [by intros [= <-]|]. case_decide; [by intros [= <-]|apply Ha].
  - done.
  - injection Hs as <-. by eapply agree_store.
  - injection Hs as <-. by eapply agree_goto.
  - injection Hs as <-. by eapply agree_goto.
  - destruct rest as [|p rest]; [done|]. injection Hs as <-. eapply agree_pop; [done..|]. cbn. intros Hk.
    destruct (inv_stack _ Hi _ _ Ht) as (f0 & outer & [= <- <-] & _ & Hw). apply Forall_cons in Hw as [Hp Hw].
    assert (frames s t (length rest) = Some p) as Hfp.
    { unfold frames. rewrite Ht. cbn [mbind option_bind]. rewrite rev_lookup_cons by (cbn; lia). apply rev_lookup_last. }
    specialize (Ha _ _ _ Hfp Hk). unfold agrees in *. by rewrite Hp in Ha.
  - destruct rest as [|p rest]; [done|]. injection Hs as <-. by eapply agree_pop.
Qed.

Lemma agree_write k s m mx ths g : Agree k s -> m !! k = store s !! k -> ths = threads s ->
  Agree k (MkSt m mx ths g).
Proof.
  intros Ha Hm -> t d f Hf Hk. specialize (Ha t d f Hf Hk). unfold agrees in *. cbn [store].
  rewrite Hk in *. by rewrite Hm.
Qed.

Lemma steps_agree k m cs s : steps (leaves k) (initial m cs) s -> Agree k s.
Proof.
  intros Hr. assert (Inv s /\ Agree k s) as [_ ?]; [|done].
  eapply (rtc_invariant _ (fun s => Inv s /\ Agree k s)); [| |exact Hr].
  - intros a b [Hi Ha] (l & Hl & Hd).
    split; [eapply label_preserves; [|done|exact Hd]; by destruct l|].
    destruct l as [t|k' v|k' v|k']; cbn [leaves do_label] in *; [by eapply call_agree| |  |done];
      injection Hd as <-; (eapply agree_write; [exact Ha| |done]).
    + unfold Store. by rewrite lookup_insert_ne.
    + unfold LoadOrStore. destruct (store a !! k'); cbn; [done|]. by rewrite lookup_insert_ne.
  - split; [apply initial_inv|]. intros t d f Hf _. destruct (frames_initial _ _ _ _ _ Hf) as [_ Hpc].
    unfold agrees. by rewrite Hpc.
Qed.

(** *** Progress *)
Definition flat (f : Frame) : Prop := match f_gen f with Nested _ _ => False | _ => True end.
Definition all_flat (s : St) : Prop := forall t stack, threads s !! t = Some stack -> exists f, stack = [f] /\ flat f.

Definition weight (p : pc) : nat :=
  match p with
  | Load1 => 6 | Lock => 5 | Load2 => 4 | Generate | Waiting => 3 | StoreV _ => 2 | Unlock _ | Unwind => 1
  | Return _ | Panicked => 0
  end.
Definition total_weight (s : St) : nat := sum_list_with (fun stack => sum_list_with (fun f => weight (f_pc f)) stack) (threads s).

Lemma all_flat_update s t f p m mx g : all_flat s -> threads s !! t = Some [f] ->
  all_flat (MkSt m mx (<[t := [set_pc f p]]> (threads s)) g).
Proof.
  intros Hfl Ht t' stack Hl. cbn [threads] in Hl.
  apply list_lookup_insert_Some in Hl as [(-> & <- & _)|(_ & Hl)]; [|by eapply Hfl].
  destruct (Hfl _ _ Ht) as (f0 & [= <-] & Hf). by exists (set_pc f p).
Qed.

Lemma flat_step t s s' : all_flat s -> LoadOrStoreFunc_step t s = Some s' ->
  exists f p m mx g, threads s !! t = Some [f] /\ s' = MkSt m mx (<[t := [set_pc f p]]> (threads s)) g /\
    (weight p < weight (f_pc f))%nat.
Proof.
  intros Hfl Hs. unfold LoadOrStoreFunc_step in Hs.
  destruct (threads s !! t) as [stack|] eqn:Ht; [|done]. destruct (Hfl _ _ Ht) as (f & -> & Hf).
  cbn [mbind option_bind] in Hs. cbv zeta in Hs. unfold flat in Hf. exists f.
  destruct (f_pc f) eqn:Hpc; try done.
  - injection Hs as <-. do 4 eexists. split_and!; [done|reflexivity|]. destruct (store s !! _); cbn; lia.
  - destruct (mutex s); [done|]. injection Hs as <-. do 4 eexists. split_and!; [done|reflexivity|]. cbn; lia.
  - injection Hs as <-. do 4 eexists. split_and!; [done|reflexivity|]. destruct (store s !! _); cbn; lia.
  - destruct (f_gen f); try done; injection Hs as <-; do 4 eexists; (split_and!; [done|reflexivity|]); cbn; lia.
  - injection Hs as <-. do 4 eexists. split_and!; [done|reflexivity|]. cbn; lia.
  - injection Hs as <-. do 4 eexists. split_and!; [done|reflexivity|]. cbn; lia.
  - injection Hs as <-. do 4 eexists. split_and!; [done|reflexivity|]. cbn; lia.
Qed.

Lemma weight_decreases t s s' : all_flat s -> LoadOrStoreFunc_step t s = Some s' ->
  (total_weight s' < total_weight s)%nat.
Proof.
  intros Hfl Hs. destruct (flat_step _ _ _ Hfl Hs) as (f & p & m & mx & g & Ht & -> & Hw).
  unfold total_weight. cbn [threads].
  apply list_elem_of_split_length in Ht as (l1 & l2 & -> & ->).
  rewrite insert_app_r_alt, Nat.sub_diag by lia. cbn [list_insert insert].
  rewrite !sum_list_with_app. cbn. lia.
Qed.

Lemma flat_progress s t stack : Inv s -> all_flat s -> threads s !! t = Some stack -> ~ ended stack ->
  exists t', ~ blocked s t'.
Proof.
  intros Hi Hfl Ht Hne. destruct (Hfl _ _ Ht) as (f & -> & Hf).
  destruct (inv_stack _ Hi _ _ Ht) as (f0 & outer & [= <- <-] & Hnw & _).
  assert (f_pc f = Lock /\ is_Some (mutex s) \/ ~ (f_pc f = Lock /\ is_Some (mutex s))) as [[Hlk [[t1 d1] Hmx]]|Hd].
  { destruct (f_pc f), (mutex s); try (right; intros [? [? ?]]; done); left; by eauto. }
  - exists t1. destruct (inv_owner _ Hi _ _ Hmx) as [f1 Hf1]. pose proof (proj2 (inv_lock _ Hi _ _ _ Hf1) Hmx) as Hh.
    unfold frames in Hf1. destruct (threads s !! t1) as [st1|] eqn:Ht1; [|done].
    destruct (Hfl _ _ Ht1) as (f1' & -> & Hfl1).
    assert (f1' = f1) as -> by (destruct d1 as [|[|]]; cbn in Hf1; congruence).
    destruct (inv_stack _ Hi _ _ Ht1) as (f2 & outer & [= <- <-] & Hnw1 & _).
    unfold blocked, LoadOrStoreFunc_step. rewrite Ht1. cbn [mbind option_bind]. cbv zeta.
    unfold flat in Hfl1. destruct (f_pc f1); try done. by destruct (f_gen f1).
  - exists t. unfold blocked, LoadOrStoreFunc_step. rewrite Ht. cbn [mbind option_bind]. cbv zeta.
    unfold flat in Hf. destruct (f_pc f) eqn:Hpc; try done.
    + destruct (mutex s); [|done]. exfalso. apply Hd. split; [done|by eexists].
    + by destruct (f_gen f).
    + exfalso. apply Hne. exists f. split; [done|]. right. by eexists.
    + exfalso. apply Hne. exists f. split; [done|]. by left.
Qed.

Definition no_nested (c : K * Gen) : Prop := match c.2 with Nested _ _ => False | _ => True end.

Lemma steps_flat m cs s : Forall no_nested cs -> steps no_delete (initial m cs) s -> all_flat s.
Proof.
  intros Hcs Hr. eapply (rtc_invariant _ all_flat); [| |exact Hr].
  - intros a b Ha (l & Hl & Hd). destruct l as [t|k v|k v|k]; [| | |done];
      cbn [do_label] in Hd; [|by injection Hd as <-..].
    destruct (flat_step _ _ _ Ha Hd) as (f & p & mm & mx & g & Ht & -> & _). by apply all_flat_update.
  - intros t stack. cbn [initial threads]. rewrite list_lookup_fmap. destruct (cs !! t) as [c|] eqn:Hc; [|done].
    intros [= <-]. eexists. split; [done|]. rewrite Forall_lookup in Hcs. exact (Hcs _ _ Hc).
Qed.

(** *** Re-entry *)
Definition stuck (s : St) (stack : list Frame) : Prop :=
  Inv s /\ threads s !! 0%nat = Some stack /\ mutex s = Some (0%nat, 0%nat) /\
  exists f rest, stack = f :: rest /\ f_pc f = Lock.

Lemma stuck_other t s s' stack : stuck s stack -> LoadOrStoreFunc_step t s = Some s' ->
  mutex s' = mutex s /\ threads s' !! 0%nat = threads s !! 0%nat.
Proof.
  intros (Hi & H0 & Hmx & f0 & rest0 & -> & Hlk) Hs.
  assert (t <> 0%nat) as Hne.
  { intros ->. unfold LoadOrStoreFunc_step in Hs. rewrite H0 in Hs. cbn [mbind option_bind] in Hs. cbv zeta in Hs.
    by rewrite Hlk, Hmx in Hs. }
  unfold LoadOrStoreFunc_step in Hs.
  destruct (threads s !! t) as [[|f rest]|] eqn:Ht; cbn [mbind option_bind] in Hs; try done.
  assert (holds_lock (f_pc f) = false) as Hh.
  { destruct (holds_lock (f_pc f)) eqn:E; [|done].
    apply (inv_lock _ Hi _ _ _ (frames_top _ _ _ _ Ht)) in E. congruence. }
  destruct (f_pc f) eqn:Hpc; try discriminate Hh; cbv zeta in Hs; rewrite ?Hmx in Hs.
  - injection Hs as <-. cbn. split; [done|by rewrite list_lookup_insert_ne].
  - done.
  - destruct rest as [|p rest]; [done|]. injection Hs as <-. cbn. split; [done|by rewrite list_lookup_insert_ne].
  - destruct rest as [|p rest]; [done|]. injection Hs as <-. cbn. split; [done|by rewrite list_lookup_insert_ne].
Qed.

Lemma stuck_stays s s' stack : stuck s stack -> steps no_delete s s' -> stuck s' stack.
Proof.
  intros Hs Hr. eapply (rtc_invariant _ (fun s => stuck s stack)); [|exact Hs|exact Hr].
  intros a b Ha (l & Hl & Hd). pose proof Ha as (Hi & H0 & Hmx & Hf).
  pose proof (label_preserves _ _ _ Hl Hi Hd) as Hi'. destruct l as [t|k v|k v|k]; [| | |done]; cbn [do_label] in Hd.
  - destruct (stuck_other _ _ _ _ Ha Hd) as [Em E0]. unfold stuck. by rewrite Em, E0.
  - injection Hd as <-. done.
  - injection Hd as <-. done.
Qed.

Lemma stuck_blocks s stack : stuck s stack ->
  blocked s 0 /\ forall t f rest, threads s !! t = Some (f :: rest) -> f_pc f = Lock -> blocked s t.
Proof.
  intros (Hi & H0 & Hmx & f0 & rest0 & -> & Hlk).
  assert (forall t f rest, threads s !! t = Some (f :: rest) -> f_pc f = Lock -> blocked s t) as Hb.
  { intros t f rest Ht Hpc. unfold blocked, LoadOrStoreFunc_step. rewrite Ht. cbn [mbind option_bind]. cbv zeta.
    by rewrite Hpc, Hmx. }
  split; [by eapply Hb|exact Hb].
Qed.

Lemma step_call s s' t : LoadOrStoreFunc_step t s = Some s' ->
  exists l, only_calls l /\ do_label l s = Some s'.
Proof. intros Hs. by exists (LCall t). Qed.

Lemma reentry_reaches m k k2 g cs : m !! k = None -> m !! k2 = None ->
  exists s, steps only_calls (initial m ((k, Nested k2 g) :: cs)) s /\
    stuck s [MkFrame k2 g Lock; MkFrame k (Nested k2 g) Waiting].
Proof.
  intros Hk Hk2. set (ths := (fun c : K * Gen => [MkFrame c.1 c.2 Load1]) <$> cs).
  assert (steps only_calls (initial m ((k, Nested k2 g) :: cs))
    (MkSt m (Some (0%nat, 0%nat)) ([MkFrame k2 g Lock; MkFrame k (Nested k2 g) Waiting] :: ths) [])) as Hr.
  { unfold initial. cbn [fmap list_fmap fst snd]. fold ths.
    eapply rtc_l; [apply (step_call _ _ 0); unfold LoadOrStoreFunc_step; cbn; by rewrite Hk|].
    eapply rtc_l; [apply (step_call _ _ 0); unfold LoadOrStoreFunc_step; by cbn|].
    eapply rtc_l; [apply (step_call _ _ 0); unfold LoadOrStoreFunc_step; cbn; by rewrite Hk|].
    eapply rtc_l; [apply (step_call _ _ 0); unfold LoadOrStoreFunc_step; by cbn|].
    eapply rtc_l; [apply (step_call _ _ 0); unfold LoadOrStoreFunc_step; cbn; by rewrite Hk2|].
    apply rtc_refl. }
  eexists. split; [exact Hr|]. split.
  - eapply steps_inv. eapply (rtc_subrel _ _ _ _ _ Hr). Unshelve.
    intros a b (l & Hl & Hd). exists l. split; [by destruct l|done].
  - split_and!; [done..|]. by eexists _, _.
Qed.
End concurrent.
Arguments St K {_ _} V.
Arguments Gen K V : clear implicits.

(** ** Theorems *)

(** C15: [LoadOrStoreFunc] in every interleaving of calls, by any goroutines,
    for any keys and nested in generators, with other operations.  As long as
    nothing is deleted, at most one generator returns a value for a key, whatever
    is stored meanwhile.  As long as, besides, nobody stores under the key [k] but
    these calls, all calls for [k] return one value, which is in the map and stays
    there.  (With a [Store] of [k] in between they may differ, see
    [stored_between].) *)
Theorem LoadOrStoreFunc_once `{Countable K} {V} (m : gmap K V) cs (s : St K V) :
  (steps no_delete (initial m cs) s -> NoDup (generated s)) /\
  (forall k, steps (leaves k) (initial m cs) s -> forall t t' v v',
     returned s t k v -> returned s t' k v' -> v = v' /\ store s !! k = Some v).
Proof.
  split; [intros Hr; apply (inv_once _ (steps_inv _ _ _ Hr))|].
  intros k Hr t t' v v' [g Ht] [g' Ht'].
  pose proof (steps_agree _ _ _ _ Hr _ _ _ (frames_top _ _ _ _ Ht) eq_refl) as Ha.
  pose proof (steps_agree _ _ _ _ Hr _ _ _ (frames_top _ _ _ _ Ht') eq_refl) as Ha'.
  unfold agrees in Ha, Ha'. cbn in Ha, Ha'. split; congruence.
Qed.

(** C17: calls of [LoadOrStoreFunc] whose generators do not call it again end,
    also when a generator panics: every step brings the calls nearer to their
    ends, and as long as one has not ended a step is possible. *)
Theorem LoadOrStoreFunc_ends `{Countable K} {V} (m : gmap K V) cs (s : St K V) :
  Forall no_nested cs -> steps no_delete (initial m cs) s ->
  (forall t s', LoadOrStoreFunc_step t s = Some s' -> (total_weight s' < total_weight s)%nat) /\
  ((forall t, blocked s t) -> forall t stack, threads s !! t = Some stack -> ended stack).
Proof.
  intros Hcs Hr. pose proof (steps_flat _ _ _ Hcs Hr) as Hfl. split.
  - intros t s'. by apply weight_decreases.
  - intros Hb t stack Ht. destruct (Hfl _ _ Ht) as (f & -> & Hf).
    assert (ended [f] \/ ~ ended [f]) as [?|Hne]; [|done|].
    { unfold ended. destruct (f_pc f) eqn:E; try (right; intros (f' & [= <-] & [?|[? ?]]); congruence);
        left; exists f; eauto. }
    by destruct (flat_progress _ _ _ (steps_inv _ _ _ Hr) Hfl Ht Hne) as [t' []].
Qed.

(** a generator that calls [LoadOrStoreFunc] of its own map for a key that is
    absent, even another key, may block for ever, holding the lock: whatever is
    stored afterwards, neither this call nor any other that needs the lock goes
    on. *)
Theorem LoadOrStoreFunc_reentry `{Countable K} {V} (m : gmap K V) k k2 (g : Gen K V) cs :
  m !! k = None -> m !! k2 = None ->
  exists s, steps only_calls (initial m ((k, Nested k2 g) :: cs)) s /\
    forall s', steps no_delete s s' -> blocked s' 0 /\
      forall t f rest, threads s' !! t = Some (f :: rest) -> f_pc f = Lock -> blocked s' t.
Proof.
  intros Hk Hk2. destruct (reentry_reaches m k k2 g cs Hk Hk2) as (s & Hr & Hs). exists s. split; [done|].
  intros s' Hs'. eapply stuck_blocks, stuck_stays; done.
Qed.

(** ** Witnesses *)
Definition two_calls : list (Z * Gen Z Z) := [(7, Const 1); (7, Const 2)].
Definition run_calls (ts : list nat) (s : St Z Z) : option (St Z Z) :=
  foldl (fun o t => o ≫= LoadOrStoreFunc_step t) (Some s) ts.

Lemma run_steps ts s s' : run_calls ts s = Some s' -> steps only_calls s s'.
Proof.
  revert s. unfold run_calls. induction ts as [|t ts IH]; intros s; cbn.
  - intros [= <-]. apply rtc_refl.
  - destruct (LoadOrStoreFunc_step t s) as [s1|] eqn:E; cbn.
    + intros Hr. eapply rtc_l; [by eapply step_call|by apply IH].
    + intros Hr. exfalso. clear -Hr. induction ts; done.
Qed.

Lemma steps_mono {P P' : label -> Prop} {s s' : St Z Z} : (forall l, P l -> P' l) -> steps P s s' -> steps P' s s'.
Proof. intros HP. apply rtc_subrel. intros a b (l & Hl & Hd). exists l. split; [by apply HP|done]. Qed.

(** The second condition of the theorem is needed: a [Store] between two calls. *)
Definition one_done : St Z Z :=
  default (initial ∅ two_calls) (run_calls [0; 0; 0; 0; 0; 0]%nat (initial ∅ two_calls)).

Lemma stored_between : exists s, steps no_delete (initial ∅ two_calls) s /\
  returned s 0 7 1 /\ returned s 1 7 9.
Proof.
  exists (default one_done (do_label (LStore 7 9) one_done ≫= do_label (LCall 1))).
  split; [|split; eexists; vm_compute; reflexivity].
  transitivity one_done.
  - apply (steps_mono (P := only_calls)); [by intros []|].
    apply (run_steps [0; 0; 0; 0; 0; 0]%nat). vm_compute. reflexivity.
  - eapply rtc_l; [by exists (LStore 7 9)|]. eapply rtc_l; [by exists (LCall 1)|]. apply rtc_refl.
Qed.

(** Both calls, with a [Store] of another key in between. *)
Definition both_done : St Z Z :=
  default (initial ∅ two_calls) (do_label (LStore 8 3) one_done ≫= run_calls [1]%nat).

Lemma both_done_steps : steps (leaves 7) (initial ∅ two_calls) both_done.
Proof.
  transitivity one_done.
  - apply (steps_mono (P := only_calls)); [by intros []|].
    apply (run_steps [0; 0; 0; 0; 0; 0]%nat). vm_compute. reflexivity.
  - eapply rtc_l; [by exists (LStore 8 3)|]. eapply rtc_l; [by exists (LCall 1)|]. apply rtc_refl.
Qed.

Lemma LoadOrStoreFunc_once_witness : NoDup (generated both_done) /\
  returned both_done 0 7 1 /\ returned both_done 1 7 1 /\ store both_done !! 7 = Some 1.
Proof.
  assert (returned both_done 0 7 1) as H0 by (eexists; vm_compute; reflexivity).
  assert (returned both_done 1 7 1) as H1 by (eexists; vm_compute; reflexivity).
  destruct (LoadOrStoreFunc_once ∅ two_calls both_done) as [Hn Ho].
  split_and!; [|done..|].
  - apply Hn, (steps_mono (P := leaves 7)); [by intros []|apply both_done_steps].
  - by apply (Ho 7 both_done_steps 0%nat 1%nat 1 1).
Defined.

Lemma both_done_reached : steps no_delete (initial ∅ two_calls) both_done.
Proof. apply (steps_mono (P := leaves 7)); [by intros []|apply both_done_steps]. Qed.

Lemma LoadOrStoreFunc_ends_witness : ended [MkFrame 7 (Const 2) (Return 1)].
Proof.
  apply (proj2 (LoadOrStoreFunc_ends ∅ two_calls both_done ltac:(repeat constructor) both_done_reached))
    with (t := 1%nat).
  - intros [|[|t]]; reflexivity.
  - vm_compute. reflexivity.
Defined.

Lemma LoadOrStoreFunc_reentry_witness :
  exists s, steps only_calls (initial (∅ : gmap Z Z) [(1, Nested 2 (Const 5)); (3, Const 6)]) s /\
    forall s', steps no_delete s s' -> blocked s' 0 /\
      forall t f rest, threads s' !! t = Some (f :: rest) -> f_pc f = Lock -> blocked s' t.
Proof. apply (LoadOrStoreFunc_reentry ∅ 1 2 (Const 5) [(3, Const 6)]); reflexivity. Defined.
