(* ===== verification/PartiQL.v ===== *)
(** * aws/partiql: encoding Go values as PartiQL

    Models [aws/partiql/builder.go], [serializer.go] and [tag.go] over the values
    of file GoReflect.  [strconv.FormatFloat] and [time.Time.Format] are
    parameters.  Values are finite trees: a cyclic pointer, or a [MarshalPartiQL] that
    returns its own receiver, on which the code recurses for ever, is not among them. *)

From S2P Require Import Prelude.
From S2P Require Import GoStrings.
From S2P Require Import GoReflect.
From stdpp Require Import pretty.
From Stdlib Require Import Ascii.

Open Scope string_scope.
Open Scope list_scope.
Open Scope Z_scope.

(** ** Tags *)
Record tagValue := MkTag { t_Name : string; Ignore : bool; Squash : bool; Bag : bool }.

Definition no_tag : tagValue := MkTag "" false false false.

Definition parseTag (tagStr : string) : tagValue :=
  let '(name, opts, _) := Cut tagStr "," in
  MkTag name (bool_decide (name = "-")) (Contains opts "squash") (Contains opts "bag").

(** ** The builder *)
Record Builder := MkBuilder { sb : string; tupleDepth : nat; writeSep : bool }.

Definition sq : string := "'".
Definition sep : string := ",".
Definition lcb : string := "{".
Definition rcb : string := "}".

Definition NewPartiQLBuilder : Builder := MkBuilder "" 0 false.
Definition WithStringBuilder (s : string) (pb : Builder) : Builder := MkBuilder s (tupleDepth pb) (writeSep pb).
Definition Reset : M Builder unit := modify (fun _ => MkBuilder "" 0 false).

(** [pb.sb.WriteString] and [WriteByte]; setting the fields. *)
Definition put (s : string) : M Builder unit := modify (fun b => MkBuilder (sb b +:+ s) (tupleDepth b) (writeSep b)).
Definition set_writeSep (w : bool) : M Builder unit := modify (fun b => MkBuilder (sb b) (tupleDepth b) w).
Definition set_depth (n : nat) : M Builder unit := modify (fun b => MkBuilder (sb b) n (writeSep b)).

Definition writeSepIfNeeded : M Builder unit :=
  b ← get_state;
  if writeSep b then put sep else set_writeSep true.

Definition WriteBeginTuple : M Builder unit :=
  writeSepIfNeeded;; put lcb;;
  b ← get_state;
  set_depth (S (tupleDepth b));; set_writeSep false.

Definition WriteEndTuple : M Builder unit :=
  b ← get_state;
  if bool_decide (tupleDepth b = 0%nat) then panic
  else put rcb;; set_depth (pred (tupleDepth b));; set_writeSep true.

Definition WriteKey (name : string) : M Builder unit :=
  writeSepIfNeeded;; put sq;; put name;; put "':";; set_writeSep false.

Definition WriteString (value : string) : M Builder unit :=
  writeSepIfNeeded;; put sq;; put (ReplaceAll value "'" "''");; put sq.

Definition WriteInteger (value : Z) : M Builder unit := writeSepIfNeeded;; put (pretty value).
Definition WriteUInteger (value : Z) : M Builder unit := writeSepIfNeeded;; put (pretty value).
Definition FormatBool (b : bool) : string := if b then "true" else "false".
Definition WriteBoolean (value : bool) : M Builder unit := writeSepIfNeeded;; put (FormatBool value).
Definition WriteNull : M Builder unit := writeSepIfNeeded;; put "NULL".

Definition WriteBeginBag : M Builder unit := writeSepIfNeeded;; put "<<";; set_writeSep false.
Definition WriteEndBag : M Builder unit := put ">>";; set_writeSep true.
Definition WriteBeginArray : M Builder unit := writeSepIfNeeded;; put "[";; set_writeSep false.
Definition WriteEndArray : M Builder unit := put "]";; set_writeSep true.

(** The loops of [writeBag] and [writeArray]. *)
Fixpoint write_each {A} (writeFunc : A -> M Builder unit) (values : list A) : M Builder unit :=
  match values with
  | [] => mret tt
  | v :: values => writeFunc v;; write_each writeFunc values
  end.
Definition writeBag {A} (values : list A) (writeFunc : A -> M Builder unit) : M Builder unit :=
  WriteBeginBag;; write_each writeFunc values;; WriteEndBag.
Definition writeArray {A} (values : list A) (writeFunc : A -> M Builder unit) : M Builder unit :=
  WriteBeginArray;; write_each writeFunc values;; WriteEndArray.

Definition WriteBooleanArray (values : list bool) : M Builder unit := writeArray values WriteBoolean.
Definition WriteBooleanBag (values : list bool) : M Builder unit := writeBag values WriteBoolean.
Definition WriteStringArray (values : list string) : M Builder unit := writeArray values WriteString.
Definition WriteStringBag (values : list string) : M Builder unit := writeBag values WriteString.
Definition WriteIntegerArray (values : list Z) : M Builder unit := writeArray values WriteInteger.
Definition WriteIntegerBag (values : list Z) : M Builder unit := writeBag values WriteInteger.
Definition WriteUIntegerArray (values : list Z) : M Builder unit := writeArray values WriteUInteger.
Definition WriteUIntegerBag (values : list Z) : M Builder unit := writeBag values WriteUInteger.

(** ** The encoder *)

(** The errors of [marshal]: that of a [MarshalPartiQL] method; and, of this model
    only, running out of fuel. *)
Inductive marshal_error := UserError (e : string) | OutOfFuel.

#[global] Instance marshal_error_eq_dec : EqDecision marshal_error.
Proof. solve_decision. Defined.

Record Encoder := MkEncoder { timeMarshaler : Z -> val; tagNames : list string }.

Section encoder.
Context (FormatFloat : spec_float -> string) (FormatRFC3339Nano : Z -> string).

Definition WriteFloat (value : spec_float) : M Builder unit := writeSepIfNeeded;; put (FormatFloat value).
Definition WriteFloatArray (values : list spec_float) : M Builder unit := writeArray values WriteFloat.
Definition WriteFloatBag (values : list spec_float) : M Builder unit := writeBag values WriteFloat.

Definition DefaultTimeMarshaler (t : Z) : val := VString (FormatRFC3339Nano t).
Definition NewEncoder : Encoder := MkEncoder DefaultTimeMarshaler ["partiql"; "dynamodbav"; "json"; "yaml"].
Definition WithTimeMarshaler (marshaler : Z -> val) (e : Encoder) : Encoder := MkEncoder marshaler (tagNames e).
Definition WithTagNames (names : list string) (e : Encoder) : option Encoder :=
  if bool_decide (names = []) then None else Some (MkEncoder (timeMarshaler e) names).

(** The first of the tag names that the field has. *)
Fixpoint field_tag (names : list string) (ft : StructField) : tagValue :=
  match names with
  | [] => no_tag
  | name :: names =>
      match tag_lookup (sf_Tag ft) name with
      | Some tagStr => parseTag tagStr
      | None => field_tag names ft
      end
  end.

Definition fieldName (ft : StructField) (tag : tagValue) : string :=
  if bool_decide (t_Name tag = "") then sf_Name ft else t_Name tag.

Definition isEmptyCollection (v : val) : bool :=
  let v := if bool_decide (kind v = Pointer) || bool_decide (kind v = Interface) then default VInvalid (Elem v) else v in
  if negb (bool_decide (kind v = Slice)) || bool_decide (kind v = Array) then false
  else bool_decide (Len v = Some 0%nat).

(** The kinds that have no encoding. *)
Definition unsupported (k : Kind) : bool :=
  bool_decide (k ∈ [Invalid; Chan; Func; UnsafePointer; Uintptr; Complex]).

(** A Go [error]. *)
Definition error_result : Type := option marshal_error.

(** The [Marshaler] that [v.Interface()] is, if any. *)
Definition as_Marshaler (v : val) : option (result string val) :=
  match v with
  | VMarshaler r _ => Some r
  | VInterface (Some (VMarshaler r _)) => Some r
  | _ => None
  end.

(** Whether the loop of [marshalStruct] passes over the field's value as nil;
    [IsNil] panics for an array. *)
Definition skipped_nil (fv : val) : option bool :=
  if bool_decide (kind fv ∈ [Pointer; Interface; Slice; Array; Map]) then IsNil fv else Some false.

Section recursion.
Context (enc : Encoder) (marshal : val -> tagValue -> M Builder error_result).

(** [if err != nil { return err }] *)
Definition on_ok (m : M Builder error_result) (k : M Builder error_result) : M Builder error_result :=
  err ← m;
  match err with
  | Some e => mret (Some e)
  | None => k
  end.

Fixpoint marshal_fields (fs : list (StructField * val)) : M Builder error_result :=
  match fs with
  | [] => mret None
  | (ft, fv) :: fs =>
      if negb (sf_exported ft) then marshal_fields fs
      else
        let tag := field_tag (tagNames enc) ft in
        if Ignore tag then marshal_fields fs
        else if unsupported (kind fv) then marshal_fields fs
        else
          is_nil ← lift_option (skipped_nil fv);
          if is_nil : bool then marshal_fields fs
          else if Bag tag && isEmptyCollection fv then marshal_fields fs
          else
            (if Squash tag then mret tt else WriteKey (fieldName ft tag));;
            on_ok (marshal fv tag) (marshal_fields fs)
  end.

Definition marshalStruct (fs : list (StructField * val)) (parentTag : tagValue) : M Builder error_result :=
  (if Squash parentTag then mret tt else WriteBeginTuple);;
  on_ok (marshal_fields fs)
    ((if Squash parentTag then mret tt else WriteEndTuple);; mret None).

Fixpoint marshal_elems (l : list val) : M Builder error_result :=
  match l with
  | [] => mret None
  | v :: l => on_ok (marshal v no_tag) (marshal_elems l)
  end.

Definition marshalCollection (l : list val) (parentTag : tagValue) : M Builder error_result :=
  (if Bag parentTag then WriteBeginBag else WriteBeginArray);;
  on_ok (marshal_elems l)
    ((if Bag parentTag then WriteEndBag else WriteEndArray);; mret None).

Fixpoint marshal_entries (m : list (string * val)) : M Builder error_result :=
  match m with
  | [] => mret None
  | (key, v) :: m => WriteKey key;; on_ok (marshal v no_tag) (marshal_entries m)
  end.

Definition marshalMap (m : list (string * val)) : M Builder error_result :=
  WriteBeginTuple;; on_ok (marshal_entries m) (WriteEndTuple;; mret None).
End recursion.

(** [fuel] bounds the nesting of calls; see [marshal_terminates]. *)
Fixpoint marshal (fuel : nat) (enc : Encoder) (v : val) (parentTag : tagValue) : M Builder error_result :=
  match fuel with
  | O => mret (Some OutOfFuel)
  | S fuel =>
      match as_Marshaler v with
      | Some (Err err) => mret (Some (UserError err))
      | Some (Ok data) => marshal fuel enc data parentTag
      | None =>
          match v with
          | VInvalid => panic                       (* v.Interface() *)
          | VChan _ | VFunc _ | VUnsafePointer _ | VUintptr _ | VComplex _ _ => mret None
          | VPtr p => marshal fuel enc (default VInvalid p) parentTag
          | VInterface i => marshal fuel enc (default VInvalid i) parentTag
          | VInt z => WriteInteger z;; mret None
          | VUint z => WriteUInteger z;; mret None
          | VFloat f => WriteFloat f;; mret None
          | VBool b => WriteBoolean b;; mret None
          | VString s => WriteString s;; mret None
          | VSlice l => marshalCollection (marshal fuel enc) (default [] l) parentTag
          | VArray l => marshalCollection (marshal fuel enc) l parentTag
          | VMap m => marshalMap (marshal fuel enc) (default [] m)
          | VTime t => marshal fuel enc (timeMarshaler enc t) parentTag
          | VStruct fs => marshalStruct enc (marshal fuel enc) fs parentTag
          | VMarshaler _ _ => panic                 (* is a Marshaler *)
          end
      end
  end.

(** [(bytes, error)] *)
Definition MarshalCollection (fuel : nat) (enc : Encoder) (value : val) (asBag : bool) : M Builder (result marshal_error string) :=
  Reset;;
  err ← marshal fuel enc value (MkTag "" false false asBag);
  b ← get_state;
  match err with
  | Some e => mret (Err e)
  | None => mret (Ok (sb b))
  end.
Definition Encoder_Marshal (fuel : nat) (enc : Encoder) (value : val) : M Builder (result marshal_error string) :=
  Reset;;
  err ← marshal fuel enc value no_tag;
  b ← get_state;
  match err with
  | Some e => mret (Err e)
  | None => mret (Ok (sb b))
  end.
Definition Marshal (fuel : nat) (value : val) : option (result marshal_error string) :=
  r ← Encoder_Marshal fuel NewEncoder value NewPartiQLBuilder;
  Some r.1.
End encoder.

(** ** Documents: what a value means and how it is written *)
Inductive doc :=
| DScalar (text : string)
| DString (s : string)
| DColl (bag : bool) (l : list doc)
| DTuple (ms : list (string * doc)).

Definition open_coll (bag : bool) : string := if bag then "<<" else "[".
Definition close_coll (bag : bool) : string := if bag then ">>" else "]".

Fixpoint print (d : doc) : string :=
  match d with
  | DScalar t => t
  | DString s => sq +:+ ReplaceAll s "'" "''" +:+ sq
  | DColl bag l => open_coll bag +:+ String.concat sep (List.map print l) +:+ close_coll bag
  | DTuple ms => lcb +:+ String.concat sep (List.map (fun m => sq +:+ m.1 +:+ "':" +:+ print m.2) ms) +:+ rcb
  end.

(** What a value contributes to the collection or tuple around it: documents,
    with their keys inside a tuple. *)
Definition item : Type := option string * doc.
Definition print_item (i : item) : string :=
  match i.1 with
  | Some k => sq +:+ k +:+ "':" +:+ print i.2
  | None => print i.2
  end.

Definition plain (i : item) : option doc := match i.1 with None => Some i.2 | Some _ => None end.
Definition member (i : item) : option (string * doc) := match i.1 with Some k => Some (k, i.2) | None => None end.
Definition single (l : list item) : option doc := match l with [i] => plain i | _ => None end.
Definition one (d : doc) : option (list item) := Some [(None, d)].

Section denote.
Context (FormatFloat : spec_float -> string).

(** The members that a field gives: those of a squashed value, or one. *)
Definition field_items (rec : val -> tagValue -> option (list item)) (ft : StructField) (fv : val) (tag : tagValue) : option (list item) :=
  its ← rec fv tag;
  if Squash tag then Some its else d ← single its; Some [(Some (fieldName ft tag), d)].

Fixpoint fields_items (rec : val -> tagValue -> option (list item)) (names : list string) (fs : list (StructField * val))
    : option (list item) :=
  match fs with
  | [] => Some []
  | (ft, fv) :: fs =>
      let tag := field_tag names ft in
      if negb (sf_exported ft) || Ignore tag || unsupported (kind fv) then fields_items rec names fs
      else
        is_nil ← skipped_nil fv;
        if is_nil || (Bag tag && isEmptyCollection fv) then fields_items rec names fs
        else i1 ← field_items rec ft fv tag; i2 ← fields_items rec names fs; Some (i1 ++ i2)
  end.

(** The document of a value; [None] when it has none: the value has no type or
    cannot be written at its place, or a [MarshalPartiQL] failed. *)
Fixpoint doc_of (fuel : nat) (enc : Encoder) (v : val) (tag : tagValue) : option (list item) :=
  match fuel with
  | O => None
  | S fuel =>
      match as_Marshaler v with
      | Some (Err _) => None
      | Some (Ok data) => doc_of fuel enc data tag
      | None =>
          match v with
          | VInvalid | VMarshaler _ _ => None
          | VChan _ | VFunc _ | VUnsafePointer _ | VUintptr _ | VComplex _ _ => Some []
          | VPtr o | VInterface o => doc_of fuel enc (default VInvalid o) tag
          | VInt z | VUint z => one (DScalar (pretty z))
          | VFloat f => one (DScalar (FormatFloat f))
          | VBool b => one (DScalar (FormatBool b))
          | VString s => one (DString s)
          | VSlice _ | VArray _ =>
              let l := match v with VSlice l => default [] l | VArray l => l | _ => [] end in
              its ← mapM (fun v => doc_of fuel enc v no_tag) l;
              ds ← mapM plain (concat its);
              one (DColl (Bag tag) ds)
          | VMap m =>
              ms ← mapM (fun kv => its ← doc_of fuel enc kv.2 no_tag; d ← single its; Some (kv.1, d)) (default [] m);
              one (DTuple ms)
          | VTime t => doc_of fuel enc (timeMarshaler enc t) tag
          | VStruct fs =>
              its ← fields_items (doc_of fuel enc) (tagNames enc) fs;
              if Squash tag then Some its else ms ← mapM member its; one (DTuple ms)
          end
      end
  end.
End denote.

(** ** Writing documents *)

(** The state of the builder after writing the items with commas between them. *)
Definition emit (b : Builder) (i : item) : Builder :=
  MkBuilder (sb b +:+ (if writeSep b then sep else "") +:+ print_item i) (tupleDepth b) true.
Definition emit_all (b : Builder) (l : list item) : Builder := foldl emit b l.

Lemma builder_eta b : b = MkBuilder (sb b) (tupleDepth b) (writeSep b).
Proof. by destruct b. Qed.

Lemma tupleDepth_emit_all l b : tupleDepth (emit_all b l) = tupleDepth b.
Proof. revert b. induction l as [|i l IH]; intros b; [done|].
  change (emit_all b (i :: l)) with (emit_all (emit b i) l). by rewrite IH. Qed.

Lemma concat_cons s x l : String.concat s (x :: l) = x +:+ String.concat "" (List.map (fun y => s +:+ y) l).
Proof.
  revert x. induction l as [|y l IH]; intros x; [cbn; by rewrite app_empty_r|].
  change (String.concat s (x :: y :: l)) with (x +:+ s +:+ String.concat s (y :: l)).
  rewrite IH. cbn [List.map].
  assert (forall z zs, String.concat "" (z :: zs) = z +:+ String.concat "" zs) as E.
  { intros z zs. destruct zs; [cbn; by rewrite app_empty_r|done]. }
  by rewrite E, !app_assoc_string.
Qed.

Lemma emit_all_sep l b : writeSep b = true ->
  emit_all b l = MkBuilder (sb b +:+ String.concat "" (List.map (fun i => sep +:+ print_item i) l)) (tupleDepth b) true.
Proof.
  revert b. induction l as [|i l IH]; intros [s d w] Hw; cbn in Hw; subst w.
  - cbn. by rewrite app_empty_r.
  - change (emit_all ?b (i :: l)) with (emit_all (emit b i) l). rewrite IH by done. f_equal. cbn [emit sb writeSep].
    change (List.map ?f (i :: l)) with (f i :: List.map f l).
    assert (forall z zs, String.concat "" (z :: zs) = z +:+ String.concat "" zs) as E.
    { intros z zs. destruct zs; [cbn; by rewrite app_empty_r|done]. }
    by rewrite E, !app_assoc_string.
Qed.

(** From a fresh position the items are written with commas between them only. *)
Lemma emit_all_fresh l s d :
  emit_all (MkBuilder s d false) l =
  MkBuilder (s +:+ String.concat sep (List.map print_item l)) d (negb (bool_decide (l = []))).
Proof.
  destruct l as [|i l]; [cbn; by rewrite app_empty_r|].
  change (emit_all ?b (i :: l)) with (emit_all (emit b i) l). rewrite emit_all_sep by done.
  unfold emit. cbn [sb writeSep tupleDepth List.map]. rewrite concat_cons, string_app_nil, app_assoc_string.
  rewrite List.map_map. done.
Qed.

Lemma emit_all_app b l1 l2 : emit_all b (l1 ++ l2) = emit_all (emit_all b l1) l2.
Proof. apply foldl_app. Qed.

(** *** The writers *)
Definition maybe_sep (b : Builder) : string := if writeSep b then sep else "".

(** Runs a writer on a given builder and compares the strings. *)
Ltac run_writer :=
  unfold maybe_sep, emit, print_item, writeSepIfNeeded, mbind, M_bind, get_state, put, set_writeSep, set_depth, modify;
  cbn [fst snd sb writeSep tupleDepth print]; rewrite ?app_assoc_string, ?string_app_nil; try reflexivity.

Lemma scalar_run t b : (writeSepIfNeeded;; put t) b = Some (tt, emit b (None, DScalar t)).
Proof. destruct b as [s d []]; run_writer. Qed.

Lemma WriteString_run t b : WriteString t b = Some (tt, emit b (None, DString t)).
Proof. destruct b as [s d []]; unfold WriteString; run_writer. Qed.

Lemma WriteKey_run k b :
  WriteKey k b = Some (tt, MkBuilder (sb b +:+ maybe_sep b +:+ sq +:+ k +:+ "':") (tupleDepth b) false).
Proof. destruct b as [s d []]; unfold WriteKey; run_writer. Qed.

Lemma begin_coll_run (bag : bool) b :
  (if bag then WriteBeginBag else WriteBeginArray) b =
  Some (tt, MkBuilder (sb b +:+ maybe_sep b +:+ open_coll bag) (tupleDepth b) false).
Proof. destruct b as [s d []], bag; unfold WriteBeginBag, WriteBeginArray; run_writer. Qed.

Lemma end_coll_run (bag : bool) b :
  (if bag then WriteEndBag else WriteEndArray) b = Some (tt, MkBuilder (sb b +:+ close_coll bag) (tupleDepth b) true).
Proof. by destruct bag. Qed.

Lemma WriteBeginTuple_run b :
  WriteBeginTuple b = Some (tt, MkBuilder (sb b +:+ maybe_sep b +:+ lcb) (S (tupleDepth b)) false).
Proof. destruct b as [s d []]; unfold WriteBeginTuple; run_writer. Qed.

Lemma WriteEndTuple_run s d w : WriteEndTuple (MkBuilder s (S d) w) = Some (tt, MkBuilder (s +:+ rcb) d true).
Proof. done. Qed.

(** A key and the single document after it. *)
Lemma emit_key b k d :
  emit_all (MkBuilder (sb b +:+ maybe_sep b +:+ sq +:+ k +:+ "':") (tupleDepth b) false) [(None, d)] =
  emit b (Some k, d).
Proof.
  unfold emit_all, emit, print_item, maybe_sep. cbn [foldl fst snd sb writeSep tupleDepth].
  rewrite !string_app_nil, !app_assoc_string. done.
Qed.

Lemma single_Some its d : single its = Some d -> its = [(None, d)].
Proof. destruct its as [|[[k|] d'] [|]]; try done. by intros [= ->]. Qed.

Lemma plain_print its ds : mapM plain its = Some ds -> List.map print_item its = List.map print ds.
Proof.
  revert ds. induction its as [|[k d] its IH]; intros ds; [by intros [= <-]|]. cbn.
  destruct k; [done|]. cbn. destruct (mapM plain its) as [ds'|]; [|done]. intros [= <-]. cbn. by rewrite (IH ds').
Qed.

Lemma member_print its ms : mapM member its = Some ms ->
  List.map print_item its = List.map (fun m => sq +:+ m.1 +:+ "':" +:+ print m.2) ms.
Proof.
  revert ms. induction its as [|[k d] its IH]; intros ms; [by intros [= <-]|]. cbn.
  destruct k; [|done]. cbn. destruct (mapM member its) as [ms'|]; [|done]. intros [= <-]. cbn. by rewrite (IH ms').
Qed.

Lemma run_bind {A B} (m : M Builder A) (f : A -> M Builder B) b a b' :
  m b = Some (a, b') -> (m ≫= f) b = f a b'.
Proof. apply M_bind_run. Qed.

Lemma on_ok_run m k b b' : m b = Some (None, b') -> on_ok m k b = k b'.
Proof. intros Hm. unfold on_ok. by rewrite (run_bind _ _ _ _ _ Hm). Qed.

Lemma on_ok_panic m k b : m b = None -> on_ok m k b = None.
Proof. intros Hm. unfold on_ok, mbind, M_bind. by rewrite Hm. Qed.

Section marshal_doc.
Context (FormatFloat : spec_float -> string) (enc : Encoder).
Context (mar : val -> tagValue -> M Builder error_result) (den : val -> tagValue -> option (list item)).
Hypothesis mar_den : forall v tag its b, den v tag = Some its -> mar v tag b = Some (None, emit_all b its).

Lemma marshal_elems_doc l itss b : mapM (fun v => den v no_tag) l = Some itss ->
  marshal_elems mar l b = Some (None, emit_all b (concat itss)).
Proof.
  revert itss b. induction l as [|v l IH]; intros itss b; [by intros [= <-]|]. cbn.
  destruct (den v no_tag) as [its|] eqn:Ev; [|done]. cbn.
  destruct (mapM _ l) as [itss'|]; [|done]. intros [= <-]. cbn [concat marshal_elems].
  rewrite (on_ok_run _ _ _ _ (mar_den _ _ _ _ Ev)), emit_all_app. by apply IH.
Qed.

Lemma marshal_elems_panic l1 x l2 itss b : mapM (fun v => den v no_tag) l1 = Some itss ->
  (forall b, mar x no_tag b = None) -> marshal_elems mar (l1 ++ x :: l2) b = None.
Proof.
  intros Hl Hx. revert itss b Hl. induction l1 as [|v l1 IH]; intros itss b Hl; [by apply on_ok_panic|].
  cbn [mapM] in Hl. destruct (den v no_tag) as [its|] eqn:Ev; [|done]. cbn [mbind option_bind] in Hl.
  destruct (mapM _ l1) as [itss'|]; [|done]. cbn [app marshal_elems].
  rewrite (on_ok_run _ _ _ _ (mar_den _ _ _ _ Ev)). by apply (IH itss').
Qed.

Lemma marshalCollection_doc l itss ds tag b :
  mapM (fun v => den v no_tag) l = Some itss -> mapM plain (concat itss) = Some ds ->
  marshalCollection mar l tag b = Some (None, emit_all b [(None, DColl (Bag tag) ds)]).
Proof.
  intros Hl Hp. unfold marshalCollection. rewrite (run_bind _ _ _ _ _ (begin_coll_run _ _)).
  rewrite (on_ok_run _ _ _ _ (marshal_elems_doc _ _ _ Hl)), emit_all_fresh, (plain_print _ _ Hp).
  rewrite (run_bind _ _ _ _ _ (end_coll_run _ _)). unfold mret, M_ret. do 2 f_equal.
  unfold emit_all, emit, print_item. cbn [foldl fst snd sb writeSep tupleDepth print].
  rewrite !app_assoc_string. done.
Qed.

Lemma marshal_entries_doc m ms b :
  mapM (fun kv : string * val => its ← den kv.2 no_tag; d ← single its; Some (kv.1, d)) m = Some ms ->
  marshal_entries mar m b = Some (None, emit_all b ((fun kd : string * doc => (Some kd.1, kd.2)) <$> ms)).
Proof.
  revert ms b. induction m as [|[k v] m IH]; intros ms b; [by intros [= <-]|].
  cbn [mapM fst snd]. destruct (den v no_tag) as [its|] eqn:Ev; [|done]. cbn [mbind option_bind].
  destruct (single its) as [d|] eqn:Es; [|done]. cbn [mbind option_bind].
  apply single_Some in Es as ->.
  match goal with |- context [mapM ?f m] => destruct (mapM f m) as [ms'|]; [|done] end.
  intros [= <-]. cbn [marshal_entries]. rewrite (run_bind _ _ _ _ _ (WriteKey_run _ _)).
  rewrite (on_ok_run _ _ _ _ (mar_den _ _ _ _ Ev)), emit_key. by rewrite (IH ms').
Qed.

Lemma tuple_doc (body : M Builder error_result) its ms b :
  (forall b, body b = Some (None, emit_all b its)) -> mapM member its = Some ms ->
  (WriteBeginTuple;; on_ok body (WriteEndTuple;; mret None)) b = Some (None, emit_all b [(None, DTuple ms)]).
Proof.
  intros Hb Hm. rewrite (run_bind _ _ _ _ _ (WriteBeginTuple_run _)).
  rewrite (on_ok_run _ _ _ _ (Hb _)), emit_all_fresh, (member_print _ _ Hm).
  rewrite (run_bind _ _ _ _ _ (WriteEndTuple_run _ _ _)). unfold mret, M_ret. do 2 f_equal.
  unfold emit_all, emit, print_item. cbn [foldl fst snd sb writeSep tupleDepth print].
  rewrite !app_assoc_string. done.
Qed.

Lemma marshal_fields_doc fs its b : fields_items den (tagNames enc) fs = Some its ->
  marshal_fields enc mar fs b = Some (None, emit_all b its).
Proof.
  revert its b. induction fs as [|[ft fv] fs IH]; intros its b; [by intros [= <-]|].
  cbn [fields_items marshal_fields]. cbv zeta.
  destruct (sf_exported ft); cbn [negb orb]; [|apply IH].
  destruct (Ignore _); cbn [orb]; [apply IH|]. destruct (unsupported _); [apply IH|].
  destruct (skipped_nil fv) as [n|]; [|done]. cbn [mbind option_bind].
  rewrite (run_bind _ _ b n b) by done.
  destruct n; cbn [orb]; [apply IH|]. destruct (_ && _); [apply IH|].
  unfold field_items. destruct (den fv _) as [i1|] eqn:Ev; [|done]. cbn [mbind option_bind].
  destruct (Squash _) eqn:Esq.
  - destruct (fields_items _ _ fs) as [i2|] eqn:E2; [|done]. intros [= <-].
    rewrite (run_bind _ _ b tt b) by done. rewrite (on_ok_run _ _ _ _ (mar_den _ _ _ _ Ev)), emit_all_app. by apply IH.
  - destruct (single i1) as [d|] eqn:Es; [|done]. apply single_Some in Es as ->. cbn [mbind option_bind].
    destruct (fields_items _ _ fs) as [i2|] eqn:E2; [|done]. intros [= <-].
    rewrite (run_bind _ _ _ _ _ (WriteKey_run _ _)), (on_ok_run _ _ _ _ (mar_den _ _ _ _ Ev)), emit_key.
    by rewrite (IH i2).
Qed.
End marshal_doc.

Lemma mapM_member_map (ms : list (string * doc)) : mapM member ((fun kd => (Some kd.1, kd.2)) <$> ms) = Some ms.
Proof. induction ms as [|[k d] ms IH]; [done|]. cbn. by rewrite IH. Qed.

Lemma marshal_doc_of FormatFloat fuel enc v tag its b :
  doc_of FormatFloat fuel enc v tag = Some its ->
  marshal FormatFloat fuel enc v tag b = Some (None, emit_all b its).
Proof.
  revert v tag its b. induction fuel as [|fuel IH]; intros v tag its b; [done|].
  cbn [doc_of marshal]. destruct (as_Marshaler v) as [[data|e]|]; [apply IH|done|].
  pose proof (fun t b => run_bind _ (fun _ => mret (@None marshal_error)) b tt _ (scalar_run t b)) as Hsc.
  destruct v as [|b0|z|z|z|f|r i|s|l|n|n|l|l|m|p|p|fs|t|r v]; try done;
    try (intros [= <-]; by (apply Hsc || reflexivity)); try apply IH.
  - intros [= <-]. by rewrite (run_bind _ _ _ _ _ (WriteString_run _ _)).
  - destruct (mapM _ l) as [itss|] eqn:El; [|done]. cbn [mbind option_bind].
    destruct (mapM plain _) as [ds|] eqn:Ep; [|done]. intros [= <-].
    by apply (marshalCollection_doc _ _ IH l itss).
  - destruct (mapM _ (default [] l)) as [itss|] eqn:El; [|done]. cbn [mbind option_bind].
    destruct (mapM plain _) as [ds|] eqn:Ep; [|done]. intros [= <-].
    by apply (marshalCollection_doc _ _ IH (default [] l) itss).
  - destruct (mapM _ (default [] m)) as [ms|] eqn:Em; [|done]. intros [= <-].
    unfold marshalMap. eapply tuple_doc; [|apply mapM_member_map].
    intros b1. by apply (marshal_entries_doc _ (doc_of FormatFloat fuel enc)).
  - destruct (fields_items _ _ fs) as [fi|] eqn:Ef; [|done]. cbn [mbind option_bind].
    pose proof (fun b => marshal_fields_doc enc _ _ IH fs fi b Ef) as Hfs. unfold marshalStruct.
    destruct (Squash tag).
    + intros [= <-]. rewrite (run_bind _ _ b tt b) by done.
      by rewrite (on_ok_run _ _ _ _ (Hfs b)), (run_bind _ _ _ tt _) by done.
    + destruct (mapM member fi) as [ms|] eqn:Em; [|done]. intros [= <-]. by eapply tuple_doc.
Qed.

(** ** Reading documents back *)

(** A string literal after its opening quote: a doubled quote stands for one. *)
Fixpoint scan_str (s : string) : option (string * string) :=
  match s with
  | EmptyString => None
  | String c s =>
      if bool_decide (c = "'"%char) then
        match s with
        | String c' s' =>
            if bool_decide (c' = "'"%char) then r ← scan_str s'; Some (String c r.1, r.2)
            else Some ("", s)
        | EmptyString => Some ("", s)
        end
      else r ← scan_str s; Some (String c r.1, r.2)
  end.

(** The characters that end a number, [true], [false] or [NULL]. *)
Definition delimiter (c : ascii) : bool := bool_decide (c ∈ [","; "]"; "}"; ">"])%char.

Fixpoint scan_scalar (s : string) : string * string :=
  match s with
  | EmptyString => ("", "")
  | String c s' => if delimiter c then ("", s) else let r := scan_scalar s' in (String c r.1, r.2)
  end.

Definition strip (p s : string) : option string :=
  if String.prefix p s then Some (drop_bytes (String.length p) s) else None.

Fixpoint parse (fuel : nat) (s : string) : option (doc * string) :=
  match fuel with
  | O => None
  | S fuel =>
      match strip sq s, strip "[" s, strip "<<" s, strip lcb s with
      | Some r, _, _, _ => t ← scan_str r; Some (DString t.1, t.2)
      | _, Some r, _, _ => t ← parse_elems fuel false r; Some (DColl false t.1, t.2)
      | _, _, Some r, _ => t ← parse_elems fuel true r; Some (DColl true t.1, t.2)
      | _, _, _, Some r => t ← parse_members fuel r; Some (DTuple t.1, t.2)
      | _, _, _, _ => let r := scan_scalar s in Some (DScalar r.1, r.2)
      end
  end
with parse_elems (fuel : nat) (bag : bool) (s : string) : option (list doc * string) :=
  match fuel with
  | O => None
  | S fuel =>
      match strip (close_coll bag) s with
      | Some r => Some ([], r)
      | None =>
          d ← parse fuel s;
          let after := default d.2 (strip sep d.2) in
          t ← parse_elems fuel bag after;
          Some (d.1 :: t.1, t.2)
      end
  end
with parse_members (fuel : nat) (s : string) : option (list (string * doc) * string) :=
  match fuel with
  | O => None
  | S fuel =>
      match strip rcb s with
      | Some r => Some ([], r)
      | None =>
          q ← strip sq s;
          k ← scan_str q;
          v ← strip ":" k.2;
          d ← parse fuel v;
          let after := default d.2 (strip sep d.2) in
          t ← parse_members fuel after;
          Some ((k.1, d.1) :: t.1, t.2)
      end
  end.

(** Enough fuel for a document. *)
Fixpoint doc_size (d : doc) : nat :=
  match d with
  | DScalar _ | DString _ => 1
  | DColl _ l => S (S (foldr (fun d n => S (doc_size d) + n)%nat 0%nat l))
  | DTuple ms => S (S (foldr (fun m n => S (doc_size m.2) + n)%nat 0%nat ms))
  end.

(** Texts that are read back as scalars, and keys that need no escape. *)
Definition scalar_text (t : string) : bool :=
  match t with
  | EmptyString => false
  | String c _ => negb (bool_decide (c ∈ ["'"; "["; "<"; "{"])%char)
  end && bool_decide (scan_scalar t = (t, "")).
Definition quote_free (k : string) : bool := bool_decide (count_char "'" k = 0%nat).

Fixpoint readable (d : doc) : bool :=
  match d with
  | DScalar t => scalar_text t
  | DString _ => true
  | DColl _ l => forallb readable l
  | DTuple ms => forallb (fun m => quote_free m.1 && readable m.2) ms
  end.

(** What may come after a document. *)
Definition stops (r : string) : bool := match r with EmptyString => true | String c _ => delimiter c end.

Fixpoint escape (s : string) : string :=
  match s with
  | EmptyString => ""
  | String c s => if bool_decide (c = "'"%char) then String c (String c (escape s)) else String c (escape s)
  end.

Lemma prefix_one c s : String.prefix (String c "") s =
  match s with String d _ => bool_decide (c = d) | EmptyString => false end.
Proof.
  destruct s as [|d s]; [done|]. cbn. destruct (ascii_dec c d) as [->|Hne].
  - rewrite bool_decide_eq_true_2 by done. by destruct s.
  - by rewrite bool_decide_eq_false_2.
Qed.

Lemma ReplaceAll_escape s : ReplaceAll s "'" "''" = escape s.
Proof.
  unfold ReplaceAll. induction s as [|c s IH]; [done|]. cbn [String.length replace_all escape].
  rewrite prefix_one. destruct (decide (c = "'"%char)) as [->|Hne].
  - rewrite !bool_decide_eq_true_2 by done. cbn [drop_bytes String.length].
    rewrite <- IH. by destruct s.
  - rewrite !bool_decide_eq_false_2 by congruence. by rewrite IH.
Qed.

Lemma scan_str_close r : stops r = true \/ (exists r', r = String ":" r') -> scan_str (sq +:+ r) = Some ("", r).
Proof.
  intros Hr. unfold sq. rewrite string_app_String, string_app_nil. cbn [scan_str].
  rewrite bool_decide_eq_true_2 by done. destruct r as [|c r]; [done|]. rewrite bool_decide_eq_false_2; [done|].
  intros ->. by destruct Hr as [Hr|[r' [= ]]].
Qed.

Lemma scan_str_escape s r : stops r = true -> scan_str (escape s +:+ sq +:+ r) = Some (s, r).
Proof.
  intros Hr. induction s as [|c s IH]; [apply scan_str_close; by left|].
  cbn [escape]. case_bool_decide as Hc.
  - subst c. rewrite !string_app_String. cbn [scan_str]. rewrite !bool_decide_eq_true_2 by done. by rewrite IH.
  - rewrite string_app_String. cbn [scan_str]. rewrite bool_decide_eq_false_2 by done. by rewrite IH.
Qed.

Lemma scan_str_plain k r : quote_free k = true -> stops r = true \/ (exists r', r = String ":" r') ->
  scan_str (k +:+ sq +:+ r) = Some (k, r).
Proof.
  intros Hk%bool_decide_eq_true Hr. revert Hk. induction k as [|c k IH]; intros Hk; [by apply scan_str_close|].
  cbn [count_char] in Hk. destruct (decide (c = "'"%char)) as [->|Hne]; [done|].
  rewrite string_app_String. cbn [scan_str]. rewrite bool_decide_eq_false_2 by done. by rewrite IH.
Qed.

Lemma scan_scalar_app t r : scan_scalar t = (t, "") -> stops r = true -> scan_scalar (t +:+ r) = (t, r).
Proof.
  intros Ht Hr. induction t as [|c t IH].
  - destruct r as [|c r]; [done|]. rewrite string_app_nil. cbn [scan_scalar stops] in *. by rewrite Hr.
  - rewrite string_app_String. cbn [scan_scalar] in *. destruct (delimiter c) eqn:Hc; [done|].
    injection Ht as Ht1 Ht2. rewrite IH; [done|]. destruct (scan_scalar t) as [a b]. cbn in *. congruence.
Qed.

Lemma strip_app p r : strip p (p +:+ r) = Some r.
Proof. unfold strip. by rewrite GoStrings.prefix_app, drop_bytes_app. Qed.

Lemma strip_one c s : strip (String c "") s =
  match s with String d r => if bool_decide (c = d) then Some r else None | EmptyString => None end.
Proof. unfold strip. rewrite prefix_one. destruct s as [|d s]; [done|]. by case_bool_decide. Qed.

(** *** Parsing what was printed *)
Lemma print_strips d r : readable d = true ->
  match d with
  | DScalar t => strip sq (print d +:+ r) = None /\ strip "[" (print d +:+ r) = None /\
                 strip "<<" (print d +:+ r) = None /\ strip lcb (print d +:+ r) = None
  | DString s => strip sq (print d +:+ r) = Some (escape s +:+ sq +:+ r)
  | DColl false l => strip sq (print d +:+ r) = None /\
      strip "[" (print d +:+ r) = Some (String.concat sep (List.map print l) +:+ "]" +:+ r)
  | DColl true l => strip sq (print d +:+ r) = None /\ strip "[" (print d +:+ r) = None /\
      strip "<<" (print d +:+ r) = Some (String.concat sep (List.map print l) +:+ ">>" +:+ r)
  | DTuple ms => strip sq (print d +:+ r) = None /\ strip "[" (print d +:+ r) = None /\
      strip "<<" (print d +:+ r) = None /\
      strip lcb (print d +:+ r) =
        Some (String.concat sep (List.map (fun m => sq +:+ m.1 +:+ "':" +:+ print m.2) ms) +:+ rcb +:+ r)
  end.
Proof.
  destruct d as [t|s|bag l|ms]; cbn [readable print]; intros Hr.
  - destruct t as [|c t]; [done|]. unfold scalar_text in Hr. apply andb_prop in Hr as [Hc _].
    apply negb_true_iff, bool_decide_eq_false in Hc. rewrite string_app_String. unfold sq, lcb. rewrite !strip_one.
    unfold strip. cbn [String.prefix]. destruct (ascii_dec "<" c) as [<-|Hlt]; [set_solver|].
    rewrite !bool_decide_eq_false_2 by (intros <-; set_solver). done.
  - rewrite ReplaceAll_escape, !app_assoc_string. apply strip_app.
  - destruct bag; unfold open_coll, close_coll; rewrite !app_assoc_string.
    + split_and!; [done..|]. apply strip_app.
    + split; [done|]. apply strip_app.
  - rewrite !app_assoc_string. split_and!; [done..|]. apply strip_app.
Qed.

Lemma print_nonempty d : readable d = true -> exists c s, print d = String c s /\ delimiter c = false.
Proof.
  destruct d as [t|s|bag l|ms]; cbn [readable print]; intros Hr.
  - destruct t as [|c t]; [done|]. unfold scalar_text in Hr. apply andb_prop in Hr as [_ Hs%bool_decide_eq_true].
    exists c, t. split; [done|]. cbn [scan_scalar] in Hs. by destruct (delimiter c).
  - by eexists _, _.
  - destruct bag; by eexists _, _.
  - by eexists _, _.
Qed.

Lemma readable_no_strip bag d r : readable d = true -> strip (close_coll bag) (print d +:+ r) = None.
Proof.
  intros Hr. destruct (print_nonempty d Hr) as (c & s & -> & Hc). rewrite string_app_String.
  destruct bag; unfold close_coll.
  - unfold strip. cbn [String.prefix]. destruct (ascii_dec ">" c) as [<-|]; [done|done].
  - rewrite strip_one. rewrite bool_decide_eq_false_2; [done|]. by intros <-.
Qed.

(** Dropping the comma after an element, if there is one. *)
Lemma after_element (x : string) (l : list string) close r :
  (exists c s, close = String c s /\ delimiter c = true /\ c <> ","%char) ->
  String.concat sep (x :: l) +:+ close +:+ r =
    x +:+ (match l with [] => "" | _ => sep end) +:+ String.concat sep l +:+ close +:+ r /\
  stops ((match l with [] => "" | _ => sep end) +:+ String.concat sep l +:+ close +:+ r) = true /\
  (let a := (match l with [] => "" | _ => sep end) +:+ String.concat sep l +:+ close +:+ r in
   default a (strip sep a)) = String.concat sep l +:+ close +:+ r.
Proof.
  intros (c & s & -> & Hc & Hne). destruct l as [|y l].
  - cbn [String.concat]. rewrite !string_app_nil, string_app_String. do 2 (split; [done|]). cbv zeta.
    unfold sep. rewrite strip_one, bool_decide_eq_false_2 by done. done.
  - change (String.concat sep (x :: y :: l)) with (x +:+ sep +:+ String.concat sep (y :: l)).
    rewrite !app_assoc_string. split_and!; [done..|]. cbv zeta. by rewrite strip_app.
Qed.

Lemma close_coll_ok bag : exists c s, close_coll bag = String c s /\ delimiter c = true /\ c <> ","%char.
Proof. destruct bag; by eexists _, _. Qed.

Definition parses (fuel : nat) : Prop := forall d r, (doc_size d <= fuel)%nat -> readable d = true -> stops r = true ->
  parse fuel (print d +:+ r) = Some (d, r).

Lemma parse_elems_print fuel : (forall n, (n < fuel)%nat -> parses n) -> forall bag l r,
  (foldr (fun d n => S (doc_size d) + n)%nat 0%nat l < fuel)%nat -> forallb readable l = true ->
  parse_elems fuel bag (String.concat sep (List.map print l) +:+ close_coll bag +:+ r) = Some (l, r).
Proof.
  induction fuel as [|fuel IH]; intros Hp bag l r Hf Hr; [lia|]. destruct l as [|d l].
  - cbn [List.map String.concat]. rewrite string_app_nil. cbn [parse_elems]. by rewrite strip_app.
  - cbn [forallb foldr] in Hf, Hr. apply andb_prop in Hr as [Hd Hl]. cbn [List.map].
    destruct (after_element (print d) (List.map print l) (close_coll bag) r (close_coll_ok bag)) as (E & Hst & Haft).
    rewrite E. cbn [parse_elems]. rewrite readable_no_strip by done.
    rewrite (Hp fuel) by (done || lia). cbn [mbind option_bind fst snd]. cbv zeta in *. rewrite Haft.
    rewrite IH by (done || lia || (intros; apply Hp; lia)). done.
Qed.

Lemma parse_members_print fuel : (forall n, (n < fuel)%nat -> parses n) -> forall ms r,
  (foldr (fun m n => S (doc_size m.2) + n)%nat 0%nat ms < fuel)%nat ->
  forallb (fun m => quote_free m.1 && readable m.2) ms = true ->
  parse_members fuel (String.concat sep (List.map (fun m => sq +:+ m.1 +:+ "':" +:+ print m.2) ms) +:+ rcb +:+ r) = Some (ms, r).
Proof.
  induction fuel as [|fuel IH]; intros Hp ms r Hf Hr; [lia|]. destruct ms as [|[k d] ms].
  - cbn [List.map String.concat]. rewrite string_app_nil. cbn [parse_members]. by rewrite strip_app.
  - cbn [forallb foldr fst snd] in Hf, Hr. apply andb_prop in Hr as [[Hk Hd]%andb_prop Hms]. cbn [List.map fst snd].
    destruct (after_element (sq +:+ k +:+ "':" +:+ print d)
      (List.map (fun m => sq +:+ m.1 +:+ "':" +:+ print m.2) ms) rcb r) as (E & Hst & Haft); [by eexists _, _|].
    rewrite E. cbn [parse_members].
    rewrite !(app_assoc_string sq), (strip_app sq). change (strip rcb (sq +:+ ?x)) with (@None string).
    cbn [mbind option_bind].
    change ("':" +:+ print d) with (sq +:+ String ":" (print d)). rewrite !(app_assoc_string k), !(app_assoc_string sq).
    rewrite scan_str_plain by (done || (right; by eexists)). cbn [mbind option_bind fst snd].
    rewrite (string_app_String ":"%char), strip_one, bool_decide_eq_true_2 by done. cbn [mbind option_bind].
    rewrite (Hp fuel) by (done || lia). cbn [mbind option_bind fst snd]. cbv zeta in *. rewrite Haft.
    rewrite IH by (done || lia || (intros; apply Hp; lia)). done.
Qed.

Lemma parse_print_all fuel : parses fuel.
Proof.
  induction fuel as [fuel IH] using lt_wf_ind. intros d r Hf Hr Hst.
  destruct fuel as [|fuel]; [destruct d; cbn in Hf; lia|].
  pose proof (print_strips d r Hr) as Hs. cbn [parse].
  destruct d as [t|s|[] l|ms]; cbn [doc_size] in Hf; cbn [readable] in Hr.
  - destruct Hs as (-> & -> & -> & ->). unfold scalar_text in Hr.
    apply andb_prop in Hr as [_ Ht%bool_decide_eq_true]. cbn [print]. by rewrite scan_scalar_app.
  - rewrite Hs, scan_str_escape by done. done.
  - destruct Hs as (-> & -> & ->).
    rewrite (parse_elems_print fuel) by (done || lia || (intros; apply IH; lia)). done.
  - destruct Hs as (-> & ->).
    rewrite (parse_elems_print fuel) by (done || lia || (intros; apply IH; lia)). done.
  - destruct Hs as (-> & -> & -> & ->).
    rewrite (parse_members_print fuel) by (done || lia || (intros; apply IH; lia)). done.
Qed.

(** ** Fuel *)

(** The nesting of calls that encoding a value takes, when encoding what the time
    marshaler returns takes at most [T]. *)
Fixpoint depth (T : nat) (v : val) : nat :=
  match v with
  | VMarshaler (Ok data) _ => S (depth T data)
  | VPtr (Some v) | VInterface (Some v) => S (depth T v)
  | VArray l | VSlice (Some l) => S (foldr (fun v n => Nat.max (depth T v) n) 0%nat l)
  | VMap (Some m) => S (foldr (fun kv n => Nat.max (depth T kv.2) n) 0%nat m)
  | VStruct fs => S (foldr (fun f n => Nat.max (depth T f.2) n) 0%nat fs)
  | VTime _ => S T
  | _ => 2
  end.

(** Neither a value nor what its methods return contains a time. *)
Fixpoint no_time (v : val) : bool :=
  match v with
  | VMarshaler (Ok data) _ => no_time data
  | VPtr (Some v) | VInterface (Some v) => no_time v
  | VArray l | VSlice (Some l) => forallb no_time l
  | VMap (Some m) => forallb (fun kv => no_time kv.2) m
  | VStruct fs => forallb (fun f => no_time f.2) fs
  | VTime _ => false
  | _ => true
  end.

(** A computation that does not run out of fuel. *)
Definition fuelled (m : M Builder error_result) : Prop := forall b b', m b <> Some (Some OutOfFuel, b').

Lemma fuelled_ret e : e <> Some OutOfFuel -> fuelled (mret e).
Proof. intros He b b' Hr. unfold mret, M_ret in Hr. congruence. Qed.

Lemma fuelled_then {A} (m : M Builder A) k : (forall a, fuelled (k a)) -> fuelled (m ≫= k).
Proof. intros Hk b b' Hr. apply M_bind_inv in Hr as (a & s & _ & Hr). by eapply Hk. Qed.

Lemma fuelled_on_ok m k : fuelled m -> fuelled k -> fuelled (on_ok m k).
Proof.
  intros Hm Hk b b' Hr. unfold on_ok in Hr. apply M_bind_inv in Hr as (e & s & He & Hr).
  destruct e as [e|]; [|by eapply Hk]. unfold mret, M_ret in Hr. injection Hr as -> <-. by eapply Hm.
Qed.

Lemma fuelled_panic : fuelled panic.
Proof. by intros b b'. Qed.

#[export] Hint Resolve fuelled_ret fuelled_then fuelled_on_ok fuelled_panic : gofw.

Section fuel.
Context (enc : Encoder) (mar : val -> tagValue -> M Builder error_result).

Lemma fuelled_elems l : (forall v, v ∈ l -> forall tag, fuelled (mar v tag)) -> fuelled (marshal_elems mar l).
Proof.
  induction l as [|v l IH]; intros Hl; cbn [marshal_elems]; [by apply fuelled_ret|].
  apply fuelled_on_ok; [apply Hl|apply IH; intros; apply Hl]; set_solver.
Qed.

Lemma fuelled_entries m : (forall kv, kv ∈ m -> forall tag, fuelled (mar kv.2 tag)) -> fuelled (marshal_entries mar m).
Proof.
  induction m as [|[k v] m IH]; intros Hl; cbn [marshal_entries]; [by apply fuelled_ret|].
  apply fuelled_then. intros _. apply fuelled_on_ok; [apply (Hl (k, v))|apply IH; intros; apply Hl]; set_solver.
Qed.

Lemma fuelled_fields fs : (forall f, f ∈ fs -> forall tag, fuelled (mar f.2 tag)) -> fuelled (marshal_fields enc mar fs).
Proof.
  induction fs as [|[ft fv] fs IH]; intros Hl; cbn [marshal_fields]; [by apply fuelled_ret|].
  assert (fuelled (marshal_fields enc mar fs)) as Hfs by (apply IH; intros; apply Hl; set_solver).
  cbv zeta. destruct (negb _); [done|]. destruct (Ignore _); [done|]. destruct (unsupported _); [done|].
  apply fuelled_then. intros []; [done|]. destruct (_ && _); [done|].
  apply fuelled_then. intros _. apply fuelled_on_ok; [apply (Hl (ft, fv)); set_solver|done].
Qed.
End fuel.

Lemma max_le_elem {A} (f : A -> nat) (l : list A) (x : A) n : x ∈ l ->
  (foldr (fun y m => Nat.max (f y) m) 0%nat l <= n)%nat -> (f x <= n)%nat.
Proof. induction 1 as [x l|x y l _ IH]; cbn; [lia|]. intros Hn. apply IH. lia. Qed.

Lemma forallb_elem {A} (p : A -> bool) l x : x ∈ l -> forallb p l = true -> p x = true.
Proof. induction 1; cbn; intros [? ?]%andb_prop; auto. Qed.

Lemma fuelled_scalar (m : M Builder unit) : fuelled (m;; mret None).
Proof. apply fuelled_then. intros _. by apply fuelled_ret. Qed.

(** [times]: whether the value may contain times, given that those terminate. *)
Lemma marshal_fuelled FormatFloat enc T (times : bool) fuel v tag :
  (times = true -> forall n t tag, (T <= n)%nat -> fuelled (marshal FormatFloat n enc (timeMarshaler enc t) tag)) ->
  times || no_time v = true -> (depth T v <= fuel)%nat -> fuelled (marshal FormatFloat fuel enc v tag).
Proof.
  intros Htm. revert v tag. induction fuel as [|fuel IH]; intros v tag Hnt Hd.
  { destruct v as [| | | | | | | | | | | |[]|[]|[]|[]| | |[] ?]; cbn in Hd; lia. }
  cbn [marshal].
  assert (forall x, times || no_time x = true -> (S (depth T x) <= S fuel)%nat ->
    forall tag, fuelled (marshal FormatFloat fuel enc x tag)) as Hrec by (intros; apply IH; [done|lia]).
  assert (forall A (f : A -> val) (l : list A), times || forallb (fun x => no_time (f x)) l = true ->
    (S (foldr (fun x n => Nat.max (depth T (f x)) n) 0%nat l) <= S fuel)%nat ->
    forall x, x ∈ l -> forall tag, fuelled (marshal FormatFloat fuel enc (f x) tag)) as Hlist.
  { intros A f l Hl Hm x Hx tag'. apply Hrec.
    - destruct times; [done|]. by apply (forallb_elem _ _ _ Hx) in Hl.
    - assert (depth T (f x) <= fuel)%nat; [|lia]. eapply (max_le_elem (fun x => depth T (f x))); [done|lia]. }
  assert ((2 <= S fuel)%nat -> forall tag, fuelled (marshal FormatFloat fuel enc VInvalid tag)) as Hinv.
  { intros Hf tag'. destruct fuel; [lia|]. apply fuelled_panic. }
  destruct v as [|b|z|z|z|f|r i|s|l|n|n|l|l|m|p|p|fs|t|r v]; cbn [as_Marshaler];
    try (by apply fuelled_ret); try apply fuelled_scalar; try apply fuelled_panic.
  - apply fuelled_then. intros _. apply fuelled_on_ok; [|apply fuelled_scalar].
    apply fuelled_elems. by apply (Hlist val (fun x => x)).
  - apply fuelled_then. intros _. apply fuelled_on_ok; [|apply fuelled_scalar].
    apply fuelled_elems. destruct l as [l|]; [by apply (Hlist val (fun x => x))|intros x Hx; by apply elem_of_nil in Hx].
  - apply fuelled_then. intros _. apply fuelled_on_ok; [|apply fuelled_scalar].
    apply fuelled_entries. destruct m as [m|]; [by apply (Hlist _ snd)|intros x Hx; by apply elem_of_nil in Hx].
  - destruct p as [v|]; cbn [default]; [by apply Hrec|by apply Hinv].
  - destruct p as [v|]; cbn [default]; [|by apply Hinv].
    destruct v as [| | | | | | | | | | | | | | | | | |[data|e] v]; try (by apply Hrec); [|by apply fuelled_ret].
    cbn [depth no_time] in Hnt, Hd. apply Hrec; [done|lia].
  - unfold marshalStruct. apply fuelled_then. intros _. apply fuelled_on_ok; [|apply fuelled_scalar].
    apply fuelled_fields. by apply (Hlist _ snd).
  - destruct times; [|done]. apply Htm; [done|]. cbn in Hd. lia.
  - destruct r as [data|e]; [by apply Hrec|by apply fuelled_ret].
Qed.

(** ** Theorems *)
Section theorems.
Context (FormatFloat : spec_float -> string).

(** C16: encoding a value that has a document writes exactly the text of the
    document, with commas between members and nowhere else, whatever the builder
    held before; and that text is read back as the document, string contents and
    nesting included, when the keys hold no quote and the texts of its scalars can be
    read. *)
Theorem Marshal_document fuel enc v its b :
  doc_of FormatFloat fuel enc v no_tag = Some its ->
  exists b', Encoder_Marshal FormatFloat fuel enc v b =
      Some (Ok (String.concat sep (List.map print_item its)), b') /\
    forall d, its = [(None, d)] -> readable d = true ->
      parse (doc_size d) (String.concat sep (List.map print_item its)) = Some (d, "").
Proof.
  intros Hd. eexists. split.
  - unfold Encoder_Marshal, Reset. rewrite (run_bind _ _ b tt _ eq_refl).
    rewrite (run_bind _ _ _ _ _ (marshal_doc_of _ _ _ _ _ _ _ Hd)), emit_all_fresh, string_app_nil. reflexivity.
  - intros d -> Hr. change (String.concat _ _) with (print d). rewrite <- (app_empty_r (print d)). by apply parse_print_all.
Qed.

(** encoding a finite value needs no more turns than it nests: with fuel for the nesting of the value, and of what the
    time marshaler returns, [marshal] never runs out, provided that the time
    marshaler returns nothing that contains a time. *)
Theorem marshal_terminates fuel enc T v tag :
  (forall t, no_time (timeMarshaler enc t) = true /\ (depth 0 (timeMarshaler enc t) <= T)%nat) ->
  (depth T v <= fuel)%nat -> fuelled (marshal FormatFloat fuel enc v tag).
Proof.
  intros Htm Hd. apply (marshal_fuelled _ _ T true); [|done|done].
  intros _ n t tag' Hn. destruct (Htm t) as [Hnt HT].
  apply (marshal_fuelled _ _ 0 false); [done|done|lia].
Qed.

(** encoding panics on nil, wherever it meets it outside a struct: as the
    value itself, after elements that have been written, or as the value of a map
    entry; and on every struct with a field of an array type. *)
Theorem marshal_nil_panics fuel enc l1 l2 its tag b :
  mapM (fun v => doc_of FormatFloat (S (S fuel)) enc v no_tag) l1 = Some its ->
  marshal FormatFloat (S fuel) enc VInvalid tag b = None /\
  marshal FormatFloat (S (S (S fuel))) enc (VSlice (Some (l1 ++ VPtr None :: l2))) tag b = None /\
  (forall k, marshal FormatFloat (S (S (S fuel))) enc (VMap (Some [(k, VInterface None)])) tag b = None) /\
  (forall ft a fs, sf_exported ft = true -> Ignore (field_tag (tagNames enc) ft) = false ->
     marshal FormatFloat (S fuel) enc (VStruct ((ft, VArray a) :: fs)) tag b = None).
Proof.
  intros Hl. split_and!.
  - done.
  - change (marshalCollection (marshal FormatFloat (S (S fuel)) enc) (l1 ++ VPtr None :: l2) tag b = None).
    unfold marshalCollection. rewrite (run_bind _ _ _ _ _ (begin_coll_run _ _)). apply on_ok_panic.
    by eapply (marshal_elems_panic _ (doc_of FormatFloat (S (S fuel)) enc) (marshal_doc_of FormatFloat _ enc)).
  - intros k. change (marshalMap (marshal FormatFloat (S (S fuel)) enc) [(k, VInterface None)] b = None).
    unfold marshalMap. rewrite (run_bind _ _ _ _ _ (WriteBeginTuple_run _)). apply on_ok_panic.
    cbn [marshal_entries]. by rewrite (run_bind _ _ _ _ _ (WriteKey_run _ _)).
  - intros ft a fs He Hi. cbn [marshal as_Marshaler]. unfold marshalStruct.
    assert (exists b1, (if Squash tag then mret tt else WriteBeginTuple) b = Some (tt, b1)) as [b1 Hb].
    { destruct (Squash tag); [by eexists|]. rewrite WriteBeginTuple_run. by eexists. }
    rewrite (run_bind _ _ _ _ _ Hb). apply on_ok_panic. cbn [marshal_fields]. by rewrite He, Hi.
Qed.
End theorems.

(** A key with a quote: the text of a tuple with one member is read as two. *)
Example WriteKey_injection :
  parse 10 (print (DTuple [("a':1,'b", DScalar "2")])) = Some (DTuple [("a", DScalar "1"); ("b", DScalar "2")], "").
Proof. reflexivity. Qed.

(** ** Witnesses *)
Definition text_float (_ : spec_float) : string := "1.5".
Definition text_time (_ : Z) : string := "2024-01-02T03:04:05Z".
Definition sample_encoder : Encoder := NewEncoder text_time.

Definition sample_field (name tag : string) : StructField := MkField name true false [("partiql", tag)].

Definition sample_struct : val :=
  VStruct [(sample_field "Name" "name", VString "O'Neil");
           (sample_field "Base" ",squash", VStruct [(sample_field "Id" "id", VInt (-7))]);
           (sample_field "Tags" "tags,bag", VSlice (Some [VString "x"; VString "y"]));
           (sample_field "None" "none", VPtr None);
           (sample_field "At" "at", VTime 5)].

Definition sample_doc : doc :=
  DTuple [("name", DString "O'Neil"); ("id", DScalar "-7"); ("tags", DColl true [DString "x"; DString "y"]);
          ("at", DString "2024-01-02T03:04:05Z")].

Lemma Marshal_document_witness :
  parse (doc_size sample_doc)
    "{'name':'O''Neil','id':-7,'tags':<<'x','y'>>,'at':'2024-01-02T03:04:05Z'}" = Some (sample_doc, "").
Proof.
  destruct (Marshal_document text_float 5 sample_encoder sample_struct [(None, sample_doc)] NewPartiQLBuilder)
    as (b' & _ & Hp); [reflexivity|].
  apply Hp; reflexivity.
Defined.

Lemma marshal_terminates_witness :
  fuelled (marshal text_float 4 sample_encoder (VSlice (Some [VTime 1; VPtr (Some (VInt 3))])) no_tag).
Proof. apply (marshal_terminates text_float 4 sample_encoder 2); [done|cbn; lia]. Defined.

Lemma marshal_nil_panics_witness :
  marshal text_float 3 sample_encoder (VSlice (Some [VInt 1; VPtr None])) no_tag NewPartiQLBuilder = None.
Proof. apply (marshal_nil_panics text_float 0 sample_encoder [VInt 1] [] [[(None, DScalar "1")]]). reflexivity. Defined.
