(* ===== verification/DynamoDB.v ===== *)
(** * aws/dynamodb: PartiQL statements for DynamoDB

    Models [aws/dynamodb/dynamodb.go], [insert.go], [query.go], [update.go] and
    [delete.go].  The AWS client, its attribute encoder, the clock and the UUID
    generator are an environment ([Env]) over a state [W]; a model type is an
    instance of the class [Model]. *)

From S2P Require Import Prelude.
From S2P Require Import GoStrings.
From S2P Require Import Errors.
From S2P Require Import GoReflect.
From S2P Require Import Slices.
From S2P Require PartiQL.
From stdpp Require Import pretty.
From Stdlib Require Import Ascii.

Open Scope string_scope.
Open Scope list_scope.
Open Scope Z_scope.

(** ** Times as numbers of seconds

    binary64 arithmetic, rounding to nearest even. *)
Definition float64_of_Z (z : Z) : spec_float := binary_normalize 53 1024 z 0 false.
Definition float64_div (x y : spec_float) : spec_float := SFdiv 53 1024 x y.
Definition float64_mul (x y : spec_float) : spec_float := SFmul 53 1024 x y.

(** Go's conversion to int64: towards zero. *)
Definition int64_of_float (f : spec_float) : Z :=
  match f with
  | S754_finite s m e =>
      let a := if e <? 0 then Z.shiftr (Zpos m) (- e) else Z.shiftl (Zpos m) e in
      if s then - a else a
  | _ => 0
  end.

(** [EncodeTime] and [DecodeTime.N] of [NewDynamoDB] on a time in microseconds
    since 1970; [FormatFloat] with precision -1 and [ParseFloat] are inverses. *)
Definition EncodeTime (unixMicro : Z) : spec_float := float64_div (float64_of_Z unixMicro) (float64_of_Z 1000000).
Definition DecodeTime (n : spec_float) : Z := int64_of_float (float64_mul n (float64_of_Z 1000000)).

(** ** Models and the environment *)
Record PrimaryKey := MkPK { HashKey : string; Hash : string; RangeKey : string; Range : val }.

(** [pk == (PrimaryKey{})] *)
Definition pk_zero (pk : PrimaryKey) : bool :=
  bool_decide (HashKey pk = "") && bool_decide (Hash pk = "") && bool_decide (RangeKey pk = "") &&
  match Range pk with VInvalid => true | _ => false end.
Definition is_nil_any (v : val) : bool := match v with VInvalid => true | _ => false end.

Record ModelWithUpdateTs (X : Type) := MkUpd {
  GetUpdateTsKey : X -> string;
  GetUpdateTs : X -> Z;
  SetUpdateTs : Z -> X -> X;
}.
Arguments GetUpdateTsKey {X}.
Arguments GetUpdateTs {X}.
Arguments SetUpdateTs {X}.

(** The methods of a model, whether it has an update time, its zero value and the
    value that package reflect shows. *)
Class Model (X : Type) := {
  GetTableName : X -> string;
  GetPK : X -> PrimaryKey;
  SetPK : PrimaryKey -> X -> X;
  GetCreateTs : X -> Z;
  SetCreateTs : Z -> X -> X;
  with_update_ts : option (ModelWithUpdateTs X);
  zero_model : X;
  as_val : X -> val;
}.

Inductive attr_type := AttrS | AttrN.
Inductive key_type := KeyHash | KeyRange.
Record CreateTableInput := MkCreate {
  AttributeDefinitions : list (string * attr_type);
  KeySchema : list (string * key_type);
  TableName : string;
}.

(** [NilErr] is a nil error. *)
Record StatementInput (Attr : Type) := MkInput { Statement : string; Parameters : list Attr; ConsistentRead : bool }.
Arguments MkInput {Attr}.
Arguments Statement {Attr}.
Arguments Parameters {Attr}.
Arguments ConsistentRead {Attr}.

Record Output (Item Meta : Type) := MkOutput { Items : list Item; o_Meta : Meta }.
Arguments Items {Item Meta}.
Arguments o_Meta {Item Meta}.

Record Env (W X Attr Item Meta : Type) := MkEnv {
  e_ExecuteStatement : StatementInput Attr -> W -> (option (Output Item Meta) * error) * W;
  e_CreateTable : CreateTableInput -> W -> error * W;
  e_DeleteTable : string -> W -> error * W;
  e_ListTables : W -> (list string * error) * W;
  e_MarshalList : list val -> result error (list Attr);
  e_UnmarshalMap : Item -> X -> X * error;
  e_UnmarshalListOfMaps : list Item -> list X -> list X * error;
  e_Now : W -> Z * W;
  e_UUID : W -> string * W;
}.
Arguments e_ExecuteStatement {W X Attr Item Meta}.
Arguments e_CreateTable {W X Attr Item Meta}.
Arguments e_DeleteTable {W X Attr Item Meta}.
Arguments e_ListTables {W X Attr Item Meta}.
Arguments e_MarshalList {W X Attr Item Meta}.
Arguments e_UnmarshalMap {W X Attr Item Meta}.
Arguments e_UnmarshalListOfMaps {W X Attr Item Meta}.
Arguments e_Now {W X Attr Item Meta}.
Arguments e_UUID {W X Attr Item Meta}.

Record DynamoDB := MkDB { tablePrefix : string; TimeMarshalerFunc : Z -> val }.

(** A call of the environment. *)
Definition call {W A} (f : W -> A * W) : M W A := fun w => Some (f w).

Definition is_nil_err (e : error) : bool := match e with NilErr => true | _ => false end.

(** The standard library's [errors.As] for a target of type [ty]. *)
Fixpoint as_type (ty : string) (e : error) : option error :=
  if bool_decide (type_string e = Some ty) then Some e
  else
    match e with
    | WrapOne _ _ w => as_type ty w
    | WrapMany _ _ ws | FwErr _ ws =>
        (fix first (ws : list error) : option error :=
           match ws with
           | [] => None
           | w :: ws => match as_type ty w with Some x => Some x | None => first ws end
           end) ws
    | _ => None
    end.

(** [%q] of printable ASCII. *)
Fixpoint quote_body (s : string) : string :=
  match s with
  | EmptyString => ""
  | String c s =>
      if bool_decide (c = "034"%char) || bool_decide (c = "\"%char) then String "\" (String c (quote_body s))
      else String c (quote_body s)
  end.
Definition dq : string := String "034" "".
Definition Quote (s : string) : string := dq +:+ quote_body s +:+ dq.

(** ** Regular expressions of the scan check

    Matchers in continuation style, in the order in which package regexp prefers
    matches. *)
Definition is_space (c : ascii) : bool := bool_decide (nat_of_ascii c ∈ [9; 10; 12; 13; 32])%nat.
Definition is_word (c : ascii) : bool :=
  let n := nat_of_ascii c in
  bool_decide (48 <= n <= 57)%nat || bool_decide (65 <= n <= 90)%nat || bool_decide (97 <= n <= 122)%nat ||
  bool_decide (n = 95)%nat.
Definition not_newline (c : ascii) : bool := negb (bool_decide (nat_of_ascii c = 10)%nat).

Definition matcher : Type := (string -> option (string * string)) -> string -> option (string * string).

Definition cls (p : ascii -> bool) : matcher := fun k s =>
  match s with String c s' => if p c then k s' else None | EmptyString => None end.
Fixpoint star (p : ascii -> bool) (k : string -> option (string * string)) (s : string) : option (string * string) :=
  match s with
  | String c s' =>
      if p c then match star p k s' with Some r => Some r | None => k s end else k s
  | EmptyString => k s
  end.
Definition plus (p : ascii -> bool) : matcher := fun k => cls p (star p k).
(** [p*?] *)
Fixpoint star_lazy (p : ascii -> bool) (k : string -> option (string * string)) (s : string) : option (string * string) :=
  match k s with
  | Some r => Some r
  | None => match s with String c s' => if p c then star_lazy p k s' else None | EmptyString => None end
  end.
Definition chr (c : ascii) : matcher := cls (fun d => bool_decide (d = c)).
Definition chr_fold (c : ascii) : matcher := cls (fun d => bool_decide (lower_char d = lower_char c)).

(** [(^|\s+)] *)
Definition start_or_spaces (at_start : bool) : matcher := fun k s =>
  match (if at_start then k s else None) with
  | Some r => Some r
  | None => plus is_space k s
  end.

(** [(\w+)], whose text the continuation gets. *)
Definition word_group (k : string -> string -> option (string * string)) (s : string) : option (string * string) :=
  plus is_word (fun s' => k (take_bytes (String.length s - String.length s') s) s') s.

(** [(^|\s+)(\w+)\s*=\s*\S+]: the group and what follows the match. *)
Definition fieldEqRegex (at_start : bool) (s : string) : option (string * string) :=
  start_or_spaces at_start
    (word_group (fun g =>
       star is_space (chr "=" (star is_space (plus (fun c => negb (is_space c)) (fun rest => Some (g, rest))))))) s.

(** [(?i)(^|\s+)(\w+)\s+IN\s+\[\s*\S+.*?]] *)
Definition fieldInRegex (at_start : bool) (s : string) : option (string * string) :=
  start_or_spaces at_start
    (word_group (fun g =>
       plus is_space (chr_fold "I" (chr_fold "N" (plus is_space (chr "["
         (star is_space (plus (fun c => negb (is_space c)) (star_lazy not_newline
           (chr "]" (fun rest => Some (g, rest)))))))))))) s.

(** The groups of [FindAllStringSubmatchIndex]: a match never is empty, so the
    clause's length bounds their number. *)
Fixpoint find_all (fuel : nat) (regex : bool -> string -> option (string * string)) (at_start : bool) (s : string) : list string :=
  match fuel with
  | O => []
  | S fuel =>
      match regex at_start s with
      | Some (g, rest) => g :: find_all fuel regex false rest
      | None => match s with String _ s' => find_all fuel regex false s' | EmptyString => [] end
      end
  end.

Definition matchFieldRegex (regex : bool -> string -> option (string * string)) (field clause : string) : bool :=
  existsb (fun g => bool_decide (g = field)) (find_all (S (String.length clause)) regex true clause).

(** ** Operations *)
Section operations.
Context {W X Attr Item Meta : Type} `{Model X} (env : Env W X Attr Item Meta).
Context (defaults : Defaults) (callers : list Frame) (ErrorText : error -> string).
Context (TypeString : val -> string) (FormatFloat : spec_float -> string) (FormatTime : Z -> string).
(** The code of the [*smithy.GenericAPIError] found in an error. *)
Context (GenericAPIError_Code : error -> string).

(** [errors.Newf] without and with a final [%w]. *)
Definition newf (code msg : string) : error := Newf defaults code (OpaqueErr "*errors.errorString" msg) msg callers.
Definition newf_w (code msg : string) (err : error) : error :=
  let m := msg +:+ ErrorText err in Newf defaults code (WrapOne "*fmt.wrapError" m err) m callers.
Definition Join (errs : list error) : error := WrapMany "*errors.joinError" (String.concat newline (ErrorText <$> errs)) errs.

Record ExecutionResult := MkResult { r_Err : error; r_Meta : option Meta }.
Definition no_result : ExecutionResult := MkResult NilErr None.

(** The type of the range key's attribute; [None] when [TypeOf(nil).Kind()]
    panics. *)
Definition range_attr_type (v : val) : option (option attr_type) :=
  match v with
  | VInvalid => None
  | VTime _ => Some (Some AttrN)
  | _ =>
      Some (match kind v with
            | String_ => Some AttrS
            | Int | Uint | Float => Some AttrN
            | _ => None
            end)
  end.

Definition CreateTable (d : DynamoDB) (model : X) : M W error :=
  let tableName := tablePrefix d +:+ GetTableName model in
  let pk := GetPK model in
  if pk_zero pk then mret (newf ErrCodeBadArgument "missing primary key for model")
  else
    let input := MkCreate [(HashKey pk, AttrS)] [(HashKey pk, KeyHash)] tableName in
    let create := fun input =>
      err ← call (e_CreateTable env input);
      if is_nil_err err then mret NilErr
      else mret (newf_w ErrCodeUnknown ("failed to create table: " +:+ tableName +:+ ", error: ") err) in
    if bool_decide (RangeKey pk = "") then create input
    else
      t ← lift_option (range_attr_type (Range pk));
      match t with
      | None => mret (newf ErrCodeUnknown ("unsupported range key type: " +:+ TypeString (Range pk)))
      | Some t =>
          create (MkCreate (AttributeDefinitions input ++ [(RangeKey pk, t)])
            (KeySchema input ++ [(RangeKey pk, KeyRange)]) tableName)
      end.

(** The errors of the calls on each element, in order. *)
Fixpoint collect_errors {A} (f : A -> M W error) (l : list A) : M W (list error) :=
  match l with
  | [] => mret []
  | a :: l =>
      err ← f a;
      errs ← collect_errors f l;
      mret (if is_nil_err err then errs else err :: errs)
  end.

Definition CreateTables (d : DynamoDB) (models : list X) : M W error :=
  errs ← collect_errors (CreateTable d) models;
  mret (if bool_decide (length errs = 0%nat) then NilErr
        else newf_w ErrCodeUnknown "Some tables where not created, errors: " (Join errs)).

Definition DeleteTable (d : DynamoDB) (model : X) : M W error :=
  let tableName := tablePrefix d +:+ GetTableName model in
  err ← call (e_DeleteTable env tableName);
  mret (if is_nil_err err then NilErr
        else newf_w ErrCodeUnknown ("failed to delete table: " +:+ tableName +:+ ", error: ") err).

Definition ListTables (d : DynamoDB) : M W (list string * error) :=
  output ← call (e_ListTables env);
  if is_nil_err output.2 then
    tables ← Slices.Filter (Some output.1) (fun table => mret (HasPrefix table (tablePrefix d)));
    mret (elems tables, NilErr)
  else mret ([], newf_w ErrCodeUnknown "failed to list tables, error: " output.2).

Definition DeleteAllTables (d : DynamoDB) : M W error :=
  tables ← ListTables d;
  if is_nil_err tables.2 then
    errs ← collect_errors (fun table =>
      err ← call (e_DeleteTable env table);
      let m := "failed to delete table: " +:+ table +:+ ", error: " +:+ ErrorText err in
      mret (if is_nil_err err then NilErr else WrapOne "*fmt.wrapError" m err)) tables.1;
    mret (if bool_decide (length errs = 0%nat) then NilErr
          else newf_w ErrCodeUnknown "Some tables where not deleted, errors: " (Join errs))
  else mret (newf_w ErrCodeUnknown "failed to list tables for deletion, error: " tables.2).

(** *** Insert *)
Record InsertOne := MkInsert { i_Result : ExecutionResult; i_db : option DynamoDB; i_model : option X }.

(** Also returns the caller's model, which is changed in place. *)
Definition Insert (d : DynamoDB) (model : X) : M W (InsertOne * X) :=
  model ← (if bool_decide (GetCreateTs model = 0) then
             now ← call (e_Now env); mret (SetCreateTs now model)
           else mret model);
  let model := match with_update_ts with
               | Some updatable => SetUpdateTs updatable (GetCreateTs model) model
               | None => model
               end in
  let pk := GetPK model in
  if bool_decide (Hash pk = "") then
    if negb (bool_decide (RangeKey pk = "")) && is_nil_any (Range pk) then
      mret (MkInsert (MkResult (newf ErrCodeBadArgument "missing range key for model") None) None None, model)
    else
      id ← call (e_UUID env);
      let model := SetPK (MkPK (HashKey pk) id (RangeKey pk) (Range pk)) model in
      mret (MkInsert no_result (Some d) (Some model), model)
  else mret (MkInsert no_result (Some d) (Some model), model).

Definition fail {A} (upd : ExecutionResult -> A) (meta : option Meta) (err : error) : M W ((ExecutionResult * error) * A) :=
  mret ((no_result, err), upd (MkResult err meta)).

(** The encoder of an operation, and the fuel its value takes: see
    [PartiQL.marshal_terminates]. *)
Definition db_encoder (d : DynamoDB) : PartiQL.Encoder :=
  PartiQL.WithTimeMarshaler (TimeMarshalerFunc d) (PartiQL.NewEncoder FormatTime).
Definition time_depth : nat := 2.

Definition encode_error (e : PartiQL.marshal_error) : error :=
  match e with PartiQL.UserError msg => OpaqueErr "error" msg | PartiQL.OutOfFuel => OpaqueErr "fuel" "" end.

Definition InsertOne_Execute (i : InsertOne) : M W ((ExecutionResult * error) * InsertOne) :=
  let upd := fun r => MkInsert r (i_db i) (i_model i) in
  if negb (is_nil_err (r_Err (i_Result i))) then mret ((no_result, r_Err (i_Result i)), i)
  else
    d ← lift_option (i_db i);
    model ← lift_option (i_model i);
    let tableName := tablePrefix d +:+ GetTableName model in
    item ← lift_option (fst <$> PartiQL.Encoder_Marshal FormatFloat (PartiQL.depth time_depth (as_val model))
                                 (db_encoder d) (as_val model) PartiQL.NewPartiQLBuilder);
    match item with
    | Err e => fail upd None (newf_w ErrCodeUnknown "failed to marshal item, error: " (encode_error e))
    | Ok item =>
        res ← call (e_ExecuteStatement env
                     (MkInput ("INSERT INTO " +:+ Quote tableName +:+ " VALUE " +:+ item) [] false));
        let err := res.2 in
        if negb (is_nil_err err) then
          let duplicate :=
            match as_type "*types.DuplicateItemException" err with
            | Some _ => true
            | None =>
                match as_type "*smithy.GenericAPIError" err with
                | Some gae => bool_decide (GenericAPIError_Code gae = "DuplicateItem")
                | None => false
                end
            end in
          fail upd None
            (if duplicate then newf ErrCodeConflict ("item already exists in table: " +:+ tableName)
             else newf_w ErrCodeUnknown ("failed to put item in table: " +:+ tableName +:+ ", error: ") err)
        else
          output ← lift_option res.1;
          let r := MkResult NilErr (Some (o_Meta output)) in
          mret ((r, NilErr), upd r)
    end.

(** *** Delete *)
Record Delete := MkDelete { d_Result : ExecutionResult; d_db : DynamoDB; d_model : X }.
Definition DynamoDB_Delete (d : DynamoDB) (model : X) : Delete := MkDelete no_result d model.

(** The condition on the key and its arguments. *)
Definition key_clause (pk : PrimaryKey) : string * list val :=
  if negb (bool_decide (RangeKey pk = "")) then
    (HashKey pk +:+ " = ? AND " +:+ RangeKey pk +:+ " = ?", [VString (Hash pk); Range pk])
  else (HashKey pk +:+ " = ?", [VString (Hash pk)]).

Definition Delete_statement (tableName : string) (pk : PrimaryKey) : string * list val :=
  let where_ := key_clause pk in
  ("DELETE FROM " +:+ Quote tableName +:+ " WHERE " +:+ where_.1 +:+ " RETURNING ALL OLD *", where_.2).

Definition Delete_Execute (q : Delete) : M W ((ExecutionResult * error) * Delete) :=
  let upd := fun r => MkDelete r (d_db q) (d_model q) in
  if negb (is_nil_err (r_Err (d_Result q))) then mret ((no_result, r_Err (d_Result q)), q)
  else
    let tableName := tablePrefix (d_db q) +:+ GetTableName (d_model q) in
    let st := Delete_statement tableName (GetPK (d_model q)) in
    match e_MarshalList env st.2 with
    | Err e => fail upd None (newf_w ErrCodeUnknown "failed to marshal parameters, error: " e)
    | Ok parameters =>
        res ← call (e_ExecuteStatement env (MkInput st.1 parameters false));
        let meta := o_Meta <$> res.1 in
        match is_nil_err res.2, res.1 with
        | true, Some output =>
            let r := MkResult (if bool_decide (length (Items output) = 0%nat)
                               then newf ErrCodeNotFound ("item not found in table: " +:+ tableName)
                               else NilErr) meta in
            mret ((r, r_Err r), upd r)
        | _, _ =>
            fail upd meta
              (match as_type "*types.ConditionalCheckFailedException" res.2 with
               | Some _ => newf ErrCodeNotFound ("item not found in table: " +:+ tableName)
               | None => newf_w ErrCodeUnknown ("failed to delete item from table: " +:+ tableName +:+ ", error: ") res.2
               end)
        end
    end.

(** *** Query *)
Record Query := MkQuery {
  q_ConsistentRead : bool;
  WhereClause : string;
  WhereArgs : list val;
  AllowScan : bool;
  q_Result : ExecutionResult;
  single : bool;
  q_db : DynamoDB;
  q_model : option X;       (** [None] is a nil interface *)
  q_target : list X;
}.

Definition WithConsistentRead (q : Query) : Query :=
  MkQuery true (WhereClause q) (WhereArgs q) (AllowScan q) (q_Result q) (single q) (q_db q) (q_model q) (q_target q).
Definition Where (where_ : string) (args : list val) (q : Query) : Query :=
  MkQuery (q_ConsistentRead q) where_ args (AllowScan q) (q_Result q) (single q) (q_db q) (q_model q) (q_target q).
Definition WithAllowScan (q : Query) : Query :=
  MkQuery (q_ConsistentRead q) (WhereClause q) (WhereArgs q) true (q_Result q) (single q) (q_db q) (q_model q) (q_target q).
Definition set_result (r : ExecutionResult) (q : Query) : Query :=
  MkQuery (q_ConsistentRead q) (WhereClause q) (WhereArgs q) (AllowScan q) r (single q) (q_db q) (q_model q) (q_target q).
Definition set_target (l : list X) (q : Query) : Query :=
  MkQuery (q_ConsistentRead q) (WhereClause q) (WhereArgs q) (AllowScan q) (q_Result q) (single q) (q_db q) (q_model q) l.

(** [None]: a method is called on the nil model. *)
Definition checkForScan (q : Query) : option Query :=
  if AllowScan q then Some q
  else
    model ← q_model q;
    let pk := GetPK model in
    Some (if negb (matchFieldRegex fieldEqRegex (HashKey pk) (WhereClause q)) &&
             negb (matchFieldRegex fieldInRegex (HashKey pk) (WhereClause q)) then
            set_result (MkResult (newf ErrCodeBadArgument
              "scan operation is not allowed, where clause must contain a restriction on the pk.hash field")
              (r_Meta (q_Result q))) q
          else q).

Definition Get (d : DynamoDB) (target : X) : Query :=
  let q := MkQuery false "" [] false no_result true d (Some target) [target] in
  let where_ := key_clause (GetPK target) in
  Where where_.1 where_.2 q.

(** [strings.TrimSuffix(strings.Repeat("?,", n), ",")] *)
Definition marks (n : nat) : string := TrimSuffix (Repeat "?," n) ",".

(** The [append] of the range keys is one argument, a slice. *)
Definition WithPKs (pks : list PrimaryKey) (q : Query) : option Query :=
  if bool_decide (length pks = 0%nat) then Some q
  else
    model ← q_model q;
    let pk := GetPK model in
    Some (if negb (bool_decide (RangeKey pk = "")) then
            Where (HashKey pk +:+ " IN [" +:+ marks (length pks) +:+ "] AND " +:+ RangeKey pk +:+ " IN [" +:+
                     marks (length pks) +:+ "]")
              [VSlice (Some (((fun item => VInterface (Some (VString (Hash item)))) <$> pks) ++
                             ((fun item => VInterface (Some (Range item))) <$> pks)))] q
          else
            Where (HashKey pk +:+ " IN [" +:+ marks (length pks) +:+ "]")
              ((fun item => VString (Hash item)) <$> pks) q).

(** The argument of [Query]: a pointer to a slice of models, or to another kind. *)
Inductive query_target :=
| TargetSlice (l : list X)
| TargetOther (kind_name : string).

Definition DynamoDB_Query (d : DynamoDB) (target : query_target) : option Query :=
  match target with
  | TargetOther k =>
      Some (MkQuery false "" [] false (MkResult (newf ErrCodeBadArgument ("expected slice, got " +:+ k)) None) false d None [])
  | TargetSlice [] => Some (MkQuery false "" [] false no_result false d (Some zero_model) [])
  | TargetSlice (x :: l) =>
      WithPKs (GetPK <$> (x :: l)) (MkQuery false "" [] false no_result false d (Some x) (x :: l))
  end.

Definition Query_statement (tableName : string) (q : Query) : string :=
  "SELECT * FROM " +:+ Quote tableName +:+
  (if bool_decide (WhereClause q = "") then "" else " WHERE " +:+ WhereClause q).

(** What [Execute] does with the items; the new error and target. *)
Definition Query_items (tableName : string) (q : Query) (items : list Item) : option (error * list X) :=
  if single q then
    match items with
    | [] => Some (newf ErrCodeNotFound ("item not found in table: " +:+ tableName), q_target q)
    | [item] =>
        target ← head (q_target q);
        let r := e_UnmarshalMap env item target in
        Some (if is_nil_err r.2 then NilErr else newf_w ErrCodeUnknown "failed to unmarshal item, error: " r.2, [r.1])
    | _ => Some (newf ErrCodeBadState ("expected 1 item, got " +:+ pretty (length items)), q_target q)
    end
  else
    let r := e_UnmarshalListOfMaps env items (q_target q) in
    Some (if is_nil_err r.2 then NilErr else newf_w ErrCodeUnknown "failed to unmarshal items, error: " r.2, r.1).

Definition Query_Execute (q : Query) : M W ((ExecutionResult * error) * Query) :=
  q ← lift_option (checkForScan q);
  if negb (is_nil_err (r_Err (q_Result q))) then mret ((no_result, r_Err (q_Result q)), q)
  else
    model ← lift_option (q_model q);
    let tableName := tablePrefix (q_db q) +:+ GetTableName model in
    match e_MarshalList env (WhereArgs q) with
    | Err e => fail (fun r => set_result r q) (r_Meta (q_Result q)) (newf_w ErrCodeUnknown "failed to marshal parameters, error: " e)
    | Ok parameters =>
        res ← call (e_ExecuteStatement env (MkInput (Query_statement tableName q) parameters (q_ConsistentRead q)));
        let meta := match res.1 with Some output => Some (o_Meta output) | None => r_Meta (q_Result q) end in
        let q := set_result (MkResult (r_Err (q_Result q)) meta) q in
        match is_nil_err res.2, res.1 with
        | true, Some output =>
            r ← lift_option (Query_items tableName q (Items output));
            let res' := MkResult r.1 meta in
            mret ((res', r.1), set_target r.2 (set_result res' q))
        | _, _ => mret ((no_result, newf_w ErrCodeUnknown ("failed to query table: " +:+ tableName +:+ ", error: ") res.2), q)
        end
    end.

End operations.

(** ** The matchers *)
Section matchers.
Implicit Types (p : ascii -> bool) (k : string -> option (string * string)) (s : string).

(** [all p s]: every byte satisfies [p]; [stops_at p s]: the first byte does not. *)
Fixpoint all_bytes p s : bool := match s with EmptyString => true | String c s => p c && all_bytes p s end.
Definition stops_at p s : bool := match s with EmptyString => true | String c _ => negb (p c) end.

Lemma star_longest p k a b r : all_bytes p a = true -> stops_at p b = true -> k b = Some r ->
  star p k (a +:+ b) = Some r.
Proof.
  intros Ha Hb Hk. induction a as [|c a IH].
  - rewrite string_app_nil. destruct b as [|c b]; [done|]. cbn in Hb |- *. by destruct (p c).
  - cbn [all_bytes] in Ha. apply andb_prop in Ha as [Hc Ha]. rewrite string_app_String. cbn [star].
    by rewrite Hc, IH.
Qed.

Lemma plus_longest p k a b r : a <> "" -> all_bytes p a = true -> stops_at p b = true -> k b = Some r ->
  plus p k (a +:+ b) = Some r.
Proof.
  intros Hne Ha Hb Hk. destruct a as [|c a]; [done|]. cbn [all_bytes] in Ha. apply andb_prop in Ha as [Hc Ha].
  rewrite string_app_String. unfold plus. cbn [cls]. rewrite Hc. by apply star_longest.
Qed.

Lemma star_some p k s : is_Some (k s) -> is_Some (star p k s).
Proof.
  intros [r Hr]. destruct s as [|c s]; cbn [star]; [by exists r|].
  destruct (p c); [destruct (star p k s); [by eexists|]|]; by exists r.
Qed.

Lemma chr_hit c k s : chr c k (String c s) = k s.
Proof. unfold chr, cls. by rewrite bool_decide_eq_true_2. Qed.

Lemma star_total p (g : string) s : exists rest, star p (fun rest => Some (g, rest)) s = Some (g, rest).
Proof.
  induction s as [|c s [rest IH]]; cbn [star]; [by eexists|]. destruct (p c); [rewrite IH|]; by eexists.
Qed.

Lemma star_lazy_some p k a b : all_bytes p a = true -> is_Some (k b) -> is_Some (star_lazy p k (a +:+ b)).
Proof.
  intros Ha Hb. induction a as [|c a IH].
  - rewrite string_app_nil. destruct Hb as [r Hr]. destruct b; cbn [star_lazy]; rewrite Hr; by eexists.
  - cbn [all_bytes] in Ha. apply andb_prop in Ha as [Hc Ha]. rewrite string_app_String. cbn [star_lazy].
    destruct (k (String c (a +:+ b))) as [r|]; [by exists r|]. rewrite Hc. by apply IH.
Qed.

(** Continuations that give one group. *)
Definition gives (g : string) k : Prop := forall s r, k s = Some r -> r.1 = g.

Lemma star_gives g p k : gives g k -> gives g (star p k).
Proof.
  intros Hk s. induction s as [|c s IH]; intros r; cbn [star]; [apply Hk|].
  destruct (p c); [|apply Hk]. destruct (star p k s) eqn:E; [intros [= <-]; by apply IH|apply Hk].
Qed.

Lemma star_lazy_gives g p k : gives g k -> gives g (star_lazy p k).
Proof.
  intros Hk s. induction s as [|c s IH]; intros r; cbn [star_lazy]; destruct (k _) eqn:E; try done.
  - intros [= <-]. by eapply Hk.
  - intros [= <-]. by eapply Hk.
  - destruct (p c); [apply IH|done].
Qed.

Lemma cls_gives g p k : gives g k -> gives g (cls p k).
Proof. intros Hk [|c s] r; [done|]. cbn. destruct (p c); [apply Hk|done]. Qed.

Definition is_key (s : string) : bool := negb (bool_decide (s = "")) && all_bytes is_word s.

(** A word at the start of the text, followed by something else. *)
Lemma word_at_start (f : string -> string -> option (string * string)) key b r :
  is_key key = true -> stops_at is_word b = true -> f key b = Some r ->
  start_or_spaces true (word_group f) (key +:+ b) = Some r.
Proof.
  intros [Hne Hw]%andb_prop Hb Hf. unfold start_or_spaces.
  enough (word_group f (key +:+ b) = Some r) as -> by done.
  unfold word_group. apply plus_longest; [by apply negb_true_iff, bool_decide_eq_false in Hne|done|done|].
  rewrite length_app_string. replace (String.length key + String.length b - String.length b)%nat
    with (String.length key) by lia. by rewrite take_bytes_app.
Qed.

Lemma match_first regex key clause : (exists rest, regex true clause = Some (key, rest)) ->
  matchFieldRegex regex key clause = true.
Proof.
  intros [rest Hr]. unfold matchFieldRegex. cbn [find_all]. rewrite Hr. cbn [existsb].
  by rewrite bool_decide_eq_true_2.
Qed.

Lemma eq_clause_matches key tail : is_key key = true ->
  matchFieldRegex fieldEqRegex key (key +:+ " = ?" +:+ tail) = true.
Proof.
  intros Hk. apply match_first. unfold fieldEqRegex.
  destruct (star_total (fun c => negb (is_space c)) key tail) as [rest Hr]. exists rest.
  apply word_at_start; [done..|]. apply (star_longest is_space _ " " ("= ?" +:+ tail)); [done..|].
  change ("= ?" +:+ tail) with (String "=" (" " +:+ ("?" +:+ tail))). rewrite chr_hit.
  apply star_longest; [done..|exact Hr].
Qed.
End matchers.

(** *** Question marks *)
Lemma Repeat_marks n : Repeat "?," (S n) = (String "?" (Repeat ",?" n)) +:+ ",".
Proof.
  induction n as [|n IH]; [done|]. change (Repeat "?," (S (S n))) with ("?," +:+ Repeat "?," (S n)). rewrite IH.
  change (Repeat ",?" (S n)) with (",?" +:+ Repeat ",?" n). reflexivity.
Qed.

Lemma marks_S n : marks (S n) = String "?" (Repeat ",?" n).
Proof. unfold marks. rewrite Repeat_marks. apply TrimSuffix_app. Qed.

Lemma count_marks n : count_char "?" (marks n) = n.
Proof. destruct n as [|n]; [done|]. rewrite marks_S. cbn [count_char].
  rewrite count_char_Repeat, decide_True by done. change (count_char "?" ",?") with 1%nat. lia. Qed.

Lemma marks_no_newline n : all_bytes not_newline (Repeat ",?" n) = true.
Proof. induction n as [|n IH]; [done|]. exact IH. Qed.

Lemma in_clause_matches key n tail : is_key key = true ->
  matchFieldRegex fieldInRegex key (key +:+ " IN [" +:+ marks (S n) +:+ "]" +:+ tail) = true.
Proof.
  intros Hk. apply match_first. rewrite marks_S. set (last := fun rest : string => Some (key, rest)).
  assert (gives key last) as Hg by (by intros s r [= <-]).
  set (lz := star_lazy not_newline (chr "]" last)).
  assert (gives key lz) as Hlz by (by apply star_lazy_gives, cls_gives).
  assert (is_Some (star (fun c => negb (is_space c)) lz (Repeat ",?" n +:+ "]" +:+ tail))) as [r Hr].
  { apply star_some, star_lazy_some; [apply marks_no_newline|by eexists]. }
  pose proof (star_gives _ (fun c => negb (is_space c)) _ Hlz _ _ Hr) as H1. destruct r as [g rest]. cbn in H1. subst g.
  exists rest. apply word_at_start; [done..|].
  apply (plus_longest is_space _ " " ("IN [" +:+ String "?" (Repeat ",?" n) +:+ "]" +:+ tail)); [done..|].
  change (plus is_space (chr "[" (star is_space (plus (fun c => negb (is_space c)) lz)))
    (" " +:+ String "[" (String "?" (Repeat ",?" n) +:+ "]" +:+ tail)) = Some (key, rest)).
  apply plus_longest; [done..|]. rewrite chr_hit. exact Hr.
Qed.

(** ** Theorems *)

Lemma matchFieldRegex_empty regex field : regex true "" = None -> matchFieldRegex regex field "" = false.
Proof. unfold matchFieldRegex. cbn. by intros ->. Qed.

Section theorems.
Context {X Meta : Type} `{Model X} (defaults : Defaults) (callers : list Frame).

Lemma checkForScan_passes (q : @Query X Meta) x : q_model q = Some x ->
  matchFieldRegex fieldEqRegex (HashKey (GetPK x)) (WhereClause q) = true \/
  matchFieldRegex fieldInRegex (HashKey (GetPK x)) (WhereClause q) = true ->
  checkForScan defaults callers q = Some q.
Proof.
  intros Hm Hr. unfold checkForScan. destruct (AllowScan q); [done|]. rewrite Hm. cbn [mbind option_bind].
  destruct Hr as [-> | ->]; [done|]. by rewrite andb_false_r.
Qed.

(** the scan check lets through the queries that the library builds for
    primary keys, and refuses a query without a condition; but [Execute] of a
    query for something that is not a slice panics instead of returning the error
    of [Query], and a condition on the hash key after another [IN] is not
    found. *)
Theorem by_key_not_scan (d : DynamoDB) (x : X) (l : list X) :
  is_key (HashKey (GetPK x)) = true ->
  checkForScan defaults callers (Get (Meta:=Meta) d x) = Some (Get d x) /\
  (exists q, DynamoDB_Query (Meta:=Meta) defaults callers d (TargetSlice (x :: l)) = Some q /\
     checkForScan defaults callers q = Some q) /\
  (exists q q', DynamoDB_Query (Meta:=Meta) defaults callers d (TargetSlice []) = Some q /\
     checkForScan defaults callers q = Some q' /\ r_Err (q_Result q') <> NilErr) /\
  (forall k, exists q, DynamoDB_Query (Meta:=Meta) defaults callers d (TargetOther k) = Some q /\
     r_Err (q_Result q) <> NilErr /\ checkForScan defaults callers q = None) /\
  matchFieldRegex fieldInRegex "id" "status IN ['a'] AND id IN ['x']" = false.
Proof.
  intros Hk. split_and!.
  - apply (checkForScan_passes _ x); [done|]. left. unfold Get, key_clause, Where. cbn [WhereClause].
    destruct (bool_decide (RangeKey (GetPK x) = "")); cbn [negb fst].
    + rewrite <- (app_empty_r (_ +:+ " = ?")), app_assoc_string. by apply eq_clause_matches.
    + exact (eq_clause_matches _ (" AND " +:+ RangeKey (GetPK x) +:+ " = ?") Hk).
  - cbn [DynamoDB_Query]. unfold WithPKs. cbn [length fmap list_fmap q_model].
    rewrite bool_decide_eq_false_2 by done. cbn [mbind option_bind]. eexists. split; [reflexivity|].
    apply (checkForScan_passes _ x).
    { by destruct (negb _). }
    right. destruct (negb _); unfold Where; cbn [WhereClause].
    + exact (in_clause_matches _ (length (GetPK <$> l)) (" AND " +:+ RangeKey (GetPK x) +:+ " IN [" +:+
        marks (S (length (GetPK <$> l))) +:+ "]") Hk).
    + rewrite <- (app_empty_r "]"). by apply in_clause_matches.
  - eexists _, _. split; [reflexivity|]. unfold checkForScan. cbn [AllowScan q_model mbind option_bind WhereClause].
    rewrite !matchFieldRegex_empty by done. by split.
  - intros k. eexists. by split_and!.
  - reflexivity.
Qed.
End theorems.

(** Times do not survive the encoding as seconds: a time in 2038 is read back
    one microsecond earlier, so a key that contains it no longer matches. *)
Theorem time_roundtrip_drifts :
  DecodeTime (EncodeTime 2160000000002002) = 2160000000002001 /\
  DecodeTime (EncodeTime 1760000000002002) = 1760000000002002.
Proof. split; vm_compute; reflexivity. Qed.

(** ** Witnesses *)
Record Doc := MkDoc { doc_id : string; doc_rev : Z; doc_created : Z; doc_updated : Z }.

Definition doc_updatable : ModelWithUpdateTs Doc :=
  MkUpd Doc (fun _ => "updated") doc_updated (fun t m => MkDoc (doc_id m) (doc_rev m) (doc_created m) t).

#[export] Instance Doc_Model : Model Doc := {
  GetTableName _ := "docs";
  GetPK m := MkPK "id" (doc_id m) "rev" (VInt (doc_rev m));
  SetPK pk m := MkDoc (Hash pk) (match Range pk with VInt z => z | _ => 0 end) (doc_created m) (doc_updated m);
  GetCreateTs := doc_created;
  SetCreateTs t m := MkDoc (doc_id m) (doc_rev m) t (doc_updated m);
  with_update_ts := Some doc_updatable;
  zero_model := MkDoc "" 0 0 0;
  as_val m := VStruct [(MkField "Id" true false [("partiql", "id")], VString (doc_id m));
                       (MkField "Rev" true false [("partiql", "rev")], VInt (doc_rev m))];
}.

Lemma by_key_not_scan_witness :
  checkForScan initial_defaults [] (Get (Meta:=unit) (MkDB "dev_" VInt) (MkDoc "a" 1 2 3)) =
  Some (Get (MkDB "dev_" VInt) (MkDoc "a" 1 2 3)).
Proof. apply (by_key_not_scan initial_defaults [] (MkDB "dev_" VInt) (MkDoc "a" 1 2 3) []). reflexivity. Defined.
