(* ===== verification/DynamoDBUpdate.v ===== *)
(** * aws/dynamodb: updates

    Models [aws/dynamodb/update.go]: the builder of an update, the text of its
    statement with the parameters, and its execution. *)

From S2P Require Import Prelude.
From S2P Require Import GoStrings.
From S2P Require Import Errors.
From S2P Require Import GoReflect.
From S2P Require Import DynamoDB.
From S2P Require PartiQL.
From stdpp Require Import pretty.
From Stdlib Require Import Ascii.

Open Scope string_scope.
Open Scope list_scope.
Open Scope Z_scope.

Record collection := MkColl { funcName : string; bag : bool; items : list val }.
Definition newListAppend (items : list val) : collection := MkColl "LIST_APPEND" false items.
Definition newSetAdd (items : list val) : collection := MkColl "SET_ADD" true items.
Definition newSetDelete (items : list val) : collection := MkColl "SET_DELETE" true items.

(** The one of the three values that is not nil, and the field. *)
Inductive increment :=
| IncInt (field : string) (value : Z)
| IncUint (field : string) (value : Z)
| IncFloat (field : string) (value : spec_float).

(** The values of [setFields]. *)
Inductive set_value :=
| SAny (v : val)
| SColl (c : collection)
| SInc (i : increment).

Section update.
Context {W X Attr Item Meta : Type} `{Model X} (env : Env W X Attr Item Meta).
Context (defaults : Defaults) (callers : list Frame) (ErrorText : error -> string).
Context (FormatFloat : spec_float -> string) (FormatTime : Z -> string).

Notation newf := (DynamoDB.newf defaults callers).
Notation newf_w := (DynamoDB.newf_w defaults callers ErrorText).
Notation ExecutionResult := (@DynamoDB.ExecutionResult Meta).

(** [u_db] and [u_target] are nil in an update that [DynamoDB.Update] refused. *)
Record Update := MkUpdate {
  u_Result : ExecutionResult;
  u_db : option DynamoDB;
  u_target : option X;
  setFields : gmap string set_value;
  removeFields : list string;
}.

Definition refused (msg : string) : Update := MkUpdate (MkResult (newf ErrCodeBadArgument msg) None) None None ∅ [].

Definition DynamoDB_Update (d : DynamoDB) (target : X) : Update :=
  let pk := GetPK target in
  if pk_zero pk then refused "missing pk.hash for update"
  else if negb (bool_decide (RangeKey pk = "")) && is_nil_any (Range pk) then refused "missing pk.range for update"
  else MkUpdate no_result (Some d) (Some target) ∅ [].

Definition with_error (err : error) (u : Update) : Update :=
  MkUpdate (MkResult err (r_Meta (u_Result u))) (u_db u) (u_target u) (setFields u) (removeFields u).

Definition set_field (field : string) (value : set_value) (u : Update) : Update :=
  match setFields u !! field with
  | Some _ => with_error (newf ErrCodeBadArgument ("field already set: " +:+ field)) u
  | None => MkUpdate (u_Result u) (u_db u) (u_target u) (<[field := value]> (setFields u)) (removeFields u)
  end.
Definition Update_Set (field : string) (value : val) (u : Update) : Update := set_field field (SAny value) u.
Definition Remove (field : string) (u : Update) : Update :=
  MkUpdate (u_Result u) (u_db u) (u_target u) (setFields u) (removeFields u ++ [field]).
Definition AppendToList (field : string) (values : list val) (u : Update) : Update :=
  set_field field (SColl (newListAppend values)) u.
Definition RemoveFromList (field : string) (idx : Z) (u : Update) : Update :=
  Remove (field +:+ "[" +:+ pretty idx +:+ "]") u.
Definition AddToSet (field : string) (values : list val) (u : Update) : Update :=
  set_field field (SColl (newSetAdd values)) u.
Definition RemoveFromSet (field : string) (values : list val) (u : Update) : Update :=
  set_field field (SColl (newSetDelete values)) u.

(** [ValueText] is [fmt.Sprintf] with [%v]. A named number type is not one of the
    types of the switch. *)
Definition Increment (ValueText : val -> string) (field : string) (value : val) (u : Update) : Update :=
  match value with
  | VInt z => set_field field (SInc (IncInt field z)) u
  | VUint z => set_field field (SInc (IncUint field z)) u
  | VFloat f => set_field field (SInc (IncFloat field f)) u
  | _ => with_error (newf ErrCodeBadArgument ("invalid increment value: " +:+ ValueText value)) u
  end.

(** The text written and the parameters added, from those before. *)
Definition applyIncrement (field : string) (v : increment) (st : string * list val) : string * list val :=
  let sb := st.1 +:+ field in
  match v with
  | IncInt _ inc =>
      if bool_decide (inc = 0) then (sb, st.2)
      else if bool_decide (0 <= inc) then (sb +:+ " + ?", st.2 ++ [VInt inc])
      else (sb +:+ " - ?", st.2 ++ [VInt (int64_wrap (- inc))])
  | IncUint _ inc =>
      if bool_decide (inc = 0) then (sb, st.2) else (sb +:+ " + ?", st.2 ++ [VUint inc])
  | IncFloat _ inc =>
      if SFeqb inc (S754_zero false) then (sb, st.2)
      else if SFleb (S754_zero false) inc then (sb +:+ " + ?", st.2 ++ [VFloat inc])
      else (sb +:+ " - ?", st.2 ++ [VFloat (SFopp inc)])
  end.

(** The encoding of a collection; [None] is a panic. *)
Definition encode_collection (d : DynamoDB) (c : collection) : option (result PartiQL.marshal_error string) :=
  let value := VSlice (Some ((fun v => VInterface (Some v)) <$> items c)) in
  fst <$> PartiQL.MarshalCollection FormatFloat (PartiQL.depth time_depth value) (db_encoder FormatTime d) value (bag c)
            PartiQL.NewPartiQLBuilder.

(** [order]: the entries of [setFields] in the order of the range loop. *)
Fixpoint set_clauses (d : DynamoDB) (order : list (string * set_value)) (st : string * list val)
    : option (result error (string * list val)) :=
  match order with
  | [] => Some (Ok st)
  | (field, value) :: order =>
      let sb := st.1 +:+ " SET " +:+ field +:+ " = " in
      match value with
      | SColl c =>
          r ← encode_collection d c;
          match r with
          | Err e => Some (Err (newf_w ErrCodeUnknown "failed to encode value, error: " (encode_error e)))
          | Ok bytes =>
              let sb := sb +:+ funcName c +:+ "(" +:+
                        (if bag c then field +:+ ", " else "if_not_exists(" +:+ field +:+ ", []), ") +:+ bytes +:+ ")" in
              set_clauses d order (sb, st.2)
          end
      | SInc i => set_clauses d order (applyIncrement field i (sb, st.2))
      | SAny v => set_clauses d order (sb +:+ "?", st.2 ++ [v])
      end
  end.

Definition remove_clauses (fields : list string) : string :=
  String.concat "" ((fun field => " REMOVE " +:+ field) <$> fields).

(** The statement and the parameters of [Execute] at time [now]. *)
Definition Update_statement (d : DynamoDB) (target : X) (now : Z) (order : list (string * set_value)) (removed : list string)
    : option (result error (string * list val)) :=
  let tableName := tablePrefix d +:+ GetTableName target in
  let start := "UPDATE " +:+ dq +:+ tableName +:+ dq in
  let st := match with_update_ts with
            | Some updatable => (start +:+ " SET " +:+ GetUpdateTsKey updatable target +:+ " = ?", [VTime now])
            | None => (start, [])
            end in
  r ← set_clauses d order st;
  Some (match r with
        | Err e => Err e
        | Ok st =>
            let pk := GetPK target in
            let sb := st.1 +:+ remove_clauses removed +:+ " WHERE " +:+ HashKey pk +:+ " = ?" in
            let ps := st.2 ++ [VString (Hash pk)] in
            let stp := if negb (bool_decide (RangeKey pk = "")) then
                         (sb +:+ " AND " +:+ RangeKey pk +:+ " = ?", ps ++ [Range pk])
                       else (sb, ps) in
            Ok (stp.1 +:+ " RETURNING ALL NEW *", stp.2)
        end).

Definition upd_result (u : Update) (target : option X) (r : ExecutionResult) : Update :=
  MkUpdate r (u_db u) target (setFields u) (removeFields u).

Definition Update_Execute (u : Update) (order : list (string * set_value)) : M W ((ExecutionResult * error) * Update) :=
  if negb (is_nil_err (r_Err (u_Result u))) then mret ((no_result, r_Err (u_Result u)), u)
  else
    d ← lift_option (u_db u);
    target ← lift_option (u_target u);
    let tableName := tablePrefix d +:+ GetTableName target in
    now ← (match with_update_ts with Some _ => call (e_Now env) | None => mret 0 end);
    st ← lift_option (Update_statement d target now order (removeFields u));
    let upd := upd_result u (Some target) in
    match st with
    | Err e => fail upd None e
    | Ok st =>
        match e_MarshalList env st.2 with
        | Err e => fail upd None (newf_w ErrCodeUnknown "failed to marshal parameters, error: " e)
        | Ok parameters =>
            res ← call (e_ExecuteStatement env (MkInput st.1 parameters false));
            let meta := o_Meta <$> res.1 in
            if negb (is_nil_err res.2) then
              fail upd meta (newf_w ErrCodeUnknown ("failed to update item in table: " +:+ tableName +:+ ", error: ") res.2)
            else
              output ← lift_option res.1;
              let done := fun target' err =>
                let r := MkResult err meta in mret ((r, err), upd_result u (Some target') r) in
              match Items output with
              | [] => done target (newf ErrCodeNotFound ("item not found in table: " +:+ tableName))
              | [item] =>
                  let r := e_UnmarshalMap env item target in
                  done r.1 (if is_nil_err r.2 then NilErr
                            else newf_w ErrCodeUnknown "failed to unmarshal item, error: " r.2)
              | _ => done target (newf ErrCodeBadState ("expected 1 item, got " +:+ pretty (length (Items output))))
              end
        end
    end.
End update.

(** ** Placeholders *)
Notation count := (count_char "?").

Lemma count_quote s : count (quote_body s) = count s.
Proof.
  induction s as [|c s IH]; [done|]. cbn [quote_body]. destruct (_ || _).
  - change (count (String "\" (String c (quote_body s)))) with (count (String c (quote_body s))).
    cbn [count_char]. by rewrite IH.
  - cbn [count_char]. by rewrite IH.
Qed.

Lemma count_Quote s : count (Quote s) = count s.
Proof. unfold Quote. rewrite !count_char_app, count_quote. change (count dq) with 0%nat. lia. Qed.

Lemma count_key_clause pk :
  count (key_clause pk).1 = (length (key_clause pk).2 + count (HashKey pk) + count (RangeKey pk))%nat.
Proof.
  unfold key_clause. case_bool_decide as Hr; cbn [negb fst snd length]; rewrite !count_char_app.
  - rewrite Hr. change (count " = ?") with 1%nat. change (count "") with 0%nat. lia.
  - change (count " = ?") with 1%nat. change (count " = ? AND ") with 1%nat. lia.
Qed.

Lemma count_remove_clauses fields : Forall (fun f => count f = 0%nat) fields -> count (remove_clauses fields) = 0%nat.
Proof.
  unfold remove_clauses. induction 1 as [|f fields Hf _ IH]; [done|].
  destruct fields as [|g fields].
  - cbn [fmap list_fmap String.concat]. rewrite count_char_app, Hf. done.
  - change (String.concat "" ?l) with ((" REMOVE " +:+ f) +:+ "" +:+ String.concat "" ((fun field => " REMOVE " +:+ field) <$> g :: fields)).
    rewrite !count_char_app, IH, Hf. done.
Qed.

Lemma count_applyIncrement field i sb ps : count field = 0%nat ->
  let r := applyIncrement field i (sb, ps) in (count r.1 + length ps = count sb + length r.2)%nat.
Proof.
  intros Hf. cbv zeta. unfold applyIncrement.
  destruct i; cbn [fst snd]; repeat case_match; cbn [fst snd]; rewrite ?count_char_app, ?length_app, Hf;
    change (count " + ?") with 1%nat; change (count " - ?") with 1%nat; cbn [length]; lia.
Qed.

Section placeholders.
Context {X Meta : Type} `{Model X} (defaults : Defaults) (callers : list Frame) (ErrorText : error -> string).
Context (FormatFloat : spec_float -> string) (FormatTime : Z -> string).

(** The texts of the update that come from elsewhere hold no question mark. *)
Definition mark_free_value (d : DynamoDB) (v : set_value) : Prop :=
  match v with
  | SColl c => count (funcName c) = 0%nat /\
      forall bytes, encode_collection FormatFloat FormatTime d c = Some (Ok bytes) -> count bytes = 0%nat
  | _ => True
  end.

Lemma set_clauses_marks d order sb ps sb' ps' :
  Forall (fun fv => count fv.1 = 0%nat /\ mark_free_value d fv.2) order ->
  set_clauses defaults callers ErrorText FormatFloat FormatTime d order (sb, ps) = Some (Ok (sb', ps')) ->
  (count sb' + length ps = count sb + length ps')%nat.
Proof.
  intros Ho. revert sb ps. induction Ho as [|[f v] order [Hf Hv] _ IH]; intros sb ps; cbn [set_clauses fst snd].
  { intros [= <- <-]. lia. }
  cbn [fst snd] in Hf, Hv. cbv zeta. set (sb1 := sb +:+ " SET " +:+ f +:+ " = ").
  assert (count sb1 = count sb) as E1.
  { unfold sb1. rewrite !count_char_app, Hf. change (count " SET ") with 0%nat. change (count " = ") with 0%nat. lia. }
  destruct v as [v|c|i].
  - intros Hr%IH. rewrite count_char_app, length_app, E1 in Hr. change (count "?") with 1%nat in Hr. cbn in Hr. lia.
  - destruct (encode_collection _ _ d c) as [[bytes|e]|] eqn:Ee; cbn [mbind option_bind]; try done.
    intros Hr%IH. destruct Hv as [Hfn Hb]. specialize (Hb _ Ee).
    rewrite !count_char_app, E1, Hfn, Hb in Hr. change (count "(") with 0%nat in Hr. change (count ")") with 0%nat in Hr.
    destruct (bag c); rewrite !count_char_app, Hf in Hr;
      [change (count ", ") with 0%nat in Hr
      |change (count "if_not_exists(") with 0%nat in Hr; change (count ", []), ") with 0%nat in Hr]; lia.
  - pose proof (count_applyIncrement f i sb1 ps Hf) as Hi. cbv zeta in Hi.
    destruct (applyIncrement f i (sb1, ps)) as [sb2 ps2]. cbn [fst snd] in Hi. intros Hr%IH. lia.
Qed.

Lemma Update_statement_marks d (target : X) now order removed st :
  count (tablePrefix d +:+ GetTableName target) = 0%nat ->
  count (HashKey (GetPK target)) = 0%nat -> count (RangeKey (GetPK target)) = 0%nat ->
  (forall u, with_update_ts = Some u -> count (GetUpdateTsKey u target) = 0%nat) ->
  Forall (fun fv => count fv.1 = 0%nat /\ mark_free_value d fv.2) order ->
  Forall (fun f => count f = 0%nat) removed ->
  Update_statement defaults callers ErrorText FormatFloat FormatTime d target now order removed = Some (Ok st) ->
  count st.1 = length st.2.
Proof.
  intros Ht Hh Hr Hu Ho Hrm. unfold Update_statement. cbv zeta.
  set (start := "UPDATE " +:+ dq +:+ (tablePrefix d +:+ GetTableName target) +:+ dq).
  assert (count start = 0%nat) as E0.
  { unfold start. rewrite !(count_char_app _ "UPDATE "), !(count_char_app _ dq), count_char_app, Ht. done. }
  match goal with |- context [set_clauses _ _ _ _ _ d order ?s] => set (s0 := s) end.
  assert (count s0.1 = length s0.2) as E1.
  { unfold s0. destruct with_update_ts as [u|] eqn:Eu; cbn [fst snd length]; [|done].
    rewrite !count_char_app, E0, (Hu u eq_refl). done. }
  destruct s0 as [sb0 ps0]. cbn [fst snd] in E1.
  destruct (set_clauses _ _ _ _ _ d order (sb0, ps0)) as [[[sb ps]|e]|] eqn:Es; cbn [mbind option_bind]; try done.
  pose proof (set_clauses_marks _ _ _ _ _ _ Ho Es) as Em. intros [= <-]. cbn [fst snd].
  pose proof (count_remove_clauses _ Hrm) as Er.
  destruct (negb _); cbn [fst snd];
    rewrite !count_char_app, !length_app, Er, Hh, ?Hr; cbn [length];
    change (count " WHERE ") with 0%nat; change (count " = ?") with 1%nat; change (count " AND ") with 0%nat;
    change (count " RETURNING ALL NEW *") with 0%nat; lia.
Qed.

Lemma WithPKs_marks pks (q : @Query X Meta) x : q_model q = Some x -> pks <> [] ->
  count (HashKey (GetPK x)) = 0%nat -> count (RangeKey (GetPK x)) = 0%nat ->
  exists q', WithPKs pks q = Some q' /\
    count (WhereClause q') = (if bool_decide (RangeKey (GetPK x) = "") then length pks else 2 * length pks)%nat /\
    length (WhereArgs q') = (if bool_decide (RangeKey (GetPK x) = "") then length pks else 1)%nat.
Proof.
  intros Hm Hne Hh Hr. unfold WithPKs.
  rewrite bool_decide_eq_false_2 by (destruct pks; done). rewrite Hm. cbn [mbind option_bind].
  eexists. split; [reflexivity|].
  destruct (bool_decide (RangeKey (GetPK x) = "")); cbn [negb]; unfold Where; cbn [WhereClause WhereArgs];
    rewrite !count_char_app, !count_marks, Hh, ?Hr, ?length_fmap;
    change (count " IN [") with 0%nat; change (count "]") with 0%nat; change (count "] AND ") with 0%nat; split; cbn; lia.
Qed.
End placeholders.

(** C18: a statement has as many question marks as parameters, for updates with any
    set, increment, collection and remove clauses in any order, for deletes, for
    reads by key and for queries by hash key, when no name or inlined text holds
    one; but a query by the keys of a model with a range key has two marks per key
    and one parameter. *)
Theorem placeholders {X} `{Model X} {Meta : Type} defaults callers ErrorText FormatFloat FormatTime
    (d : DynamoDB) (x : X) (pks : list PrimaryKey) order removed now :
  count (tablePrefix d +:+ GetTableName x) = 0%nat ->
  count (HashKey (GetPK x)) = 0%nat -> count (RangeKey (GetPK x)) = 0%nat ->
  (forall u, with_update_ts = Some u -> count (GetUpdateTsKey u x) = 0%nat) ->
  Forall (fun fv => count fv.1 = 0%nat /\ mark_free_value FormatFloat FormatTime d fv.2) order ->
  Forall (fun f => count f = 0%nat) removed -> pks <> [] ->
  (forall st, Update_statement defaults callers ErrorText FormatFloat FormatTime d x now order removed = Some (Ok st) ->
     count st.1 = length st.2) /\
  (let st := Delete_statement (tablePrefix d +:+ GetTableName x) (GetPK x) in count st.1 = length st.2) /\
  count (WhereClause (Get (Meta:=Meta) d x)) = length (WhereArgs (Get (Meta:=Meta) d x)) /\
  exists q, WithPKs pks (Get (Meta:=Meta) d x) = Some q /\
    count (WhereClause q) = (if bool_decide (RangeKey (GetPK x) = "") then length pks else 2 * length pks)%nat /\
    length (WhereArgs q) = (if bool_decide (RangeKey (GetPK x) = "") then length pks else 1)%nat.
Proof.
  intros Ht Hh Hr Hu Ho Hrm Hne. split_and!.
  - intros st. by apply Update_statement_marks.
  - cbv zeta. unfold Delete_statement. cbn [fst snd].
    rewrite !count_char_app, count_Quote, Ht, count_key_clause, Hh, Hr.
    change (count "DELETE FROM ") with 0%nat. change (count " WHERE ") with 0%nat.
    change (count " RETURNING ALL OLD *") with 0%nat. lia.
  - unfold Get, Where. cbn [WhereClause WhereArgs]. rewrite count_key_clause. lia.
  - by apply (WithPKs_marks pks _ x).
Qed.

(** ** Results of [Execute] *)
Section results.
Context {W X Attr Item Meta : Type} `{Model X} (env : Env W X Attr Item Meta).
Context (defaults : Defaults) (callers : list Frame) (ErrorText : error -> string).
Context (FormatFloat : spec_float -> string) (FormatTime : Z -> string).
Context (GenericAPIError_Code : error -> string).

Lemma newf_not_nil code msg : newf defaults callers code msg <> NilErr.
Proof. done. Qed.
Lemma newf_w_not_nil code msg err : newf_w defaults callers ErrorText code msg err <> NilErr.
Proof. done. Qed.

Lemma is_nil_err_true e : is_nil_err e = true -> e = NilErr.
Proof. by destruct e. Qed.

(** The recorded error is the one returned, and an error recorded before is
    returned again without a call of the client. *)
Definition sticks {A} (exec : A -> M W ((@ExecutionResult Meta * error) * A)) (result : A -> @ExecutionResult Meta) : Prop :=
  forall a w res err a' w', exec a w = Some (((res, err), a'), w') ->
    r_Err (result a') = err /\
    (err <> NilErr -> exec a' w' = Some (((no_result, err), a'), w')).

Lemma sticks_intro {A} (exec : A -> M W ((@ExecutionResult Meta * error) * A)) (result : A -> @ExecutionResult Meta) :
  (forall a w, is_nil_err (r_Err (result a)) = false -> exec a w = Some (((no_result, r_Err (result a)), a), w)) ->
  (forall a w res err a' w', is_nil_err (r_Err (result a)) = true ->
     exec a w = Some (((res, err), a'), w') -> r_Err (result a') = err) ->
  sticks exec result.
Proof.
  intros Hret Hrec a w res err a' w' He.
  assert (r_Err (result a') = err) as Hr.
  { destruct (is_nil_err (r_Err (result a))) eqn:En; [by eapply Hrec|].
    rewrite (Hret _ _ En) in He. by injection He as <- <- <- <-. }
  split; [done|]. intros Hne. rewrite Hret; [by rewrite Hr|]. rewrite Hr. by destruct err.
Qed.

Lemma Insert_sticks :
  sticks (InsertOne_Execute env defaults callers ErrorText FormatFloat FormatTime GenericAPIError_Code) i_Result.
Proof.
  apply sticks_intro; intros a w; [intros En; unfold InsertOne_Execute; by rewrite En|].
  intros res err a' w' En He. unfold InsertOne_Execute in He. rewrite En in He. cbn [negb] in He. unfold fail in He.
  repeat (minv_step || (case_match; cbv zeta in He)); minv; by simplify_eq.
Qed.

Lemma Delete_sticks : sticks (Delete_Execute env defaults callers ErrorText) d_Result.
Proof.
  apply sticks_intro; intros a w; [intros En; unfold Delete_Execute; by rewrite En|].
  intros res err a' w' En He. unfold Delete_Execute in He. rewrite En in He. cbn [negb] in He. unfold fail in He.
  cbv zeta in He. repeat (minv_step || (case_match; cbv zeta in He)); minv; by simplify_eq.
Qed.

Lemma Update_sticks order :
  sticks (fun u => Update_Execute env defaults callers ErrorText FormatFloat FormatTime u order) u_Result.
Proof.
  apply sticks_intro; intros a w; [intros En; unfold Update_Execute; by rewrite En|].
  intros res err a' w' En He. unfold Update_Execute in He. rewrite En in He. cbn [negb] in He. unfold fail in He.
  cbv zeta in He. repeat (minv_step || (case_match; cbv zeta in He)); minv; by simplify_eq.
Qed.
End results.

Lemma Query_transport_error {W X Attr Item Meta : Type} `{Model X} (env : Env W X Attr Item Meta)
    defaults callers ErrorText (q : @Query X Meta) x ps w o e w' :
  checkForScan defaults callers q = Some q -> r_Err (q_Result q) = NilErr -> q_model q = Some x ->
  e_MarshalList env (WhereArgs q) = Ok ps ->
  e_ExecuteStatement env (MkInput (Query_statement (tablePrefix (q_db q) +:+ GetTableName x) q) ps (q_ConsistentRead q)) w =
    ((o, e), w') -> e <> NilErr ->
  exists err q', Query_Execute env defaults callers ErrorText q w = Some (((no_result, err), q'), w') /\
    err <> NilErr /\ r_Err (q_Result q') = NilErr.
Proof.
  intros Hs Hn Hm Hps He Hne. unfold Query_Execute.
  rewrite Hs, (M_bind_run _ _ w q w eq_refl), Hn. cbn [is_nil_err negb].
  rewrite Hm, (M_bind_run _ _ w x w eq_refl). cbv zeta. rewrite Hps, (M_bind_run _ _ w (o, e) w').
  2: { unfold call. by rewrite He. }
  destruct e; try done; (cbn [is_nil_err fst snd]; do 2 eexists; split; [reflexivity|]; by split).
Qed.

(** the errors of executing an insert, a delete or an update are recorded: the
    error returned is the one in [Result], and executing again returns it without
    touching the database; but the error of a query that failed in the client is
    returned and not recorded. *)
Theorem execute_errors {W X Attr Item Meta : Type} `{Model X} (env : Env W X Attr Item Meta)
    defaults callers ErrorText FormatFloat FormatTime GenericAPIError_Code order :
  sticks (InsertOne_Execute env defaults callers ErrorText FormatFloat FormatTime GenericAPIError_Code) i_Result /\
  sticks (Delete_Execute env defaults callers ErrorText) d_Result /\
  sticks (fun u => Update_Execute env defaults callers ErrorText FormatFloat FormatTime u order) u_Result /\
  forall (q : @Query X Meta) x ps w o e w',
    checkForScan defaults callers q = Some q -> r_Err (q_Result q) = NilErr -> q_model q = Some x ->
    e_MarshalList env (WhereArgs q) = Ok ps ->
    e_ExecuteStatement env (MkInput (Query_statement (tablePrefix (q_db q) +:+ GetTableName x) q) ps (q_ConsistentRead q)) w =
      ((o, e), w') -> e <> NilErr ->
    exists err q', Query_Execute env defaults callers ErrorText q w = Some (((no_result, err), q'), w') /\
      err <> NilErr /\ r_Err (q_Result q') = NilErr.
Proof.
  split_and!; [apply Insert_sticks|apply Delete_sticks|apply Update_sticks|].
  intros. by eapply Query_transport_error.
Qed.

(** ** Witnesses *)
Definition plain_float (_ : spec_float) : string := "0".
Definition plain_time (_ : Z) : string := "t".
Definition no_text (_ : error) : string := "".
Definition dev : DynamoDB := MkDB "dev_" VInt.
Definition a_doc : Doc := MkDoc "a" 1 2 3.

Lemma placeholders_witness :
  count (WhereClause (Get (Meta:=unit) dev a_doc)) = length (WhereArgs (Get (Meta:=unit) dev a_doc)) /\
  exists q, WithPKs [GetPK a_doc; GetPK a_doc] (Get (Meta:=unit) dev a_doc) = Some q /\
    count (WhereClause q) = 4%nat /\ length (WhereArgs q) = 1%nat.
Proof.
  destruct (placeholders (Meta:=unit) initial_defaults [] no_text plain_float plain_time dev a_doc
    [GetPK a_doc; GetPK a_doc]
    [("tags", SColl (newSetAdd [VString "x"])); ("n", SInc (IncInt "n" (-2))); ("title", SAny (VString "y"))]
    ["old"] 5) as (_ & _ & Hg & Hp); try reflexivity; try done.
  - intros u [= <-]. reflexivity.
  - repeat constructor. intros bytes Hb. vm_compute in Hb. injection Hb as <-. reflexivity.
  - repeat constructor.
Defined.

(** An environment whose client always fails. *)
Definition broken : Env unit Doc val unit unit :=
  MkEnv unit Doc val unit unit (fun _ w => ((None, OpaqueErr "*net.OpError" "refused"), w))
    (fun _ w => (NilErr, w)) (fun _ w => (NilErr, w)) (fun w => (([], NilErr), w)) Ok (fun _ x => (x, NilErr))
    (fun _ l => (l, NilErr)) (fun w => (0, w)) (fun w => ("u", w)).

Lemma execute_errors_witness :
  exists err q', Query_Execute broken initial_defaults [] no_text (Get dev a_doc) tt =
      Some (((no_result, err), q'), tt) /\ err <> NilErr /\ r_Err (q_Result q') = NilErr.
Proof.
  destruct (execute_errors broken initial_defaults [] no_text plain_float plain_time (fun _ => "") [])
    as (_ & _ & _ & Hq).
  eapply (Hq (Get dev a_doc) a_doc); try reflexivity. done.
Defined.
