(* ===== verification/DistributedLock.v ===== *)
(** * distributedlock: leases

    Models [distributedlock/distributedlock.go]: the state of a lock object, the
    blocking [Lock] that the Redis and Postgres locks share, the automatic
    extension, and the interface that an implementation meets ([LeaseLock]), from
    which mutual exclusion follows.  Times are nanoseconds of one clock. *)

From S2P Require Import Prelude.
From S2P Require Import Errors.

Open Scope string_scope.
Open Scope list_scope.
Open Scope Z_scope.

(** [BaseDistributedLock]: [None] is the zero time; [autoExtenderCancel] is the
    context that the function cancels. *)
Record Lock := MkLock {
  resource : string;
  id : string;
  ttl : Z;
  expiration : option Z;
  extendedCount : Z;
  autoExtenderCancel : option nat;
}.

Definition new_lock (resource id : string) (ttl : Z) : Lock := MkLock resource id ttl None 0 None.

Definition set_lease (e : option Z) (n : Z) (l : Lock) : Lock :=
  MkLock (resource l) (id l) (ttl l) e n (autoExtenderCancel l).
Definition set_expiration (e : option Z) (l : Lock) : Lock := set_lease e (extendedCount l) l.
Definition set_cancel (c : option nat) (l : Lock) : Lock :=
  MkLock (resource l) (id l) (ttl l) (expiration l) (extendedCount l) c.

Definition ErrCodeLockNotAutoExtended : string := "LOCK_NOT_AUTO_EXTENDED".

(** The contexts that have been cancelled, with their causes. *)
Definition Cancelled : Type := gmap nat error.
Definition cancel_ctx (c : nat) (cause : error) (cs : Cancelled) : Cancelled :=
  match cs !! c with Some _ => cs | None => <[c := cause]> cs end.

(** ** Waiting for a lock *)

(** What [Lock] does in one turn of its loop: the outcome of [TryLock]; then, when
    the lock was not taken, the number of [rand.Int63n], which panics for an
    argument that is not positive, and the outcome of [Sleep]. *)
Inductive lock_outcome :=
| LockReturns (err : error)
| LockPanics
| LockWaits.     (** the turns given are used up *)

Section waiting.
Context {Srv : Type} (TryLock : Lock -> Srv -> (result error bool * Lock) * Srv).

(** [waits]: of each sleep, what it does to the world and the error it ends with. *)
Fixpoint Lock_loop (waits : list ((Srv -> Srv) * error)) (l : Lock) (s : Srv) : (lock_outcome * Lock) * Srv :=
  let r := TryLock l s in
  match r.1.1 with
  | Err err => ((LockReturns err, r.1.2), r.2)
  | Ok true => ((LockReturns NilErr, r.1.2), r.2)
  | Ok false =>
      if bool_decide (Z.quot (ttl l) 10 <= 0) then ((LockPanics, r.1.2), r.2)
      else
        match waits with
        | [] => ((LockWaits, r.1.2), r.2)
        | (world, err) :: waits =>
            match err with
            | NilErr => Lock_loop waits r.1.2 (world r.2)
            | _ => ((LockReturns err, r.1.2), world r.2)
            end
        end
  end.
End waiting.

(** ** Automatic extension *)
Section auto.
Context {Srv : Type} (Extend : Lock -> Srv -> (result error bool * Lock) * Srv).
Context (defaults : Defaults) (callers : list Frame).

Definition lock_error (code msg : string) : error := Newf defaults code (OpaqueErr "*errors.errorString" msg) msg callers.

(** [parent]: the cause with which the caller's context is done; [fresh]: the new
    context. Returns the error and, when there is none, the context of the
    goroutine that starts. *)
Definition autoExtend (parent : option error) (fresh : nat) (l : Lock) : (result error nat) * Lock :=
  match parent with
  | Some cause => (Err cause, l)
  | None =>
      match expiration l with
      | None => (Err (lock_error ErrCodeBadState ("could not auto extend lock: " +:+ resource l +:+ ", it is not locked!")), l)
      | Some _ => (Ok fresh, set_cancel (Some fresh) l)
      end
  end.

(** One turn of the goroutine of context [c]: whether it goes on. The select may
    take [time.After] although the context is done as well. *)
Definition auto_turn (ctx_done : bool) (c : nat) (l : Lock) (s : Srv) (cs : Cancelled) : ((bool * Lock) * Srv) * Cancelled :=
  if ctx_done then (((false, l), s), cs)
  else
    let r := Extend l s in
    match r.1.1 with
    | Err err => (((false, r.1.2), r.2), cancel_ctx c err cs)
    | Ok false =>
        (((false, r.1.2), r.2),
         cancel_ctx c (lock_error ErrCodeLockNotAutoExtended
           ("could not extend lock: " +:+ resource l +:+ ", another worker must have taken it!")) cs)
    | Ok true => (((true, r.1.2), r.2), cs)
    end.
End auto.

(** A request may be lost before the server runs it, or its reply afterwards. *)
Inductive Transport := Delivered | RequestLost (err : error) | ReplyLost (err : error).

(** ** The interface of an implementation

    [lease s r]: who holds the resource [r] and until when. [margin] bounds how far
    the expiration that a lock object remembers may be after the lease's end. *)
Class LeaseServer (Srv : Type) := {
  clock : Srv -> Z;
  lease : Srv -> string -> option (string * Z);
  margin : Z;
  usable : string -> Prop;         (** names that may be locked *)
  valid_ttl : Z -> Prop;
  span : Z -> Z;                   (** how long a lease with a ttl lasts *)
}.

(** Someone holds the resource now. *)
Definition live `{LeaseServer Srv} (s : Srv) (r i : string) (d : Z) : Prop := lease s r = Some (i, d) /\ clock s < d.

(** A lock object's memory agrees with the server. *)
Definition backed `{LeaseServer Srv} (l : Lock) (s : Srv) : Prop :=
  forall e, expiration l = Some e ->
    e <= clock s + span (ttl l) + margin /\
    (clock s + margin < e -> exists d, lease s (resource l) = Some (id l, d) /\ e <= d + margin).

(** What an operation of [l] promises to the users of other locks and to its own. *)
Record respects `{LeaseServer Srv} (l l' : Lock) (s s' : Srv) : Prop := {
  same_names : resource l' = resource l /\ id l' = id l /\ ttl l' = ttl l;
  clock_mono : clock s <= clock s';
  others_kept : forall r i d, usable r -> i <> id l -> live s r i d -> clock s' < d -> lease s' r = Some (i, d);
  own_backed : backed l s -> backed l' s';
}.

Lemma respects_refl `{LeaseServer Srv} l s : respects l l s s.
Proof. split; [done|lia| |done]. by intros r i d _ _ [Hl _] _. Qed.

(** Time passes: leases end only when their time is over. *)
Definition passes `{LeaseServer Srv} (s s' : Srv) : Prop :=
  clock s <= clock s' /\ forall r i d, lease s r = Some (i, d) -> clock s' < d -> lease s' r = Some (i, d).

Inductive op := OpTry | OpExtend | OpUnlock.

(** [Net] is what the network does to a call. [attended]: nothing was lost after the
    server had acted that the lock object had to learn, and it learnt it in time. *)
Class LeaseLock (Srv : Type) `{LeaseServer Srv} (Net : Type) := {
  TryLock : Net -> Lock -> Srv -> (result error bool * Lock) * Srv;
  Extend : Net -> Lock -> Srv -> (result error bool * Lock) * Srv;
  Unlock : Net -> Lock -> Srv -> (error * Lock) * Srv;
  attended : op -> Net -> Lock -> Srv -> Prop;
}.

Class LeaseLockLaws (Srv : Type) `{LeaseLock Srv Net} : Prop := {
  margin_nonneg : 0 <= margin;
  try_lock_law : forall n l s, attended OpTry n l s -> usable (resource l) -> valid_ttl (ttl l) ->
    respects l (TryLock n l s).1.2 s (TryLock n l s).2;
  try_lock_true : forall n l s r, attended OpTry n l s -> (TryLock n l s).1.1 = Ok true -> usable (resource l) -> valid_ttl (ttl l) ->
    r = resource l -> forall i d, live s r i d -> i = id l;
  extend_law : forall n l s, attended OpExtend n l s -> usable (resource l) -> valid_ttl (ttl l) ->
    respects l (Extend n l s).1.2 s (Extend n l s).2;
  unlock_law : forall n l s, attended OpUnlock n l s -> usable (resource l) -> valid_ttl (ttl l) ->
    respects l (Unlock n l s).1.2 s (Unlock n l s).2;
}.

(** ** Clients *)
Section clients.
Context {Srv Net : Type} `{LL : LeaseLock Srv Net} `{Laws : !LeaseLockLaws Srv}.

(** A server and the lock objects of all processes. *)
Record System := MkSystem { server : Srv; locks : list Lock }.

Inductive step : System -> System -> Prop :=
| step_try n i l sys : attended OpTry n l (server sys) -> locks sys !! i = Some l ->
    step sys (MkSystem (TryLock n l (server sys)).2 (<[i := (TryLock n l (server sys)).1.2]> (locks sys)))
| step_extend n i l sys : attended OpExtend n l (server sys) -> locks sys !! i = Some l ->
    step sys (MkSystem (Extend n l (server sys)).2 (<[i := (Extend n l (server sys)).1.2]> (locks sys)))
| step_unlock n i l sys : attended OpUnlock n l (server sys) -> locks sys !! i = Some l ->
    step sys (MkSystem (Unlock n l (server sys)).2 (<[i := (Unlock n l (server sys)).1.2]> (locks sys)))
| step_time s' sys : passes (server sys) s' -> step sys (MkSystem s' (locks sys)).

Definition well_named (ls : list Lock) : Prop :=
  (forall i l, ls !! i = Some l -> usable (resource l) /\ valid_ttl (ttl l)) /\
  (forall i j l l', ls !! i = Some l -> ls !! j = Some l' -> id l = id l' -> i = j).

Definition all_backed (sys : System) : Prop :=
  well_named (locks sys) /\ forall i l, locks sys !! i = Some l -> backed l (server sys).

Lemma backed_others l l0 l0' s s' : respects l0 l0' s s' -> usable (resource l) -> id l <> id l0 ->
  backed l s -> backed l s'.
Proof using Laws.
  intros R Hu Hid Hb e He. pose proof (clock_mono _ _ _ _ R) as Hc. pose proof margin_nonneg as Hm.
  destruct (Hb e He) as [Hle Hd]. split; [lia|]. intros Hlt.
  destruct Hd as (d & Hd & Hed); [lia|]. exists d. split; [|done].
  apply (others_kept _ _ _ _ R); [done..| |lia]. split; [done|lia].
Qed.

Lemma all_backed_op sys i l l' s' : all_backed sys -> locks sys !! i = Some l -> respects l l' (server sys) s' ->
  all_backed (MkSystem s' (<[i := l']> (locks sys))).
Proof using Laws.
  intros [[Hu Hd] Hb] Hi R. destruct (same_names _ _ _ _ R) as (Er & Ei & Et). split.
  - split; cbn [locks].
    + intros j x Hj. apply list_lookup_insert_Some in Hj as [(-> & <- & _)|(_ & Hj)]; [rewrite Er, Et|]; eauto.
    + intros j k x y Hj Hk. apply list_lookup_insert_Some in Hj as [(-> & <- & _)|(Hij & Hj)];
        apply list_lookup_insert_Some in Hk as [(-> & <- & _)|(Hik & Hk)]; rewrite ?Ei; eauto.
  - intros j x Hj. cbn [locks server] in *.
    apply list_lookup_insert_Some in Hj as [(-> & <- & _)|(Hij & Hj)].
    + apply (own_backed _ _ _ _ R). by eapply Hb.
    + eapply backed_others; [exact R|by eapply Hu| |by eapply Hb].
      intros E. apply Hij. by eapply Hd.
Qed.

Lemma all_backed_step sys sys' : all_backed sys -> step sys sys' -> all_backed sys'.
Proof using Laws.
  intros Ha Hs. pose proof Ha as [[Hu Hd] Hb]. destruct Hs as [n i l sys Hn Hi|n i l sys Hn Hi|n i l sys Hn Hi|s' sys [Hc Hp]].
  - eapply all_backed_op; [done..|]. by apply try_lock_law; [|eapply Hu..].
  - eapply all_backed_op; [done..|]. by apply extend_law; [|eapply Hu..].
  - eapply all_backed_op; [done..|]. by apply unlock_law; [|eapply Hu..].
  - split; [done|]. intros i l Hi e He. cbn [server locks] in *. pose proof margin_nonneg as Hm.
    destruct (Hb i l Hi e He) as [Hle Hback]. split; [lia|]. intros Hlt.
    destruct Hback as (d & Hl & Hed); [lia|]. exists d. split; [|done]. apply Hp; [done|lia].
Qed.

(** The lock object believes that it holds its resource. *)
Definition believes (l : Lock) (s : Srv) : Prop := exists e, expiration l = Some e /\ clock s + margin < e.

Lemma mutual_exclusion_inv sys i j l l' : all_backed sys ->
  locks sys !! i = Some l -> locks sys !! j = Some l' -> resource l = resource l' ->
  believes l (server sys) -> believes l' (server sys) -> i = j.
Proof using Laws.
  intros [[Hu Hd] Hb] Hi Hj Hr (e & He & Hlt) (e' & He' & Hlt').
  destruct (proj2 (Hb i l Hi e He) Hlt) as (d & Hl & _). destruct (proj2 (Hb j l' Hj e' He') Hlt') as (d' & Hl' & _).
  rewrite Hr, Hl' in Hl. injection Hl as E _. by eapply Hd.
Qed.
End clients.
Arguments System : clear implicits.

(** What an implementation of the interface gives to all processes together: whatever they
    call and in whichever order, two lock objects for one resource never both remember an
    expiration in the future, as long as calls are attended. *)
Definition excludes (Srv : Type) `{LL : LeaseLock Srv Net} : Prop :=
  forall (s0 : Srv) ls sys i j l l',
    well_named ls -> Forall (fun l => expiration l = None) ls -> rtc (step (Net:=Net)) (MkSystem s0 ls) sys ->
    locks sys !! i = Some l -> locks sys !! j = Some l' -> resource l = resource l' ->
    believes l (server sys) -> believes l' (server sys) -> i = j.

Lemma laws_exclude {Srv Net} `{LL : LeaseLock Srv Net} `{Laws : !LeaseLockLaws Srv} : excludes Srv (Net:=Net).
Proof.
  intros s0 ls sys i j l l' Hn Hz Hr. apply mutual_exclusion_inv.
  refine (rtc_invariant _ all_backed _ _ (fun a b => all_backed_step a b) _ Hr). split; [done|].
  intros k x Hk e He. rewrite Forall_lookup in Hz. cbn in Hk. rewrite (Hz _ _ Hk) in He. done.
Qed.
