(* ===== verification/RedisLock.v ===== *)
(** * distributedlock: the Redis lock

    Models [distributedlock/distributedlock_redis.go]: the three Lua scripts over
    the commands of a Redis server, which is a parameter with the documented
    effects of its commands as laws, and the operations of the lock object. *)

From S2P Require Import Prelude.
From S2P Require Import GoStrings.
From S2P Require Import Errors.
From S2P Require Import DistributedLock.
From stdpp Require Import pretty.

Open Scope string_scope.
Open Scope list_scope.
Open Scope Z_scope.

Definition ms : Z := 1000000.
(** [Duration.Milliseconds] *)
Definition Milliseconds (d : Z) : Z := Z.quot d ms.

(** The server: its time in nanoseconds; a live key's value and the time it
    expires; and the commands that the scripts use. *)
Class Redis (Srv : Type) := {
  r_now : Srv -> Z;
  r_lookup : Srv -> string -> option (string * Z);
  SET_NX_PX : string -> string -> Z -> Srv -> bool * Srv;
  SET_PX : string -> string -> Z -> Srv -> bool * Srv;
  GET : string -> Srv -> option string;
  DEL : list string -> Srv -> Z * Srv;
  EXPIRE : string -> Z -> Srv -> Srv;
  INCR : string -> Srv -> option Z * Srv;      (** [None]: an error reply, which ends the script *)
  int_value : string -> option Z;              (** the integer that a value represents, for INCR *)
  PTTL : string -> Srv -> Z;                   (** as a duration, in whole milliseconds *)
  latency : Z;                                 (** bounds how late the lock object reads it *)
}.

(** What the lock relies on of the commands' documentation. *)
Class RedisLaws (Srv : Type) `{Redis Srv} : Prop := {
  lookup_live : forall s k v d, r_lookup s k = Some (v, d) -> r_now s < d;
  SET_NX_PX_law : forall k v p s, 0 < p ->
    match r_lookup s k with
    | Some _ => SET_NX_PX k v p s = (false, s)
    | None => (SET_NX_PX k v p s).1 = true /\
        r_lookup (SET_NX_PX k v p s).2 k = Some (v, r_now s + p * ms) /\
        (forall k', k' <> k -> r_lookup (SET_NX_PX k v p s).2 k' = r_lookup s k') /\
        r_now (SET_NX_PX k v p s).2 = r_now s
    end;
  SET_PX_law : forall k v p s, 0 < p ->
    (SET_PX k v p s).1 = true /\
    r_lookup (SET_PX k v p s).2 k = Some (v, r_now s + p * ms) /\
    (forall k', k' <> k -> r_lookup (SET_PX k v p s).2 k' = r_lookup s k') /\
    r_now (SET_PX k v p s).2 = r_now s;
  GET_law : forall k s, GET k s = fst <$> r_lookup s k;
  DEL_law : forall ks s,
    (forall k, k ∈ ks -> r_lookup (DEL ks s).2 k = None) /\
    (forall k, k ∉ ks -> r_lookup (DEL ks s).2 k = r_lookup s k) /\
    r_now (DEL ks s).2 = r_now s;
  EXPIRE_law : forall k n s,
    (forall k', k' <> k -> r_lookup (EXPIRE k n s) k' = r_lookup s k') /\ r_now (EXPIRE k n s) = r_now s /\
    (r_lookup s k = None -> r_lookup (EXPIRE k n s) k = None) /\
    forall v d, r_lookup s k = Some (v, d) -> 0 < n ->
      r_lookup (EXPIRE k n s) k = Some (v, r_now s + n * 1000 * ms);
  INCR_law : forall k s,
    (forall k', k' <> k -> r_lookup (INCR k s).2 k' = r_lookup s k') /\ r_now (INCR k s).2 = r_now s /\
    match r_lookup s k with
    | None => (INCR k s).1 = Some 1
    | Some (v, d) =>
        match (c ← int_value v; if bool_decide (c < two63 - 1) then Some (c + 1) else None) with
        | Some c => (INCR k s).1 = Some c /\
            exists v', r_lookup (INCR k s).2 k = Some (v', d) /\ int_value v' = Some c
        | None => INCR k s = (None, s)
        end
    end;
  int_value_zero : int_value "0" = Some 0;
  PTTL_law : forall k s v d, r_lookup s k = Some (v, d) ->
    d - r_now s - ms < PTTL k s < d - r_now s + ms;
  latency_nonneg : 0 <= latency;
}.

(** One call: its script; then whether PTTL is answered, and what happens to the
    server until PTTL runs and until the lock object looks at its clock. *)
Record Net (Srv : Type) := MkNet {
  transport : Transport;
  pttl_ok : bool;
  to_pttl : Srv -> Srv;
  to_now : Srv -> Srv;
}.
Arguments MkNet {Srv}. Arguments transport {Srv}. Arguments pttl_ok {Srv}. Arguments to_pttl {Srv}. Arguments to_now {Srv}.

Definition NetOk {Srv} : Net Srv := MkNet Delivered true (fun s => s) (fun s => s).

Section redis.
Context `{Redis Srv}.

Definition extendedCountKey (l : Lock) : string := resource l +:+ "::" +:+ id l +:+ "::extended_count".

(** The number of extensions that the server keeps, and the next one; [None]: what
    the key holds is not an integer or the largest. *)
Definition counter (s : Srv) (l : Lock) : option Z :=
  match r_lookup s (extendedCountKey l) with Some (v, _) => int_value v | None => Some 0 end.
Definition next_count (s : Srv) (l : Lock) : option Z :=
  c ← counter s l; if bool_decide (c < two63 - 1) then Some (c + 1) else None.

(** The scripts, with KEYS and ARGV as arguments. *)
Definition setNXAndExtendedCountScript (k1 k2 arg1 : string) (arg2 : Z) (s : Srv) : option Z * Srv :=
  let r := SET_NX_PX k1 arg1 arg2 s in
  if r.1 then (Some 1, (SET_PX k2 "0" arg2 r.2).2) else (Some 0, r.2).

Definition deleteKeysScript (k1 k2 arg1 : string) (s : Srv) : option Z * Srv :=
  if bool_decide (GET k1 s = Some arg1) then let r := DEL [k1; k2] s in (Some r.1, r.2) else (Some 0, s).

Definition extendSetsAndIncrExtendedCountScript (k1 k2 arg1 : string) (arg2 : Z) (s : Srv) : option Z * Srv :=
  if bool_decide (GET k1 s = Some arg1) then
    let r := SET_PX k1 arg1 arg2 s in
    if r.1 then INCR k2 (EXPIRE k2 arg2 r.2) else (Some 0, r.2)
  else (Some 0, s).

Definition script_error : error := OpaqueErr "redis.Error" "ERR value is not an integer or out of range".

(** [rdb.Eval(...).Result()] *)
Definition Eval_script (net : Net Srv) (script : Srv -> option Z * Srv) (s : Srv) : result error Z * Srv :=
  match transport net with
  | RequestLost err => (Err err, s)
  | ReplyLost err => (Err err, (script s).2)
  | Delivered =>
      let r := script s in
      (match r.1 with Some n => Ok n | None => Err script_error end, r.2)
  end.

(** The expiration from the remaining time of the key; [Val] of an error is 0. *)
Definition read_expiration (net : Net Srv) (l : Lock) (s : Srv) : Z * Srv :=
  let s := to_pttl net s in
  let pttl := if pttl_ok net then PTTL (resource l) s else 0 in
  let s := to_now net s in
  (r_now s + pttl, s).

Definition NewDistributedRedisLock (resource uuid : string) (ttl : Z) : Lock := new_lock resource uuid ttl.

Definition Redis_TryLock (net : Net Srv) (l : Lock) (s : Srv) : (result error bool * Lock) * Srv :=
  let r := Eval_script net (setNXAndExtendedCountScript (resource l) (extendedCountKey l) (id l) (Milliseconds (ttl l))) s in
  match r.1 with
  | Err err => ((Err err, l), r.2)
  | Ok setInt =>
      let set := negb (bool_decide (setInt = 0)) in
      if set then
        let e := read_expiration net l r.2 in ((Ok true, set_lease (Some e.1) 0 l), e.2)
      else ((Ok false, l), r.2)
  end.

(** The error is nil after a script that ran; the context of the automatic
    extension is cancelled. *)
Definition Redis_Unlock (net : Net Srv) (l : Lock) (s : Srv) : (error * Lock) * Srv :=
  let r := Eval_script net (deleteKeysScript (resource l) (extendedCountKey l) (id l)) s in
  match r.1 with
  | Err err => ((err, l), r.2)
  | Ok _ => ((NilErr, set_lease None 0 (set_cancel None l)), r.2)
  end.

Definition Redis_Extend (net : Net Srv) (l : Lock) (s : Srv) : (result error bool * Lock) * Srv :=
  let r := Eval_script net (extendSetsAndIncrExtendedCountScript (resource l) (extendedCountKey l) (id l) (Milliseconds (ttl l))) s in
  match r.1 with
  | Err err => ((Err err, l), r.2)
  | Ok extendedCount =>
      let set := negb (bool_decide (extendedCount = 0)) in
      if set then
        let e := read_expiration net l r.2 in ((Ok true, set_lease (Some e.1) extendedCount l), e.2)
      else ((Ok false, set_lease None 0 l), r.2)
  end.

(** [Lock] with a sequence of network outcomes. *)
Definition Redis_Lock (net : Net Srv) (waits : list ((Srv -> Srv) * error)) (l : Lock) (s : Srv) : (lock_outcome * Lock) * Srv :=
  Lock_loop (Redis_TryLock net) waits l s.

Definition Redis_AutoExtend := autoExtend.

(** ** The interface *)

(** Names of locks that are not the name of another lock's counter. *)
Definition not_a_counter (r : string) : Prop := HasSuffix r "::extended_count" = false.

#[export] Instance Redis_LeaseServer : LeaseServer Srv := {
  clock := r_now;
  lease s r := r_lookup s r;
  margin := latency + ms;
  usable := not_a_counter;
  valid_ttl t := latency < Milliseconds t * ms;
  span t := Milliseconds t * ms;
}.

(** The lock object reads the remaining time promptly after the script's end [s]. *)
Definition prompt (net : Net Srv) (s : Srv) : Prop :=
  let s1 := to_pttl net s in let s2 := to_now net s1 in
  passes s s1 /\ passes s1 s2 /\ r_now s2 <= r_now s + latency.

#[export] Instance Redis_LeaseLock : LeaseLock Srv (Net Srv) := {
  TryLock := Redis_TryLock;
  Extend := Redis_Extend;
  Unlock := Redis_Unlock;
  attended o n l s :=
    match o with
    | OpTry => prompt n (setNXAndExtendedCountScript (resource l) (extendedCountKey l) (id l) (Milliseconds (ttl l)) s).2
    | OpExtend => prompt n (extendSetsAndIncrExtendedCountScript (resource l) (extendedCountKey l) (id l) (Milliseconds (ttl l)) s).2
    | OpUnlock => match transport n with ReplyLost _ => False | _ => True end
    end;
}.
End redis.

(** ** Proofs *)
Section laws.
#[local] Arguments read_expiration : simpl never.
Context `{RedisLaws Srv}.
Implicit Types (l : Lock) (s : Srv).

Lemma HasSuffix_app (a p : string) : HasSuffix (a +:+ p) p = true.
Proof.
  unfold HasSuffix. rewrite length_app_string.
  replace (String.length a + String.length p - String.length p)%nat with (String.length a) by lia.
  rewrite drop_bytes_app, !bool_decide_eq_true_2; [done|done|lia].
Qed.

Lemma counter_key_other l r : usable (Srv:=Srv) r -> r <> extendedCountKey l.
Proof.
  intros Hu ->. unfold usable, Redis_LeaseServer, not_a_counter, extendedCountKey in Hu.
  rewrite <- !app_assoc_string in Hu. by rewrite HasSuffix_app in Hu.
Qed.

(** The scripts, by the holder of the key. *)
Lemma set_script_spec l s : usable (Srv:=Srv) (resource l) -> 0 < Milliseconds (ttl l) ->
  let r := setNXAndExtendedCountScript (resource l) (extendedCountKey l) (id l) (Milliseconds (ttl l)) s in
  r_now r.2 = r_now s /\
  match r_lookup s (resource l) with
  | Some _ => r = (Some 0, s)
  | None => r.1 = Some 1 /\ r_lookup r.2 (resource l) = Some (id l, r_now s + Milliseconds (ttl l) * ms) /\
      r_lookup r.2 (extendedCountKey l) = Some ("0", r_now s + Milliseconds (ttl l) * ms) /\
      forall k, usable (Srv:=Srv) k -> k <> resource l -> r_lookup r.2 k = r_lookup s k
  end.
Proof.
  intros Hu Hp. cbv zeta. unfold setNXAndExtendedCountScript.
  pose proof (SET_NX_PX_law (resource l) (id l) (Milliseconds (ttl l)) s Hp) as Hs.
  destruct (r_lookup s (resource l)) as [x|] eqn:El.
  - rewrite Hs. by cbn.
  - destruct Hs as (-> & Hk & Ho & Hn). cbn [fst snd].
    destruct (SET_PX_law (extendedCountKey l) "0" (Milliseconds (ttl l))
      (SET_NX_PX (resource l) (id l) (Milliseconds (ttl l)) s).2 Hp) as (_ & Hk2 & Ho2 & Hn2).
    split_and!; [congruence|done|rewrite Ho2; [done|by apply counter_key_other]|by rewrite Hk2, Hn|].
    intros k Hku Hne. rewrite Ho2 by (by apply counter_key_other). by apply Ho.
Qed.

Lemma extend_script_spec l s : usable (Srv:=Srv) (resource l) -> 0 < Milliseconds (ttl l) ->
  let r := extendSetsAndIncrExtendedCountScript (resource l) (extendedCountKey l) (id l) (Milliseconds (ttl l)) s in
  r_now r.2 = r_now s /\
  if bool_decide (fst <$> r_lookup s (resource l) = Some (id l)) then
    r_lookup r.2 (resource l) = Some (id l, r_now s + Milliseconds (ttl l) * ms) /\
    (forall k, usable (Srv:=Srv) k -> k <> resource l -> r_lookup r.2 k = r_lookup s k) /\
    r.1 = next_count s l /\
    (forall c v d, next_count s l = Some c -> r_lookup s (extendedCountKey l) = Some (v, d) ->
       exists v', r_lookup r.2 (extendedCountKey l) =
           Some (v', r_now s + Milliseconds (ttl l) * 1000 * ms) /\ int_value v' = Some c)
  else r = (Some 0, s).
Proof.
  intros Hu Hp. cbv zeta. unfold extendSetsAndIncrExtendedCountScript. rewrite GET_law.
  case_bool_decide as Hg; [|done].
  destruct (SET_PX_law (resource l) (id l) (Milliseconds (ttl l)) s Hp) as (-> & Hk & Ho & Hn).
  set (s1 := (SET_PX _ _ _ s).2) in *.
  destruct (EXPIRE_law (extendedCountKey l) (Milliseconds (ttl l)) s1) as (He & En & Hnone & Hsome).
  set (s2 := EXPIRE _ _ s1) in *. destruct (INCR_law (extendedCountKey l) s2) as (Hi & In' & Hc).
  pose proof (counter_key_other l _ Hu) as Hkey.
  assert (r_lookup s1 (extendedCountKey l) = r_lookup s (extendedCountKey l)) as E1 by (by apply Ho).
  split_and!; [congruence|rewrite Hi, He by done; done| |..].
  - intros k Hku Hne. rewrite Hi, He by (by apply counter_key_other). by apply Ho.
  - unfold next_count, counter. destruct (r_lookup s (extendedCountKey l)) as [[v d]|].
    + rewrite (Hsome v d E1 Hp) in Hc. destruct (c ← _; _); [by destruct Hc as [-> _]|by rewrite Hc].
    + rewrite (Hnone E1) in Hc. by rewrite Hc.
  - intros c v d Hnc Hv. unfold next_count, counter in Hnc. rewrite Hv in E1, Hnc.
    rewrite (Hsome v d E1 Hp) in Hc. cbn [mbind] in Hnc. rewrite Hnc in Hc.
    destruct Hc as (_ & v' & Hv' & Hiv). exists v'. by rewrite Hv', Hn.
Qed.

Lemma delete_script_spec l s : usable (Srv:=Srv) (resource l) ->
  let r := deleteKeysScript (resource l) (extendedCountKey l) (id l) s in
  r_now r.2 = r_now s /\
  if bool_decide (fst <$> r_lookup s (resource l) = Some (id l)) then
    r_lookup r.2 (resource l) = None /\
    forall k, usable (Srv:=Srv) k -> k <> resource l -> r_lookup r.2 k = r_lookup s k
  else r = (Some 0, s).
Proof.
  intros Hu. cbv zeta. unfold deleteKeysScript. rewrite GET_law. case_bool_decide as Hg; [|done]. cbn [snd].
  destruct (DEL_law [resource l; extendedCountKey l] s) as (Hd & Ho & Hn). split_and!; [done|apply Hd; set_solver|].
  intros k Hku Hne. apply Ho. pose proof (counter_key_other l k Hku). set_solver.
Qed.

(** What a script that leaves the lease of a live holder alone does to a lock
    object that does not change. *)
Lemma unchanged_backed l s s' : r_now s' = r_now s ->
  (forall d, r_lookup s (resource l) = Some (id l, d) ->
     exists d', r_lookup s' (resource l) = Some (id l, d') /\ (d' = d \/ d' = r_now s + span (Srv:=Srv) (ttl l))) ->
  backed l s -> backed l s'.
Proof.
  intros Hn Hk Hb e He. destruct (Hb e He) as [Hle Hd]. unfold clock, Redis_LeaseServer in *. rewrite Hn.
  split; [done|]. intros Hlt. destruct (Hd Hlt) as (d & Hl & Hed). cbn [lease] in *.
  destruct (Hk d Hl) as (d' & Hl' & [->| ->]); [by exists d|]. eexists. split; [exact Hl'|lia].
Qed.

(** Reading promptly the remaining time of a key that a script just set. *)
Lemma read_expiration_spec net l s i :
  valid_ttl (Srv:=Srv) (ttl l) -> prompt net s ->
  r_lookup s (resource l) = Some (i, r_now s + span (Srv:=Srv) (ttl l)) ->
  let until := r_now s + span (Srv:=Srv) (ttl l) in
  let e := read_expiration net l s in
  r_now s <= r_now e.2 <= r_now s + latency /\
  (forall k v d, r_lookup s k = Some (v, d) -> r_now e.2 < d -> r_lookup e.2 k = Some (v, d)) /\
  r_lookup e.2 (resource l) = Some (i, until) /\ e.1 < until + latency + ms /\
  (if pttl_ok net then until - ms < e.1 else e.1 = r_now e.2).
Proof.
  intros Hv (P1 & P2 & Hlat) Hl. cbv zeta. unfold read_expiration. cbn [fst snd].
  cbn [valid_ttl span Redis_LeaseServer] in *. pose proof latency_nonneg as Hn.
  set (s1 := to_pttl net s) in *. set (s2 := to_now net s1) in *.
  destruct P1 as [C1 L1], P2 as [C2 L2]. cbn [clock lease Redis_LeaseServer] in *.
  assert (r_lookup s1 (resource l) = Some (i, r_now s + Milliseconds (ttl l) * ms)) as H1 by (apply L1; [done|lia]).
  pose proof (PTTL_law _ _ _ _ H1) as Hp. split_and!; [lia|lia| |apply L2; [done|lia]| |].
  - intros k v d Hk Hd. apply L2; [|done]. apply L1; [done|lia].
  - destruct (pttl_ok net); unfold ms in *; lia.
  - destruct (pttl_ok net); [lia|]. lia.
Qed.

Lemma fresh_backed net l n s : valid_ttl (Srv:=Srv) (ttl l) -> prompt net s ->
  r_lookup s (resource l) = Some (id l, r_now s + span (Srv:=Srv) (ttl l)) ->
  backed (set_lease (Some (read_expiration net l s).1) n l) (read_expiration net l s).2.
Proof.
  intros Hv Hp Hl e He. change (Some (read_expiration net l s).1 = Some e) in He. apply (inj Some) in He as <-.
  destruct (read_expiration_spec net l s (id l) Hv Hp Hl) as (Hc & _ & Hk & Hub & _).
  cbn [clock lease span margin Redis_LeaseServer resource id ttl set_lease] in *. split; [lia|].
  intros _. eexists. split; [exact Hk|lia].
Qed.

Lemma none_backed l n s : backed (set_lease None n l) s.
Proof. by intros e. Qed.

Lemma valid_ttl_pos t : valid_ttl (Srv:=Srv) t -> 0 < Milliseconds t.
Proof. cbn [valid_ttl Redis_LeaseServer]. pose proof latency_nonneg. unfold ms. lia. Qed.

Lemma redis_try_respects n l s : attended OpTry n l s -> usable (Srv:=Srv) (resource l) -> valid_ttl (Srv:=Srv) (ttl l) ->
  respects l (Redis_TryLock n l s).1.2 s (Redis_TryLock n l s).2.
Proof.
  cbn [attended Redis_LeaseLock]. intros Ha Hu Ht.
  pose proof (set_script_spec l s Hu (valid_ttl_pos _ Ht)) as [Hn Hs]. cbv zeta in Hn, Hs.
  unfold Redis_TryLock, Eval_script. set (r := setNXAndExtendedCountScript _ _ _ _ s) in *.
  assert (forall k i d, usable (Srv:=Srv) k -> r_lookup s k = Some (i, d) -> r_lookup r.2 k = Some (i, d)) as Hkept.
  { intros k i d Hk Hl. destruct (decide (k = resource l)) as [->|Hne].
    - rewrite Hl in Hs. by rewrite Hs.
    - destruct (r_lookup s (resource l)); [by rewrite Hs|]. destruct Hs as (_ & _ & _ & Ho). by rewrite Ho. }
  assert (backed l s -> backed l r.2) as Hb.
  { apply unchanged_backed; [done|]. intros d Hl. exists d. split; [|by left]. by apply Hkept. }
  destruct (transport n) as [|err|err]; cbn [fst snd].
  - destruct (r_lookup s (resource l)) as [x|] eqn:El.
    + rewrite Hs. cbn [fst snd]. rewrite bool_decide_eq_true_2 by done. cbn [negb fst snd].
      rewrite Hs in Hkept, Hb. split; [done|done| |done]. intros k i d Hk _ [Hl _] _. by apply Hkept.
    + destruct Hs as (E1 & Hl & _ & Ho). rewrite E1. cbn [fst snd]. rewrite bool_decide_eq_false_2 by done. cbn [negb fst snd].
      rewrite <- Hn in Hl. destruct (read_expiration_spec n l r.2 (id l) Ht Ha Hl) as (Hc & Hk & _).
      split; [done|cbn; lia| |].
      * intros k i d Hku _ [Hlk _] Hd. apply Hk; [by apply Hkept|done].
      * intros _. by apply fresh_backed.
  - apply respects_refl.
  - split; [done|cbn; lia| |done]. intros k i d Hk _ [Hl _] _. by apply Hkept.
Qed.

Lemma redis_extend_respects n l s : attended OpExtend n l s -> usable (Srv:=Srv) (resource l) -> valid_ttl (Srv:=Srv) (ttl l) ->
  respects l (Redis_Extend n l s).1.2 s (Redis_Extend n l s).2.
Proof.
  cbn [attended Redis_LeaseLock]. intros Ha Hu Ht.
  pose proof (extend_script_spec l s Hu (valid_ttl_pos _ Ht)) as [Hn Hs]. cbv zeta in Hn, Hs.
  unfold Redis_Extend, Eval_script. set (r := extendSetsAndIncrExtendedCountScript _ _ _ _ s) in *.
  assert (forall k i d, usable (Srv:=Srv) k -> i <> id l -> r_lookup s k = Some (i, d) -> r_lookup r.2 k = Some (i, d)) as Hkept.
  { intros k i d Hk Hi Hl. case_bool_decide as Hg; [|by rewrite Hs]. destruct Hs as (_ & Ho & _).
    destruct (decide (k = resource l)) as [->|Hne]; [|by rewrite Ho]. rewrite Hl in Hg. cbn in Hg. congruence. }
  assert (backed l s -> backed l r.2) as Hb.
  { apply unchanged_backed; [done|]. intros d Hl. rewrite Hl in Hs. cbn [fmap option_fmap option_map fst] in Hs.
    rewrite bool_decide_eq_true_2 in Hs by done. destruct Hs as [Hs _]. eexists. split; [exact Hs|by right]. }
  assert (r.1 <> Some 0 -> r_lookup r.2 (resource l) = Some (id l, r_now r.2 + span (Srv:=Srv) (ttl l))) as Hfresh.
  { intros Hr. rewrite Hn. case_bool_decide; [|by rewrite Hs in Hr]. by destruct Hs as [Hs _]. }
  assert (forall k i d, usable (Srv:=Srv) k -> i <> id l -> live s k i d -> clock r.2 < d -> lease r.2 k = Some (i, d)) as Hlive.
  { intros k i d Hk Hi [Hl _] _. by apply Hkept. }
  destruct (transport n) as [|err|err]; cbn [fst snd]; [|apply respects_refl|split; [done|cbn; lia|exact Hlive|exact Hb]].
  destruct r.1 as [c|] eqn:Er; cbn [fst snd]; [|split; [done|cbn; lia|exact Hlive|exact Hb]].
  destruct (bool_decide (c = 0)) eqn:Hc; cbn [negb fst snd].
  - split; [done|cbn; lia|exact Hlive|]. intros _. apply none_backed.
  - apply bool_decide_eq_false in Hc.
    destruct (read_expiration_spec n l r.2 (id l) Ht Ha ltac:(apply Hfresh; congruence)) as (Hcl & Hk & _).
    split; [done|cbn; lia| |intros _; apply fresh_backed; [done..|apply Hfresh; congruence]].
    intros k i d Hku Hi [Hl _] Hd. apply Hk; [by apply Hkept|done].
Qed.

Lemma redis_unlock_respects n l s : attended OpUnlock n l s -> usable (Srv:=Srv) (resource l) ->
  respects l (Redis_Unlock n l s).1.2 s (Redis_Unlock n l s).2.
Proof.
  cbn [attended Redis_LeaseLock]. intros Hr Hu. pose proof (delete_script_spec l s Hu) as [Hn Hs]. cbv zeta in Hn, Hs.
  unfold Redis_Unlock, Eval_script. destruct (transport n) as [|err|err]; [|apply respects_refl|done]. cbn [fst snd].
  set (r := deleteKeysScript _ _ _ s) in *.
  assert (exists c, r.1 = Some c) as [c ->] by (unfold r, deleteKeysScript; clear; destruct (bool_decide (GET _ _ = _)); eexists; reflexivity).
  cbn [fst snd]. split; [done|cbn; lia| |by intros _ e].
  intros k i d Hk Hi [Hl _] _. cbn [lease Redis_LeaseServer] in *. case_bool_decide as Hg; [|by rewrite Hs].
  destruct Hs as [_ Ho]. destruct (decide (k = resource l)) as [->|Hne]; [|by rewrite Ho].
  rewrite Hl in Hg. cbn in Hg. congruence.
Qed.

Lemma redis_try_true n l s : (Redis_TryLock n l s).1.1 = Ok true -> usable (Srv:=Srv) (resource l) ->
  valid_ttl (Srv:=Srv) (ttl l) -> r_lookup s (resource l) = None.
Proof.
  intros Hr Hu Ht. pose proof (set_script_spec l s Hu (valid_ttl_pos _ Ht)) as [_ Hs]. cbv zeta in Hs.
  unfold Redis_TryLock, Eval_script in Hr. destruct (transport n); cbn [fst snd] in Hr; try done.
  destruct (r_lookup s (resource l)); [|done]. rewrite Hs in Hr. done.
Qed.

(** ** The operations when requests and replies arrive *)

Lemma delete_script_replies l s :
  exists c, (deleteKeysScript (resource l) (extendedCountKey l) (id l) s).1 = Some c.
Proof. unfold deleteKeysScript. destruct (bool_decide (GET _ _ = _)); by eexists. Qed.

(** The object remembers what it reads of a lease that a script has just set. *)
Lemma read_delivered net l n s (until : Z) : valid_ttl (Srv:=Srv) (ttl l) -> pttl_ok net = true -> prompt net s ->
  until = r_now s + Milliseconds (ttl l) * ms -> r_lookup s (resource l) = Some (id l, until) ->
  (exists e, set_lease (Some (read_expiration net l s).1) n l = set_lease (Some e) n l /\
     until - ms < e < until + latency + ms) /\
  r_lookup (read_expiration net l s).2 (resource l) = Some (id l, until) /\
  (forall k v d, r_lookup s k = Some (v, d) -> until <= d -> r_lookup (read_expiration net l s).2 k = Some (v, d)).
Proof.
  intros Hv Hpt Hpr -> Hl. destruct (read_expiration_spec net l s (id l) Hv Hpr Hl) as (Hc & Hk & Hk' & Hub & Hlb).
  rewrite Hpt in Hlb. cbn [span valid_ttl Redis_LeaseServer] in *. split_and!; [|done|].
  - eexists. split; [reflexivity|lia].
  - intros k v d Hkv Hd. apply Hk; [done|lia].
Qed.

Lemma redis_try_delivered n l s (until := r_now s + Milliseconds (ttl l) * ms) :
  usable (Srv:=Srv) (resource l) -> valid_ttl (Srv:=Srv) (ttl l) ->
  transport n = Delivered -> pttl_ok n = true -> attended OpTry n l s ->
  let r := Redis_TryLock n l s in
  if bool_decide (r_lookup s (resource l) = None) then
    r.1.1 = Ok true /\ (exists e, r.1.2 = set_lease (Some e) 0 l /\ until - ms < e < until + latency + ms) /\
    r_lookup r.2 (resource l) = Some (id l, until) /\ counter r.2 l = Some 0
  else r = ((Ok false, l), s).
Proof.
  cbn [attended Redis_LeaseLock]. intros Hu Hv Hdel Hpt Hat. cbv zeta.
  pose proof (set_script_spec l s Hu (valid_ttl_pos _ Hv)) as [Hn Hs]. cbv zeta in *.
  unfold Redis_TryLock, Eval_script. rewrite Hdel. cbn [fst snd].
  set (r := setNXAndExtendedCountScript _ _ _ _ s) in *.
  destruct (r_lookup s (resource l)) as [x|]; [by rewrite Hs|]. rewrite bool_decide_eq_true_2 by done.
  destruct Hs as (-> & Hl & Hc & _). cbn [fst snd]. rewrite bool_decide_eq_false_2 by done. cbn [negb fst snd].
  destruct (read_delivered n l 0 r.2 until) as (Hrem & Hl' & Hkept); [done..|by rewrite Hn|done|].
  split_and!; [done|done|done|]. unfold counter. rewrite (Hkept _ _ _ Hc) by done. apply int_value_zero.
Qed.

Lemma redis_extend_delivered n l s (until := r_now s + Milliseconds (ttl l) * ms) :
  usable (Srv:=Srv) (resource l) -> valid_ttl (Srv:=Srv) (ttl l) ->
  transport n = Delivered -> pttl_ok n = true -> attended OpExtend n l s ->
  let r := Redis_Extend n l s in
  if bool_decide (fst <$> r_lookup s (resource l) = Some (id l)) then
    match next_count s l with
    | Some c => 0 < c ->
        r.1.1 = Ok true /\ (exists e, r.1.2 = set_lease (Some e) c l /\ until - ms < e < until + latency + ms) /\
        r_lookup r.2 (resource l) = Some (id l, until) /\
        (is_Some (r_lookup s (extendedCountKey l)) -> counter r.2 l = Some c)
    | None => r.1 = (Err script_error, l) /\ r_lookup r.2 (resource l) = Some (id l, until)
    end
  else r = ((Ok false, set_lease None 0 l), s).
Proof.
  cbn [attended Redis_LeaseLock]. intros Hu Hv Hdel Hpt Hae. cbv zeta. pose proof (valid_ttl_pos _ Hv) as Hp.
  pose proof (extend_script_spec l s Hu Hp) as [Hn Hs]. cbv zeta in *.
  unfold Redis_Extend, Eval_script. rewrite Hdel. cbn [fst snd].
  set (r := extendSetsAndIncrExtendedCountScript _ _ _ _ s) in *.
  destruct (bool_decide _); [|by rewrite Hs]. destruct Hs as (Hl & _ & -> & Hc).
  destruct (next_count s l) as [c|] eqn:Hnc; cbn [fst snd]; [|done]. intros Hpos.
  rewrite bool_decide_eq_false_2 by lia. cbn [negb fst snd].
  destruct (read_delivered n l c r.2 until) as (Hrem & Hl' & Hkept); [done..|by rewrite Hn|done|].
  split_and!; [done|done|done|]. intros [[v d] Hvd]. destruct (Hc c v d eq_refl Hvd) as (v' & Hv' & Hi).
  unfold counter. rewrite (Hkept _ _ _ Hv'); [done|]. unfold until, ms. lia.
Qed.

#[export] Instance Redis_LeaseLockLaws : LeaseLockLaws Srv (Net:=Net Srv).
Proof.
  split.
  - cbn [margin Redis_LeaseServer]. pose proof latency_nonneg. unfold ms. lia.
  - apply redis_try_respects.
  - intros n l s r _ Ht Hu Hv -> i d [Hl _]. cbn [lease Redis_LeaseServer] in Hl.
    by rewrite (redis_try_true n l s Ht Hu Hv) in Hl.
  - apply redis_extend_respects.
  - intros n l s Hr Hu _. by apply redis_unlock_respects.
Qed.
End laws.

(** C20: the operations of the Redis lock, when requests and replies arrive, in time.
    [TryLock] takes a resource that nobody holds for the ttl, in whole milliseconds,
    counting extensions from 0, and leaves one alone that anyone holds, this object
    included. [Extend] of the own lease prolongs it to the ttl from now and counts
    one extension more, as long as the counter holds a number; when it does not, it
    fails with the script's error, having prolonged the lease, and the object is left
    as it was. [Extend] without the lease changes nothing on the server and makes
    the object forget its expiration and its count. [Unlock] gives back the own
    lease only, and the object always forgets. After a success the object remembers
    the end of the lease to a millisecond and the time that reading it took. *)
Theorem redis_operations {Srv} `{RedisLaws Srv} (n : Net Srv) (l : Lock) (s : Srv) :
  usable (Srv:=Srv) (resource l) -> valid_ttl (Srv:=Srv) (ttl l) ->
  transport n = Delivered -> pttl_ok n = true -> attended OpTry n l s -> attended OpExtend n l s ->
  let until := r_now s + Milliseconds (ttl l) * ms in
  let own := bool_decide (fst <$> r_lookup s (resource l) = Some (id l)) in
  let remembers (l' : Lock) (count : Z) := exists e,
    l' = set_lease (Some e) count l /\ until - ms < e < until + latency + ms in
  (let r := Redis_TryLock n l s in
   if bool_decide (r_lookup s (resource l) = None) then
     r.1.1 = Ok true /\ remembers r.1.2 0 /\
     r_lookup r.2 (resource l) = Some (id l, until) /\ counter r.2 l = Some 0
   else r = ((Ok false, l), s)) /\
  (let r := Redis_Extend n l s in
   if own then
     match next_count s l with
     | Some c => 0 < c ->
         r.1.1 = Ok true /\ remembers r.1.2 c /\ r_lookup r.2 (resource l) = Some (id l, until) /\
         (is_Some (r_lookup s (extendedCountKey l)) -> counter r.2 l = Some c)
     | None => r.1 = (Err script_error, l) /\ r_lookup r.2 (resource l) = Some (id l, until)
     end
   else r = ((Ok false, set_lease None 0 l), s)) /\
  (let r := Redis_Unlock n l s in
   r.1 = (NilErr, set_lease None 0 (set_cancel None l)) /\
   (if own then r_lookup r.2 (resource l) = None else r.2 = s)).
Proof.
  cbn [attended Redis_LeaseLock]. intros Hu Hv Hdel Hpt Hat Hae. cbv zeta. pose proof (valid_ttl_pos _ Hv) as Hp.
  split_and!.
  - by apply redis_try_delivered.
  - by apply redis_extend_delivered.
  - pose proof (delete_script_spec l s Hu) as [Hnd Hsd]. cbv zeta in *.
    unfold Redis_Unlock, Eval_script. rewrite Hdel. cbn [fst snd].
    by destruct (delete_script_replies l s) as [c ->].
  - pose proof (delete_script_spec l s Hu) as [Hnd Hsd]. cbv zeta in *.
    unfold Redis_Unlock, Eval_script. rewrite Hdel. cbn [fst snd].
    destruct (delete_script_replies l s) as [c ->]. cbn [fst snd].
    destruct (bool_decide _); [by destruct Hsd|by rewrite Hsd].
Qed.

(** ** A server, for the witnesses *)
Record MiniRedis := MkMini { mini_now : Z; mini_keys : gmap string (string * Z) }.

Definition mini_lookup (s : MiniRedis) (k : string) : option (string * Z) :=
  match mini_keys s !! k with
  | Some (v, d) => if bool_decide (mini_now s < d) then Some (v, d) else None
  | None => None
  end.
Definition mini_set (k v : string) (d : Z) (s : MiniRedis) : MiniRedis :=
  MkMini (mini_now s) (<[k := (v, d)]> (mini_keys s)).

(** Its numbers: 0, and tallies. *)
Fixpoint tally (n : nat) : string := match n with O => "" | S n => "+" +:+ tally n end.
Definition mini_int (v : string) : option Z :=
  if bool_decide (v = "0") then Some 0
  else if bool_decide (v = tally (String.length v)) then Some (Z.of_nat (String.length v)) else None.

Lemma mini_int_tally n : mini_int (tally n) = Some (Z.of_nat n).
Proof.
  assert (String.length (tally n) = n) as E by (induction n as [|n IH]; [done|cbn [tally]; by rewrite length_app_string, IH]).
  unfold mini_int. rewrite E, (bool_decide_eq_true_2 (tally n = tally n)) by done.
  rewrite bool_decide_eq_false_2; [done|]. by destruct n.
Qed.

Lemma mini_int_nonneg v c : mini_int v = Some c -> 0 <= c.
Proof. unfold mini_int. repeat case_bool_decide; intros [= <-]; lia. Qed.

#[export] Instance Mini_Redis : Redis MiniRedis := {
  r_now := mini_now;
  r_lookup := mini_lookup;
  SET_NX_PX k v p s :=
    match mini_lookup s k with Some _ => (false, s) | None => (true, mini_set k v (mini_now s + p * ms) s) end;
  SET_PX k v p s := (true, mini_set k v (mini_now s + p * ms) s);
  GET k s := fst <$> mini_lookup s k;
  DEL ks s := (Z.of_nat (length ks), MkMini (mini_now s) (foldr delete (mini_keys s) ks));
  EXPIRE k n s :=
    match mini_lookup s k with Some (v, _) => mini_set k v (mini_now s + n * 1000 * ms) s | None => s end;
  INCR k s :=
    match mini_lookup s k with
    | Some (v, d) =>
        match (c ← mini_int v; if bool_decide (c < two63 - 1) then Some (c + 1) else None) with
        | Some c => (Some c, mini_set k (tally (Z.to_nat c)) d s)
        | None => (None, s)
        end
    | None => (Some 1, s)
    end;
  int_value := mini_int;
  PTTL k s := match mini_lookup s k with Some (_, d) => Z.quot (d - mini_now s) ms * ms | None => -2 end;
  latency := 2000000;
}.

Lemma mini_lookup_set k v d s k' : mini_now s < d ->
  mini_lookup (mini_set k v d s) k' = if decide (k' = k) then Some (v, d) else mini_lookup s k'.
Proof.
  intros Hd. unfold mini_lookup, mini_set. cbn [mini_keys mini_now]. case_decide as Hk.
  - subst k'. rewrite lookup_insert_eq. by rewrite bool_decide_eq_true_2.
  - by rewrite lookup_insert_ne.
Qed.

Lemma mini_lookup_live s k v d : mini_lookup s k = Some (v, d) -> mini_now s < d.
Proof. unfold mini_lookup. destruct (mini_keys s !! k) as [[]|]; [|done]. case_bool_decide; [|done]. by intros [= <- <-]. Qed.

Lemma mini_delete ks s k :
  mini_lookup (MkMini (mini_now s) (foldr delete (mini_keys s) ks)) k =
  if decide (k ∈ ks) then None else mini_lookup s k.
Proof.
  unfold mini_lookup. cbn [mini_keys mini_now]. induction ks as [|x ks IH]; cbn [foldr].
  - by rewrite decide_False by apply not_elem_of_nil.
  - destruct (decide (k = x)) as [->|Hne].
    + rewrite lookup_delete_eq. by rewrite decide_True by set_solver.
    + rewrite lookup_delete_ne by done. rewrite IH. repeat case_decide; set_solver.
Qed.

#[export] Instance Mini_RedisLaws : RedisLaws MiniRedis.
Proof.
  assert (forall s p, 0 < p -> mini_now s < mini_now s + p * ms) as Hp by (unfold ms; intros; lia).
  split.
  - intros s k v d. apply mini_lookup_live.
  - intros k v p s H0. cbn [r_lookup r_now SET_NX_PX Mini_Redis]. destruct (mini_lookup s k); [done|].
    cbn [fst snd]. split_and!; try done; [|intros k' Hk]; rewrite mini_lookup_set by auto; by case_decide.
  - intros k v p s H0. cbn [r_lookup r_now SET_PX Mini_Redis]. cbn [fst snd].
    split_and!; try done; [|intros k' Hk]; rewrite mini_lookup_set by auto; by case_decide.
  - done.
  - intros ks s. cbn [r_lookup r_now DEL Mini_Redis snd].
    split_and!; try done; intros k Hk; rewrite mini_delete; by case_decide.
  - intros k n s. cbn [r_lookup r_now EXPIRE Mini_Redis].
    destruct (mini_lookup s k) as [[v d]|] eqn:E; [|by split_and!].
    split_and!; [|done|done|].
    + intros k' Hk. unfold mini_lookup, mini_set. cbn [mini_keys mini_now]. by rewrite lookup_insert_ne.
    + intros v' d' [= <- <-] Hn. rewrite mini_lookup_set by (unfold ms; lia). by case_decide.
  - intros k s. cbn [r_lookup r_now INCR int_value Mini_Redis].
    destruct (mini_lookup s k) as [[v d]|] eqn:E; [|done].
    destruct (mini_int v) as [c|] eqn:Ei; cbn [mbind option_bind]; [|done].
    case_bool_decide; [|done]. cbn [fst snd]. split_and!; [|done|done|].
    + intros k' Hk. unfold mini_lookup, mini_set. cbn [mini_keys mini_now]. by rewrite lookup_insert_ne.
    + exists (tally (Z.to_nat (c + 1))). split.
      * rewrite mini_lookup_set by (by eapply mini_lookup_live). by case_decide.
      * apply mini_int_nonneg in Ei. rewrite mini_int_tally. f_equal. lia.
  - reflexivity.
  - intros k s v d Hl. cbn [r_lookup r_now PTTL Mini_Redis] in *. rewrite Hl.
    pose proof (mini_lookup_live _ _ _ _ Hl). unfold ms in *.
    pose proof (Z.quot_rem (d - mini_now s) 1000000 ltac:(lia)).
    pose proof (Z.rem_bound_pos (d - mini_now s) 1000000 ltac:(lia) ltac:(lia)). lia.
  - cbn [latency Mini_Redis]. lia.
Qed.

Definition mini_pass (dt : Z) (s : MiniRedis) : MiniRedis := MkMini (mini_now s + dt) (mini_keys s).

Lemma mini_passes dt s : 0 <= dt -> passes s (mini_pass dt s).
Proof.
  intros Hdt. split; [cbn; lia|]. intros r i d. cbn [lease clock Redis_LeaseServer r_lookup r_now Mini_Redis].
  unfold mini_lookup, mini_pass. cbn [mini_keys mini_now]. destruct (mini_keys s !! r) as [[v x]|]; [|done].
  case_bool_decide; [|done]. intros [= -> ->] Hd. by rewrite bool_decide_eq_true_2.
Qed.

Definition empty_server : MiniRedis := MkMini 5000 ∅.
Definition lock_a : Lock := NewDistributedRedisLock "jobs" "a" 10000000.
Definition lock_b : Lock := NewDistributedRedisLock "jobs" "b" 10000000.
Definition in_time : Net MiniRedis := MkNet Delivered true (mini_pass 1000) (mini_pass 1000).

Lemma in_time_prompt s : prompt in_time s.
Proof. split_and!; [by apply mini_passes..|]. cbn. lia. Qed.

(** Locked, and extended twice. *)
Lemma redis_operations_witness :
  let r := Redis_TryLock in_time lock_a empty_server in
  let r1 := Redis_Extend in_time r.1.2 r.2 in let r2 := Redis_Extend in_time r1.1.2 r1.2 in
  r.1.1 = Ok true /\ r1.1.1 = Ok true /\ r2.1.1 = Ok true /\ extendedCount r2.1.2 = 2.
Proof.
  intros r r1 r2.
  assert (forall l s, usable (Srv:=MiniRedis) (resource l) -> valid_ttl (Srv:=MiniRedis) (ttl l) -> _) as Hop by
    exact (fun l s Hu Hv => redis_operations in_time l s Hu Hv eq_refl eq_refl (in_time_prompt _) (in_time_prompt _)).
  cbv zeta in Hop.
  destruct (Hop lock_a empty_server) as [(Ht & _) _]; [reflexivity..|].
  destruct (Hop r.1.2 r.2) as (_ & He & _); [reflexivity..|].
  destruct (Hop r1.1.2 r1.2) as (_ & He2 & _); [reflexivity..|].
  rewrite (bool_decide_eq_true_2 (_ = Some (id r.1.2))) in He by reflexivity.
  replace (next_count r.2 r.1.2) with (Some 1) in He by (vm_compute; reflexivity).
  rewrite (bool_decide_eq_true_2 (_ = Some (id r1.1.2))) in He2 by reflexivity.
  replace (next_count r1.2 r1.1.2) with (Some 2) in He2 by (vm_compute; reflexivity).
  destruct (He eq_refl) as (Ht1 & _). destruct (He2 eq_refl) as (Ht2 & (e & Hl2 & _) & _).
  split_and!; [exact Ht|exact Ht1|exact Ht2|]. change r2 with (Redis_Extend in_time r1.1.2 r1.2). by rewrite Hl2.
Defined.

(** One process has locked, another has tried. *)
Definition locked_by_a : System MiniRedis :=
  let r := Redis_TryLock in_time lock_a empty_server in MkSystem r.2 [r.1.2; lock_b].
Definition tried_by_b : System MiniRedis :=
  let r := Redis_TryLock in_time lock_b (server locked_by_a) in MkSystem r.2 (<[1%nat := r.1.2]> (locks locked_by_a)).

Lemma tried_by_b_reached : rtc step (MkSystem empty_server [lock_a; lock_b]) tried_by_b.
Proof.
  apply (rtc_l _ _ locked_by_a).
  - exact (step_try in_time 0 lock_a (MkSystem empty_server [lock_a; lock_b]) (in_time_prompt _) eq_refl).
  - apply rtc_once. exact (step_try in_time 1 lock_b locked_by_a (in_time_prompt _) eq_refl).
Qed.

Lemma two_well_named : well_named (Srv:=MiniRedis) [lock_a; lock_b].
Proof.
  split.
  - intros [|[|i]] l; cbn; [intros [= <-]; split; reflexivity..|done].
  - intros [|[|i]] [|[|j]] l l'; cbn; intros Hi Hj Hid; simplify_eq; done.
Qed.

(** ** What promptness is for *)

(** Before [a] reads the remaining time of its key the lease ends and [b] takes the
    lock. *)
Definition too_late : Net MiniRedis :=
  MkNet Delivered true (fun s => (Redis_TryLock in_time lock_b (mini_pass 20000000 s)).2) (mini_pass 1000).

(** When a process is slow between the script and PTTL, it reads the remaining
    time of the key of whoever took the lock meanwhile, and both lock objects
    remember an expiration in the future. *)
Theorem late_reading_two_owners :
  let a := Redis_TryLock too_late lock_a empty_server in
  let b := Redis_TryLock in_time lock_b (mini_pass 20000000 (setNXAndExtendedCountScript "jobs" (extendedCountKey lock_a) "a" 10 empty_server).2) in
  a.1.1 = Ok true /\ b.1.1 = Ok true /\ r_lookup a.2 "jobs" = r_lookup b.2 "jobs" /\
  believes a.1.2 a.2 /\ believes b.1.2 a.2 /\ id a.1.2 <> id b.1.2.
Proof.
  cbv zeta. split_and!; [by vm_compute..| | |by vm_compute].
  - eexists. split; [vm_compute; reflexivity|]. by vm_compute.
  - eexists. split; [vm_compute; reflexivity|]. by vm_compute.
Qed.
