(* ===== verification/Database.v ===== *)
(** * database: transactions

    Models [database/database.go]: the transaction found in a context, nested
    transactions by savepoints, commit and rollback. A connection of the database
    is a parameter with the documented effect of the SQL commands as laws; each of them
    may fail. *)

From S2P Require Import Prelude.
From S2P Require Import GoStrings.
From S2P Require Import Errors.

Open Scope string_scope.
Open Scope list_scope.

Definition ErrCodeCommitFailed : string := "DB_COMMIT_FAILED".
Definition ErrCodeRollbackFailed : string := "DB_ROLLBACK_FAILED".

Definition CreateDBName (conf_name env_name : string) : string :=
  ReplaceAll (ToLower (conf_name +:+ "_" +:+ env_name)) "-" "_".

(** A database as one client sees it; [Stmt]: the statements that are no commands of
    transactions. What gorm does with a handle that has no database behind it:
    [failed_handle], the error of whatever is asked of one that [Begin] returned with an
    error; [closed_handle], that of [Commit] and [Rollback] of one that holds an error
    and nothing else ([None] is a panic). *)
Class Sql (C Stmt : Type) := {
  EXEC : Stmt -> C -> error * C;
  BEGIN : C -> error * C;
  COMMIT : C -> error * C;
  ROLLBACK : C -> error * C;
  SAVEPOINT : string -> C -> error * C;
  RELEASE_SAVEPOINT : string -> C -> error * C;
  ROLLBACK_TO : string -> C -> error * C;
  ErrInvalidTransaction : error;
  failed_handle : error -> error;
  closed_handle : option error;
}.

(** The [gorm.DB] of a transaction object: one that works; what [Begin] returned with an
    error; or the one that only holds [sql.ErrTxDone], of an object that is closed. *)
Inductive TxHandle := Working | FailedBegin (err : error) | Replaced.

(** [DBTx] *)
Record DBTx := MkDBTx {
  closed : bool;
  automatic : bool;
  parentTx : option nat;
  savePoint : string;
  handle : TxHandle;
}.

Definition IsSub (t : DBTx) : bool := match parentTx t with Some _ => true | None => false end.
Definition close_tx (t : DBTx) : DBTx := MkDBTx true (automatic t) (parentTx t) (savePoint t) Replaced.

(** The transaction objects, by address, and the database. *)
Record Db (C : Type) := MkDb { txs : list DBTx; conn : C }.
Arguments MkDb {C}. Arguments txs {C}. Arguments conn {C}.

(** What a context holds under the keys of the package. *)
Record Ctx := MkCtx { DBCtxKey : bool; DBTxCtxKey : option nat }.

Definition GetDBTxFromCtx (ctx : Ctx) : option nat := DBTxCtxKey ctx.

(** How a deferred call ends. *)
Inductive deferred := Exits (code : Z) | Returns (err : error).

Section database.
Context {C Stmt : Type} `{Sql C Stmt}.
Context (defaults : Defaults) (callers : list Frame) (show : error -> string).

Definition new_tx (t : DBTx) : M (Db C) nat :=
  s ← get_state; modify (fun s => MkDb (txs s ++ [t]) (conn s)) ;; mret (length (txs s)).

Definition read_tx (t : nat) : M (Db C) DBTx := s ← get_state; lift_option (txs s !! t).

Definition on_conn (f : C -> error * C) : M (Db C) error := fun s =>
  let r := f (conn s) in Some (r.1, MkDb (txs s) r.2).

(** The transaction of the context when there is one that is not closed. *)
Definition open_tx (ctx : Ctx) : M (Db C) (option nat) :=
  s ← get_state;
  mret (match GetDBTxFromCtx ctx with
        | Some t => match txs s !! t with Some x => if closed x then None else Some t | None => None end
        | None => None
        end).

Definition InTx (ctx : Ctx) : M (Db C) nat :=
  o ← open_tx ctx;
  match o with
  | Some t => mret t
  | None => if DBCtxKey ctx then new_tx (MkDBTx false true None "" Working) else panic
  end.

(** Asks the database through the handle of an object. *)
Definition through (tx : DBTx) (f : C -> error * C) : M (Db C) error :=
  match handle tx with
  | Working => on_conn f
  | FailedBegin err => mret (failed_handle err)
  | Replaced => lift_option closed_handle
  end.

(** [WithTx], with a panic as the value [None], so that what it leaves behind can be
    seen. [name]: the savepoint's name, of the time and a random number. The error of
    [Begin] is not looked at; it stays with the handle. *)
Definition try_WithTx (name : string) (ctx : Ctx) : M (Db C) (option (nat * Ctx)) :=
  o ← open_tx ctx;
  match o with
  | Some t =>
      tx ← read_tx t;
      err ← through tx (SAVEPOINT name);
      match err with
      | NilErr => sub ← new_tx (MkDBTx false false (Some t) name (handle tx)); mret (Some (sub, ctx))
      | _ => mret None
      end
  | None =>
      if DBCtxKey ctx then
        err ← on_conn BEGIN;
        t ← new_tx (MkDBTx false false None "" (match err with NilErr => Working | _ => FailedBegin err end));
        mret (Some (t, MkCtx true (Some t)))
      else mret None
  end.

Definition WithTx (name : string) (ctx : Ctx) : M (Db C) (nat * Ctx) :=
  r ← try_WithTx name ctx; lift_option r.

(** [Commit] and [Rollback] close the object whatever the database says; a nested
    one looks at its own handle first, for the logger, and panics when it is closed. *)
Definition closing (m : M (Db C) error) (t : nat) : M (Db C) error :=
  err ← m;
  modify (fun s => MkDb (alter close_tx t (txs s)) (conn s)) ;;
  mret err.

Definition end_top (tx : DBTx) (f : C -> error * C) : M (Db C) error :=
  if automatic tx then match handle tx with Replaced => lift_option closed_handle | _ => mret ErrInvalidTransaction end
  else through tx f.

Definition DBTx_Commit (t : nat) : M (Db C) error :=
  tx ← read_tx t;
  closing
    (match parentTx tx with
     | Some _ =>
         match handle tx with
         | Replaced => panic
         | _ => through tx (RELEASE_SAVEPOINT (savePoint tx))
         end
     | None => end_top tx COMMIT
     end) t.

Definition DBTx_Rollback (t : nat) : M (Db C) error :=
  tx ← read_tx t;
  closing
    (match parentTx tx with
     | Some p =>
         match handle tx with
         | Replaced => panic
         | _ => parent ← read_tx p; through parent (ROLLBACK_TO (savePoint tx))
         end
     | None => end_top tx ROLLBACK
     end) t.

Definition commit_failed (err : error) : error :=
  let msg := "failed to commit trx: " +:+ show err in
  Newf defaults ErrCodeCommitFailed (WrapOne "*fmt.wrapError" msg err) msg callers.

(** [recovered]: a panic that [recover] returned. An error of the rollback is only
    logged. *)
Definition DeferredCommitOrRollback (recovered : bool) (t : nat) (err : error) : M (Db C) deferred :=
  if recovered then mret (Exits 1)
  else
    match err with
    | NilErr =>
        commitErr ← DBTx_Commit t;
        mret (Returns (match commitErr with NilErr => NilErr | _ => commit_failed commitErr end))
    | _ => DBTx_Rollback t ;; mret (Returns err)
    end.

(** ** Programs of transactions

    What a function of a client does: statements, and calls of functions that open a
    transaction and defer its end; it goes on with the error that it gets. *)
Inductive prog :=
| Returned (err : error)
| Raises                                    (** panics *)
| Statement (q : Stmt) (k : error -> prog)
| Nested (name : string) (body : prog) (k : error -> prog).

(** How a function ends; [Exited]: the process is gone. *)
Inductive ending := Ended (err : error) | Exited (code : Z) | Panicked.

Fixpoint run (p : prog) (ctx : Ctx) : M (Db C) ending :=
  match p with
  | Returned err => mret (Ended err)
  | Raises => mret Panicked
  | Statement q k =>
      t ← InTx ctx;
      tx ← read_tx t;
      err ← through tx (EXEC q);
      run (k err) ctx
  | Nested name body k =>
      o ← try_WithTx name ctx;
      match o with
      | None => mret Panicked
      | Some r =>
          e ← run body r.2;
          d ← match e with
              | Ended err => DeferredCommitOrRollback false r.1 err
              | Panicked => DeferredCommitOrRollback true r.1 NilErr
              | Exited code => mret (Exits code)
              end;
          match d with
          | Returns err => run (k err) ctx
          | Exits code => mret (Exited code)
          end
      end
  end.
End database.
Arguments prog : clear implicits.
Arguments Returned {Stmt}. Arguments Raises {Stmt}.

(** Savepoints have new names: [used] are those that may exist. *)
Fixpoint distinct {Stmt} (used : list string) (p : prog Stmt) : Prop :=
  match p with
  | Returned _ | Raises => True
  | Statement _ k => forall err, distinct used (k err)
  | Nested n b k => n ∉ used /\ distinct (n :: used) b /\ forall err, distinct (n :: used) (k err)
  end.

(** ** What SQL promises *)

(** The newest savepoint of a name, with those below it. *)
Fixpoint cut_at {D} (n : string) (sv : list (string * D)) : option (D * list (string * D)) :=
  match sv with
  | [] => None
  | (m, d) :: sv => if bool_decide (m = n) then Some (d, sv) else cut_at n sv
  end.

(** An open transaction: its data and savepoints, newest first; one that an error has
    aborted, in which only the savepoints count; one whose connection is lost. *)
Inductive TxState (D : Type) :=
| Running (d : D) (sv : list (string * D))
| Aborted (sv : list (string * D))
| Lost.
Arguments Running {D}. Arguments Aborted {D}. Arguments Lost {D}.

Definition savepoints {D} (x : TxState D) : list (string * D) :=
  match x with Running _ sv | Aborted sv => sv | Lost => [] end.

(** An error aborts the transaction, or comes of a connection that is lost. *)
Definition broken {D} (x x' : TxState D) : Prop := x' = Lost \/ x <> Lost /\ x' = Aborted (savepoints x).

(** [committed]: the data that others see; [current]: the open transaction. Every
    command may fail. A statement that fails has no effect, and may abort the
    transaction; in a transaction that is aborted or lost every command fails but the
    rollback to a savepoint. A commit that fails may have happened: when its
    reply is lost. A rollback happens, whether it fails or not: the server also rolls
    back when the connection ends. *)
Class SqlLaws (C Stmt D : Type) `{Sql C Stmt} := {
  committed : C -> D;
  current : C -> option (TxState D);
  effect : Stmt -> D -> D;
  BEGIN_law : forall c, current c = None ->
    committed (BEGIN c).2 = committed c /\
    match (BEGIN c).1 with
    | NilErr => current (BEGIN c).2 = Some (Running (committed c) [])
    | _ => current (BEGIN c).2 = None
    end;
  EXEC_law : forall q c x, current c = Some x ->
    committed (EXEC q c).2 = committed c /\ exists x', current (EXEC q c).2 = Some x' /\
    match (EXEC q c).1 with
    | NilErr => exists d sv, x = Running d sv /\ x' = Running (effect q d) sv
    | _ => x' = x \/ broken x x'
    end;
  SAVEPOINT_law : forall n c x, current c = Some x ->
    committed (SAVEPOINT n c).2 = committed c /\ exists x', current (SAVEPOINT n c).2 = Some x' /\
    match (SAVEPOINT n c).1 with
    | NilErr => exists d sv, x = Running d sv /\ x' = Running d ((n, d) :: sv)
    | _ => x' = x \/ broken x x'
    end;
  RELEASE_law : forall n c x d0 rest, current c = Some x -> x = Lost \/ cut_at n (savepoints x) = Some (d0, rest) ->
    committed (RELEASE_SAVEPOINT n c).2 = committed c /\ exists x', current (RELEASE_SAVEPOINT n c).2 = Some x' /\
    match (RELEASE_SAVEPOINT n c).1 with
    | NilErr => exists d, x = Running d (savepoints x) /\ x' = Running d rest
    | _ => broken x x'
    end;
  ROLLBACK_TO_law : forall n c x d0 rest, current c = Some x -> x = Lost \/ cut_at n (savepoints x) = Some (d0, rest) ->
    committed (ROLLBACK_TO n c).2 = committed c /\ exists x', current (ROLLBACK_TO n c).2 = Some x' /\
    (x <> Lost /\ x' = Running d0 ((n, d0) :: rest) \/ broken x x');
  COMMIT_law : forall c x, current c = Some x ->
    current (COMMIT c).2 = None /\
    match (COMMIT c).1 with
    | NilErr => exists sv, x = Running (committed (COMMIT c).2) sv
    | _ => committed (COMMIT c).2 = committed c \/ exists sv, x = Running (committed (COMMIT c).2) sv
    end;
  ROLLBACK_law : forall c x, current c = Some x ->
    current (ROLLBACK c).2 = None /\ committed (ROLLBACK c).2 = committed c;
  failed_handle_law : forall err, err <> NilErr -> failed_handle err <> NilErr;
}.

(** Computes a run of primitive operations. *)
Ltac m_unfold := cbv [mbind M_bind mret M_ret get_state modify lift_option panic on_conn read_tx new_tx closing through end_top].

(** ** The specification: a function that fails has no effect *)
Section spec.
Context {C Stmt D : Type} `{L : SqlLaws C Stmt D}.
Context (defaults : Defaults) (callers : list Frame) (show : error -> string).
Implicit Types (s : Db C) (p : prog Stmt).

Notation commit_failed := (commit_failed defaults callers show).

(** [denotes p d e d']: the function [p], called in a transaction with the data [d], ends
    with [e] and the data [d']. The database may refuse statements, savepoints and
    their release; nothing else fails. *)
Inductive denotes : prog Stmt -> D -> ending -> D -> Prop :=
| d_returned err d : denotes (Returned err) d (Ended err) d
| d_raises d : denotes Raises d Panicked d
| d_statement q k d e d' :
    denotes (k NilErr) (effect q d) e d' -> denotes (Statement q k) d e d'
| d_statement_fails q k err d e d' : err <> NilErr ->
    denotes (k err) d e d' -> denotes (Statement q k) d e d'
| d_nested n b k d d1 e d' :
    denotes b d (Ended NilErr) d1 -> denotes (k NilErr) d1 e d' -> denotes (Nested n b k) d e d'
| d_nested_fails n b k err d d1 e d' : err <> NilErr ->
    denotes b d (Ended err) d1 -> denotes (k err) d e d' -> denotes (Nested n b k) d e d'
| d_nested_unreleased n b k err d d1 e d' : err <> NilErr ->
    denotes b d (Ended NilErr) d1 -> denotes (k (commit_failed err)) d e d' -> denotes (Nested n b k) d e d'
| d_nested_panics n b k d d1 : denotes b d Panicked d1 -> denotes (Nested n b k) d (Exited 1) d
| d_nested_exits n b k code d d1 : denotes b d (Exited code) d1 -> denotes (Nested n b k) d (Exited code) d
| d_no_savepoint n b k d : denotes (Nested n b k) d Panicked d.

Lemma open_tx_run ctx s t x : DBTxCtxKey ctx = Some t -> txs s !! t = Some x -> closed x = false ->
  open_tx ctx s = Some (Some t, s).
Proof using Type. intros Hc Ht Hx. unfold open_tx, GetDBTxFromCtx. m_unfold. by rewrite Hc, Ht, Hx. Qed.

Lemma cut_at_fresh n d0 (extra sv : list (string * D)) : n ∉ extra.*1 -> cut_at n (extra ++ (n, d0) :: sv) = Some (d0, sv).
Proof using Type.
  induction extra as [|[m d] extra IH]; cbn; intros Hn.
  - by rewrite bool_decide_eq_true_2.
  - rewrite bool_decide_eq_false_2 by set_solver. apply IH. set_solver.
Qed.

Lemma alter_last {A} (f : A -> A) (l more : list A) x : alter f (length l) (l ++ x :: more) = l ++ f x :: more.
Proof using Type. rewrite alter_app_r_alt by lia. by rewrite Nat.sub_diag. Qed.

(** A transaction with the data [d], when it still works. *)
Definition holds (x : TxState D) (d : D) (sv : list (string * D)) : Prop := x = Running d sv \/ x = Aborted sv \/ x = Lost.

Lemma holds_broken x x' d d' sv : holds x d sv -> broken x x' -> holds x' d' sv.
Proof using Type. intros [->|[->| ->]] [->|[? ->]]; unfold holds; naive_solver. Qed.

Definition top_tx (h : TxHandle) : DBTx := MkDBTx false false None "" h.
Definition sub_tx (t : nat) (name : string) : DBTx := MkDBTx false false (Some t) name Working.

(** A client inside the transaction [t]. *)
Definition inside (ctx : Ctx) (t : nat) (s : Db C) (d : D) (sv : list (string * D)) : Prop :=
  DBTxCtxKey ctx = Some t /\ exists h, txs s !! t = Some (top_tx h) /\
  match h with
  | Working => exists x, current (conn s) = Some x /\ holds x d sv
  | FailedBegin err => err <> NilErr /\ current (conn s) = None
  | Replaced => False
  end.

Lemma inside_more ctx t s s' d sv more : inside ctx t s d sv -> txs s' = txs s ++ more -> conn s' = conn s ->
  inside ctx t s' d sv.
Proof using Type.
  intros (Hc & h & Ht & Hh) E1 E2. split; [done|]. exists h. rewrite E1, E2. split; [by apply lookup_app_l_Some|done].
Qed.

(** A statement of a client inside. *)
Lemma statement_inside ctx t s d sv q : inside ctx t s d sv -> exists err s',
  (forall k, run defaults callers show (Statement q k) ctx s = run defaults callers show (k err) ctx s') /\ txs s' = txs s /\
  committed (conn s') = committed (conn s) /\
  inside ctx t s' (match err with NilErr => effect q d | _ => d end) sv.
Proof using L.
  intros (Hc & h & Ht & Hh).
  assert (forall k, run defaults callers show (Statement q k) ctx s =
    (err ← through (top_tx h) (EXEC q); run defaults callers show (k err) ctx) s) as Hrun.
  { intros k. cbn [run]. unfold InTx. rewrite (M_bind_run _ _ s t s) by
      (by rewrite (M_bind_run _ _ _ _ _ (open_tx_run _ _ _ _ Hc Ht eq_refl))).
    rewrite (M_bind_run _ _ s (top_tx h) s); [done|]. m_unfold. by rewrite Ht. }
  destruct h as [|err|]; [| |done].
  - destruct Hh as (x & Hx & Hd). destruct (EXEC_law q _ _ Hx) as (E1 & x' & E2 & E3).
    exists (EXEC q (conn s)).1, (MkDb (txs s) (EXEC q (conn s)).2). cbn [txs conn].
    split; [intros k; rewrite Hrun; reflexivity|]. split; [done|]. split; [done|].
    split; [done|]. exists Working. split; [done|]. exists x'. split; [done|].
    destruct (EXEC q (conn s)).1 eqn:Ee.
    1: { destruct E3 as (d1 & sv1 & -> & ->). destruct Hd as [[= -> ->]|[Hd|Hd]]; first [by left|done]. }
    all: destruct E3 as [->|Hb]; [done|by eapply holds_broken].
  - destruct Hh as [Herr Hn]. exists (failed_handle err), s. split; [intros k; rewrite Hrun; reflexivity|].
    pose proof (failed_handle_law _ Herr). split; [done|]. split; [done|]. split; [done|].
    exists (FailedBegin err). split; [done|done].
Qed.

(** Opening a nested transaction: done, or refused with a panic. *)
Lemma try_WithTx_inside ctx t s d sv name : inside ctx t s d sv -> exists s',
  committed (conn s') = committed (conn s) /\
  ((try_WithTx name ctx s = Some (Some (length (txs s), ctx), s') /\ txs s' = txs s ++ [sub_tx t name] /\
    txs s !! t = Some (top_tx Working) /\ current (conn s') = Some (Running d ((name, d) :: sv))) \/
   (try_WithTx name ctx s = Some (None, s') /\ txs s' = txs s /\ inside ctx t s' d sv)).
Proof using L.
  intros (Hc & h & Ht & Hh). unfold try_WithTx. rewrite (M_bind_run _ _ _ _ _ (open_tx_run _ _ _ _ Hc Ht eq_refl)).
  m_unfold. rewrite Ht. cbn [handle top_tx]. destruct h as [|err|]; [|exists s|done].
  - destruct Hh as (x & Hx & Hd). destruct (SAVEPOINT_law name _ _ Hx) as (E1 & x' & E2 & E3).
    destruct (SAVEPOINT name (conn s)).1 eqn:Ee; cbn [fst snd txs conn].
    1: { eexists (MkDb _ _). split; [|left; split; [reflexivity|]]; [done|]. cbn [txs conn].
         destruct E3 as (d1 & sv1 & -> & ->). destruct Hd as [[= -> ->]|[Hd|Hd]]; done. }
    all: eexists (MkDb _ _); split; [|right; split; [reflexivity|split; [reflexivity|]]]; [done|].
    all: split; [done|]; exists Working; split; [done|]; exists x'; split; [exact E2|].
    all: destruct E3 as [->|Hb]; [done|by eapply holds_broken].
  - destruct Hh as [Herr Hn]. split; [done|]. right. pose proof (failed_handle_law _ Herr).
    assert (inside ctx t s d sv) by (split; [done|]; by exists (FailedBegin err)).
    by destruct (failed_handle err).
Qed.

(** How a nested function ends, of what it returned: the error that its caller gets and
    the data. *)
Definition nested_end (err : error) (d0 d1 : D) (err' : error) (d' : D) : Prop :=
  match err with
  | NilErr => err' = NilErr /\ d' = d1 \/ d' = d0 /\ exists e, e <> NilErr /\ err' = commit_failed e
  | _ => err' = err /\ d' = d0
  end.

(** The end of a nested transaction whose object is at [i]. *)
Lemma deferred_nested i t s x d1 d0 extra sv name err l more :
  current (conn s) = Some x -> holds x d1 (extra ++ (name, d0) :: sv) -> name ∉ extra.*1 ->
  txs s = l ++ sub_tx t name :: more -> i = length l -> l !! t = Some (top_tx Working) ->
  exists s' x' left err' d', DeferredCommitOrRollback defaults callers show false i err s = Some (Returns err', s') /\
    txs s' = l ++ close_tx (sub_tx t name) :: more /\ committed (conn s') = committed (conn s) /\
    current (conn s') = Some x' /\ holds x' d' (left ++ sv) /\
    (forall m, m ∈ left.*1 -> m = name \/ m ∈ extra.*1) /\ nested_end err d0 d1 err' d'.
Proof using L.
  intros Hx Hd Hn Ht -> Hp. pose proof (cut_at_fresh name d0 extra sv Hn) as Hcut.
  assert (x = Lost \/ cut_at name (savepoints x) = Some (d0, sv)) as Hsv.
  { destruct Hd as [->|[->| ->]]; cbn; auto. }
  destruct (RELEASE_law name _ _ _ _ Hx Hsv) as (R1 & xr & R2 & R3).
  destruct (ROLLBACK_TO_law name _ _ _ _ Hx Hsv) as (B1 & xb & B2 & B3).
  assert (txs s !! length l = Some (sub_tx t name)) as Hi by (rewrite Ht; by rewrite list_lookup_middle).
  assert (txs s !! t = Some (top_tx Working)) as Htt by (rewrite Ht; by apply lookup_app_l_Some).
  assert (forall m, m ∈ (extra ++ [(name, d0)]).*1 -> m = name \/ m ∈ extra.*1) as Hleft.
  { intros m. rewrite fmap_app, elem_of_app. cbn. set_solver. }
  assert (err = NilErr \/ err <> NilErr) as [->|Hne] by (destruct err; [by left|by right..]).
  - destruct (RELEASE_SAVEPOINT name (conn s)).1 eqn:E;
      unfold DeferredCommitOrRollback, DBTx_Commit; m_unfold; rewrite Hi; cbn [parentTx handle savePoint sub_tx fst snd txs conn];
      rewrite E.
    1: { destruct R3 as (d & Ed & ->). eexists _, _, [], _, _. split; [reflexivity|]. cbn [txs conn]. rewrite Ht, alter_last.
         split_and!; [done|done|exact R2|by left|set_solver|]. left. split; [done|].
         destruct Hd as [->|[->| ->]]; [by injection Ed|done..]. }
    all: eexists _, _, (extra ++ [(name, d0)]), _, d0; split; [reflexivity|]; cbn [txs conn]; rewrite Ht, alter_last;
      split_and!; [done|done|exact R2| |done|right; split; [done|]; eexists; split; [|reflexivity]; done].
    all: rewrite <- app_assoc; cbn [app]; by eapply holds_broken.
  - assert (DeferredCommitOrRollback defaults callers show false (length l) err s =
      Some (Returns err, MkDb (alter close_tx (length l) (txs s)) (ROLLBACK_TO name (conn s)).2)) as E.
    { unfold DeferredCommitOrRollback, DBTx_Rollback.
      destruct err; [done|..]; m_unfold; rewrite Hi; cbn [parentTx handle savePoint sub_tx fst snd txs conn]; by rewrite Htt. }
    assert (exists left, holds xb d0 (left ++ sv) /\ forall m, m ∈ left.*1 -> m = name \/ m ∈ extra.*1) as (left & Hb & Hl).
    { destruct B3 as [[_ ->]|Hb]; [exists [(name, d0)]; split; [by left|set_solver]|].
      exists (extra ++ [(name, d0)]). split; [|done]. rewrite <- app_assoc. cbn [app]. by eapply holds_broken. }
    eexists _, xb, left, _, d0. split; [exact E|]. cbn [txs conn]. rewrite Ht, alter_last.
    split_and!; [done|done|done|done|done|]. by destruct err.
Qed.

Notation run := (run defaults callers show).

Lemma run_inside p used ctx t s d sv : distinct used p -> inside ctx t s d sv ->
  exists e s' more d', run p ctx s = Some (e, s') /\ committed (conn s') = committed (conn s) /\
    txs s' = txs s ++ more /\ denotes p d e d' /\
    ((forall code, e <> Exited code) -> Forall (fun t => closed t = true) more /\
      exists extra, inside ctx t s' d' (extra ++ sv) /\ forall m, m ∈ extra.*1 -> m ∉ used).
Proof using L.
  revert used ctx t s d sv. induction p as [err0| |q k IH|name b IHb k IHk]; intros used ctx t s d sv Hdis Hin.
  - exists (Ended err0), s, [], d. rewrite app_nil_r. split_and!; [done..|constructor|].
    intros _. split; [done|]. exists []. split; [done|]. set_solver.
  - exists Panicked, s, [], d. rewrite app_nil_r. split_and!; [done..|constructor|].
    intros _. split; [done|]. exists []. split; [done|]. set_solver.
  - destruct (statement_inside ctx t s d sv q Hin) as (err & s1 & Hr & Ht & Hc & Hin1).
    destruct (IH err used ctx t s1 _ sv (Hdis err) Hin1) as (e & s' & more & d' & Hr' & Hc' & Ht' & Hd & Hend).
    exists e, s', more, d'. rewrite Hc', Hc, Ht', Ht. split_and!; [|done|done| |done].
    + by rewrite Hr.
    + destruct err; [by apply d_statement|eapply d_statement_fails; [|exact Hd]; done..].
  - destruct Hdis as (Hn & Hdb & Hdk).
    destruct (try_WithTx_inside ctx t s d sv name Hin) as (s1 & Hc1 & [(Hr1 & Ht1 & Htop & Hx1)|(Hr1 & Ht1 & Hin1)]).
    2:{ exists Panicked, s1, [], d. rewrite app_nil_r. split_and!; [|done..|constructor|].
        2:{ intros _. split; [done|]. exists []. split; [done|]. set_solver. }
        cbn [Database.run]. by rewrite (M_bind_run _ _ _ _ _ Hr1). }
    assert (inside ctx t s1 d ((name, d) :: sv)) as Hin1.
    { destruct Hin as [Hctx _]. split; [done|]. exists Working. split; [rewrite Ht1; by apply lookup_app_l_Some|].
      eexists. split; [exact Hx1|by left]. }
    destruct (IHb _ ctx t s1 d _ Hdb Hin1) as (e & s2 & more & d1 & Hr2 & Hc2 & Ht2 & Hd2 & Hend).
    assert (forall r, (d0 ← match e with
        | Ended err => DeferredCommitOrRollback defaults callers show false (length (txs s)) err
        | Panicked => DeferredCommitOrRollback defaults callers show true (length (txs s)) NilErr
        | Exited code => mret (Exits code)
        end; match d0 with Returns err => run (k err) ctx | Exits code => mret (Exited code) end) s2 = r ->
      run (Nested name b k) ctx s = r) as Hrun.
    { intros r <-. cbn [Database.run]. rewrite (M_bind_run _ _ _ _ _ Hr1). cbn [fst snd].
      by rewrite (M_bind_run _ _ _ _ _ Hr2). }
    rewrite Ht1, <- app_assoc in Ht2. cbn [app] in Ht2.
    destruct e as [err|code|].
    2: { exists (Exited code), s2, (sub_tx t name :: more), d. rewrite Hc2, Hc1, Ht2.
         split_and!; [by apply Hrun|done..|by eapply d_nested_exits|]. by intros []%(fun H => H code). }
    2: { exists (Exited 1), s2, (sub_tx t name :: more), d. rewrite Hc2, Hc1, Ht2.
         split_and!; [by apply Hrun|done..|by eapply d_nested_panics|]. by intros []%(fun H => H 1). }
    destruct (Hend ltac:(done)) as (Hm & extra & (Hctx & h & Hh & Hs) & Hex).
    assert (h = Working) as ->.
    { rewrite Ht2 in Hh. rewrite (lookup_app_l_Some _ _ _ _ Htop) in Hh. by injection Hh. }
    destruct Hs as (x & Hx & Hd). clear Hend.
    destruct (deferred_nested (length (txs s)) t s2 x d1 d extra sv name err (txs s) more Hx Hd) as
      (s3 & x3 & left & err' & d3 & Hr3 & Ht3 & Hc3 & Hx3 & Hh3 & Hl & Hne); [|done..|].
    { intros Hi. apply (Hex name Hi). left. }
    assert (inside ctx t s3 d3 (left ++ sv)) as Hin3.
    { split; [done|]. exists Working. split; [rewrite Ht3; by apply lookup_app_l_Some|]. by exists x3. }
    destruct (IHk err' _ ctx t s3 d3 _ (Hdk err') Hin3) as (e & s4 & more4 & d4 & Hr4 & Hc4 & Ht4 & Hd4 & Hend4).
    exists e, s4, (close_tx (sub_tx t name) :: more ++ more4), d4. split_and!.
    + apply Hrun. by rewrite (M_bind_run _ _ _ _ _ Hr3).
    + congruence.
    + by rewrite Ht4, Ht3, <- app_assoc.
    + unfold nested_end in Hne. destruct err.
      1: { destruct Hne as [[-> ->]|(-> & e' & He' & ->)]; [by eapply d_nested|by eapply d_nested_unreleased]. }
      all: destruct Hne as [-> ->]; eapply d_nested_fails; [|exact Hd2|exact Hd4]; done.
    + intros He. destruct (Hend4 He) as (Hm4 & ex4 & Hin4 & Hex4). split.
      * constructor; [done|]. by apply Forall_app.
      * exists (ex4 ++ left). rewrite <- app_assoc. split; [done|]. intros m.
        rewrite fmap_app, elem_of_app. intros [Hi|Hi]; [specialize (Hex4 m Hi); set_solver|].
        destruct (Hl m Hi) as [->|Hi']; [done|]. specialize (Hex m Hi'). set_solver.
Qed.

(** What the end of the outermost transaction reports, of what the function returned and
    of the error of its commit or rollback. *)
Definition top_end (err closing_err : error) : error :=
  match err with
  | NilErr => match closing_err with NilErr => NilErr | _ => commit_failed closing_err end
  | _ => err
  end.

Lemma rollback_top ctx t s d sv : inside ctx t s d sv -> exists e c,
  DBTx_Rollback t s = Some (e, MkDb (alter close_tx t (txs s)) c) /\ current c = None /\ committed c = committed (conn s) /\
  (c = conn s /\ txs s !! t <> Some (top_tx Working) /\ e <> NilErr \/ c = (ROLLBACK (conn s)).2 /\ e = (ROLLBACK (conn s)).1).
Proof using L.
  intros (Hctx & h & Ht & Hh). unfold DBTx_Rollback. destruct h as [|eb|]; [| |done].
  - destruct Hh as (x & Hx & Hd). destruct (ROLLBACK_law _ _ Hx) as [R1 R2]. eexists _, _. split; [|split_and!; [exact R1|exact R2|by right]].
    m_unfold. rewrite Ht. reflexivity.
  - destruct Hh as [Heb Hn]. pose proof (failed_handle_law _ Heb) as Hf. eexists _, (conn s). split.
    + m_unfold. rewrite Ht. reflexivity.
    + split; [done|]. split; [done|]. left. by rewrite Ht.
Qed.

(** The end of the outermost transaction. *)
Lemma deferred_top ctx t s d sv err : inside ctx t s d sv -> exists s' e,
  DeferredCommitOrRollback defaults callers show false t err s = Some (Returns (top_end err e), s') /\
  txs s' = alter close_tx t (txs s) /\ current (conn s') = None /\
  (txs s !! t <> Some (top_tx Working) /\ e <> NilErr \/ conn s' = (match err with NilErr => COMMIT | _ => ROLLBACK end (conn s)).2 /\
    e = (match err with NilErr => COMMIT | _ => ROLLBACK end (conn s)).1) /\
  match err with
  | NilErr =>
      committed (conn s') = d \/ e <> NilErr /\ committed (conn s') = committed (conn s)
  | _ => committed (conn s') = committed (conn s)
  end.
Proof using L.
  intros Hin. assert (err = NilErr \/ err <> NilErr) as [->|Hne] by (destruct err; [by left|by right..]).
  - destruct Hin as (Hctx & h & Ht & Hh). unfold DeferredCommitOrRollback, DBTx_Commit. destruct h as [|eb|]; [| |done].
    + destruct Hh as (x & Hx & Hd). destruct (COMMIT_law _ _ Hx) as [C1 C2]. eexists (MkDb _ _), (COMMIT (conn s)).1.
      split; [m_unfold; rewrite Ht; reflexivity|]. cbn [txs conn]. split; [done|]. split; [done|]. split; [by right|].
      destruct (COMMIT (conn s)).1 eqn:E.
      1: { left. destruct C2 as (sv' & E'). destruct Hd as [->|[->| ->]]; first [by injection E'|discriminate E']. }
      all: destruct C2 as [C2|(sv' & E')]; [by right|]; left; destruct Hd as [->|[->| ->]]; first [by injection E'|discriminate E'].
    + destruct Hh as [Heb Hn]. pose proof (failed_handle_law _ Heb) as Hf.
      exists (MkDb (alter close_tx t (txs s)) (conn s)), (failed_handle eb). cbn [txs conn].
      split; [m_unfold; rewrite Ht; reflexivity|]. rewrite Ht.
      split_and!; [done|done|by left|right; by split].
  - destruct (rollback_top _ _ _ _ _ Hin) as (e & c & Hr & Hn & Hc & He). exists (MkDb (alter close_tx t (txs s)) c), e.
    cbn [txs conn]. unfold DeferredCommitOrRollback. split; [destruct err; [done|..]; by rewrite (M_bind_run _ _ _ _ _ Hr)|].
    split; [done|]. split; [done|]. destruct err; [done|..]; (split; [|done]); by destruct He as [(_ & ? & ?)|[? ?]]; [left|right].
Qed.

(** The beginning of the outermost transaction. *)
Lemma try_WithTx_top name s : current (conn s) = None -> exists s1,
  let ctx := MkCtx true (Some (length (txs s))) in
  try_WithTx name (MkCtx true None) s = Some (Some (length (txs s), ctx), s1) /\
  (exists h, txs s1 = txs s ++ [top_tx h] /\ ((BEGIN (conn s)).1 = NilErr -> h = Working)) /\
  committed (conn s1) = committed (conn s) /\ inside ctx (length (txs s)) s1 (committed (conn s)) [].
Proof using L.
  intros Hcur. destruct (BEGIN_law _ Hcur) as [B1 B2]. eexists (MkDb _ _). split; [reflexivity|]. cbn [txs conn].
  split; [eexists; split; [reflexivity|by intros ->]|]. split; [done|]. split; [done|]. eexists.
  split; [cbn [txs]; by rewrite lookup_app_r, Nat.sub_diag|]. cbn [conn].
  destruct (BEGIN (conn s)).1; [by eexists; split; [|left]|done..].
Qed.
Lemma WithTx_run name ctx s r s' : try_WithTx name ctx s = Some (Some r, s') -> WithTx name ctx s = Some (r, s').
Proof using Type. intros Hr. unfold WithTx. by rewrite (M_bind_run _ _ _ _ _ Hr). Qed.
End spec.

(** C23: a function that opens a transaction and defers its end, calling functions that
    do the same, at any depth, over a database that may refuse each of its commands. What
    the function and those inside do follows [denotes]: of the functions that are
    called inside, only those to which the caller gets no error leave anything behind. When the
    outermost function returns an error, nothing is committed, and the error is
    what its caller gets. When it returns none, the caller gets none exactly if the
    commit succeeds, and then everything is committed; when the commit fails its error
    is reported, and all or nothing is committed. No transaction stays open. A panic
    inside, the client's or that of a savepoint that is refused, ends the process with
    code 1, with nothing committed. *)
Theorem transactions_all_or_nothing {C Stmt D} `{L : SqlLaws C Stmt D} defaults callers show
    (s : Db C) name (body : prog Stmt) :
  distinct [] body -> current (conn s) = None ->
  let before := committed (conn s) in
  exists r s' d', denotes defaults callers show body before r d' /\
    match r with
    | Ended err => exists closing_err,
        run defaults callers show (Nested name body Returned) (MkCtx true None) s =
          Some (Ended (top_end defaults callers show err closing_err), s') /\
        match err with
        | NilErr => committed (conn s') = d' \/ closing_err <> NilErr /\ committed (conn s') = before
        | _ => committed (conn s') = before
        end /\
        (exists c, conn s' = (match err with NilErr => COMMIT | _ => ROLLBACK end c).2 /\
           closing_err = (match err with NilErr => COMMIT | _ => ROLLBACK end c).1 \/
         (BEGIN (conn s)).1 <> NilErr /\ closing_err <> NilErr) /\
        current (conn s') = None /\ Forall (fun t => closed t = true) (drop (length (txs s)) (txs s'))
    | Exited code =>
        run defaults callers show (Nested name body Returned) (MkCtx true None) s = Some (Exited code, s') /\
        committed (conn s') = before
    | Panicked =>
        run defaults callers show (Nested name body Returned) (MkCtx true None) s = Some (Exited 1, s') /\
        committed (conn s') = before
    end.
Proof.
  intros Hdis Hcur. cbv zeta.
  destruct (try_WithTx_top name s Hcur) as (s1 & Hr1 & (h & Ht1 & Hh) & Hc1 & Hin). cbv zeta in Hr1, Hin.
  destruct (run_inside defaults callers show body [] _ _ s1 _ [] Hdis Hin) as (r & s2 & more & d' & Hr2 & Hc2 & Ht2 & Hd & Hend).
  exists r. cbn [run]. destruct r as [err|code|].
  - destruct (Hend ltac:(done)) as (Hm & extra & Hin2 & _).
    destruct (deferred_top defaults callers show _ _ _ _ _ err Hin2) as (s3 & e & Hr3 & Ht3 & Hcur3 & Hend3 & Hc3).
    exists s3, d'. split; [done|]. exists e. split_and!.
    + rewrite (M_bind_run _ _ _ _ _ Hr1). cbn [fst snd]. rewrite (M_bind_run _ _ _ _ _ Hr2).
      by rewrite (M_bind_run _ _ _ _ _ Hr3).
    + rewrite Hc2, Hc1 in Hc3. by destruct err.
    + destruct Hend3 as [[E He]|[E He]]; [|exists (conn s2); by left]. exists (conn s2). right. split; [|done].
      intros EB. apply E. rewrite Ht2, Ht1, (Hh EB). apply lookup_app_l_Some. by rewrite lookup_app_r, Nat.sub_diag.
    + done.
    + rewrite Ht3, Ht2, Ht1, <- app_assoc. cbn [app]. rewrite alter_last, drop_app_length. by constructor.
  - exists s2, d'. split; [done|]. split; [|congruence]. rewrite (M_bind_run _ _ _ _ _ Hr1). cbn [fst snd].
    by rewrite (M_bind_run _ _ _ _ _ Hr2).
  - exists s2, d'. split; [done|]. split; [|congruence]. rewrite (M_bind_run _ _ _ _ _ Hr1). cbn [fst snd].
    by rewrite (M_bind_run _ _ _ _ _ Hr2).
Qed.

(** ** A database, for the witness: it refuses to write the key "" *)
Definition mini_tx_state : Type := TxState (gmap string Z).
Record MiniDb := MkMiniDb { mini_data : gmap string Z; mini_tx : option mini_tx_state }.

Definition no_tx : error := OpaqueErr "*pgconn.PgError" "there is no transaction in progress".
Definition tx_aborted : error := OpaqueErr "*pgconn.PgError" "current transaction is aborted".

(** A command in a transaction that works: its data and savepoints afterwards; [None]: refused. *)
Definition in_mini (f : gmap string Z -> list (string * gmap string Z) -> option mini_tx_state) (c : MiniDb) : error * MiniDb :=
  match mini_tx c with
  | Some (Running d sv) =>
      match f d sv with
      | Some x => (NilErr, MkMiniDb (mini_data c) (Some x))
      | None => (tx_aborted, MkMiniDb (mini_data c) (Some (Aborted sv)))
      end
  | Some _ => (tx_aborted, c)
  | None => (no_tx, c)
  end.

#[export] Instance Mini_Sql : Sql MiniDb (string * Z) := {
  EXEC q := in_mini (fun d sv => if bool_decide (q.1 = "") then None else Some (Running (<[q.1 := q.2]> d) sv));
  BEGIN c := (NilErr, MkMiniDb (mini_data c) (Some (Running (mini_data c) [])));
  COMMIT c :=
    match mini_tx c with
    | Some (Running d _) => (NilErr, MkMiniDb d None)
    | Some _ => (tx_aborted, MkMiniDb (mini_data c) None)
    | None => (no_tx, c)
    end;
  ROLLBACK c := match mini_tx c with Some _ => (NilErr, MkMiniDb (mini_data c) None) | None => (no_tx, c) end;
  SAVEPOINT n := in_mini (fun d sv => Some (Running d ((n, d) :: sv)));
  RELEASE_SAVEPOINT n := in_mini (fun d sv =>
    match cut_at n sv with Some (_, rest) => Some (Running d rest) | None => None end);
  ROLLBACK_TO n c :=
    match mini_tx c with
    | Some x =>
        match cut_at n (savepoints x) with
        | Some (d0, rest) => (NilErr, MkMiniDb (mini_data c) (Some (Running d0 ((n, d0) :: rest))))
        | None => (tx_aborted, c)
        end
    | None => (no_tx, c)
    end;
  ErrInvalidTransaction := OpaqueErr "*errors.errorString" "invalid transaction";
  failed_handle err := err;
  closed_handle := None;
}.

#[export] Instance Mini_SqlLaws : SqlLaws MiniDb (string * Z) (gmap string Z).
Proof.
  refine {| committed := mini_data; current := mini_tx; effect q d := <[q.1 := q.2]> d |};
    cbn [EXEC BEGIN COMMIT ROLLBACK SAVEPOINT RELEASE_SAVEPOINT ROLLBACK_TO failed_handle Mini_Sql]; unfold in_mini.
  - done.
  - intros q c x E. rewrite E. destruct x as [d sv|sv|]; cbn; [case_bool_decide; cbn|..]; (split; [done|]); eexists;
      (split; [exact E || reflexivity|]); [right; right; by split|by eauto..].
  - intros n c x E. rewrite E. destruct x as [d sv|sv|]; cbn; (split; [done|]); eexists; (split; [exact E || reflexivity|]); by eauto.
  - intros n c x d0 rest E Hx. rewrite E. destruct x as [d sv|sv|]; cbn in *.
    + destruct Hx as [|Hx]; [done|]. rewrite Hx. cbn. split; [done|]. eexists. split; [reflexivity|]. by eauto.
    + split; [done|]. eexists. split; [exact E|]. by right.
    + split; [done|]. eexists. split; [exact E|]. by left.
  - intros n c x d0 rest E Hx. rewrite E. destruct x as [d sv|sv|]; cbn in *.
    1,2: destruct Hx as [|Hx]; [done|]; rewrite Hx; cbn; split; [done|]; eexists; (split; [reflexivity|]); by left.
    split; [done|]. eexists. split; [exact E|]. right. by left.
  - intros c x E. rewrite E. destruct x; cbn; (split; [done|]); by eauto.
  - intros c x E. rewrite E. by destruct x.
  - done.
Defined.

(** An outer function that writes [a]; calls a function that writes [b] and then fails
    with the error of a statement that is refused; and calls one that writes [c]. *)
Definition sample_tx : prog (string * Z) :=
  Statement ("a", 1) (fun _ =>
    Nested "p" (Statement ("b", 2) (fun _ => Statement ("", 9) Returned)) (fun _ =>
      Nested "q" (Statement ("c", 3) Returned) Returned)).

(** A function that does not look at the error of its statement. *)
Definition careless_tx : prog (string * Z) := Statement ("a", 1) (fun _ => Statement ("", 9) (fun _ => Returned NilErr)).

Lemma transactions_all_or_nothing_witness :
  let at_top p := run initial_defaults [] (fun _ => "") (Nested "o" p Returned) (MkCtx true None) (MkDb [] (MkMiniDb ∅ None)) in
  (exists s', at_top sample_tx = Some (Ended NilErr, s') /\ mini_data (conn s') = <["c" := 3]> (<["a" := 1]> ∅)) /\
  (exists err s', at_top careless_tx = Some (Ended err, s') /\ err <> NilErr /\ mini_data (conn s') = ∅).
Proof.
  intros at_top.
  assert (exists s', at_top sample_tx = Some (Ended NilErr, s') /\ mini_data (conn s') = <["c" := 3]> (<["a" := 1]> ∅)) as Hs
    by (eexists; split; [vm_compute; reflexivity|vm_compute; reflexivity]).
  split; [exact Hs|].
  destruct (transactions_all_or_nothing (L:=Mini_SqlLaws) initial_defaults [] (fun _ => "") (MkDb [] (MkMiniDb ∅ None)) "o" careless_tx)
    as (r & s' & d' & _ & Hr); [by repeat split|reflexivity|].
  assert (at_top careless_tx = Some (Ended (commit_failed initial_defaults [] (fun _ => "") tx_aborted),
    MkDb [close_tx (top_tx Working)] (MkMiniDb ∅ None))) as E by (vm_compute; reflexivity).
  destruct r as [err|code|]; [destruct Hr as (e & Hr & _)|destruct Hr as [Hr _]..]; 
    pose proof (eq_trans (eq_sym E) Hr) as Heq; [|discriminate Heq..].
  injection Heq as He Hs'. eexists _, _. split; [exact Hr|]. rewrite <- He, <- Hs'. by split.
Defined.

(** A function that does not look at the error of a statement and calls one that opens a
    transaction inside: the savepoint is refused, and the process ends. *)
Lemma refused_savepoint_exits : exists s',
  run initial_defaults [] (fun _ => "")
    (Nested "o" (Statement ("", 9) (fun _ => Nested "p" (Returned NilErr) Returned)) Returned) (MkCtx true None)
    (MkDb [] (MkMiniDb ∅ None)) = Some (Exited 1, s').
Proof. eexists. vm_compute. reflexivity. Qed.
