(* ===== verification/Connections.v ===== *)
(** * database, redis: opening connections, and their health

    Models the rest of [database/database.go] (how a connection is described and opened,
    the database of a context), [redis/redis.go] and the health checks of
    [rest/providers].  The drivers are parameters: what opening, a query or a ping
    returns. *)

From S2P Require Import Prelude.
From S2P Require Import GoStrings.
From S2P Require Import Errors.
From S2P Require Import Database.
From Stdlib Require Import Ascii.
From stdpp Require Import pretty.

Open Scope string_scope.
Open Scope list_scope.
Open Scope Z_scope.

(** ** Opening

    A constructor ends with a value or panics with a message and the error behind it; the
    [log] are the texts written on the way. *)
Inductive opened (A : Type) := Opened (a : A) (log : list string) | Panics (code msg : string) (cause : error).
Arguments Opened {A}. Arguments Panics {A}.

Record DatabaseConfig := MkDbConf { db_Host : string; db_Port : Z; db_User : string; db_Pass : string }.
(** What connections use of the configuration. *)
Record ConnConf := MkConnConf {
  cc_name : string; cc_env_type : string; cc_env_name : string; cc_tracing : bool;
  cc_database : DatabaseConfig; cc_redis_url : string;
}.
Definition EnvTypeTest : string := "test".

Definition dsn (dbConf : DatabaseConfig) (dbName : string) : string :=
  "host='" +:+ db_Host dbConf +:+ "' user='" +:+ db_User dbConf +:+ "' password='" +:+ db_Pass dbConf +:+
  "' dbname='" +:+ dbName +:+ "' port=" +:+ pretty (db_Port dbConf).

Section connections.
Context {Gorm Client : Type}.
(** [gorm.Open] over the driver, with tracing or not. *)
Context (gorm_open : bool -> string -> Gorm + error).
Context (env_text : ConnConf -> string).  (** [%+v] of the environment *)

Definition MustOpenGORM (conf : ConnConf) (dbName : string) : opened Gorm :=
  let dsn := dsn (cc_database conf) dbName in
  match gorm_open (cc_tracing conf) dsn with
  | inr err =>
      let dsn := ReplaceAll dsn ("'" +:+ db_Pass (cc_database conf) +:+ "'") "*" in
      Panics ErrCodeUnknown ("could not connect to DB: " +:+ dsn) err
  | inl db => Opened db ["DB connection established: " +:+ char 34 +:+ dbName +:+ char 34]
  end.

(** [DB]: gorm's handle, nil or not, and the name. *)
Record DB := MkDB { DB_DB : option Gorm; DbName : string }.

Definition NewDB (conf : ConnConf) : opened DB :=
  if bool_decide (cc_env_type conf = EnvTypeTest) then Panics ErrCodeBadState ("in a test: " +:+ env_text conf) NilErr
  else
    let dbName := CreateDBName (cc_name conf) (cc_env_name conf) in
    match MustOpenGORM conf dbName with
    | Opened db log => Opened (MkDB (Some db) dbName) log
    | Panics code msg err => Panics code msg err
    end.

(** The context of file Database: whether it holds a database. *)
Definition SetCtx (d : DB) (c : Ctx) : Ctx :=
  match DB_DB d with None => c | Some _ => MkCtx true (DBTxCtxKey c) end.
(** A handle with the context; [None]: nil. *)
Definition GetDBFromCtx (c : Ctx) : option Ctx := if DBCtxKey c then Some c else None.

(** [Exec("SELECT 1").Error]; a nil handle panics. *)
Context (select_1 : Gorm -> error).
Definition HealthCheck (d : DB) : option error := select_1 <$> DB_DB d.

(** Closing the pool: [sql_db] is [gorm.DB.DB]. *)
Definition OnDBStop {Pool : Type} (sql_db : Gorm -> Pool + error) (close : Pool -> error) (d : DB) : option error :=
  db ← DB_DB d;
  Some (match sql_db db with inr err => err | inl pool => close pool end).

(** ** Redis

    [parse]: [redis.ParseURL] and [redis.NewClient]; [ping]: the error of a ping. *)
Context (parse : string -> Client + error) (ping : Client -> error).

Definition MustOpenRedis (conf : ConnConf) : opened Client :=
  match parse (cc_redis_url conf) with
  | inr err => Panics ErrCodeBadArgument ("failed to parse redis url: " +:+ cc_redis_url conf) err
  | inl rds =>
      match ping rds with
      | NilErr => Opened rds ["Connected to redis: " +:+ cc_redis_url conf]
      | err => Panics ErrCodeUnknown "failed to connect to redis" err
      end
  end.

Definition NewRedis (conf : ConnConf) : opened Client :=
  if bool_decide (cc_env_type conf = EnvTypeTest) then Panics ErrCodeBadState ("in a test: " +:+ env_text conf) NilErr
  else MustOpenRedis conf.

Definition Redis_HealthCheck (client : Client) : error := ping client.
Definition OnStop (close : Client -> error) (client : Client) : error := close client.

(** ** Health checks of the connections: without a connection there is none *)
Inductive provider := DatabaseProvider (db : Gorm) | RedisProvider (client : Client).
Definition NewDatabaseHealthCheckProvider (d : DB) : option provider := DatabaseProvider <$> DB_DB d.
Definition NewRedisHealthCheckProvider (redis : option Client) : option provider := RedisProvider <$> redis.
Definition GetName (p : provider) : string := match p with DatabaseProvider _ => "DB" | RedisProvider _ => "Redis" end.
Definition provider_HealthCheck (p : provider) : error :=
  match p with DatabaseProvider db => select_1 db | RedisProvider client => Redis_HealthCheck client end.
End connections.
Arguments DB : clear implicits.

(** ** The documented grammar of connection strings

    Pairs [key=value] with blanks between; a value is bare up to a blank or in single
    quotes; a backslash takes the next byte as it is. *)
Inductive dmode :=
| DGap | DKey (k : string) | DEqual (k : string)
| DValue (k : string)
| DBare (k v : string) | DBareEsc (k v : string) | DQuoted (k v : string) | DQuotedEsc (k v : string).
Definition dstate : Type := dmode * list (string * string).

Definition snoc (s : string) (c : ascii) : string := s +:+ String c "".
Definition is_blank (c : ascii) : bool := Ascii.eqb c " ".
Definition squote : ascii := ascii_of_N 39.
Definition backslash : ascii := "\"%char.

Definition dsn_step (x : dstate) (c : ascii) : option dstate :=
  let '(m, l) := x in
  match m with
  | DGap => if is_blank c then Some x else if Ascii.eqb c "=" then None else Some (DKey (String c ""), l)
  | DKey k => if Ascii.eqb c "=" then Some (DValue k, l) else if is_blank c then Some (DEqual k, l) else Some (DKey (snoc k c), l)
  | DEqual k => if is_blank c then Some x else if Ascii.eqb c "=" then Some (DValue k, l) else None
  | DValue k =>
      if is_blank c then Some x
      else if Ascii.eqb c squote then Some (DQuoted k "", l)
      else if Ascii.eqb c backslash then Some (DBareEsc k "", l)
      else Some (DBare k (String c ""), l)
  | DBare k v =>
      if is_blank c then Some (DGap, l ++ [(k, v)])
      else if Ascii.eqb c backslash then Some (DBareEsc k v, l)
      else Some (DBare k (snoc v c), l)
  | DBareEsc k v => Some (DBare k (snoc v c), l)
  | DQuoted k v =>
      if Ascii.eqb c squote then Some (DGap, l ++ [(k, v)])
      else if Ascii.eqb c backslash then Some (DQuotedEsc k v, l)
      else Some (DQuoted k (snoc v c), l)
  | DQuotedEsc k v => Some (DQuoted k (snoc v c), l)
  end.

Fixpoint dsn_run (x : dstate) (s : string) : option dstate :=
  match s with EmptyString => Some x | String c s => x ← dsn_step x c; dsn_run x s end.
Definition read_settings (s : string) : option (list (string * string)) :=
  match dsn_run (DGap, []) s with
  | Some (DGap, l) => Some l
  | Some (DValue k, l) => Some (l ++ [(k, "")])
  | Some (DBare k v, l) => Some (l ++ [(k, v)])
  | _ => None
  end.

Fixpoint all_chars (f : ascii -> bool) (s : string) : bool :=
  match s with EmptyString => true | String c s => f c && all_chars f s end.
(** Values that need no escape within quotes, and bare ones. *)
Definition quotable (s : string) : bool := all_chars (fun c => negb (Ascii.eqb c squote) && negb (Ascii.eqb c backslash)) s.
Definition bare_char (c : ascii) : bool := negb (is_blank c) && negb (Ascii.eqb c squote) && negb (Ascii.eqb c backslash).

Lemma dsn_run_app x a b : dsn_run x (a +:+ b) = (x ← dsn_run x a; dsn_run x b).
Proof.
  revert x. induction a as [|c a IH]; intros x; [done|]. rewrite string_app_String. cbn [dsn_run].
  destruct (dsn_step x c) as [y|]; cbn [mbind option_bind]; [apply IH|done].
Qed.

Lemma snoc_app v c s : snoc v c +:+ s = v +:+ String c s.
Proof. unfold snoc. by rewrite app_assoc_string. Qed.

Lemma dsn_run_quoted k v l s : quotable s = true ->
  dsn_run (DQuoted k v, l) s = Some (DQuoted k (v +:+ s), l).
Proof.
  revert v. induction s as [|c s IH]; intros v; [by rewrite app_empty_r|]. unfold quotable. cbn [all_chars].
  intros [[Hq Hb]%andb_true_iff Hs]%andb_true_iff. rewrite negb_true_iff in *. cbn [dsn_run dsn_step]. rewrite Hq, Hb.
  cbn [mbind option_bind]. rewrite IH by done. by rewrite snoc_app.
Qed.

Lemma dsn_run_bare k v l s : all_chars bare_char s = true ->
  dsn_run (DBare k v, l) s = Some (DBare k (v +:+ s), l).
Proof.
  revert v. induction s as [|c s IH]; intros v; [by rewrite app_empty_r|]. cbn [all_chars].
  unfold bare_char at 1. intros [[[Hg _]%andb_true_iff Hb]%andb_true_iff Hs]%andb_true_iff. rewrite negb_true_iff in *.
  cbn [dsn_run dsn_step]. rewrite Hg, Hb. cbn [mbind option_bind]. rewrite IH by done. by rewrite snoc_app.
Qed.

(** *** Numbers are bare *)
Lemma pretty_N_go_chars (x : N) s : all_chars bare_char s = true -> all_chars bare_char (pretty_N_go x s) = true.
Proof.
  revert s. induction (N.lt_wf_0 x) as [x _ IH]. intros s Hs.
  destruct (decide (0 < x)%N) as [Hx|Hx].
  - rewrite pretty_N_go_step by done. apply IH; [apply N.div_lt; lia|]. cbn [all_chars]. rewrite Hs, andb_true_r.
    unfold pretty_N_char. repeat case_match; reflexivity.
  - by replace x with 0%N by lia.
Qed.
Lemma pretty_pos_chars (x : positive) : all_chars bare_char (pretty x) = true.
Proof. change (pretty x) with (pretty_N_go (N.pos x) ""). by apply pretty_N_go_chars. Qed.
Lemma pretty_Z_chars (z : Z) : all_chars bare_char (pretty z) = true.
Proof.
  unfold pretty, pretty_Z. destruct z as [|x|x]; [done|apply pretty_pos_chars|].
  rewrite string_app_String. cbn [all_chars]. by rewrite string_app_nil, pretty_pos_chars.
Qed.

(** A bare value at the end. *)
Lemma dsn_run_last k l s : all_chars bare_char s = true ->
  match dsn_run (DValue k, l) s with
  | Some (DValue k, l) => Some (l ++ [(k, "")])
  | Some (DBare k v, l) => Some (l ++ [(k, v)])
  | _ => None
  end = Some (l ++ [(k, s)]).
Proof.
  destruct s as [|c s]; [done|]. cbn [all_chars]. unfold bare_char at 1.
  intros [[[Hg Hq]%andb_true_iff Hb]%andb_true_iff Hs]%andb_true_iff. rewrite negb_true_iff in *.
  cbn [dsn_run dsn_step]. rewrite Hg, Hq, Hb. cbn [mbind option_bind]. by rewrite dsn_run_bare.
Qed.

(** A key and its quoted value, up to the closing quote. *)
Lemma dsn_run_pair k l v rest : quotable v = true ->
  dsn_run (DGap, l) (k +:+ "='") = Some (DQuoted k "", l) ->
  dsn_run (DGap, l) (k +:+ ("='" +:+ (v +:+ ("' " +:+ rest)))) = dsn_run (DGap, l ++ [(k, v)]) rest.
Proof.
  intros Hv Hk. change ("='" +:+ (v +:+ ("' " +:+ rest))) with ("='" +:+ (v +:+ ("' " +:+ rest))).
  rewrite <- (app_assoc_string k "='"), dsn_run_app, Hk. cbn [mbind option_bind].
  rewrite dsn_run_app, dsn_run_quoted by done. cbn [mbind option_bind]. by rewrite string_app_nil.
Qed.

(** the connection string of the database is read back, by the documented grammar, as the
    settings it was made from, when none of them has a quote or a backslash. *)
Theorem dsn_read_back (dbConf : DatabaseConfig) (dbName : string) :
  Forall (fun v => quotable v = true) [db_Host dbConf; db_User dbConf; db_Pass dbConf; dbName] ->
  read_settings (dsn dbConf dbName) =
    Some [("host", db_Host dbConf); ("user", db_User dbConf); ("password", db_Pass dbConf); ("dbname", dbName);
          ("port", pretty (db_Port dbConf))].
Proof.
  intros Hq. repeat (apply Forall_cons in Hq as [? Hq]).
  assert (dsn dbConf dbName =
    "host" +:+ ("='" +:+ (db_Host dbConf +:+ ("' " +:+
    ("user" +:+ ("='" +:+ (db_User dbConf +:+ ("' " +:+
    ("password" +:+ ("='" +:+ (db_Pass dbConf +:+ ("' " +:+
    ("dbname" +:+ ("='" +:+ (dbName +:+ ("' " +:+
    ("port=" +:+ pretty (db_Port dbConf)))))))))))))))))) as -> by reflexivity.
  unfold read_settings. rewrite !dsn_run_pair by done. rewrite dsn_run_app.
  cbn [app]. set (l := [_; _; _; _]).
  change (dsn_run (DGap, l) "port=") with (Some (DValue "port", l)). cbn [mbind option_bind].
  pose proof (dsn_run_last "port" l (pretty (db_Port dbConf)) (pretty_Z_chars _)) as Hlast.
  destruct (dsn_run (DValue "port", l) (pretty (db_Port dbConf))) as [[[] ?]|]; try done.
Qed.

(** A quote in the password ends it: what follows is read as settings. *)
Example quote_in_password :
  let conf := MkDbConf "db" 5432 "app" ("x" +:+ String squote (" host=" +:+ String squote "evil")) in
  head (filter (fun p => p.1 = "password") (default [] (read_settings (dsn conf "orders")))) = Some ("password", "x") /\
  ("host", "evil") ∈ default [] (read_settings (dsn conf "orders")).
Proof. vm_compute. split; [done|]. by repeat (left || right). Qed.

(** ** Opening never shows the database's password, but redis' URL *)
Lemma dsn_read_back_witness :
  read_settings (dsn (MkDbConf "db" 5432 "app" "s3cret word") "orders_eu") =
    Some [("host", "db"); ("user", "app"); ("password", "s3cret word"); ("dbname", "orders_eu"); ("port", "5432")].
Proof. apply (dsn_read_back (MkDbConf "db" 5432 "app" "s3cret word") "orders_eu"). by repeat constructor. Defined.

(** The text that a failure to connect panics with. *)
Example password_masked :
  MustOpenGORM (Gorm := unit) (fun _ _ => inr NilErr) (MkConnConf "orders" "prod" "eu" false (MkDbConf "db" 5432 "app" "s3cret") "") "orders_eu" =
  Panics ErrCodeUnknown "could not connect to DB: host='db' user='app' password=* dbname='orders_eu' port=5432" NilErr.
Proof. vm_compute. reflexivity. Qed.

(** A connection to redis is logged with its URL, and a URL that cannot be parsed is in the
    message of the panic: with the password that it holds. *)
Theorem redis_url_logged {Client : Type} (parse : string -> Client + error) ping (conf : ConnConf) :
  match MustOpenRedis parse ping conf with
  | Opened _ log => log = ["Connected to redis: " +:+ cc_redis_url conf]
  | Panics code msg err => code = ErrCodeBadArgument /\ msg = "failed to parse redis url: " +:+ cc_redis_url conf \/
      code = ErrCodeUnknown /\ msg = "failed to connect to redis" /\ err <> NilErr
  end.
Proof.
  unfold MustOpenRedis. destruct (parse (cc_redis_url conf)) as [c|err]; [|by left].
  destruct (ping c) eqn:E; try (right; by split_and!). done.
Qed.

(** No database or redis in the environment of tests; and the health checks are those of the
    connections that there are. *)
Theorem no_connections_in_tests {Gorm Client : Type} (gorm_open : bool -> string -> Gorm + error) env_text
    (parse : string -> Client + error) ping (conf : ConnConf) (select_1 : Gorm -> error) :
  (cc_env_type conf = EnvTypeTest ->
   (exists m, NewDB gorm_open env_text conf = Panics ErrCodeBadState m NilErr) /\
   (exists m, NewRedis env_text parse ping conf = Panics ErrCodeBadState m NilErr)) /\
  (forall d log, NewDB gorm_open env_text conf = Opened d log ->
     cc_env_type conf <> EnvTypeTest /\ DbName d = CreateDBName (cc_name conf) (cc_env_name conf) /\
     exists p, NewDatabaseHealthCheckProvider (Client := Client) d = Some p /\ GetName p = "DB" /\
       Some (provider_HealthCheck select_1 ping p) = HealthCheck select_1 d).
Proof.
  unfold NewDB, NewRedis. split.
  - intros ->. rewrite !bool_decide_eq_true_2 by done. split; by eexists.
  - intros d log. case_bool_decide as He; [done|].
    destruct (MustOpenGORM _ _ _) as [db l|]; [|done]. intros [= <- <-]. split_and!; [done..|]. by eexists.
Qed.
