(* ===== verification/PostgresLock.v ===== *)
(** * distributedlock: the Postgres lock

    Models [distributedlock/distributedlock_postgres.go]: the statements on the table
    [distributed_lock.lock], [now()] being the time at which the transaction began,
    and the operations of the lock object. Time and the length of the interval that
    the server computes are parameters. *)

From S2P Require Import Prelude.
From S2P Require Import Errors.
From S2P Require Import Database.
From S2P Require Import DistributedLock.

Open Scope string_scope.
Open Scope list_scope.
Open Scope Z_scope.

(** A row of the table, by [resource]. *)
Record Row := MkRow { instance_id : string; row_expiration : Z; extended_count : Z }.

(** The committed table and the server's time. *)
Record PG := MkPG { pg_now : Z; lock_rows : gmap string Row }.

(** [INTERVAL '1 second' * ttl.Seconds()], as the server computes it. *)
Class Interval := interval : Z -> Z.

Definition int32_max : Z := 2147483647.

(** [setupDB]: done, done by another instance meanwhile, or failed. After the second
    the transaction is rolled back, which may fail, and a new one begins. *)
Inductive Setup := SetupDone | SetupAlready (rollback : error) | SetupFailed (err : error).

(** What happens to one call. [TryLock] began its transaction [age] before it writes;
    [early_select]: it had read the table before the row was inserted. The end of
    [Commit]: an error, and whether the server has committed nevertheless. *)
Record PgNet := MkPgNet {
  setup : Setup;
  age : Z;
  early_select : bool;
  select_err : error;
  write_err : error;
  commit_end : error * bool;
  stmt : Transport;      (** of the single statement of [Unlock] and [Extend] *)
}.

Section postgres.
Context `{Interval}.
Context (defaults : Defaults) (callers : list Frame) (show : error -> string).
Implicit Types (l : Lock) (s : PG).

Definition set_row (r : string) (row : Row) (s : PG) : PG := MkPG (pg_now s) (<[r := row]> (lock_rows s)).

(** ** The statements; [now] is the beginning of the transaction *)

(** [SELECT instance_id ... FOR UPDATE]; the variable stays empty without a row. *)
Definition select_instance (r : string) (s : PG) : string :=
  match lock_rows s !! r with Some row => instance_id row | None => "" end.

(** [UPDATE ... WHERE resource = ? AND instance_id = ? AND expiration < now() RETURNING expiration] *)
Definition update_expired (now : Z) (l : Lock) (currLockID : string) (s : PG) : option Z * PG :=
  match lock_rows s !! resource l with
  | Some row =>
      if bool_decide (instance_id row = currLockID) && bool_decide (row_expiration row < now) then
        let e := now + interval (ttl l) in (Some e, set_row (resource l) (MkRow (id l) e (extended_count row)) s)
      else (None, s)
  | None => (None, s)
  end.

(** [INSERT ... ON CONFLICT DO NOTHING RETURNING expiration] *)
Definition insert_lock (now : Z) (l : Lock) (s : PG) : option Z * PG :=
  match lock_rows s !! resource l with
  | Some _ => (None, s)
  | None => let e := now + interval (ttl l) in (Some e, set_row (resource l) (MkRow (id l) e 0) s)
  end.

(** [UPDATE ... SET expiration = now() WHERE ... AND expiration > now()]: the rows affected. *)
Definition update_unlock (now : Z) (l : Lock) (s : PG) : Z * PG :=
  match lock_rows s !! resource l with
  | Some row =>
      if bool_decide (instance_id row = id l) && bool_decide (now < row_expiration row) then
        (1, set_row (resource l) (MkRow (instance_id row) now (extended_count row)) s)
      else (0, s)
  | None => (0, s)
  end.

Inductive scanned := NoRows | OutOfRange | Scanned (until count : Z).

Definition update_extend (now : Z) (l : Lock) (s : PG) : scanned * PG :=
  match lock_rows s !! resource l with
  | Some row =>
      if bool_decide (instance_id row = id l) && bool_decide (now < row_expiration row) then
        if bool_decide (extended_count row = int32_max) then (OutOfRange, s)
        else
          let e := now + interval (ttl l) in
          (Scanned e (extended_count row + 1), set_row (resource l) (MkRow (instance_id row) e (extended_count row + 1)) s)
      else (NoRows, s)
  | None => (NoRows, s)
  end.

(** ** The lock object *)
Definition NewDistributedPostgresLock (resource uuid : string) (ttl : Z) : Lock := new_lock resource uuid ttl.

(** The deferred end of [TryLock]: [before] is the table without the transaction. *)
Definition try_end (n : PgNet) (locked : bool) (err : error) (l : Lock) (before after : PG) : ((bool * error) * Lock) * PG :=
  match err with
  | NilErr =>
      match (commit_end n).1 with
      | NilErr => (((locked, NilErr), l), after)
      | commitErr => (((locked, commit_failed defaults callers show commitErr), l), if (commit_end n).2 then after else before)
      end
  | _ => (((locked, err), l), before)
  end.

Definition now_of (n : PgNet) (s : PG) : Z := pg_now s - age n.

(** The write that takes the lock, or nothing. *)
Definition try_write (n : PgNet) (l : Lock) (s : PG) : option Z * PG :=
  let currLockID := if early_select n then "" else select_instance (resource l) s in
  if bool_decide (currLockID = "") then insert_lock (now_of n s) l s
  else update_expired (now_of n s) l currLockID s.

Definition Pg_TryLock (n : PgNet) (l : Lock) (s : PG) : ((bool * error) * Lock) * PG :=
  let setup_err := match setup n with SetupDone => NilErr | SetupAlready err => err | SetupFailed err => err end in
  match setup_err with
  | NilErr =>
      match select_err n with
      | NilErr =>
          match write_err n with
          | NilErr =>
              let w := try_write n l s in
              match w.1 with
              | Some until => try_end n true NilErr (set_expiration (Some until) l) s w.2
              | None => try_end n false NilErr l s w.2
              end
          | err => try_end n false err l s s
          end
      | err => try_end n false err l s s
      end
  | err => try_end n false err l s s
  end.

Definition Pg_Unlock (n : PgNet) (l : Lock) (s : PG) : (error * Lock) * PG :=
  let r := update_unlock (now_of n s) l s in
  match stmt n with
  | RequestLost err => ((err, l), s)
  | ReplyLost err => ((err, l), r.2)
  | Delivered => ((NilErr, set_lease None 0 (set_cancel None l)), r.2)
  end.

Definition out_of_range : error := OpaqueErr "*pgconn.PgError" "integer out of range".

Definition Pg_Extend (n : PgNet) (l : Lock) (s : PG) : (result error bool * Lock) * PG :=
  let r := update_extend (now_of n s) l s in
  match stmt n with
  | RequestLost err => ((Err err, l), s)
  | ReplyLost err => ((Err err, l), r.2)
  | Delivered =>
      match r.1 with
      | NoRows => ((Ok false, set_lease None 0 l), r.2)
      | OutOfRange => ((Err out_of_range, l), r.2)
      | Scanned until count => ((Ok true, set_lease (Some until) count l), r.2)
      end
  end.

(** The pair that [TryLock] returns, as its callers read it: the error first. *)
Definition read_pair (r : ((bool * error) * Lock) * PG) : (result error bool * Lock) * PG :=
  ((match r.1.1.2 with NilErr => Ok r.1.1.1 | err => Err err end, r.1.2), r.2).

Definition Pg_Lock (n : PgNet) (waits : list ((PG -> PG) * error)) (l : Lock) (s : PG) : (lock_outcome * Lock) * PG :=
  Lock_loop (fun l s => read_pair (Pg_TryLock n l s)) waits l s.

(** ** The interface *)
#[export] Instance Pg_LeaseServer : LeaseServer PG := {
  clock := pg_now;
  lease s r := (fun row => (instance_id row, row_expiration row)) <$> lock_rows s !! r;
  margin := 0;
  usable _ := True;
  valid_ttl _ := True;
  span := interval;
}.

#[export] Instance Pg_LeaseLock : LeaseLock PG PgNet := {
  TryLock n l s := read_pair (Pg_TryLock n l s);
  Extend := Pg_Extend;
  Unlock := Pg_Unlock;
  attended o n l s :=
    0 <= age n /\
    match o with
    | OpTry => (commit_end n).1 = NilErr \/ (commit_end n).2 = true
    | OpExtend =>
        match stmt n with
        | ReplyLost _ => forall e, expiration l = Some e -> e <= now_of n s + interval (ttl l)
        | _ => True
        end
    | OpUnlock => match stmt n with ReplyLost _ => False | _ => True end
    end;
}.

(** ** Proofs *)

(** A write to the row of [l] that touches no live lease of another. *)
Lemma write_others l row s r i d :
  (forall old, lock_rows s !! resource l = Some old -> instance_id old = id l \/ row_expiration old <= pg_now s) ->
  i <> id l -> live s r i d -> lease (set_row (resource l) row s) r = Some (i, d).
Proof using Type.
  intros Hold Hi [Hl Hd]. unfold lease, clock in *. cbn [Pg_LeaseServer set_row lock_rows] in *.
  destruct (decide (r = resource l)) as [->|Hne]; [|by rewrite lookup_insert_ne].
  destruct (lock_rows s !! resource l) as [old|]; [|done]. injection Hl as E1 E2.
  destruct (Hold old eq_refl); [congruence|lia].
Qed.

(** The object that has written the row knows its expiration. *)
Lemma written_backed l n c e s : e <= pg_now s + interval (ttl l) ->
  backed (set_lease (Some e) n l) (set_row (resource l) (MkRow (id l) e c) s).
Proof using Type.
  intros He x Hx. injection Hx as <-. cbn [clock margin span lease Pg_LeaseServer set_row pg_now lock_rows ttl resource id set_lease].
  split; [lia|]. intros _. exists e. rewrite lookup_insert_eq. split; [done|lia].
Qed.

(** What [TryLock] writes. *)
Lemma try_write_spec n l s : 0 <= age n ->
  match (try_write n l s).1 with
  | None => (try_write n l s).2 = s
  | Some e => e = now_of n s + interval (ttl l) /\
      (exists c, (try_write n l s).2 = set_row (resource l) (MkRow (id l) e c) s) /\
      forall old, lock_rows s !! resource l = Some old -> row_expiration old < now_of n s
  end.
Proof using Type.
  intros Ha. unfold try_write. set (curr := if early_select n then "" else _). case_bool_decide.
  - unfold insert_lock. destruct (lock_rows s !! resource l) eqn:E; [done|]. cbn. split; [done|]. by split; [eexists|].
  - unfold update_expired. destruct (lock_rows s !! resource l) as [row|] eqn:E; [|done].
    destruct (bool_decide (instance_id row = curr)); [|done]. case_bool_decide as He; [|done]. cbn.
    split; [done|]. split; [by eexists|]. by intros old [= <-].
Qed.

Lemma pg_try_respects n l s : attended OpTry n l s -> respects l (TryLock n l s).1.2 s (TryLock n l s).2.
Proof using Type.
  cbn [attended Pg_LeaseLock TryLock]. intros [Ha Hc]. unfold read_pair. cbn [fst snd]. unfold Pg_TryLock.
  set (e0 := match setup n with SetupDone => _ | _ => _ end).
  assert (forall err, err <> NilErr -> respects l (try_end n false err l s s).1.2 s (try_end n false err l s s).2) as Hfail.
  { intros err Herr. unfold try_end. destruct err; [done|apply respects_refl..]. }
  destruct e0; [|by apply Hfail..]. destruct (select_err n); [|by apply Hfail..]. destruct (write_err n); [|by apply Hfail..].
  pose proof (try_write_spec n l s Ha) as Hw. destruct (try_write n l s) as [[e|] s'] eqn:Ew; cbn [fst snd] in Hw |- *.
  - destruct Hw as (-> & [c ->] & Hold). set (e := now_of n s + interval (ttl l)).
    assert (respects l (set_expiration (Some e) l) s (set_row (resource l) (MkRow (id l) e c) s)) as R.
    { split; [done|cbn; lia| |].
      - intros r i d _ Hi Hlive _. apply write_others; [|done..]. intros old Ho. right.
        pose proof (Hold old Ho). unfold now_of in *. lia.
      - intros _. apply written_backed. unfold e, now_of. lia. }
    unfold try_end. destruct Hc as [->| Hc]; [exact R|]. rewrite Hc. by destruct (commit_end n).1.
  - subst s'. unfold try_end. destruct (commit_end n).1; cbn [fst snd]; destruct (commit_end n).2; apply respects_refl.
Qed.

Lemma pg_try_true n l s : 0 <= age n -> (Pg_TryLock n l s).1.1 = (true, NilErr) ->
  forall old, lock_rows s !! resource l = Some old -> row_expiration old < now_of n s.
Proof using Type.
  intros Ha Ht. unfold Pg_TryLock in Ht. set (e0 := match setup n with SetupDone => _ | _ => _ end) in Ht.
  destruct e0; [|done..]. destruct (select_err n); [|done..]. destruct (write_err n); [|done..].
  pose proof (try_write_spec n l s Ha) as Hw. destruct (try_write n l s) as [[e|] s']; cbn [fst snd] in *; [by destruct Hw as (_ & _ & ?)|].
  unfold try_end in Ht. by destruct (commit_end n).1.
Qed.

Lemma update_extend_spec now l s :
  match (update_extend now l s).1 with
  | Scanned e c => e = now + interval (ttl l) /\ (update_extend now l s).2 = set_row (resource l) (MkRow (id l) e c) s /\
      exists old, lock_rows s !! resource l = Some old /\ instance_id old = id l /\ now < row_expiration old
  | _ => (update_extend now l s).2 = s
  end.
Proof using Type.
  unfold update_extend. destruct (lock_rows s !! resource l) as [row|] eqn:E; [|done].
  destruct (decide (instance_id row = id l)) as [Hi|Hi].
  - rewrite (bool_decide_eq_true_2 _ Hi). case_bool_decide; [|done]. case_bool_decide; [done|]. cbn.
    split; [done|]. rewrite Hi. split; [done|]. by exists row.
  - by rewrite (bool_decide_eq_false_2 _ Hi).
Qed.

Lemma pg_extend_respects n l s : attended OpExtend n l s -> respects l (Pg_Extend n l s).1.2 s (Pg_Extend n l s).2.
Proof using Type.
  cbn [attended Pg_LeaseLock]. intros [Ha Hs]. unfold Pg_Extend. pose proof (update_extend_spec (now_of n s) l s) as Hu.
  destruct (update_extend (now_of n s) l s) as [sc s'] eqn:Ew. cbn [fst snd] in *.
  assert (forall e c old, lock_rows s !! resource l = Some old -> instance_id old = id l -> forall r i d,
    i <> id l -> live s r i d -> lease (set_row (resource l) (MkRow (id l) e c) s) r = Some (i, d)) as Hothers.
  { intros e c old Ho Hi r i d Hne Hl. apply write_others; [|done..]. rewrite Ho. intros x [= <-]. by left. }
  destruct (stmt n) as [|err|err]; cbn [fst snd]; [|apply respects_refl|].
  - destruct sc as [| |e c]; cbn [fst snd].
    + subst s'. split; [done|cbn; lia| |by intros _ e]. by intros r i d _ _ [Hl _] _.
    + subst s'. apply respects_refl.
    + destruct Hu as (-> & -> & old & Ho & Hi & _). split; [done|cbn; lia| |].
      * intros r i d _ Hne Hl _. by eapply Hothers.
      * intros _. apply written_backed. unfold now_of. lia.
  - destruct sc as [| |e c]; [subst s'; apply respects_refl..|].
    destruct Hu as (-> & -> & old & Ho & Hi & _). split; [done|cbn; lia|intros r i d _ Hne Hl _; by eapply Hothers|].
    intros Hb x Hx. destruct (Hb x Hx) as [Hle _]. split; [exact Hle|]. intros _.
    eexists. cbn [lease margin Pg_LeaseServer set_row lock_rows]. rewrite lookup_insert_eq.
    split; [reflexivity|]. pose proof (Hs x Hx). cbn. lia.
Qed.

Lemma update_unlock_spec now l s :
  (update_unlock now l s).2 = s \/
  exists old, lock_rows s !! resource l = Some old /\ instance_id old = id l /\ now < row_expiration old /\
    (update_unlock now l s).2 = set_row (resource l) (MkRow (id l) now (extended_count old)) s.
Proof using Type.
  unfold update_unlock. destruct (lock_rows s !! resource l) as [row|] eqn:E; [|by left].
  destruct (decide (instance_id row = id l)) as [Hi|Hi].
  - rewrite (bool_decide_eq_true_2 _ Hi). case_bool_decide; [|by left]. right. exists row. by rewrite <- Hi.
  - left. by rewrite (bool_decide_eq_false_2 _ Hi).
Qed.

Lemma pg_unlock_respects n l s : attended OpUnlock n l s -> respects l (Pg_Unlock n l s).1.2 s (Pg_Unlock n l s).2.
Proof using Type.
  cbn [attended Pg_LeaseLock]. intros [Ha Hs]. unfold Pg_Unlock.
  destruct (stmt n) as [|err|err]; [|apply respects_refl|done]. cbn [fst snd].
  destruct (update_unlock_spec (now_of n s) l s) as [->|(old & Ho & Hi & _ & ->)].
  - split; [done|cbn; lia| |by intros _ e]. by intros r i d _ _ [Hl _] _.
  - split; [done|cbn; lia| |by intros _ e]. intros r i d _ Hne Hl _. apply write_others; [|done..].
    rewrite Ho. intros x [= <-]. by left.
Qed.

#[export] Instance Pg_LeaseLockLaws : LeaseLockLaws PG (Net:=PgNet).
Proof using Type.
  split.
  - done.
  - intros n l s Hat _ _. by apply pg_try_respects.
  - intros n l s r [Ha _] Ht _ _ -> i d [Hl Hlt]. exfalso. cbn [TryLock Pg_LeaseLock lease clock Pg_LeaseServer] in *.
    destruct (lock_rows s !! resource l) as [old|] eqn:Ho; [|done]. injection Hl as _ E.
    assert ((Pg_TryLock n l s).1.1 = (true, NilErr)) as Hp.
    { unfold read_pair in Ht. destruct (Pg_TryLock n l s).1.1 as [b []]; cbn in Ht; congruence. }
    pose proof (pg_try_true n l s Ha Hp old Ho). unfold now_of in *. lia.
  - intros n l s Hat _ _. by apply pg_extend_respects.
  - intros n l s Hat _ _. by apply pg_unlock_respects.
Qed.
End postgres.

(** The database answers and commits. *)
Definition undisturbed (n : PgNet) : Prop :=
  0 <= age n /\ (setup n = SetupDone \/ setup n = SetupAlready NilErr) /\ select_err n = NilErr /\ write_err n = NilErr /\
  commit_end n = (NilErr, true) /\ stmt n = Delivered /\ early_select n = false.

Definition free_row (now : Z) (l : Lock) (s : PG) : bool :=
  match lock_rows s !! resource l with
  | Some row => negb (bool_decide (instance_id row = "")) && bool_decide (row_expiration row < now)
  | None => true
  end.
Definition own_row (now : Z) (l : Lock) (s : PG) : option Row :=
  row ← lock_rows s !! resource l;
  if bool_decide (instance_id row = id l) && bool_decide (now < row_expiration row) then Some row else None.
Definition extensions (l : Lock) (s : PG) : Z := from_option extended_count 0 (lock_rows s !! resource l).

(** C21: the operations of the Postgres lock, when the database answers and commits: a
    resource is taken when it has no row, or the row's lease was over when the
    transaction began (a row with an empty holder is never taken), and then the
    object remembers exactly the end of the lease; extending and unlocking act on
    the own lease only. Taking over a row keeps the number of extensions of those
    who held it before, so the first [Extend] of the new holder reports theirs and
    one more; at the largest 32-bit number it fails. *)
Theorem postgres_operations `{Interval} (defaults : Defaults) (callers : list Frame) (show : error -> string)
    (n : PgNet) (l : Lock) (s : PG) :
  undisturbed n ->
  let now := now_of n s in let until := now + interval (ttl l) in
  Pg_TryLock defaults callers show n l s =
    (if free_row now l s then
       (((true, NilErr), set_expiration (Some until) l), set_row (resource l) (MkRow (id l) until (extensions l s)) s)
     else (((false, NilErr), l), s)) /\
  Pg_Extend n l s =
    match own_row now l s with
    | Some row =>
        if bool_decide (extended_count row = int32_max) then ((Err out_of_range, l), s)
        else ((Ok true, set_lease (Some until) (extended_count row + 1) l),
              set_row (resource l) (MkRow (id l) until (extended_count row + 1)) s)
    | None => ((Ok false, set_lease None 0 l), s)
    end /\
  Pg_Unlock n l s =
    ((NilErr, set_lease None 0 (set_cancel None l)),
     match own_row now l s with Some row => set_row (resource l) (MkRow (id l) now (extended_count row)) s | None => s end).
Proof.
  intros (Ha & Hs & Hse & Hw & Hc & Hst & He). cbv zeta.
  split; [|split].
  - unfold Pg_TryLock. assert (match setup n with SetupDone => NilErr | SetupAlready err => err | SetupFailed err => err end = NilErr)
      as -> by (by destruct Hs as [->| ->]). rewrite Hse, Hw. unfold try_write, try_end, free_row, extensions, select_instance. rewrite He, Hc.
    destruct (lock_rows s !! resource l) as [row|] eqn:Er; cbn [fst snd from_option negb andb].
    + case_bool_decide as Hn; cbn [negb andb].
      * unfold insert_lock. by rewrite Er.
      * unfold update_expired. rewrite Er, (bool_decide_eq_true_2 (instance_id row = instance_id row)) by done. cbn [andb]. by case_bool_decide.
    + rewrite bool_decide_eq_true_2 by done. unfold insert_lock. by rewrite Er.
  - unfold Pg_Extend, update_extend, own_row. rewrite Hst. destruct (lock_rows s !! resource l) as [row|]; [|done]. cbn.
    case_bool_decide as Hi; [|done]. case_bool_decide; [|done]. cbn. case_bool_decide; [done|]. by rewrite Hi.
  - unfold Pg_Unlock, update_unlock, own_row. rewrite Hst. destruct (lock_rows s !! resource l) as [row|]; [|done]. cbn.
    case_bool_decide as Hi; [|done]. case_bool_decide; [|done]. cbn. by rewrite Hi.
Qed.

(** ** A table, for the witnesses: times in microseconds *)
Definition whole_interval : Interval := fun t => t.
Definition smooth : PgNet := MkPgNet SetupDone 5 false NilErr NilErr (NilErr, true) Delivered.
Definition pg_a : Lock := NewDistributedPostgresLock "jobs" "a" 100.

(** [b] held the lock, with three extensions. *)
Definition after_b : PG := MkPG 1000 {[ "jobs" := MkRow "b" 900 3 ]}.

Lemma postgres_operations_witness :
  let r := Pg_TryLock (H:=whole_interval) initial_defaults [] (fun _ => "") smooth pg_a after_b in
  r.1.1 = (true, NilErr) /\ extendedCount (Pg_Extend (H:=whole_interval) smooth r.1.2 r.2).1.2 = 4.
Proof.
  cbv zeta. destruct (postgres_operations (H:=whole_interval) initial_defaults [] (fun _ => "") smooth pg_a after_b) as (-> & _ & _).
  - repeat split; [done|by left].
  - split; reflexivity.
Defined.

(** ** When the end of the transaction fails *)

(** The commit fails and the server has rolled back. *)
Definition lost_commit : PgNet := MkPgNet SetupDone 5 false NilErr NilErr (no_tx, false) Delivered.

(** [TryLock] remembers the expiration before it commits: when the commit fails it
    returns an error, with [true], and the object believes that it holds a lock which
    another process can take at once. *)
Theorem failed_commit_two_owners :
  let pg_b := NewDistributedPostgresLock "jobs" "b" 100 in let s := MkPG 1000 ∅ in
  let a := Pg_TryLock (H:=whole_interval) initial_defaults [] (fun _ => "") lost_commit pg_a s in
  let b := Pg_TryLock (H:=whole_interval) initial_defaults [] (fun _ => "") smooth pg_b a.2 in
  (exists err, a.1.1 = (true, err) /\ err <> NilErr) /\ a.2 = s /\ b.1.1 = (true, NilErr) /\
  believes (H:=Pg_LeaseServer (H:=whole_interval)) a.1.2 b.2 /\ believes (H:=Pg_LeaseServer (H:=whole_interval)) b.1.2 b.2.
Proof.
  cbv zeta. split_and!; [eexists; split; [reflexivity|done]|reflexivity|reflexivity| |];
    (eexists; split; [reflexivity|by vm_compute]).
Qed.

(** ** A lock taken inside a transaction of the caller

    [TryLock] then works in a savepoint: the row stays locked, so other sessions see nothing, until the
    caller's transaction commits or rolls back, and [now()] is when that transaction began. *)
Definition in_transaction {R} (commits : bool) (body : PG -> R * PG) (s : PG) : R * PG :=
  let r := body s in (r.1, if commits then r.2 else s).

(** In a transaction that is older than the lease a lock is taken that has expired already; and
    when the caller rolls back after [TryLock] has returned true, the object still believes that
    it holds the lock, which another process can take at once. *)
Theorem lock_in_callers_transaction :
  (forall `{Interval} defaults callers show n l s b l' s', interval (ttl l) <= age n ->
     Pg_TryLock defaults callers show n l s = (((true, b), l'), s') ->
     exists e, expiration l' = Some e /\ e <= pg_now s) /\
  (let pg_b := NewDistributedPostgresLock "jobs" "b" 100 in let s := MkPG 1000 ∅ in
   let a := in_transaction false (Pg_TryLock (H:=whole_interval) initial_defaults [] (fun _ => "") smooth pg_a) s in
   let b := Pg_TryLock (H:=whole_interval) initial_defaults [] (fun _ => "") smooth pg_b a.2 in
   a.1.1 = (true, NilErr) /\ b.1.1 = (true, NilErr) /\
   believes (H:=Pg_LeaseServer (H:=whole_interval)) a.1.2 b.2 /\ believes (H:=Pg_LeaseServer (H:=whole_interval)) b.1.2 b.2).
Proof.
  split.
  - intros H defaults callers show n l s b l' s' Hage.
    assert (forall until s1, try_write n l s = (Some until, s1) -> until <= pg_now s) as Hw.
    { intros until s1. unfold try_write, insert_lock, update_expired, now_of.
      repeat case_match; intros [= <- <-] || intros [=]; lia. }
    assert (forall locked err l1 before after, try_end defaults callers show n locked err l1 before after = (((true, b), l'), s') ->
      locked = true /\ l' = l1) as He.
    { intros locked err l1 before after. unfold try_end. by repeat case_match; intros [= -> _ <- _]. }
    unfold Pg_TryLock. destruct (try_write n l s) as [o s1] eqn:Ew. cbn [fst snd].
    repeat case_match; intros E%He; destruct E as [E1 E2]; try discriminate E1.
    all: subst o l'; eexists; split; [reflexivity|]; by eapply Hw.
  - cbv zeta. split_and!; [reflexivity|reflexivity| |]; (eexists; split; [reflexivity|by vm_compute]).
Qed.
