(* ===== verification/LockExclusion.v ===== *)
(** * distributedlock: mutual exclusion

    What the files RedisLock and PostgresLock prove of their operations, put together for all
    processes: the locks of [distributedlock/distributedlock_redis.go] and
    [distributedlock_postgres.go] exclude. *)

From S2P Require Import Prelude.
From S2P Require Import Errors.
From S2P Require Import DistributedLock.
From S2P Require Import RedisLock.
From S2P Require Import PostgresLock.

Open Scope string_scope.
Open Scope list_scope.
Open Scope Z_scope.

(** C19: mutual exclusion of the Redis lock and of the Postgres lock. Processes, each with a lock
    object of an identifier of its own, call TryLock, Extend and Unlock in any order, and time
    passes; then two objects for one resource never both remember an expiration in the
    future. In the future is, for Redis, later than now by more than the [latency] and a millisecond,
    the most by which an object may remember more than its lease; for Postgres, later than now.
    The calls are attended. Redis: the remaining time is read within [latency] of the script's
    end, the ttl being longer than that, and no reply of Unlock is lost; requests, other
    replies and the reading itself may fail. Postgres: a commit that reports an error has
    happened all the same, no reply of Unlock is lost, and a reply of Extend is lost only if
    the lease became no shorter. Outside of these conditions two owners are possible:
    [late_reading_two_owners], [failed_commit_two_owners]. *)
Theorem mutual_exclusion :
  (forall Srv `{RedisLaws Srv}, excludes Srv (LL:=Redis_LeaseLock)) /\
  (forall `{Interval} defaults callers show, excludes PG (LL:=Pg_LeaseLock defaults callers show)).
Proof. split; intros; apply laws_exclude. Qed.

(** ** Witnesses *)

(** The database and the clients of file PostgresLock: [a] has locked, [b] has tried. *)
Definition pg_b : Lock := NewDistributedPostgresLock "jobs" "b" 100.
#[local] Instance: Interval := whole_interval.
#[local] Instance pg_lock : LeaseLock PG PgNet := Pg_LeaseLock initial_defaults [] (fun _ => "").

Definition pg_locked : System PG :=
  let r := TryLock smooth pg_a after_b in MkSystem r.2 [r.1.2; pg_b].
Definition pg_tried : System PG :=
  let r := TryLock smooth pg_b (server pg_locked) in MkSystem r.2 (<[1%nat := r.1.2]> (locks pg_locked)).

Lemma smooth_attended l s : attended OpTry smooth l s.
Proof. split; [done|by left]. Qed.

Lemma pg_tried_reached : rtc step (MkSystem after_b [pg_a; pg_b]) pg_tried.
Proof.
  apply (rtc_l _ _ pg_locked).
  - exact (step_try smooth 0 pg_a (MkSystem after_b [pg_a; pg_b]) (smooth_attended _ _) eq_refl).
  - apply rtc_once. exact (step_try smooth 1 pg_b pg_locked (smooth_attended _ _) eq_refl).
Qed.

Lemma pg_well_named : well_named [pg_a; pg_b].
Proof.
  split.
  - intros [|[|i]] l; cbn; [intros [= <-]; by split..|done].
  - intros [|[|i]] [|[|j]] l l'; cbn; intros Hi Hj Hid; simplify_eq; done.
Qed.

Lemma mutual_exclusion_witness :
  (exists l l', locks tried_by_b !! 0%nat = Some l /\ locks tried_by_b !! 1%nat = Some l' /\
     believes l (server tried_by_b) /\ ~ believes l' (server tried_by_b)) /\
  (exists l l', locks pg_tried !! 0%nat = Some l /\ locks pg_tried !! 1%nat = Some l' /\
     believes l (server pg_tried) /\ ~ believes l' (server pg_tried)).
Proof.
  destruct mutual_exclusion as [Hr Hp]. split; eexists _, _; (split; [reflexivity|]); (split; [reflexivity|]); split.
  - eexists. split; [reflexivity|]. vm_compute. reflexivity.
  - intros Hb. enough (0%nat = 1%nat) by discriminate.
    refine (Hr MiniRedis _ _ empty_server [lock_a; lock_b] tried_by_b 0%nat 1%nat _ _
      two_well_named _ tried_by_b_reached eq_refl eq_refl eq_refl _ Hb); [repeat constructor|].
    eexists. split; [reflexivity|]. vm_compute. reflexivity.
  - eexists. split; [reflexivity|]. vm_compute. reflexivity.
  - intros Hb. enough (0%nat = 1%nat) by discriminate.
    refine (Hp _ _ _ _ after_b [pg_a; pg_b] pg_tried 0%nat 1%nat _ _
      pg_well_named _ pg_tried_reached eq_refl eq_refl eq_refl _ Hb); [repeat constructor|].
    eexists. split; [reflexivity|]. vm_compute. reflexivity.
Defined.
