(* ===== verification/LocalLock.v ===== *)
(** * distributedlock: the local lock

    Models [distributedlock/distributedlock_local.go]: lock objects of one machine over
    [flock], each with a mutex, and the goroutines that release expired locks, as
    steps that interleave. A call that waits for the mutex is not enabled while the
    mutex is held; only a blocked [Lock] holds it between steps. *)

From S2P Require Import Prelude.
From S2P Require Import Errors.
From S2P Require Import DistributedLock.

Open Scope string_scope.
Open Scope list_scope.
Open Scope Z_scope.

(** [mu]: the mutex is held, by a call of [Lock] that waits for the file. *)
Record LocalLock := MkLocal {
  base : Lock;
  path : string;
  fd : nat;
  locked : bool;
  mu : bool;
}.

Definition with_mu (b : bool) (l : LocalLock) : LocalLock := MkLocal (base l) (path l) (fd l) (locked l) b.
Definition with_base (b : Lock) (lk : bool) (l : LocalLock) : LocalLock := MkLocal b (path l) (fd l) lk (mu l).

(** [path_of]: the file of a resource, named by its hash. *)
Definition NewDistributedLocalLock (path_of : string -> string) (resource uuid : string) (ttl : Z) (fd : nat) : LocalLock :=
  MkLocal (new_lock resource uuid ttl) (path_of resource) fd false false.

(** A goroutine of [doLock]: at the top of its loop, or about to call [Unlock]. *)
Inductive phase := Looking | Unlocking.

Record Local := MkMachine {
  objs : list LocalLock;
  flocks : gmap string nat;         (** the descriptor that has the exclusive lock of a file *)
  l_now : Z;
  goroutines : list (nat * phase);
}.

Definition set_obj (i : nat) (l : LocalLock) (s : Local) : Local :=
  MkMachine (<[i := l]> (objs s)) (flocks s) (l_now s) (goroutines s).
Definition set_flocks (f : gmap string nat) (s : Local) : Local := MkMachine (objs s) f (l_now s) (goroutines s).
Definition set_goroutines (g : list (nat * phase)) (s : Local) : Local := MkMachine (objs s) (flocks s) (l_now s) g.

(** [flock(LOCK_EX)] is granted when no other descriptor has the lock. *)
Definition grantable (l : LocalLock) (s : Local) : bool :=
  match flocks s !! path l with Some f => bool_decide (f = fd l) | None => true end.
Definition grant (l : LocalLock) (s : Local) : Local := set_flocks (<[path l := fd l]> (flocks s)) s.
Definition release (l : LocalLock) (s : Local) : Local :=
  if bool_decide (flocks s !! path l = Some (fd l)) then set_flocks (delete (path l) (flocks s)) s else s.

Section local.
Context (sys_error : string -> error -> error).   (** [NewUnknownf] of a message and a system error *)
Implicit Types (l : LocalLock) (s : Local).

Definition doLock (i : nat) (l : LocalLock) (s : Local) : Local :=
  let l := with_base (set_expiration (Some (l_now s + ttl (base l))) (base l)) true l in
  set_goroutines (goroutines s ++ [(i, Looking)]) (set_obj i l s).

(** [Lock] takes the mutex, and goes on when [flock] returns, with an error or not. *)
Definition Lock_begin (i : nat) (l : LocalLock) (s : Local) : option Local :=
  if mu l then None else Some (set_obj i (with_mu true l) s).
Definition Lock_end (flock_err : error) (i : nat) (l : LocalLock) (s : Local) : option (error * Local) :=
  if mu l then
    match flock_err with
    | NilErr => if grantable l s then Some (NilErr, doLock i (with_mu false l) (grant l s)) else None
    | err => Some (sys_error "failed to lock file" err, set_obj i (with_mu false l) s)
    end
  else None.

Definition Local_TryLock (flock_err : error) (i : nat) (l : LocalLock) (s : Local) : result error bool * Local :=
  if mu l then (Ok false, s)
  else if locked l then (Ok false, s)
  else
    match flock_err with
    | NilErr => if grantable l s then (Ok true, doLock i l (grant l s)) else (Ok false, s)
    | err => (Err (sys_error "failed to lock" err), s)
    end.

Definition Local_Unlock (flock_err : error) (i : nat) (l : LocalLock) (s : Local) : option (error * Local) :=
  if mu l then None
  else
    match flock_err with
    | NilErr => Some (NilErr, set_obj i (with_base (set_lease None 0 (set_cancel None (base l))) false l) (release l s))
    | err => Some (sys_error "failed to unlock file" err, s)
    end.

Definition Local_Extend (i : nat) (l : LocalLock) (s : Local) : option (bool * Local) :=
  if mu l then None
  else if negb (locked l) then Some (false, s)
  else
    match expiration (base l) with
    | Some e =>
        if bool_decide (e < l_now s) then Some (false, s)
        else
          Some (true, set_obj i (with_base (set_lease (Some (l_now s + ttl (base l))) (extendedCount (base l) + 1) (base l)) true l) s)
    | None => Some (false, s)     (** a zero time is in the past *)
    end.

(** A turn of the goroutine [g]: it ends, sleeps, or will unlock; then it has unlocked
    and looks again. *)
Definition goroutine_look (g : nat) (s : Local) : option Local :=
  match goroutines s !! g with
  | Some (i, Looking) =>
      match objs s !! i with
      | Some l =>
          if negb (locked l) then Some (set_goroutines (delete g (goroutines s)) s)
          else
            match expiration (base l) with
            | Some e => if bool_decide (l_now s < e) then Some s else Some (set_goroutines (<[g := (i, Unlocking)]> (goroutines s)) s)
            | None => Some (set_goroutines (<[g := (i, Unlocking)]> (goroutines s)) s)
            end
      | None => None
      end
  | _ => None
  end.
Definition goroutine_unlock (flock_err : error) (g : nat) (s : Local) : option Local :=
  match goroutines s !! g with
  | Some (i, Unlocking) =>
      match objs s !! i with
      | Some l =>
          match Local_Unlock flock_err i l s with
          | Some (_, s') => Some (set_goroutines (<[g := (i, Looking)]> (goroutines s')) s')
          | None => None
          end
      | None => None
      end
  | _ => None
  end.

(** ** Everything that may happen *)
Inductive local_step : Local -> Local -> Prop :=
| do_lock_begin i l s s' : objs s !! i = Some l -> Lock_begin i l s = Some s' -> local_step s s'
| do_lock_end fe i l s err s' : objs s !! i = Some l -> Lock_end fe i l s = Some (err, s') -> local_step s s'
| do_try_lock fe i l s : objs s !! i = Some l -> local_step s (Local_TryLock fe i l s).2
| do_unlock fe i l s err s' : objs s !! i = Some l -> Local_Unlock fe i l s = Some (err, s') -> local_step s s'
| do_extend i l s b s' : objs s !! i = Some l -> Local_Extend i l s = Some (b, s') -> local_step s s'
| do_look g s s' : goroutine_look g s = Some s' -> local_step s s'
| do_goroutine_unlock fe g s s' : goroutine_unlock fe g s = Some s' -> local_step s s'
| do_time dt s : 0 <= dt -> local_step s (MkMachine (objs s) (flocks s) (l_now s + dt) (goroutines s)).

(** ** Invariant *)

(** Descriptors belong to one object; a locked object has the file's lock, and a
    goroutine that will release it. *)
Record local_ok (s : Local) : Prop := {
  fds_distinct : forall i j l l', objs s !! i = Some l -> objs s !! j = Some l' -> fd l = fd l' -> i = j;
  locked_has : forall i l, objs s !! i = Some l -> locked l = true -> flocks s !! path l = Some (fd l);
  locked_watched : forall i l, objs s !! i = Some l -> locked l = true -> exists g p, goroutines s !! g = Some (i, p);
}.

Definition watched (j : nat) (gs : list (nat * phase)) : Prop := exists g p, gs !! g = Some (j, p).

Lemma watched_app j gs x : watched j gs -> watched j (gs ++ [x]).
Proof using Type. intros (g & p & Hg). exists g, p. by apply lookup_app_l_Some. Qed.

Lemma watched_new j p gs : watched j (gs ++ [(j, p)]).
Proof using Type. exists (length gs), p. by rewrite lookup_app_r, Nat.sub_diag. Qed.

Lemma watched_insert j g i p q gs : gs !! g = Some (i, p) -> watched j gs -> watched j (<[g := (i, q)]> gs).
Proof using Type.
  intros Hg (k & r & Hk). destruct (decide (k = g)) as [->|Hne].
  - rewrite Hk in Hg. injection Hg as -> _. exists g, q. apply list_lookup_insert_eq. by eapply lookup_lt_Some.
  - exists k, r. by rewrite list_lookup_insert_ne.
Qed.

Lemma watched_delete j g i p gs : gs !! g = Some (i, p) -> j <> i -> watched j gs -> watched j (delete g gs).
Proof using Type.
  intros Hg Hne (k & r & Hk). apply list_elem_of_lookup_2 in Hk. rewrite <- (take_drop_middle _ _ _ Hg) in Hk.
  assert ((j, r) ∈ delete g gs) as [k' Hk']%list_elem_of_lookup_1; [|by exists k', r].
  rewrite delete_take_drop. apply elem_of_app in Hk as [Hk|Hk]; apply elem_of_app; [by left|right].
  apply elem_of_cons in Hk as [[= -> _]|Hk]; done.
Qed.

(** A step on one object. *)
Lemma ok_update s s' i l l' : local_ok s -> objs s !! i = Some l -> objs s' = <[i := l']> (objs s) ->
  fd l' = fd l -> path l' = path l ->
  (locked l' = true -> flocks s' !! path l = Some (fd l)) ->
  (forall j x, j <> i -> objs s !! j = Some x -> locked x = true -> flocks s' !! path x = Some (fd x)) ->
  (forall j, watched j (goroutines s) -> watched j (goroutines s')) ->
  (locked l' = true -> watched i (goroutines s')) ->
  local_ok s'.
Proof using Type.
  intros [Hd Hh Hw] Hi Ho Hf Hp Hl Hx Hg Hwi. split; rewrite Ho.
  - intros a b x y Ha Hb. apply list_lookup_insert_Some in Ha as [(-> & <- & _)|(Ha1 & Ha)];
      apply list_lookup_insert_Some in Hb as [(-> & <- & _)|(Hb1 & Hb)]; rewrite ?Hf; eauto.
  - intros a x Ha. apply list_lookup_insert_Some in Ha as [(-> & <- & _)|(Ha1 & Ha)]; [by rewrite Hp, Hf|by eauto].
  - intros a x Ha. apply list_lookup_insert_Some in Ha as [(-> & <- & _)|(Ha1 & Ha)]; [done|].
    intros Hlk. apply Hg, (Hw a x Ha Hlk).
Qed.

Lemma ok_same_locks s i l l' : local_ok s -> objs s !! i = Some l -> fd l' = fd l -> path l' = path l ->
  (locked l' = true -> locked l = true) -> local_ok (set_obj i l' s).
Proof using Type.
  intros Hok Hi Hf Hp Hl. pose proof Hok as [_ Hh Hw]. eapply ok_update; [exact Hok|exact Hi|done..| | | |]; cbn; eauto.
  intros Hl'. by eapply Hw, Hl.
Qed.

Lemma ok_doLock s i l m : local_ok s -> objs s !! i = Some l -> grantable l s = true ->
  local_ok (doLock i (with_mu m l) (grant l s)).
Proof using Type.
  intros Hok Hi Hg. pose proof Hok as [Hd Hh _]. unfold grantable in Hg.
  eapply ok_update; [exact Hok|exact Hi|done..| | | |]; cbn.
  - intros _. by rewrite lookup_insert_eq.
  - intros j x Hne Hj Hlx. specialize (Hh j x Hj Hlx). destruct (decide (path x = path l)) as [Hp|Hp].
    + rewrite Hp in Hh |- *. rewrite Hh in Hg. apply bool_decide_eq_true in Hg. destruct Hne. by eapply Hd.
    + by rewrite lookup_insert_ne.
  - intros j. apply watched_app.
  - intros _. apply watched_new.
Qed.

Lemma ok_unlock fe i l s err s' : local_ok s -> objs s !! i = Some l -> Local_Unlock fe i l s = Some (err, s') ->
  local_ok s' /\ goroutines s' = goroutines s.
Proof using Type.
  intros Hok Hi. pose proof Hok as [Hd Hh _]. unfold Local_Unlock. destruct (mu l); [done|].
  destruct fe; intros [= <- <-]; [|done..].
  assert (goroutines (release l s) = goroutines s /\ objs (release l s) = objs s) as [Eg Eo]
    by (unfold release; by case_bool_decide).
  split; [|done]. eapply ok_update; [exact Hok|exact Hi|cbn; by rewrite Eo|done..| | |]; cbn; [|by rewrite Eg|done].
  intros j x Hne Hj Hlx. specialize (Hh j x Hj Hlx). unfold release. case_bool_decide as Hr; [|done]. cbn.
  rewrite lookup_delete_ne; [done|]. intros Hp. rewrite <- Hp, Hr in Hh. injection Hh as E. destruct Hne. by eapply Hd.
Qed.

Lemma local_ok_goroutines s gs : local_ok s -> (forall j l, objs s !! j = Some l -> locked l = true -> watched j gs) ->
  local_ok (set_goroutines gs s).
Proof using Type. by intros [Hd Hh _] Hw. Qed.

Lemma local_ok_step s s' : local_ok s -> local_step s s' -> local_ok s'.
Proof using Type.
  intros Hok Hs. pose proof Hok as [_ Hh Hw]. destruct Hs as [i l s s' Hi Hx|fe i l s err s' Hi Hx|fe i l s Hi|fe i l s err s' Hi Hx|i l s b s' Hi Hx|g s s' Hx|fe g s s' Hx|dt s _].
  - unfold Lock_begin in Hx. destruct (mu l); [done|]. injection Hx as <-. by eapply ok_same_locks.
  - unfold Lock_end in Hx. destruct (mu l); [|done].
    destruct fe; [|injection Hx as <- <-; by eapply ok_same_locks..].
    destruct (grantable l s) eqn:Hg; [|done]. injection Hx as <- <-. by apply ok_doLock.
  - unfold Local_TryLock. destruct (mu l) eqn:Hm; [done|]. destruct (locked l); [done|]. destruct fe; [|done..].
    destruct (grantable l s) eqn:Hg; [|done]. cbn [snd].
    assert (with_mu false l = l) as E by (destruct l; cbn in *; by subst).
    pose proof (ok_doLock s i l false Hok Hi Hg) as Hd. by rewrite E in Hd.
  - by destruct (ok_unlock _ _ _ _ _ _ Hok Hi Hx).
  - unfold Local_Extend in Hx. destruct (mu l); [done|]. destruct (locked l) eqn:Hl; cbn in Hx; [|by simplify_eq].
    destruct (expiration (base l)); [|by simplify_eq]. destruct (bool_decide _); [by simplify_eq|].
    simplify_eq. eapply ok_same_locks; [done|exact Hi|done..].
  - unfold goroutine_look in Hx. destruct (goroutines s !! g) as [[i []]|] eqn:Eg; [|done..].
    destruct (objs s !! i) as [l|] eqn:Hi; [|done]. destruct (locked l) eqn:Hl; cbn in Hx.
    + assert (local_ok (set_goroutines (<[g := (i, Unlocking)]> (goroutines s)) s)) as Hu.
      { apply local_ok_goroutines; [done|]. intros j x Hj Hlx. eapply watched_insert; [exact Eg|by eapply Hw]. }
      destruct (expiration (base l)); [|by simplify_eq]. destruct (bool_decide _); by simplify_eq.
    + injection Hx as <-. apply local_ok_goroutines; [done|]. intros j x Hj Hlx.
      eapply watched_delete; [exact Eg|intros ->; congruence|by eapply Hw].
  - unfold goroutine_unlock in Hx. destruct (goroutines s !! g) as [[i []]|] eqn:Eg; [done| |done].
    destruct (objs s !! i) as [l|] eqn:Hi; [|done]. destruct (Local_Unlock fe i l s) as [[err s1]|] eqn:Eu; [|done].
    injection Hx as <-. destruct (ok_unlock _ _ _ _ _ _ Hok Hi Eu) as [Hok1 Eg1].
    apply local_ok_goroutines; [done|]. intros j x Hj Hlx. eapply watched_insert; [rewrite Eg1; exact Eg|].
    destruct Hok1 as [_ _ Hw1]. by eapply Hw1.
  - by destruct Hok.
Qed.

(** Nothing is locked at first. *)
Definition local_start (s : Local) : Prop :=
  (forall i j l l', objs s !! i = Some l -> objs s !! j = Some l' -> fd l = fd l' -> i = j) /\
  Forall (fun l => locked l = false) (objs s).

Lemma local_ok_reach s0 s : local_start s0 -> rtc local_step s0 s -> local_ok s.
Proof using Type.
  intros [Hd Hn] Hr. refine (rtc_invariant _ local_ok _ _ local_ok_step _ Hr).
  rewrite Forall_lookup in Hn. split; [exact Hd|..]; intros i l Hi Hl; rewrite (Hn i l Hi) in Hl; done.
Qed.
End local.

(** C22: the local lock excludes: whatever calls, goroutines and passing of time
    interleave, two locked objects of one file are the same object, and an object that
    [TryLock] or a waiting [Lock] locks found no other locked. A lock whose time
    is over can be released: a goroutine watches it, and in at most two steps, when
    nobody holds the mutex and the system does not fail, the object is unlocked. *)
Theorem local_lock_exclusive (sys_error : string -> error -> error) (s0 s : Local) (i j : nat) (l l' : LocalLock) (e : Z) :
  local_start s0 -> rtc (local_step sys_error) s0 s ->
  objs s !! i = Some l -> objs s !! j = Some l' -> path l = path l' -> locked l = true ->
  (locked l' = true -> i = j) /\
  (i <> j -> (Local_TryLock sys_error NilErr j l' s).1 = Ok false /\ (mu l' = true -> Lock_end sys_error NilErr j l' s = None)) /\
  (expiration (base l) = Some e -> e <= l_now s -> mu l = false ->
   exists s1 s2 l2, rtc (local_step sys_error) s s1 /\ rtc (local_step sys_error) s1 s2 /\
     objs s2 !! i = Some l2 /\ locked l2 = false).
Proof.
  intros H0 Hr Hi Hj Hp Hl. pose proof (local_ok_reach _ _ _ H0 Hr) as [Hd Hh Hw].
  pose proof (Hh i l Hi Hl) as Hf. split_and!.
  - intros Hl'. apply (Hd i j l l' Hi Hj). pose proof (Hh j l' Hj Hl') as Hf'. rewrite <- Hp, Hf in Hf'. by injection Hf'.
  - intros Hne. assert (grantable l' s = false) as Hg.
    { unfold grantable. rewrite <- Hp, Hf. apply bool_decide_eq_false. intros E. apply Hne. by eapply Hd. }
    split; [|intros Hm; unfold Lock_end; by rewrite Hm, Hg].
    unfold Local_TryLock. destruct (mu l'); [done|]. destruct (locked l'); [done|]. by rewrite Hg.
  - intros He Hle Hm. destruct (Hw i l Hi Hl) as (g & p & Hg).
    assert (exists s1, rtc (local_step sys_error) s s1 /\ objs s1 = objs s /\ goroutines s1 !! g = Some (i, Unlocking))
      as (s1 & Hr1 & Ho1 & Hg1).
    { destruct p; [|by exists s]. eexists. split; [|split].
      - eapply rtc_once, do_look. unfold goroutine_look. rewrite Hg, Hi, Hl, He. cbn [negb].
        rewrite bool_decide_eq_false_2 by lia. reflexivity.
      - done.
      - cbn. apply list_lookup_insert_eq. by eapply lookup_lt_Some. }
    eexists s1, _, _. split; [exact Hr1|]. split.
    + eapply rtc_once, (do_goroutine_unlock _ NilErr g). unfold goroutine_unlock. rewrite Hg1, Ho1, Hi.
      unfold Local_Unlock. rewrite Hm. reflexivity.
    + cbn. assert (objs (release l s1) = objs s) as -> by (unfold release; by case_bool_decide).
      split; [apply list_lookup_insert_eq; by eapply lookup_lt_Some|done].
Qed.

(** ** Two processes, for the witness *)
Definition fail_with (msg : string) (e : error) : error := WrapOne "*fmt.wrapError" msg e.
Definition one_file (_ : string) : string := "/tmp/lock".
Definition machine0 : Local :=
  MkMachine [NewDistributedLocalLock one_file "jobs" "a" 10 3; NewDistributedLocalLock one_file "jobs" "b" 10 4] ∅ 100 [].
Definition machine1 : Local :=
  (Local_TryLock fail_with NilErr 0 (NewDistributedLocalLock one_file "jobs" "a" 10 3) machine0).2.
Definition machine2 : Local := MkMachine (objs machine1) (flocks machine1) (l_now machine1 + 20) (goroutines machine1).
Definition locked_a : LocalLock := MkLocal (set_lease (Some 110) 0 (new_lock "jobs" "a" 10)) "/tmp/lock" 3 true false.
Definition idle_b : LocalLock := NewDistributedLocalLock one_file "jobs" "b" 10 4.

Lemma machine2_reached : rtc (local_step fail_with) machine0 machine2.
Proof.
  apply (rtc_l _ _ machine1).
  - exact (do_try_lock fail_with NilErr 0 (NewDistributedLocalLock one_file "jobs" "a" 10 3) machine0 eq_refl).
  - apply rtc_once. exact (do_time fail_with 20 machine1 ltac:(lia)).
Qed.

Lemma machine0_start : local_start machine0.
Proof.
  split; [|by repeat constructor].
  intros [|[|i]] [|[|j]] l l'; cbn; intros Hi Hj Hf; simplify_eq; done.
Qed.

Lemma local_lock_exclusive_witness :
  (Local_TryLock fail_with NilErr 1 idle_b machine2).1 = Ok false /\
  exists s1 s2 l2, rtc (local_step fail_with) machine2 s1 /\ rtc (local_step fail_with) s1 s2 /\
     objs s2 !! 0%nat = Some l2 /\ locked l2 = false.
Proof.
  destruct (local_lock_exclusive fail_with machine0 machine2 0 1 locked_a idle_b 110) as (_ & Hx & Hr).
  - exact machine0_start.
  - exact machine2_reached.
  - reflexivity.
  - reflexivity.
  - reflexivity.
  - reflexivity.
  - split; [apply Hx; discriminate|]. apply Hr; [reflexivity|vm_compute; discriminate|reflexivity].
Defined.

(** ** A stale goroutine *)

(** The goroutine of the first lock saw it expired; before it unlocks, the client unlocks
    and locks again. *)
Definition relocked : option Local :=
  s2 ← goroutine_look 0 machine2;
  a2 ← objs s2 !! 0%nat;
  r3 ← Local_Unlock fail_with NilErr 0 a2 s2;
  a3 ← objs r3.2 !! 0%nat;
  Some (Local_TryLock fail_with NilErr 0 a3 r3.2).2.

(** The goroutine of an earlier lock can release a later one of the same object, which
    has just begun: here the file is free while the second client has most of its
    time left. *)
Theorem stale_goroutine_unlocks :
  exists s3 s4 a3, relocked = Some s3 /\ rtc (local_step fail_with) machine0 s3 /\
    objs s3 !! 0%nat = Some a3 /\ locked a3 = true /\ expiration (base a3) = Some (l_now s3 + 10) /\
    goroutine_unlock fail_with NilErr 0 s3 = Some s4 /\ l_now s4 = l_now s3 /\ flocks s4 = ∅ /\
    locked <$> objs s4 !! 0%nat = Some false.
Proof.
  eexists _, _, _. split; [reflexivity|]. split.
  - etransitivity; [exact machine2_reached|].
    eapply rtc_l; [by apply (do_look fail_with 0)|].
    eapply rtc_l; [by eapply (do_unlock fail_with NilErr 0)|].
    apply rtc_once. by apply (do_try_lock fail_with NilErr 0).
  - split_and!; reflexivity.
Qed.
