(* ===== verification/Worker.v ===== *)
(** * worker: the handler of long running workers

    Models [worker/worker.go] and the deferred function of [panics/panic.go]: one turn
    of the runners of a worker, over what the lock and the worker do; and the
    handler, whose goroutines, [Run] and [Stop] interleave, as a step relation. *)

From S2P Require Import Prelude.
From S2P Require Import Errors.
From S2P Require Import DistributedLock.

Open Scope string_scope.
Open Scope list_scope.
Open Scope Z_scope.

#[export] Instance Frame_eq_dec : EqDecision Frame.
Proof. solve_decision. Defined.
#[export] Instance Fields_eq_dec : EqDecision Fields.
Proof. solve_decision. Defined.

Definition ErrCodeWorkerError : string := "WORKER_ERROR".

(** [errors.Is] for an error that wraps nothing: a value of the framework is told from
    others by all that [Newf] gave it, the stack included. *)
Fixpoint Is (err : error) (target : Fields) : bool :=
  match err with
  | NilErr | OpaqueErr _ _ => false
  | FwErr f ws => bool_decide (f = target) || existsb (fun w => Is w target) ws
  | WrapOne _ _ w => Is w target
  | WrapMany _ _ ws => existsb (fun w => Is w target) ws
  end.

(** How a call ends. *)
Inductive call := Returned (err : error) | Panicked (v : string).

Inductive ConcurrencyMode := ConcurrencyModeMulti | ConcurrencyModeSingle | InvalidMode (n : Z).

(** What one turn of the single runner meets. *)
Record round := MkRound { lock_call : call; auto_call : call; run_call : call; unlock_call : call }.

Inductive event := CallLock | CallAutoExtend | CallRun | CallUnlock.

Section runners.
Context (defaults : Defaults) (callers init : list Frame) (show : error -> string).

(** The package's variables; [init] is the stack of its initialisation. *)
Definition sentinel (code msg : string) : Fields :=
  MkFields code msg ("{" +:+ code +:+ "} " +:+ msg) init
    (defaultCodeKey initial_defaults) (defaultMessageKey initial_defaults) (defaultStackKey initial_defaults).
Definition stopped : Fields := sentinel "WORKER_HANDLER_STOPPED" "worker handler stopped".
Definition no_workers : Fields := sentinel "WORKER_HANDLER_NO_WORKERS" "worker handler has no workers".
Definition errWorkerHandlerStopped : error := FwErr stopped [].
Definition ErrWorkerHandlerNoWorkers : error := FwErr no_workers [].

(** [errors.Newf] with a format that wraps [err] at its end, or wraps nothing. *)
Definition wrapf (code msg : string) (err : error) : error :=
  Newf defaults code (WrapOne "*fmt.wrapError" (msg +:+ show err) err) (msg +:+ show err) callers.
Definition plainf (code msg : string) : error := Newf defaults code (OpaqueErr "*errors.errorString" msg) msg callers.

(** [recovered]: what [recover] returned. *)
Definition DeferredPanicToError (recovered : option string) (err : error) (msg : string) : error :=
  match recovered with
  | None => err
  | Some r =>
      match err with
      | NilErr => plainf ErrCodePanic (msg +:+ ", panic: " +:+ r)
      | _ => wrapf ErrCodePanic (msg +:+ ", panic: " +:+ r +:+ ", hidden error: ") err
      end
  end.

(** [recovered]: the framework's error, or the text of anything else. What is logged, at level
    Error, and the code the process exits with. *)
Definition DeferredPanicToLogAndExit (recovered : option (error + string)) : option (string * Z) :=
  match recovered with
  | None => None
  | Some (inl err) => Some ("panic: " +:+ show err, 2)
  | Some (inr r) => Some ("panic: " +:+ show (plainf ErrCodePanic r), 2)
  end.

Definition multiWorkerRunner (name : string) (run : call) : error :=
  let err :=
    match run with
    | Returned err => err
    | Panicked v => DeferredPanicToError (Some v) NilErr ("worker: " +:+ name +:+ " panicked")
    end in
  match err with NilErr => NilErr | _ => wrapf ErrCodeWorkerError ("multi worker: " +:+ name +:+ " error: ") err end.

(** The closure of the loop: the calls it makes and its error. The deferred [Unlock]
    runs first; when it panics that panic is the one recovered. *)
Definition single_round (name : string) (r : round) : list event * error :=
  let msg := "long running worker handler panicked while managing lock for single worker: " +:+ name in
  let unlocked := fun (calls : list event) (panicking : option string) (err : error) =>
    let recovered := match unlock_call r with Panicked v => Some v | Returned _ => panicking end in
    (calls ++ [CallUnlock], DeferredPanicToError recovered err msg) in
  match lock_call r with
  | Panicked v => ([CallLock], DeferredPanicToError (Some v) NilErr msg)
  | Returned NilErr =>
      match auto_call r with
      | Panicked v => unlocked [CallLock; CallAutoExtend] (Some v) NilErr
      | Returned NilErr =>
          match run_call r with
          | Panicked v => unlocked [CallLock; CallAutoExtend; CallRun] (Some v) NilErr
          | Returned err => unlocked [CallLock; CallAutoExtend; CallRun] None err
          end
      | Returned err => unlocked [CallLock; CallAutoExtend] None err
      end
  | Returned err => ([CallLock], wrapf ErrCodeUnknown ("failed to lock worker: " +:+ name +:+ " error: ") err)
  end.

(** The lease was lost: the loop locks again. *)
Definition lost_lease (err : error) : bool :=
  negb (Is err stopped || IsCode err ErrCodePanic) && (AsCode err None ErrCodeLockNotAutoExtended).1.

(** [None]: the turns given are used up. *)
Fixpoint singleWorkerRunner (name : string) (rounds : list round) : list event * option error :=
  match rounds with
  | [] => ([], None)
  | r :: rounds =>
      let t := single_round name r in
      match t.2 with
      | NilErr => (t.1, Some NilErr)
      | err =>
          if Is err stopped || IsCode err ErrCodePanic then (t.1, Some err)
          else if (AsCode err None ErrCodeLockNotAutoExtended).1 then
            let k := singleWorkerRunner name rounds in (t.1 ++ k.1, k.2)
          else (t.1, Some (wrapf ErrCodeWorkerError ("single worker: " +:+ name +:+ " error: ") err))
      end
  end.

(** What the goroutine of a worker sends to [Run]. *)
Definition reported (name : string) (err : error) : error :=
  match err with
  | NilErr => plainf ErrCodeWorkerError ("worker: " +:+ name +:+ " un-expectedly finished processing without error")
  | _ => if Is err stopped then errWorkerHandlerStopped else err
  end.

Definition worker_goroutine (name : string) (mode : ConcurrencyMode) (show_mode : string) (run : call) (rounds : list round) : option error :=
  match mode with
  | ConcurrencyModeMulti => Some (reported name (multiWorkerRunner name run))
  | ConcurrencyModeSingle => reported name <$> (singleWorkerRunner name rounds).2
  | InvalidMode _ =>
      Some (reported name (plainf ErrCodeBadState ("worker: " +:+ name +:+ " has invalid concurrency mode: " +:+ show_mode)))
  end.

(** ** The handler *)

(** [cause]: why the handler's context is done. [running]: the workers whose goroutine has
    not sent; [chn]: [handlerErrChn]; [errs]: what [Run] has received; [shutdowns]: the
    errors for which a graceful shutdown was asked; [result]: of [Run], once it has
    closed [closedChn]; [started]: [Start]'s goroutine has seen the result; [dead]: a
    panic ended the process. *)
Record Handler := MkHandler {
  workers : nat;
  cause : option error;
  running : list nat;
  chn : list error;
  errs : list error;
  shutdowns : list error;
  result : option error;
  started : bool;
  dead : bool;
}.

Definition new_handler (n : nat) : Handler := MkHandler n None (seq 0 n) [] [] [] None false false.

(** [sh]: the error of [Shutdown]. *)
Definition shutdownFxApp (sh err : error) (h : Handler) : Handler :=
  match cause h with
  | Some _ => h
  | None =>
      MkHandler (workers h) (cause h) (running h) (chn h) (errs h) (shutdowns h ++ [err]) (result h) (started h)
        (match sh with NilErr => dead h | _ => true end)
  end.

(** One worker's goroutine sends. *)
Definition worker_sends (i : nat) (err : error) (h : Handler) : Handler :=
  MkHandler (workers h) (cause h) (filter (fun j => j <> i) (running h)) (chn h ++ [err]) (errs h) (shutdowns h)
    (result h) (started h) (dead h).

(** An iteration of the loop of [Run] over [handlerErrChn]. *)
Definition run_receives (sh : error) (h : Handler) : option Handler :=
  if bool_decide (length (errs h) < workers h)%nat then
    match chn h with
    | [] => None
    | err :: rest =>
        let h := shutdownFxApp sh err h in
        Some (MkHandler (workers h) (cause h) (running h) rest (errs h ++ [err]) (shutdowns h) (result h) (started h) (dead h))
    end
  else None.

Definition run_result (h : Handler) : error :=
  if bool_decide (length (errs h) <> 0%nat) then
    wrapf ErrCodeWorkerError "" (WrapMany "*errors.joinError" (String.concat newline (show <$> errs h)) (errs h))
  else if bool_decide (workers h = 0%nat) then ErrWorkerHandlerNoWorkers
  else NilErr.

(** [Run] returns, closing [closedChn]. *)
Definition run_returns (h : Handler) : option Handler :=
  if bool_decide (length (errs h) < workers h)%nat then None
  else
    Some (MkHandler (workers h) (cause h) (running h) (chn h) (errs h) (shutdowns h) (Some (run_result h)) (started h) (dead h)).

(** What [Start]'s goroutine does with the result. *)
Definition start_sees (sh err : error) (h : Handler) : Handler :=
  let h' := MkHandler (workers h) (cause h) (running h) (chn h) (errs h) (shutdowns h) (result h) true (dead h) in
  match err with
  | NilErr => h'
  | _ => if Is err stopped then h' else if Is err no_workers then shutdownFxApp sh err h' else h'
  end.

(** The first statement of [Stop]; a context is only cancelled once. *)
Definition stop_cancels (h : Handler) : Handler :=
  MkHandler (workers h) (match cause h with None => Some errWorkerHandlerStopped | c => c end) (running h) (chn h) (errs h)
    (shutdowns h) (result h) (started h) (dead h).

(** The rest of [Stop], of a context with a deadline or without; [done]: the context is
    done. Both cases of the select may be ready. *)
Inductive stop_end := StopDone | StopGivesUp.
Inductive stop_waits (deadline done : bool) (h : Handler) : stop_end -> Prop :=
| stop_closed : result h <> None -> stop_waits deadline done h StopDone
| stop_ctx_done : deadline = true -> done = true -> stop_waits deadline done h StopGivesUp.

Inductive handler_step : Handler -> Handler -> Prop :=
| h_send i name err h : dead h = false -> i ∈ running h -> handler_step h (worker_sends i (reported name err) h)
| h_receive sh h h' : dead h = false -> result h = None -> run_receives sh h = Some h' -> handler_step h h'
| h_return h h' : dead h = false -> result h = None -> run_returns h = Some h' -> handler_step h h'
| h_start sh err h : dead h = false -> started h = false -> result h = Some err -> handler_step h (start_sees sh err h)
| h_stop h : dead h = false -> handler_step h (stop_cancels h).

(** ** Proofs: one runner *)
Definition lost (name : string) (r : round) : bool :=
  match (single_round name r).2 with NilErr => false | err => lost_lease err end.

(** How the loop ends with the error of its last turn. *)
Definition conclude (name : string) (err : error) : error :=
  match err with
  | NilErr => NilErr
  | _ => if Is err stopped || IsCode err ErrCodePanic then err
         else wrapf ErrCodeWorkerError ("single worker: " +:+ name +:+ " error: ") err
  end.

Lemma plainf_not_nil code msg : plainf code msg <> NilErr.
Proof using Type. done. Qed.

Lemma single_round_calls name r :
  (single_round name r).1 = [CallLock] /\ lock_call r <> Returned NilErr \/
  (single_round name r).1 = [CallLock; CallAutoExtend; CallUnlock] /\ lock_call r = Returned NilErr /\ auto_call r <> Returned NilErr \/
  (single_round name r).1 = [CallLock; CallAutoExtend; CallRun; CallUnlock] /\ lock_call r = Returned NilErr /\ auto_call r = Returned NilErr.
Proof using Type.
  unfold single_round. destruct (lock_call r) as [[]|]; try (left; split; [reflexivity|discriminate]).
  destruct (auto_call r) as [[]|]; try (right; left; split; [reflexivity|split; [done|discriminate]]).
  right; right. by destruct (run_call r).
Qed.

Lemma singleWorkerRunner_find name rounds :
  singleWorkerRunner name rounds =
    match list_find (fun r => lost name r = false) rounds with
    | Some (k, r) => (concat ((fun r => (single_round name r).1) <$> take (S k) rounds), Some (conclude name (single_round name r).2))
    | None => (concat ((fun r => (single_round name r).1) <$> rounds), None)
    end.
Proof using Type.
  induction rounds as [|r rounds IH]; [done|]. cbn [singleWorkerRunner list_find].
  unfold lost at 1, lost_lease, conclude. destruct (decide _) as [Hl|Hl]; cbn [fmap list_fmap concat take].
  - rewrite app_nil_r. destruct (single_round name r).2; [done|..];
      (destruct (Is _ _ || IsCode _ _); cbn [negb andb] in Hl; [done|by rewrite Hl]).
  - apply not_false_is_true in Hl. rewrite IH. unfold lost, lost_lease in Hl.
    destruct (single_round name r).2; [done|..]; apply andb_true_iff in Hl as [Hn Ha]; apply negb_true_iff in Hn;
      rewrite Hn, Ha; (destruct (list_find _ rounds) as [[k x]|]; done).
Qed.
End runners.

(** C24: the runner of a worker of which one instance runs: in every turn it locks
    first, runs the worker only when it holds the lock with automatic extension, and
    unlocks afterwards whenever it had locked, also after a panic. It goes on to
    another turn exactly while the lease was lost, and ends with the error of the first
    other turn: as it is when it is the stop of the handler or a panic, else
    wrapped. *)
Theorem single_worker defaults callers init show name rounds :
  let round_of := single_round defaults callers show name in
  Forall (fun r =>
    (CallUnlock ∈ (round_of r).1 <-> lock_call r = Returned NilErr) /\
    (CallRun ∈ (round_of r).1 <-> lock_call r = Returned NilErr /\ auto_call r = Returned NilErr) /\
    (CallRun ∈ (round_of r).1 -> (round_of r).1 = [CallLock; CallAutoExtend; CallRun; CallUnlock])) rounds /\
  singleWorkerRunner defaults callers init show name rounds =
    match list_find (fun r => lost defaults callers init show name r = false) rounds with
    | Some (k, r) => (concat ((fun r => (round_of r).1) <$> take (S k) rounds), Some (conclude defaults callers init show name (round_of r).2))
    | None => (concat ((fun r => (round_of r).1) <$> rounds), None)
    end.
Proof.
  cbv zeta. split; [|apply singleWorkerRunner_find]. apply Forall_forall. intros r _.
  destruct (single_round_calls defaults callers show name r) as [(-> & Hl)|[(-> & Hl & Ha)|(-> & Hl & Ha)]];
    (split; [|split]); rewrite ?elem_of_cons, ?elem_of_nil; intuition (congruence || auto 6).
Qed.

(** ** Proofs: the handler *)
Section handler.
Context (defaults : Defaults) (callers init : list Frame) (show : error -> string).
Notation step := (handler_step defaults callers init show).
Notation NoWorkers := (ErrWorkerHandlerNoWorkers init).

Record handler_ok (n : nat) (h : Handler) : Prop := {
  ok_workers : workers h = n;
  ok_count : (length (running h) + length (chn h) + length (errs h) = n)%nat;
  ok_nodup : NoDup (running h);
  ok_errors : Forall (fun e => e <> NilErr) (errs h ++ chn h);
  ok_result : forall e, result h = Some e -> length (errs h) = n /\ e = run_result defaults callers init show h;
  ok_started : started h = true -> result h <> None;
  ok_prefix : shutdowns h `prefix_of` errs h ++ (if started h then option_list (result h) else []);
  ok_alive : cause h = None -> started h = false -> shutdowns h = errs h;
}.

Lemma reported_not_nil name e : reported defaults callers init name e <> NilErr.
Proof using Type. unfold reported. destruct e; [done|..]; by destruct (Is _ _). Qed.

Lemma length_filter_out (i : nat) l : NoDup l -> i ∈ l -> length l = S (length (filter (fun j => j <> i) l)).
Proof using Type.
  induction l as [|x l IH]; [by intros _ ?%elem_of_nil|]. intros [Hx Hl]%NoDup_cons Hin. rewrite filter_cons.
  destruct (decide (x = i)) as [->|Hne].
  - rewrite decide_False by auto. cbn. f_equal. clear IH Hin. induction l as [|y l IH]; [done|].
    apply NoDup_cons in Hl as [_ Hl]. rewrite filter_cons, decide_True by set_solver. cbn. f_equal. apply IH; set_solver.
  - rewrite decide_True by done. cbn. f_equal. apply IH; [done|set_solver].
Qed.

Lemma handler_ok_step n h h' : handler_ok n h -> step h h' -> handler_ok n h'.
Proof using Type.
  intros Hok Hs. pose proof Hok as [Hw Hc Hn He Hr Hst Hp Ha].
  destruct Hs as [i name err h _ Hi|sh h h' _ Hres Hx|h h' _ Hres Hx|sh err h _ Hsta Hres|h _].
  - split; cbn; try done.
    + rewrite length_app. cbn. pose proof (length_filter_out i _ Hn Hi). lia.
    + by apply NoDup_filter.
    + rewrite app_assoc. apply Forall_app. split; [done|]. constructor; [apply reported_not_nil|done].
  - unfold run_receives in Hx. case_bool_decide as Hlt; [|done]. destruct (chn h) as [|e rest] eqn:Ech; [done|].
    assert (started h = false) as Hsf by (destruct (started h); [by destruct (Hst eq_refl)|done]).
    injection Hx as <-. unfold shutdownFxApp. destruct (cause h) eqn:Ec; split; cbn; rewrite ?Ech in *; try done; try congruence.
    all: rewrite ?length_app; cbn in *; try lia.
    all: try (rewrite <- app_assoc; exact He).
    + rewrite Hsf in *. cbn in *. rewrite app_nil_r in *. by apply prefix_app_r.
    + rewrite Hsf. cbn. rewrite app_nil_r. by rewrite Ha.
    + intros _ _. by rewrite Ha.
  - unfold run_returns in Hx. case_bool_decide as Hlt; [done|]. injection Hx as <-.
    split; cbn; try done; [intros e [= <-]; split; [lia|done]|].
    destruct (started h); [by destruct (Hst eq_refl)|done].
  - assert (handler_ok n (MkHandler (workers h) (cause h) (running h) (chn h) (errs h) (shutdowns h) (result h) true (dead h))) as Hsame.
    { split; cbn; try done; [congruence|]. rewrite Hsta in Hp. cbn in Hp. rewrite app_nil_r in Hp. by apply prefix_app_r. }
    assert (handler_ok n (shutdownFxApp sh err
      (MkHandler (workers h) (cause h) (running h) (chn h) (errs h) (shutdowns h) (result h) true (dead h)))) as Hshut.
    { unfold shutdownFxApp. cbn [cause]. destruct (cause h) eqn:Ec; [exact Hsame|].
      split; cbn; try done; [congruence|]. rewrite Hres, Ha by done. done. }
    unfold start_sees. destruct err; [exact Hsame|..]; by repeat destruct (Is _ _).
  - split; cbn; try done. intros Hcn. by destruct (cause h).
Qed.

Lemma handler_ok_reach n h : rtc step (new_handler n) h -> handler_ok n h.
Proof using Type.
  intros Hr. refine (rtc_invariant _ (handler_ok n) _ _ (handler_ok_step n) _ Hr).
  split; cbn; try done; [by rewrite length_seq, !Nat.add_0_r|apply NoDup_seq].
Qed.

(** [Run] gets to its end once all goroutines have sent. *)
Lemma run_drains n h : handler_ok n h -> dead h = false -> running h = [] -> result h = None ->
  exists h', rtc step h h' /\ result h' <> None /\ errs h' = errs h ++ chn h.
Proof using Type.
  intros Hok Hd Hr Hres. remember (chn h) as c eqn:Ec. revert h Hok Hd Hr Hres Ec.
  induction c as [|e c IH]; intros h Hok Hd Hr Hres Ec; pose proof Hok as [Hw Hc _ _ _ _ _ _]; rewrite Hr, <- Ec in Hc; cbn in Hc.
  - assert (run_returns defaults callers init show h =
      Some (MkHandler (workers h) (cause h) (running h) (chn h) (errs h) (shutdowns h) (Some (run_result defaults callers init show h)) (started h) (dead h))) as E.
    { unfold run_returns. by rewrite bool_decide_eq_false_2 by lia. }
    eexists. split; [eapply rtc_once, h_return; [done|done|exact E]|]. cbn. by rewrite app_nil_r.
  - assert (exists h', run_receives NilErr h = Some h' /\ dead h' = false /\ running h' = [] /\ result h' = None /\
      chn h' = c /\ errs h' = errs h ++ [e]) as (h' & E & Hd' & Hr' & Hres' & Ec' & Ee').
    { unfold run_receives. rewrite bool_decide_eq_true_2 by lia. rewrite <- Ec. eexists. split; [reflexivity|].
      unfold shutdownFxApp. by destruct (cause h). }
    assert (step h h') as Hstep by (by eapply h_receive).
    destruct (IH h') as (h2 & Hr2 & Hx & Ee2); [by eapply handler_ok_step|done..|].
    exists h2. split; [by eapply rtc_l|]. split; [done|]. by rewrite Ee2, Ee', <- app_assoc.
Qed.
End handler.

(** C25: the handler of long running workers, for every interleaving of the workers, [Run],
    [Start] and [Stop]: [Run] ends only when every worker has ended, always with an error
    ([ErrWorkerHandlerNoWorkers] when there are none), in which each worker's error can
    be found by its code; a graceful shutdown is asked for every error that arrives before
    [Stop], in order, and none for those after; and when the workers have ended [Run]
    does end, and with it a [Stop] that waits. *)
Theorem handler_runs defaults callers init show n h :
  rtc (handler_step defaults callers init show) (new_handler n) h ->
  (forall err, result h = Some err ->
     length (errs h) = n /\ running h = [] /\ err <> NilErr /\
     (n = 0%nat -> err = ErrWorkerHandlerNoWorkers init) /\
     (n <> 0%nat -> IsCode err ErrCodeWorkerError = true) /\
     (forall e code, e ∈ errs h -> IsCode e code = true -> IsCode err code = true)) /\
  shutdowns h `prefix_of` errs h ++ (if started h then option_list (result h) else []) /\
  (cause h = None -> started h = false -> shutdowns h = errs h) /\
  (cause h <> None -> forall h', handler_step defaults callers init show h h' -> shutdowns h' = shutdowns h /\ cause h' = cause h) /\
  (dead h = false -> running h = [] -> exists h', rtc (handler_step defaults callers init show) h h' /\
     forall deadline done, stop_waits deadline done h' StopDone).
Proof.
  intros Hr. pose proof (handler_ok_reach _ _ _ _ _ _ Hr) as Hok. pose proof Hok as [Hw Hc Hn He Hres Hst Hp Ha].
  split_and!; [|done|done| |].
  - intros err Herr. destruct (Hres err Herr) as [Hlen ->]. unfold run_result.
    assert (running h = []) as Hrun by (apply length_zero_iff_nil; lia).
    assert (forall e code, e ∈ errs h -> IsCode e code = true -> errs h <> []) as Hne by (intros e code Hin _ E; rewrite E in Hin; by apply elem_of_nil in Hin).
    case_bool_decide as Hz.
    + split_and!; try done; [lia|]. intros e code Hin Hcode. apply IsCode_spec.
      apply IsCode_spec in Hcode as (f & Hf & Hcf). exists f. split; [|done].
      cbn [wrapf Newf fw_errors flat_map app]. rewrite app_nil_r. apply elem_of_cons. right.
      apply list_elem_of_In, in_flat_map. exists e. by split; apply list_elem_of_In.
    + rewrite bool_decide_eq_true_2 by lia. split_and!; try done; [lia|].
      intros e code Hin _. apply length_zero_iff_nil in Hz. rewrite Hz in Hin. by apply elem_of_nil in Hin.
  - intros Hcause h' Hs. destruct Hs as [| sh h h' _ _ Hx|h h' _ _ Hx|sh err h _ _ _|]; cbn in *; try done.
    + unfold run_receives in Hx. case_bool_decide; [|done]. destruct (chn h); [done|]. injection Hx as <-.
      unfold shutdownFxApp. destruct (cause h) eqn:E; [cbn; by rewrite E|done].
    + unfold run_returns in Hx. case_bool_decide; [done|]. by injection Hx as <-.
    + unfold start_sees, shutdownFxApp. cbn [cause]. destruct (cause h) eqn:E; [|done].
      destruct err; [done|..]; repeat destruct (Is _ _); done.
    + by destruct (cause _) eqn:E.
  - intros Hd Hrun. destruct (result h) eqn:E.
    + exists h. split; [done|]. intros. apply stop_closed. congruence.
    + destruct (run_drains _ _ _ _ n h Hok Hd Hrun E) as (h' & Hr' & Hx & _). exists h'. split; [done|].
      intros. by apply stop_closed.
Qed.

(** ** A handler with one worker that fails, for the witness *)
Definition boom : error := OpaqueErr "*errors.errorString" "boom".
Definition one_failed : Handler :=
  MkHandler 1 None [] [] [boom] [boom]
    (Some (run_result initial_defaults [] [] (fun _ => "") (MkHandler 1 None [] [] [boom] [boom] None false false))) false false.

Lemma one_failed_reached : rtc (handler_step initial_defaults [] [] (fun _ => "")) (new_handler 1) one_failed.
Proof.
  eapply rtc_l; [apply (h_send _ _ _ _ 0 "w" boom); [done|by apply list_elem_of_singleton]|].
  eapply rtc_l; [by eapply (h_receive _ _ _ _ NilErr)|].
  apply rtc_once. by apply h_return.
Qed.

Lemma handler_runs_witness :
  IsCode (run_result initial_defaults [] [] (fun _ => "") one_failed) ErrCodeWorkerError = true /\ shutdowns one_failed = [boom].
Proof.
  destruct (handler_runs initial_defaults [] [] (fun _ => "") 1 one_failed one_failed_reached) as (Hres & _ & Hsh & _).
  split; [|apply Hsh; reflexivity].
  destruct (Hres _ eq_refl) as (_ & _ & _ & _ & Hcode & _). apply Hcode. discriminate.
Defined.
