(* ===== verification/Config.v ===== *)
(** * config: files, environment and secrets

    Models [config/config.go], [config/internal.go] and [config/secrets.go], and the key
    transformer of [secrets/key_transformer.go]: the search for a file, the binding of
    environment variables to a tree of settings, the secrets that placeholders stand
    for, and the texts of the settings with a format. The decoders of YAML, JSON and
    mapstructure, and the file system, are parameters. *)

From S2P Require Import Prelude.
From S2P Require Import GoStrings.
From S2P Require Import Errors.
From stdpp Require Import pretty.
From Stdlib Require Import Ascii.

Open Scope string_scope.
Open Scope list_scope.
Open Scope Z_scope.

(** ** Texts of settings *)

Definition LogLevelTrace : Z := -8.
Definition LogLevelDebug : Z := -4.
Definition LogLevelInfo : Z := 0.
Definition LogLevelWarn : Z := 4.
Definition LogLevelError : Z := 8.

(** [LogLevel.String], of the generated [loglevel_string.go]. *)
Definition LogLevel_String (i : Z) : string :=
  if bool_decide (i = -8) then "TRACE"
  else if bool_decide (i = -4) then "DEBUG"
  else if bool_decide (i = 0) then "INFO"
  else if bool_decide (i = 4) then "WARN"
  else if bool_decide (i = 8) then "ERROR"
  else "LogLevel(" +:+ pretty i +:+ ")".

(** [slog.Level(LogLevelTrace).String()] *)
Definition TraceAsSlogStr : string := "DEBUG-4".

Definition LogLevel_MarshalText (l : Z) : string := LogLevel_String l.
(** The error's message when there is one. *)
Definition LogLevel_UnmarshalText (levelStr : string) : result string Z :=
  let u := ToUpper levelStr in
  if bool_decide (u = TraceAsSlogStr) || bool_decide (u = LogLevel_String LogLevelTrace) then Ok LogLevelTrace
  else if bool_decide (u = "") || bool_decide (u = LogLevel_String LogLevelDebug) then Ok LogLevelDebug
  else if bool_decide (u = LogLevel_String LogLevelInfo) then Ok LogLevelInfo
  else if bool_decide (u = LogLevel_String LogLevelWarn) then Ok LogLevelWarn
  else if bool_decide (u = LogLevel_String LogLevelError) then Ok LogLevelError
  else Err ("invalid log level: " +:+ levelStr).

Inductive LogConfigWriter := LogConfigWriterStdout | LogConfigWriterStderr | LogConfigWriterBuffer.
Definition LogConfigWriter_MarshalText (w : LogConfigWriter) : string :=
  match w with LogConfigWriterStdout => "stdout" | LogConfigWriterStderr => "stderr" | LogConfigWriterBuffer => "buffer" end.
Definition LogConfigWriter_UnmarshalText (writerStr : string) : result string LogConfigWriter :=
  if bool_decide (writerStr = "stdout") then Ok LogConfigWriterStdout
  else if bool_decide (writerStr = "stderr") then Ok LogConfigWriterStderr
  else if bool_decide (writerStr = "buffer") then Ok LogConfigWriterBuffer
  else if bool_decide (writerStr = "") then Ok LogConfigWriterStdout
  else Err ("invalid logger writer: " +:+ writerStr).

(** [hostname]: of the machine. *)
Definition Host_UnmarshalText (hostname : result error string) (text : string) : result error string :=
  if bool_decide (text = "") then hostname else Ok text.

(** ** The search for a file

    A path is the list of its components below the root. *)
Inductive Stat := Exists | NotExist | StatFails (err : error).
Inductive find_error := ErrNotExist | FindFails (err : error).

Section finder.
Context (testing : bool) (cwd : list string) (abs_fails : option error) (stat : list string -> Stat).

(** [filepath.Abs(filepath.Join(prefix, parts...))], [prefix] being [up] times "../". *)
Definition absFile (up : nat) (parts : list string) : result find_error (list string) :=
  match abs_fails with
  | Some err => Err (FindFails err)
  | None => Ok (take (length cwd - up) cwd ++ parts)
  end.

Definition statFile (p : list string) : option find_error :=
  match stat p with Exists => None | NotExist => Some ErrNotExist | StatFails err => Some (FindFails err) end.

(** [filepath.Base] *)
Definition Base (p : list string) : string := default "/" (last p).

(** [None] when [fuel] levels are used up. *)
Fixpoint recursiveFileFinder (fuel : nat) (fileName : string) (up : nat) : option (result find_error (list string)) :=
  match fuel with
  | O => None
  | S fuel =>
      match absFile up ["test"; fileName] with
      | Err err => Some (Err err)
      | Ok filePath =>
          match statFile filePath with
          | None => Some (Ok filePath)
          | Some (FindFails err) => Some (Err (FindFails err))
          | Some ErrNotExist =>
              match absFile up [fileName] with
              | Err err => Some (Err err)
              | Ok filePath =>
                  match statFile filePath with
                  | None => Some (Ok filePath)
                  | Some (FindFails err) => Some (Err (FindFails err))
                  | Some ErrNotExist =>
                      match absFile up ["go.mod"] with
                      | Err err => Some (Err err)
                      | Ok filePath =>
                          match statFile filePath with
                          | None => Some (Err ErrNotExist)
                          | Some (FindFails err) => Some (Err (FindFails err))
                          | Some ErrNotExist =>
                              if bool_decide ("/" = Base filePath) then Some (Err ErrNotExist)
                              else recursiveFileFinder fuel fileName (S up)
                          end
                      end
                  end
              end
          end
      end
  end.

Definition findConfigFile (fuel : nat) (fileName : string) : option (result find_error (list string)) :=
  if testing then recursiveFileFinder fuel fileName 0
  else
    match absFile 0 [fileName] with
    | Err err => Some (Err err)
    | Ok abs => match statFile abs with None => Some (Ok abs) | Some err => Some (Err err) end
    end.
End finder.

(** ** Trees of settings *)

#[local] Unset Elimination Schemes.
(** A JSON value: objects are nodes; [any] stands for numbers, lists and the rest. An
    object is listed in the order in which Go iterates over it. *)
Inductive Conf {any : Type} :=
| Str (s : string)
| Other (v : any)
| Node (entries : list (string * Conf)).
#[local] Set Elimination Schemes.
Arguments Conf : clear implicits.

Section conf.
Context {any : Type}.
Notation Conf := (Conf any).

Fixpoint Conf_ind (P : Conf -> Prop) (Hs : forall s, P (Str s)) (Ho : forall v, P (Other v))
    (Hn : forall es, Forall (fun e => P e.2) es -> P (Node es)) (t : Conf) : P t :=
  match t with
  | Str s => Hs s
  | Other v => Ho v
  | Node es =>
      Hn es ((fix go (es : list (string * Conf)) : Forall (fun e => P e.2) es :=
        match es with
        | [] => @List.Forall_nil _ _
        | e :: es => @List.Forall_cons _ (fun e => P e.2) e es (Conf_ind P Hs Ho Hn e.2) (go es)
        end) es)
  end.

Definition find_entry (k : string) (es : list (string * Conf)) : option Conf :=
  snd <$> (snd <$> list_find (fun e => e.1 = k) es).

(** The value at a path of keys. *)
Fixpoint at_path (p : list string) (t : Conf) : option Conf :=
  match p with
  | [] => Some t
  | k :: p => match t with Node es => find_entry k es ≫= at_path p | _ => None end
  end.

(** *** Environment variables *)

(** [envMap] from [os.Environ()]; pairs without "=" are skipped. *)
Definition parse_environ (environ : list string) : gmap string string :=
  foldl (fun m pair =>
    match Cut pair "=" with
    | (key, val, true) => <[ToLower key := val]> m
    | (_, _, false) => m
    end) ∅ environ.

(** The value of a key: [envKey] is the path of keys so far. *)
Fixpoint bind_value (env : gmap string string) (envKey : string) (val : Conf) : Conf :=
  match val with
  | Node v => Node ((fun e : string * Conf => (e.1, bind_value env (envKey +:+ "_" +:+ ToLower e.1) e.2)) <$> v)
  | v => match env !! envKey with Some envVal => Str envVal | None => v end
  end.
Definition bindEnvVars (env : gmap string string) (acc : string) (m : list (string * Conf)) : list (string * Conf) :=
  (fun e => (e.1, bind_value env (acc +:+ ToLower e.1) e.2)) <$> m.

(** *** Secrets *)

(** [m[key] = secret] during the iteration: a key that is there keeps its place; a new
    one is added, and this model does not visit it again. *)
Fixpoint set_entry (k : string) (v : Conf) (es : list (string * Conf)) : list (string * Conf) :=
  match es with
  | [] => [(k, v)]
  | e :: es => if bool_decide (e.1 = k) then (k, v) :: es else e :: set_entry k v es
  end.

Inductive request := GetSecret (key : string) | GetSecretVerbatim (id : string).

(** What a string says about a secret. *)
Inductive placeholder := NoSecret | KeySecret | CustomSecret (id : string) | BadSecret.
Definition read_placeholder (v : string) : placeholder :=
  if negb (HasPrefix v "<secret") || negb (HasSuffix v ">") then NoSecret
  else if bool_decide (v = "<secret>") then KeySecret
  else if bool_decide (String.get 7 v = Some ":"%char) then
    let smKey := take_bytes (String.length v - 9) (drop_bytes 8 v) in
    if bool_decide (smKey = "") then BadSecret else CustomSecret smKey
  else BadSecret.

(** The manager; [PanicSecretsManager] always panics. The requests are recorded. *)
Context (manager : request -> result error string).

Definition fetch (r : request) : M (list request) string :=
  modify (fun l => l ++ [r]) ;;
  match manager r with Ok s => mret s | Err _ => panic end.

(** [traverse] of one value; the result is the secret to store under [key]. *)
Definition secret_of (key : string) (val : Conf) : M (list request) (option string) :=
  match val with
  | Str v =>
      match read_placeholder v with
      | NoSecret => mret None
      | KeySecret => s ← fetch (GetSecret key); mret (Some s)
      | CustomSecret id => s ← fetch (GetSecretVerbatim id); mret (Some s)
      | BadSecret => panic
      end
  | _ => mret None
  end.

(** The entries of [todo] are visited in order; [m] is the map as it is then. A nested
    map is one object, which the recursive call changes. *)
Fixpoint traverse_value (prefix : string) (val : Conf) : M (list request) Conf :=
  match val with
  | Node todo =>
      let loop :=
        fix loop (todo : list (string * Conf)) (m : list (string * Conf)) : M (list request) (list (string * Conf)) :=
          match todo with
          | [] => mret m
          | (k, v) :: todo =>
              let key := prefix +:+ k in
              v' ← traverse_value (key +:+ ".") v;
              s ← secret_of key v;
              loop todo (match s with
                         | Some secret => set_entry key (Str secret) (set_entry k v' m)
                         | None => set_entry k v' m
                         end)
          end in
      es ← loop todo todo; mret (Node es)
  | v => mret v
  end.

Definition loadSecrets (env_is_test : bool) (confMap : Conf) : M (list request) Conf :=
  if env_is_test then mret confMap else traverse_value "" confMap.

(** ** Proofs *)
Implicit Types (es m todo : list (string * Conf)) (t v : Conf).

Lemma find_entry_cons k e es : find_entry k (e :: es) = if decide (e.1 = k) then Some e.2 else find_entry k es.
Proof using Type.
  unfold find_entry. cbn. destruct (decide (e.1 = k)); [done|]. by destruct (list_find _ es) as [[]|].
Qed.

Lemma find_entry_map (f : string * Conf -> Conf) k es :
  find_entry k ((fun e => (e.1, f e)) <$> es) = (fun x => f (k, x)) <$> find_entry k es.
Proof using Type.
  induction es as [|[k' x] es IH]; [done|]. rewrite fmap_cons, !find_entry_cons. cbn. by destruct (decide (k' = k)) as [->|].
Qed.

Lemma find_entry_set k k' v es : find_entry k (set_entry k' v es) = if decide (k' = k) then Some v else find_entry k es.
Proof using Type.
  induction es as [|e es IH]; cbn [set_entry]; [by rewrite find_entry_cons|].
  case_bool_decide as Hk; rewrite !find_entry_cons; cbn.
  - subst. by destruct (decide _).
  - rewrite IH. destruct (decide (e.1 = k)) as [<-|]; [|done]. by rewrite decide_False by done.
Qed.

Lemma find_entry_in k v es : find_entry k es = Some v -> (k, v) ∈ es.
Proof using Type.
  induction es as [|[k' x] es IH]; [done|]. rewrite find_entry_cons. cbn. case_decide as Hk; [intros [= ->]; subst|]; set_solver.
Qed.

(** The environment variable of a path of keys. *)
Definition env_key (p : list string) : string := GoStrings.Join (ToLower <$> p) "_".
Definition is_leaf (t : Conf) : bool := match t with Node _ => false | _ => true end.

Lemma bind_value_path env p acc t x : at_path p t = Some x -> is_leaf x = true ->
  at_path p (bind_value env acc t) =
    Some (match env !! foldl (fun a k => a +:+ "_" +:+ ToLower k) acc p with Some s => Str s | None => x end).
Proof using Type.
  revert acc t. induction p as [|k p IH]; intros acc t; cbn [at_path foldl].
  - intros [= ->]. destruct x; [| |done]; intros _; cbn; by destruct (env !! acc).
  - destruct t as [| |es]; [done..|]. cbn [bind_value]. rewrite (find_entry_map (fun e => bind_value env (acc +:+ "_" +:+ ToLower e.1) e.2)).
    destruct (find_entry k es) as [v|]; [|done]. cbn [fmap option_fmap option_map mbind option_bind fst snd]. apply IH.
Qed.

Lemma env_key_fold k p : foldl (fun a k => a +:+ "_" +:+ ToLower k) (ToLower k) p = env_key (k :: p).
Proof using Type.
  unfold env_key, GoStrings.Join. rewrite fmap_cons. generalize (ToLower k) as a. induction p as [|q p IH]; intros a; [done|].
  cbn [foldl]. rewrite IH, fmap_cons. change (String.concat "_" (a :: ToLower q :: (ToLower <$> p))) with
    (a +:+ ("_" +:+ String.concat "_" (ToLower q :: (ToLower <$> p)))).
  cbn [String.concat]. destruct (ToLower <$> p); [done|by rewrite !app_assoc_string].
Qed.

Lemma bindEnvVars_path env k p es x : at_path (k :: p) (Node es) = Some x -> is_leaf x = true ->
  at_path (k :: p) (Node (bindEnvVars env "" es)) = Some (match env !! env_key (k :: p) with Some s => Str s | None => x end).
Proof using Type.
  cbn [at_path]. unfold bindEnvVars. rewrite (find_entry_map (fun e => bind_value env ("" +:+ ToLower e.1) e.2)).
  destruct (find_entry k es) as [v|]; [|done]. cbn [fmap option_fmap option_map mbind option_bind fst snd].
  intros Hp Hl. rewrite (bind_value_path _ _ _ _ _ Hp Hl). by rewrite string_app_nil, env_key_fold.
Qed.

(** Keys that are distinct and, below the top level, do not start with the path of their map, by
    which [traverse] names secrets. *)
Definition apart (prefix k : string) : Prop := prefix = "" \/ String.prefix prefix k = false.
Fixpoint well_keyed (prefix : string) (t : Conf) : Prop :=
  match t with
  | Node es =>
      NoDup es.*1 /\
      (fix go es := match es with [] => True | e :: es => (apart prefix e.1 /\ well_keyed ((prefix +:+ e.1) +:+ ".") e.2) /\ go es end) es
  | _ => True
  end.
Lemma well_keyed_node prefix es : well_keyed prefix (Node es) <->
  NoDup es.*1 /\ Forall (fun e => apart prefix e.1 /\ well_keyed ((prefix +:+ e.1) +:+ ".") e.2) es.
Proof using Type.
  cbn [well_keyed]. split; intros [Hn Hf]; (split; [done|]); clear Hn.
  - induction es as [|e es IH]; constructor; [apply Hf|apply IH, Hf].
  - induction Hf as [|e es He Hf IH]; [done|by split].
Qed.

Lemma next_prefix p k : (p +:+ k) +:+ "." <> "".
Proof using Type. by destruct (p +:+ k). Qed.
Lemma prefixed_key p k k' : apart p k' -> p +:+ k = k' -> p = "" /\ k = k'.
Proof using Type. intros [->|Hp] E; [done|]. by rewrite <- E, GoStrings.prefix_app in Hp. Qed.

(** The loop of [traverse]. *)
Definition traverse_loop (prefix : string) :=
  fix loop todo m : M (list request) (list (string * Conf)) :=
    match todo with
    | [] => mret m
    | (k, v) :: todo =>
        let key := prefix +:+ k in
        v' ← traverse_value (key +:+ ".") v;
        s ← secret_of key v;
        loop todo (match s with
                   | Some secret => set_entry key (Str secret) (set_entry k v' m)
                   | None => set_entry k v' m
                   end)
    end.

Lemma traverse_loop_spec prefix todo m l m' l' : NoDup todo.*1 -> Forall (fun e => apart prefix e.1) todo ->
  traverse_loop prefix todo m l = Some (m', l') ->
  (forall k, apart prefix k -> k ∉ todo.*1 -> find_entry k m' = find_entry k m) /\
  (forall k v, (k, v) ∈ todo -> exists l1 v' l2 s l3,
     traverse_value ((prefix +:+ k) +:+ ".") v l1 = Some (v', l2) /\ secret_of (prefix +:+ k) v l2 = Some (s, l3) /\
     find_entry k m' = Some (match s with Some y => if decide (prefix = "") then Str y else v' | None => v' end)).
Proof using Type.
  revert m l. induction todo as [|[k v] todo IH]; intros m l Hnd Hdot Hrun.
  - cbn in Hrun. injection Hrun as <- <-. split; [done|]. by intros k v ?%elem_of_nil.
  - cbn [traverse_loop] in Hrun. minv. rewrite fmap_cons in Hnd. apply NoDup_cons in Hnd as [Hk Hnd]. apply Forall_cons in Hdot as [Hdk Hdot].
    destruct (IH _ _ Hnd Hdot Hrun) as [Hold Hnew]. clear IH. cbn [fst] in Hk, Hdk.
    assert (forall k', apart prefix k' -> find_entry k' (match a0 with
        | Some secret => set_entry (prefix +:+ k) (Str secret) (set_entry k a m) | None => set_entry k a m end) =
      if decide (k = k') then Some (match a0 with Some y => if decide (prefix = "") then Str y else a | None => a end)
      else find_entry k' m) as Hset.
    { intros k' Hk'. destruct a0 as [y|]; rewrite !find_entry_set; [|done].
      destruct (decide (prefix +:+ k = k')) as [E|E].
      - destruct (prefixed_key _ _ _ Hk' E) as [-> ->]. by rewrite !decide_True by done.
      - destruct (decide (k = k')) as [->|]; [|done]. rewrite (decide_False (P := prefix = "")); [done|]. by intros ->. }
    split.
    + intros k' Hk' Hnin. rewrite Hold by (done || set_solver). rewrite Hset by done. rewrite decide_False; [done|set_solver].
    + intros k' v' Hin. apply elem_of_cons in Hin as [[= -> ->]|Hin]; [|by apply Hnew].
      eexists _, _, _, _, _. split; [eassumption|]. split; [eassumption|].
      rewrite Hold by done. rewrite Hset by done. by rewrite decide_True.
Qed.

Lemma traverse_value_node prefix es l t' l' : traverse_value prefix (Node es) l = Some (t', l') ->
  exists m', t' = Node m' /\ traverse_loop prefix es es l = Some (m', l').
Proof using Type. intros Hr. cbn [traverse_value] in Hr. minv. by eexists. Qed.

(** Below the top level nothing that was there changes. *)
Lemma traverse_value_nested t : forall prefix l t' l', well_keyed prefix t -> prefix <> "" -> traverse_value prefix t l = Some (t', l') ->
  forall p x, at_path p t = Some x -> is_leaf x = true -> at_path p t' = Some x.
Proof using Type.
  induction t as [s|v|es IH] using Conf_ind; intros prefix l t' l' Hwk Hpre Hr p x Hp Hx.
  - cbn in Hr. by injection Hr as <- <-.
  - cbn in Hr. by injection Hr as <- <-.
  - apply traverse_value_node in Hr as (m' & -> & Hr). apply well_keyed_node in Hwk as [Hnd Hwk].
    assert (Forall (fun e => apart prefix e.1) es) as Hdot by (eapply Forall_impl; [exact Hwk|]; by intros e [? _]).
    destruct (traverse_loop_spec _ _ _ _ _ _ Hnd Hdot Hr) as [_ Hnew].
    destruct p as [|k p]; cbn [at_path] in *; [by simplify_eq|].
    destruct (find_entry k es) as [v|] eqn:Ek; [|done]. cbn [mbind option_bind] in Hp.
    apply find_entry_in in Ek as Hin. destruct (Hnew k v Hin) as (l1 & v' & l2 & s & l3 & Hv & _ & Hf). rewrite Hf.
    rewrite Forall_forall in IH, Hwk. destruct (Hwk _ Hin) as [Hdk Hwv].
    assert (at_path p v' = Some x) as Hpv.
    { eapply (IH _ Hin); [exact Hwv|apply next_prefix|exact Hv|exact Hp|exact Hx]. }
    destruct s as [y|]; [|done]. by rewrite decide_False.
Qed.

Lemma bind_value_keyed env t : forall acc prefix, well_keyed prefix t -> well_keyed prefix (bind_value env acc t).
Proof using Type.
  induction t as [s|v|es IH] using Conf_ind; intros acc prefix Hwk; [cbn; by destruct (env !! acc)..|].
  cbn [bind_value]. apply well_keyed_node in Hwk as [Hnd Hwk]. apply well_keyed_node. split.
  - rewrite <- list_fmap_compose. exact Hnd.
  - apply Forall_fmap, Forall_forall. intros e He. rewrite Forall_forall in IH, Hwk. destruct (Hwk e He).
    split; [done|]. by apply IH.
Qed.

Lemma bindEnvVars_keyed env es prefix : well_keyed prefix (Node es) -> well_keyed prefix (Node (bindEnvVars env "" es)).
Proof using Type.
  intros [Hnd Hwk]%well_keyed_node. apply well_keyed_node. split.
  - unfold bindEnvVars. rewrite <- list_fmap_compose. exact Hnd.
  - apply Forall_fmap, Forall_forall. intros e He. rewrite Forall_forall in Hwk. destruct (Hwk e He).
    split; [done|]. by apply bind_value_keyed.
Qed.

(** What becomes of the settings when their secrets are loaded. *)
Lemma loadSecrets_spec es l t' l' k p x : well_keyed "" (Node es) -> loadSecrets false (Node es) l = Some (t', l') ->
  at_path (k :: p) (Node es) = Some x -> is_leaf x = true ->
  match p, x with
  | [], Str s =>
      exists y, at_path [k] t' = Some (Str y) /\
        match read_placeholder s with
        | NoSecret => y = s
        | KeySecret => manager (GetSecret k) = Ok y
        | CustomSecret id => manager (GetSecretVerbatim id) = Ok y
        | BadSecret => False
        end
  | _, _ => at_path (k :: p) t' = Some x
  end.
Proof using Type.
  intros [Hnd Hwk]%well_keyed_node Hr Hp Hx. apply traverse_value_node in Hr as (m' & -> & Hr).
  assert (Forall (fun e => apart "" e.1) es) as Hdot by (eapply Forall_impl; [exact Hwk|]; by intros e [? _]).
  destruct (traverse_loop_spec "" _ _ _ _ _ Hnd Hdot Hr) as [_ Hnew].
  cbn [at_path] in *. destruct (find_entry k es) as [v|] eqn:Ek; [|done]. cbn [mbind option_bind] in Hp.
  apply find_entry_in in Ek as Hin. destruct (Hnew k v Hin) as (l1 & v' & l2 & s & l3 & Hv & Hs & Hf). rewrite Hf. cbn [mbind option_bind].
  destruct p as [|q p].
  - cbn [at_path] in *. injection Hp as ->. destruct x as [str|o|]; [|cbn in Hv, Hs; unfold mret, M_ret in *; by simplify_eq|done].
    cbn in Hv, Hs. unfold mret, M_ret in Hv. simplify_eq. destruct (read_placeholder str); unfold fetch in Hs; minv; simplify_eq; eauto;
      (destruct (manager _) eqn:Em; [|done]); minv; simplify_eq; eauto.
  - assert (exists ves, v = Node ves) as [ves ->] by (destruct v; [done..|by eexists]).
    cbn in Hs. unfold mret, M_ret in Hs. simplify_eq. cbn [option_map] in *.
    rewrite Forall_forall in Hwk. destruct (Hwk _ Hin) as [_ Hwv].
    assert (at_path (q :: p) v' = Some x) as Hpv; [|by destruct x].
    eapply traverse_value_nested; [exact Hwv|apply next_prefix|exact Hv|exact Hp|exact Hx].
Qed.
End conf.

(** ** Loading *)
Section load.
Context {any T : Type} (manager : request -> result error string).
Notation Conf := (Conf any).

(** [mapstructure]'s decoder into the structure; the structure as a map, by its JSON; the
    map of [config.yaml]. A failure panics. *)
Context (decode : Conf -> T -> option T) (to_map : T -> option (list (string * Conf))) (yaml : option Conf).

Definition loadConfig (environ : list string) (preprocess : Conf -> M (list request) Conf) (conf : T) : M (list request) T :=
  confMap ← lift_option yaml;
  conf ← lift_option (decode confMap conf);
  confMap ← lift_option (to_map conf);
  confMap ← preprocess (Node (bindEnvVars (parse_environ environ) "" confMap));
  lift_option (decode confMap conf).

Definition LoadConfig (environ : list string) (env_is_test : bool) (conf : T) : M (list request) T :=
  loadConfig environ (loadSecrets manager env_is_test) conf.

Definition loadRootConfig (environ : list string) (zero : T) : M (list request) T := loadConfig environ mret zero.
End load.

(** *** The key transformer *)
Definition defaultPrefixFmt : string := "{Name}/{Env.Type}/{Env.Name}/".
Definition defaultKeyFmt : string := "{Key}".

Record DefaultKeyTransformer := MkTransformer { prefix : string; keyFmt : string }.

Definition fill (name env_name env_type fmt : string) : string :=
  ReplaceAll (ReplaceAll (ReplaceAll fmt "{Name}" name) "{Env.Name}" env_name) "{Env.Type}" env_type.
Definition NewDefaultKeyTransformer (prefixFmt keyFmt name env_name env_type : string) : DefaultKeyTransformer :=
  MkTransformer
    (fill name env_name env_type (if bool_decide (prefixFmt = "") then defaultPrefixFmt else prefixFmt))
    (fill name env_name env_type (if bool_decide (keyFmt = "") then defaultKeyFmt else keyFmt)).
Definition Transform (t : DefaultKeyTransformer) (key : string) : string :=
  prefix t +:+ ReplaceAll (keyFmt t) "{Key}" key.

Example default_transform :
  Transform (NewDefaultKeyTransformer "" "" "shop" "eu1" "prod") "Database.Pass" = "shop/prod/eu1/Database.Pass".
Proof. reflexivity. Qed.

(** ** Properties *)

(** What a setting is decoded from, after the environment and the secrets. *)
Lemma settings_from {any T} (manager : request -> result error string) (decode : Conf any -> T -> option T)
    (to_map : T -> option (list (string * Conf any))) (yaml : Conf any) environ log conf conf1 es conf2 log' :
  decode yaml conf = Some conf1 -> to_map conf1 = Some es -> well_keyed "" (Node es) ->
  LoadConfig manager decode to_map (Some yaml) environ false conf log = Some (conf2, log') ->
  exists confMap, decode confMap conf1 = Some conf2 /\
    forall k p x, at_path (k :: p) (Node es) = Some x -> is_leaf x = true ->
      let x := match parse_environ environ !! env_key (k :: p) with Some s => Str s | None => x end in
      match p, x with
      | [], Str s =>
          exists y, at_path [k] confMap = Some (Str y) /\
            match read_placeholder s with
            | NoSecret => y = s
            | KeySecret => manager (GetSecret k) = Ok y
            | CustomSecret id => manager (GetSecretVerbatim id) = Ok y
            | BadSecret => False
            end
      | _, _ => at_path (k :: p) confMap = Some x
      end.
Proof.
  intros Hy Hm Hwk Hr. unfold LoadConfig, loadConfig in Hr. minv. simplify_eq.
  eexists. split; [eassumption|]. intros k p x Hp Hx. cbv zeta.
  pose proof (bindEnvVars_path (parse_environ environ) k p es x Hp Hx) as Hb.
  eapply loadSecrets_spec; [by apply bindEnvVars_keyed|eassumption|exact Hb|].
  by destruct (parse_environ environ !! _).
Qed.

(** C26: the environment and secrets of a configuration that loads: a setting of the structure is
    decoded from the environment variable of its path, in lower case and joined by
    underscores, when there is one, and else keeps its value, at any depth. A secret at the top level,
    written in the file or in the environment, is replaced by what the manager gives for
    it: for its key, or for the name that the placeholder gives. *)
Theorem settings_loaded {any T} (manager : request -> result error string) (decode : Conf any -> T -> option T)
    (to_map : T -> option (list (string * Conf any))) (yaml : Conf any) environ log conf conf1 es conf2 log' :
  decode yaml conf = Some conf1 -> to_map conf1 = Some es -> well_keyed "" (Node es) ->
  LoadConfig manager decode to_map (Some yaml) environ false conf log = Some (conf2, log') ->
  exists confMap, decode confMap conf1 = Some conf2 /\
    forall k p x, at_path (k :: p) (Node es) = Some x -> is_leaf x = true ->
      match (match parse_environ environ !! env_key (k :: p) with Some s => Str s | None => x end) with
      | Str s =>
          match read_placeholder s with
          | NoSecret => at_path (k :: p) confMap = Some (Str s)
          | KeySecret => p = [] -> exists y, manager (GetSecret k) = Ok y /\ at_path [k] confMap = Some (Str y)
          | CustomSecret id => p = [] -> exists y, manager (GetSecretVerbatim id) = Ok y /\ at_path [k] confMap = Some (Str y)
          | BadSecret => p <> []
          end
      | x => at_path (k :: p) confMap = Some x
      end.
Proof.
  intros Hy Hm Hwk Hr. destruct (settings_from _ _ _ _ _ _ _ _ _ _ _ Hy Hm Hwk Hr) as (confMap & Hd & Hp).
  exists confMap. split; [done|]. intros k p x Hat Hx. specialize (Hp k p x Hat Hx). cbv zeta in Hp.
  destruct (match parse_environ environ !! env_key (k :: p) with Some s => Str s | None => x end) as [s| |];
    [|by destruct p..]. destruct p as [|k' p].
  - destruct Hp as (y & Hy' & Hs). destruct (read_placeholder s); [by subst|by eauto..|done].
  - by destruct (read_placeholder s).
Qed.

(** A placeholder below the top level is decoded as it is written, although its secret has been
    asked for: the secret is stored under the whole path, as one key of the innermost map. *)
Theorem nested_placeholders_stay {any T} (manager : request -> result error string) (decode : Conf any -> T -> option T)
    (to_map : T -> option (list (string * Conf any))) (yaml : Conf any) environ log conf conf1 es conf2 log' :
  decode yaml conf = Some conf1 -> to_map conf1 = Some es -> well_keyed "" (Node es) ->
  LoadConfig manager decode to_map (Some yaml) environ false conf log = Some (conf2, log') ->
  exists confMap, decode confMap conf1 = Some conf2 /\
    forall k k' p s, at_path (k :: k' :: p) (Node es) = Some (Str s) ->
      parse_environ environ !! env_key (k :: k' :: p) = None -> at_path (k :: k' :: p) confMap = Some (Str s).
Proof.
  intros Hy Hm Hwk Hr. destruct (settings_from _ _ _ _ _ _ _ _ _ _ _ Hy Hm Hwk Hr) as (confMap & Hd & Hp).
  exists confMap. split; [done|]. intros k k' p s Hat He. specialize (Hp k (k' :: p) (Str s) Hat eq_refl). by rewrite He in Hp.
Qed.

(** ** The search and the texts *)
Section finder_proofs.
Context (cwd : list string) (stat : list string -> Stat).

(** What one level of the search decides; [None]: it goes on a level up. *)
Definition level_result (fileName : string) (up : nat) : option (result find_error (list string)) :=
  let at_ := fun parts => take (length cwd - up) cwd ++ parts in
  match stat (at_ ["test"; fileName]) with
  | Exists => Some (Ok (at_ ["test"; fileName]))
  | StatFails err => Some (Err (FindFails err))
  | NotExist =>
      match stat (at_ [fileName]) with
      | Exists => Some (Ok (at_ [fileName]))
      | StatFails err => Some (Err (FindFails err))
      | NotExist =>
          match stat (at_ ["go.mod"]) with
          | Exists => Some (Err ErrNotExist)
          | StatFails err => Some (Err (FindFails err))
          | NotExist => None
          end
      end
  end.

Lemma finder_step fuel fileName up :
  recursiveFileFinder cwd None stat (S fuel) fileName up =
  match level_result fileName up with Some r => Some r | None => recursiveFileFinder cwd None stat fuel fileName (S up) end.
Proof using Type.
  cbn [recursiveFileFinder absFile]. unfold level_result, statFile.
  destruct (stat (_ ++ ["test"; fileName])); [done| |done]. destruct (stat (_ ++ [fileName])); [done| |done].
  destruct (stat (_ ++ ["go.mod"])); [done| |done]. unfold Base. rewrite last_snoc. by rewrite bool_decide_eq_false_2.
Qed.

Lemma finder_levels fuel fileName up :
  recursiveFileFinder cwd None stat fuel fileName up = head (omap (level_result fileName) (seq up fuel)).
Proof using Type.
  revert up. induction fuel as [|fuel IH]; intros up; [done|]. rewrite finder_step, IH. cbn. by destruct (level_result fileName up).
Qed.
End finder_proofs.

(** In tests, the search for a file looks in the directories from the current one
    upwards, in [test] first, and takes the first file it meets, giving up at the
    first directory with a [go.mod]. The check for the root never holds: when there is
    nothing on the way up the search has no end. *)
Theorem search_nearest (cwd : list string) (stat : list string -> Stat) (fuel : nat) (fileName : string) :
  findConfigFile true cwd None stat fuel fileName = head (omap (level_result cwd stat fileName) (seq 0 fuel)) /\
  (Forall (fun up => level_result cwd stat fileName up = None) (seq 0 (S (length cwd))) ->
   findConfigFile true cwd None stat fuel fileName = None).
Proof.
  split; [apply finder_levels|]. intros Hno. cbn [findConfigFile]. rewrite finder_levels.
  assert (forall up, level_result cwd stat fileName up = None) as Hall.
  { intros up. rewrite Forall_forall in Hno. destruct (decide (up <= length cwd)%nat) as [Hle|Hgt].
    - apply Hno, elem_of_seq. lia.
    - rewrite <- (Hno (length cwd)) by (apply elem_of_seq; lia). unfold level_result.
      by replace (length cwd - up)%nat with (length cwd - length cwd)%nat by lia. }
  generalize 0%nat. induction fuel as [|fuel IH]; intros up; [done|]. cbn. by rewrite Hall.
Qed.

Lemma ToUpper_idem s : ToUpper (ToUpper s) = ToUpper s.
Proof.
  assert (forall c, upper_char (upper_char c) = upper_char c) as Hc by (intros [[] [] [] [] [] [] [] []]; reflexivity).
  induction s as [|c s IH]; [done|]. cbn. by rewrite IH, Hc.
Qed.

(** the texts of log levels and writers: every text that is accepted gives one of the
    five levels (three writers), the text of a level is read back as the level, and a
    text that gives a level gives it in upper case too. *)
Theorem texts_of_settings :
  (forall text l, LogLevel_UnmarshalText text = Ok l ->
     l ∈ [LogLevelTrace; LogLevelDebug; LogLevelInfo; LogLevelWarn; LogLevelError] /\
     LogLevel_UnmarshalText (LogLevel_MarshalText l) = Ok l /\ LogLevel_UnmarshalText (ToUpper text) = Ok l) /\
  (forall w, LogConfigWriter_UnmarshalText (LogConfigWriter_MarshalText w) = Ok w) /\
  (forall text w, LogConfigWriter_UnmarshalText text = Ok w -> text = "" \/ LogConfigWriter_MarshalText w = text).
Proof.
  split_and!.
  - intros text l Hl. assert (l ∈ [LogLevelTrace; LogLevelDebug; LogLevelInfo; LogLevelWarn; LogLevelError]) as Hin.
    { unfold LogLevel_UnmarshalText in Hl. repeat (destruct (bool_decide _); cbn [orb] in Hl); simplify_eq; set_solver. }
    split; [done|]. split.
    + repeat (apply elem_of_cons in Hin as [->|Hin]; [reflexivity|]). by apply elem_of_nil in Hin.
    + unfold LogLevel_UnmarshalText in *. rewrite ToUpper_idem.
      repeat (destruct (bool_decide _); cbn [orb] in *; [exact Hl|]). discriminate.
  - by intros [].
  - intros text w. unfold LogConfigWriter_UnmarshalText. repeat (case_bool_decide; [intros [= <-]; subst; by auto|]). done.
Qed.

(** ** A configuration, for the witness *)
Definition sample_settings : list (string * Conf unit) :=
  [("Name", Str "shop"); ("Token", Str "<secret>"); ("Database", Node [("Port", Other tt); ("Pass", Str "<secret>")])].
Definition vault (r : request) : result error string :=
  match r with GetSecret k => Ok ("value of " +:+ k) | GetSecretVerbatim i => Ok i end.
Definition sample_decode (c : Conf unit) (_ : Conf unit) : option (Conf unit) := Some c.
Definition sample_map (c : Conf unit) : option (list (string * Conf unit)) := match c with Node es => Some es | _ => None end.

(** The token is loaded and the port comes from the environment. *)
Lemma settings_loaded_witness : exists conf2 log',
  LoadConfig vault sample_decode sample_map (Some (Node sample_settings)) ["DATABASE_PORT=5432"] false (Node []) [] =
    Some (conf2, log') /\
  at_path ["Token"] conf2 = Some (Str "value of Token") /\ at_path ["Database"; "Port"] conf2 = Some (Str "5432").
Proof.
  eexists _, _. split; [vm_compute; reflexivity|].
  edestruct (settings_loaded vault sample_decode sample_map (Node sample_settings) ["DATABASE_PORT=5432"] [] (Node [])) as
    (confMap & Hd & Hp).
  - reflexivity.
  - reflexivity.
  - split; [cbn; repeat constructor; set_solver|]. cbn. repeat split; repeat constructor; set_solver.
  - vm_compute. reflexivity.
  - injection Hd as <-. split.
    + destruct (Hp "Token" [] _ eq_refl eq_refl eq_refl) as (y & Hy & Hv). cbn in Hy. injection Hy as <-. exact Hv.
    + exact (Hp "Database" ["Port"] _ eq_refl eq_refl).
Defined.

(** The password of the same configuration stays a placeholder. *)
Lemma nested_placeholders_stay_witness : exists conf2 log',
  LoadConfig vault sample_decode sample_map (Some (Node sample_settings)) ["DATABASE_PORT=5432"] false (Node []) [] =
    Some (conf2, log') /\
  at_path ["Database"; "Pass"] conf2 = Some (Str "<secret>").
Proof.
  eexists _, _. split; [vm_compute; reflexivity|].
  edestruct (nested_placeholders_stay vault sample_decode sample_map (Node sample_settings) ["DATABASE_PORT=5432"] [] (Node []))
    as (confMap & Hd & Hp).
  - reflexivity.
  - reflexivity.
  - split; [cbn; repeat constructor; set_solver|]. cbn. repeat split; repeat constructor; set_solver.
  - vm_compute. reflexivity.
  - injection Hd as <-. by apply (Hp "Database" "Pass" []).
Defined.

(** The directory of a module without the file. *)
Lemma search_nearest_witness :
  findConfigFile true ["home"; "me"] None (fun _ => NotExist) 100 "config.yaml" = None.
Proof.
  apply (proj2 (search_nearest ["home"; "me"] (fun _ => NotExist) 100 "config.yaml")). repeat constructor.
Defined.
