(* ===== verification/ConfigStart.v ===== *)
(** * config: the structures of settings, and when they are loaded

    Models the rest of [config/config.go], [config/internal.go] and [config/secrets.go] over
    file Config: the structures with their JSON form, from which the names of the environment variables
    come, the [.env] file, and what is read once in the life of the process. *)

From S2P Require Import Prelude.
From S2P Require Import GoStrings.
From S2P Require Import Errors.
From S2P Require Import Config.

Open Scope string_scope.
Open Scope list_scope.
Open Scope Z_scope.

(** ** The structures

    What a JSON value is when it is neither a text nor an object. *)
Inductive json := JNull | JBool (b : bool) | JNum (n : Z) | JList (l : list string).
Notation Json := (Conf json).
Definition JInt (n : Z) : Json := Other (JNum n).
Definition JFlag (b : bool) : Json := Other (JBool b).
(** A nil slice or map is null. *)
Definition JStrings (l : option (list string)) : Json := Other (match l with Some l => JList l | None => JNull end).

Record DatabaseSettings := MkDatabase { D_Host : string; D_Port : Z; D_User : string; D_Pass : string }.
Record CORS := MkCORS {
  AllowAllOrigins : bool; AllowOrigins : option (list string); AllowMethods : option (list string);
  AllowPrivateNetwork : bool; AllowHeaders : option (list string); AllowCredentials : bool;
  ExposeHeaders : option (list string); MaxAge : Z; AllowWildcard : bool; AllowBrowserExtensions : bool;
  CustomSchemas : option (list string); AllowWebSockets : bool; AllowFiles : bool; OptionsResponseStatusCode : Z }.
Record HttpServerConfig := MkHttpServer {
  BindAddress : string; H_Port : Z; ReqLoggerExcludes : option (list string); H_BasePath : string; H_CORS : CORS }.
Record DataDogConfig := MkDataDog { Profiling : bool; Tracing : bool; Agent : string }.
Record EnvConfig := MkEnv { E_Name : string; E_Type : string; E_Host : string }.
(** [Levels]: in the order in which Go iterates over the map. *)
Record LogConfig := MkLogConfig { L_Level : Z; L_Levels : option (list (string * Z)); L_Writer : LogConfigWriter }.
Record SecretsConfig := MkSecrets { PrefixFmt : string; KeyFmt : string }.
Record SlackConfig := MkSlack { S_Enabled : bool; HTTPTimeoutSeconds : Z; S_Info : string; S_Warn : string; S_Error : string }.
Record RootConfig := MkRoot { R_Name : string; R_Secrets : SecretsConfig; R_Env : EnvConfig; R_Log : LogConfig; R_Datadog : DataDogConfig }.
Record Config := MkConfig {
  C_Root : RootConfig; C_Database : DatabaseSettings; C_RedisURL : string; C_HttpServer : HttpServerConfig;
  C_JWTSigningKey : string; C_Slack : SlackConfig }.

(** ** Their JSON as a map

    The fields by their names, those of an embedded structure among the others. *)
Definition CORS_map (c : CORS) : list (string * Json) :=
  [("AllowAllOrigins", JFlag (AllowAllOrigins c)); ("AllowOrigins", JStrings (AllowOrigins c));
   ("AllowPrivateNetwork", JFlag (AllowPrivateNetwork c)); ("AllowMethods", JStrings (AllowMethods c));
   ("AllowHeaders", JStrings (AllowHeaders c)); ("AllowCredentials", JFlag (AllowCredentials c));
   ("ExposeHeaders", JStrings (ExposeHeaders c)); ("MaxAge", JInt (MaxAge c)); ("AllowWildcard", JFlag (AllowWildcard c));
   ("AllowBrowserExtensions", JFlag (AllowBrowserExtensions c)); ("CustomSchemas", JStrings (CustomSchemas c));
   ("AllowWebSockets", JFlag (AllowWebSockets c)); ("AllowFiles", JFlag (AllowFiles c));
   ("OptionsResponseStatusCode", JInt (OptionsResponseStatusCode c))].
Definition Levels_map (l : option (list (string * Z))) : Json :=
  match l with
  | Some l => Node ((fun e => (e.1, Str (LogLevel_MarshalText e.2))) <$> l)
  | None => Other JNull
  end.
Definition RootConfig_map (r : RootConfig) : list (string * Json) :=
  [("Name", Str (R_Name r));
   ("Secrets", Node [("PrefixFmt", Str (PrefixFmt (R_Secrets r))); ("KeyFmt", Str (KeyFmt (R_Secrets r)))]);
   ("Env", Node [("Name", Str (E_Name (R_Env r))); ("Type", Str (E_Type (R_Env r))); ("Host", Str (E_Host (R_Env r)))]);
   ("Log", Node [("Level", Str (LogLevel_MarshalText (L_Level (R_Log r)))); ("Levels", Levels_map (L_Levels (R_Log r)));
                 ("Writer", Str (LogConfigWriter_MarshalText (L_Writer (R_Log r))))]);
   ("Datadog", Node [("Profiling", JFlag (Profiling (R_Datadog r))); ("Tracing", JFlag (Tracing (R_Datadog r)));
                     ("Agent", Str (Agent (R_Datadog r)))])].
Definition Config_map (c : Config) : list (string * Json) :=
  RootConfig_map (C_Root c) ++
  [("Database", Node [("Host", Str (D_Host (C_Database c))); ("Port", JInt (D_Port (C_Database c)));
                      ("User", Str (D_User (C_Database c))); ("Pass", Str (D_Pass (C_Database c)))]);
   ("Redis", Node [("URL", Str (C_RedisURL c))]);
   ("HttpServer", Node [("BindAddress", Str (BindAddress (C_HttpServer c))); ("Port", JInt (H_Port (C_HttpServer c)));
                        ("ReqLoggerExcludes", JStrings (ReqLoggerExcludes (C_HttpServer c)));
                        ("BasePath", Str (H_BasePath (C_HttpServer c))); ("CORS", Node (CORS_map (H_CORS (C_HttpServer c))))]);
   ("JWT", Node [("SigningKey", Str (C_JWTSigningKey c))]);
   ("Slack", Node [("Enabled", JFlag (S_Enabled (C_Slack c))); ("HTTPTimeoutSeconds", JInt (HTTPTimeoutSeconds (C_Slack c)));
                   ("WebhookURLs", Node [("Info", Str (S_Info (C_Slack c))); ("Warn", Str (S_Warn (C_Slack c)));
                                         ("Error", Str (S_Error (C_Slack c)))])])].

(** ** The variables of the settings *)
Fixpoint leaf_paths (t : Json) : list (list string) :=
  match t with
  | Node es => (fix go es := match es with [] => [] | e :: es => (cons e.1 <$> leaf_paths e.2) ++ go es end) es
  | _ => [[]]
  end.
Definition variables (es : list (string * Json)) : list string := env_key <$> leaf_paths (Node es).

Lemma leaf_paths_node es : leaf_paths (Node es) = es ≫= (fun e => cons e.1 <$> leaf_paths e.2).
Proof. cbn [leaf_paths]. induction es as [|e es IH]; [done|]. cbn. by rewrite IH. Qed.

(** The variables before and after those of the log levels. *)
Definition level_variables (l : option (list (string * Z))) : list string :=
  match l with
  | Some l => (fun e => "log_levels_" +:+ ToLower e.1) <$> l
  | None => ["log_levels"]
  end.
Definition fixed_variables : list string * list string :=
  (["name"; "secrets_prefixfmt"; "secrets_keyfmt"; "env_name"; "env_type"; "env_host"; "log_level"],
   ["log_writer"; "datadog_profiling"; "datadog_tracing"; "datadog_agent"; "database_host"; "database_port"; "database_user";
    "database_pass"; "redis_url"; "httpserver_bindaddress"; "httpserver_port"; "httpserver_reqloggerexcludes";
    "httpserver_basepath"; "httpserver_cors_allowallorigins"; "httpserver_cors_alloworigins";
    "httpserver_cors_allowprivatenetwork"; "httpserver_cors_allowmethods"; "httpserver_cors_allowheaders";
    "httpserver_cors_allowcredentials"; "httpserver_cors_exposeheaders"; "httpserver_cors_maxage";
    "httpserver_cors_allowwildcard"; "httpserver_cors_allowbrowserextensions"; "httpserver_cors_customschemas";
    "httpserver_cors_allowwebsockets"; "httpserver_cors_allowfiles"; "httpserver_cors_optionsresponsestatuscode";
    "jwt_signingkey"; "slack_enabled"; "slack_httptimeoutseconds"; "slack_webhookurls_info"; "slack_webhookurls_warn";
    "slack_webhookurls_error"]).

Lemma Config_variables c :
  variables (Config_map c) = fixed_variables.1 ++ level_variables (L_Levels (R_Log (C_Root c))) ++ fixed_variables.2.
Proof.
  unfold variables. rewrite leaf_paths_node. unfold Config_map, RootConfig_map.
  cbn [app mbind list_bind fst snd]. rewrite !fmap_app.
  assert (env_key <$> (cons "Log" <$> leaf_paths (Node [("Level", Str (LogLevel_MarshalText (L_Level (R_Log (C_Root c)))));
      ("Levels", Levels_map (L_Levels (R_Log (C_Root c)))); ("Writer", Str (LogConfigWriter_MarshalText (L_Writer (R_Log (C_Root c)))))])) =
    ["log_level"] ++ level_variables (L_Levels (R_Log (C_Root c))) ++ ["log_writer"]) as ->.
  { rewrite leaf_paths_node. cbn [mbind list_bind fst snd app]. rewrite !fmap_app. unfold Levels_map, level_variables.
    destruct (L_Levels (R_Log (C_Root c))) as [l|]; [|reflexivity]. rewrite leaf_paths_node.
    change (leaf_paths (Str _)) with [[] : list string]. cbn [fmap list_fmap app]. f_equal. f_equal.
    induction l as [|e l IH]; [done|]. cbn. f_equal. exact IH. }
  by rewrite <- !app_assoc.
Qed.

(** No two settings are read from one variable, as long as the paths of log levels differ by
    more than case. *)
Theorem variables_distinct (c : Config) :
  NoDup ((fun e => ToLower e.1) <$> default [] (L_Levels (R_Log (C_Root c)))) -> NoDup (variables (Config_map c)).
Proof.
  intros Hl. rewrite Config_variables. rewrite app_assoc.
  assert (forall v, v ∈ level_variables (L_Levels (R_Log (C_Root c))) -> HasPrefix v "log_levels" = true) as Hpre.
  { unfold level_variables. destruct (L_Levels _) as [l|]; [|set_solver]. intros v (e & -> & _)%list_elem_of_fmap.
    apply (prefix_app "log_levels" ("_" +:+ ToLower e.1)). }
  assert (forall v, v ∈ fixed_variables.1 ++ fixed_variables.2 -> HasPrefix v "log_levels" = false) as Hfix.
  { apply Forall_forall. apply (bool_decide_eq_true_1 (Forall _ _)). vm_compute. reflexivity. }
  assert (NoDup (fixed_variables.1 ++ fixed_variables.2)) as Hnd by (apply (bool_decide_eq_true_1 (NoDup _)); vm_compute; reflexivity).
  apply NoDup_app in Hnd as (H1 & H12 & H2). apply NoDup_app. split; [|split; [|done]].
  - apply NoDup_app. split; [done|]. split.
    + intros v Hv Hin. specialize (Hpre v Hin). rewrite Hfix in Hpre; [done|]. set_solver.
    + unfold level_variables. destruct (L_Levels _) as [l|]; [|by apply NoDup_singleton]. cbn in Hl.
      rewrite (list_fmap_compose (fun e : string * Z => ToLower e.1) (fun k => "log_levels_" +:+ k)).
      apply NoDup_fmap_2; [|done]. intros a b. apply app_inj_l.
  - intros v [Hv|Hv]%elem_of_app Hin; [by apply (H12 v)|]. specialize (Hpre v Hv). rewrite Hfix in Hpre; [done|]. set_solver.
Qed.

(** The map of the settings is one that file Config reads: [settings_loaded] holds of it, as
    long as no logger's path starts with the path of the levels. *)
Theorem Config_well_keyed (c : Config) (l : list (string * Z)) : default [] (L_Levels (R_Log (C_Root c))) = l ->
  NoDup l.*1 -> Forall (fun e => String.prefix "Log.Levels." e.1 = false) l -> well_keyed "" (Node (Config_map c)).
Proof.
  intros El Hnd Hl.
  assert (well_keyed "Log.Levels." (Levels_map (L_Levels (R_Log (C_Root c))))) as Hlevels.
  { unfold Levels_map. destruct (L_Levels (R_Log (C_Root c))) as [m|]; [|done]. cbn in El. subst m.
    apply well_keyed_node. split; [by rewrite <- list_fmap_compose|].
    apply Forall_fmap. eapply Forall_impl; [exact Hl|]. intros e He. cbn. split; [by right|done]. }
  assert (forall es : list (string * Json), bool_decide (NoDup es.*1) = true -> NoDup es.*1) as Hb by (intros es; apply bool_decide_eq_true_1).
  repeat match goal with
  | |- well_keyed _ (Levels_map _) => exact Hlevels
  | |- well_keyed _ (Node _) => apply well_keyed_node; split; [apply Hb; reflexivity|]
  | |- Forall _ _ => repeat apply List.Forall_cons; [..|apply List.Forall_nil]; cbn [fst snd]
  | |- _ /\ _ => split
  | |- apart _ _ => first [by left|by right]
  | |- well_keyed _ _ => exact I
  end.
Qed.

(** ** What is loaded once in a process *)

(** [os.Getenv] and [os.Setenv] on the list of [os.Environ]. *)
Definition has_key (k : string) (entry : string) : bool := bool_decide ((Cut entry "=").1.1 = k).
Definition Getenv (k : string) (environ : list string) : option string :=
  (fun r => (Cut r.2 "=").1.2) <$> list_find (fun entry => has_key k entry = true) environ.
Fixpoint Setenv (k v : string) (environ : list string) : list string :=
  match environ with
  | [] => [k +:+ "=" +:+ v]
  | entry :: environ => if has_key k entry then (k +:+ "=" +:+ v) :: environ else entry :: Setenv k v environ
  end.

(** [godotenv.Load] of a file with this text: it overrides no variable that exists. *)
Class Dotenv (load : string -> list string -> option (list string)) : Prop := {
  load_keeps : forall text env env' k v, load text env = Some env' -> Getenv k env = Some v -> Getenv k env' = Some v;
}.

Inductive once (A : Type) := NotYet | Value (a : A) | HasPanicked.
Arguments NotYet {A}. Arguments Value {A}. Arguments HasPanicked {A}.

(** The process: its environment and the functions that run once. *)
Record Process := MkProcess { p_environ : list string; p_dotenv : once unit; p_yaml : once string; p_root : once RootConfig }.
(** The files at the time of a call. *)
Record Files := MkFiles { f_stat : list string -> Stat; f_read : list string -> result error string }.

(** A call that may change the process; [None]: it does not return, but panics, or searches
    without end. *)
Definition call (A : Type) : Type := Process -> option A * Process.

(** [sync.OnceValue]: a function that panicked panics in every call. *)
Definition OnceValue {A} (cell : Process -> once A) (set : once A -> Process -> Process) (f : call A) : call A := fun p =>
  match cell p with
  | Value a => (Some a, p)
  | HasPanicked => (None, p)
  | NotYet => let r := f p in (r.1, set (match r.1 with Some a => Value a | None => HasPanicked end) r.2)
  end.

Section process.
Context (testing : bool) (cwd : list string) (abs_fails : option error) (fuel : nat).
Context (load : string -> list string -> option (list string)).
Context (unmarshal : string -> option Json).
Context (decode_root : Json -> RootConfig -> option RootConfig) (decode : Json -> Config -> option Config).
Context (zero_root : RootConfig) (zero : Config).
Implicit Types (fs : Files) (p : Process).

Definition set_dotenv (o : once unit) p : Process := MkProcess (p_environ p) o (p_yaml p) (p_root p).
Definition set_yaml (o : once string) p : Process := MkProcess (p_environ p) (p_dotenv p) o (p_root p).
Definition set_root (o : once RootConfig) p : Process := MkProcess (p_environ p) (p_dotenv p) (p_yaml p) o.

Definition loadDotEnv fs : call unit := OnceValue p_dotenv set_dotenv (fun p =>
  match findConfigFile testing cwd abs_fails (f_stat fs) fuel ".env" with
  | None | Some (Err (FindFails _)) => (None, p)
  | Some (Err ErrNotExist) => (Some tt, p)
  | Some (Ok path) =>
      match f_read fs path with
      | Err _ => (None, p)
      | Ok text =>
          match load text (p_environ p) with
          | Some env => (Some tt, MkProcess env (p_dotenv p) (p_yaml p) (p_root p))
          | None => (None, p)
          end
      end
  end).

Definition loadConfigYaml fs : call string := OnceValue p_yaml set_yaml (fun p =>
  match findConfigFile testing cwd abs_fails (f_stat fs) fuel "config.yaml" with
  | Some (Ok path) => (match f_read fs path with Ok text => Some text | Err _ => None end, p)
  | _ => (None, p)
  end).

(** [loadConfig] with what precedes it; [log]: the requests to the manager of secrets. *)
Definition loading {T} fs (body : option Json -> list string -> M (list request) T) (log : list request) : call (T * list request) :=
  fun p =>
    match loadDotEnv fs p with
    | (None, p) => (None, p)
    | (Some _, p) =>
        match loadConfigYaml fs p with
        | (None, p) => (None, p)
        | (Some text, p) => (body (unmarshal text) (p_environ p) log, p)
        end
    end.

Definition load_root fs : call RootConfig := fun p =>
  let r := loading fs (fun yaml environ => loadRootConfig decode_root (fun r => Some (RootConfig_map r)) yaml environ zero_root) [] p in
  (fst <$> r.1, r.2).

Definition GetRootConfig fs : call RootConfig :=
  if testing then load_root fs else OnceValue p_root set_root (load_root fs).

(** [PanicSecretsManager]: [None] as its answer stands for its panic. *)
Definition PanicSecretsManager (r : request) : result error string :=
  let key := match r with GetSecret k => k | GetSecretVerbatim i => i end in
  Err (OpaqueErr "panic" ("no SecretsManager provided, but trying to get secret for key: " +:+ key)).

Definition with_root (root : RootConfig) (c : Config) : Config :=
  MkConfig root (C_Database c) (C_RedisURL c) (C_HttpServer c) (C_JWTSigningKey c) (C_Slack c).
Definition NewConfig fs (root : RootConfig) (secretsMgr : option (request -> result error string)) (log : list request)
    : call (Config * list request) :=
  loading fs (fun yaml environ =>
      LoadConfig (default PanicSecretsManager secretsMgr) decode (fun c => Some (Config_map c)) yaml environ
        (bool_decide (E_Type (R_Env root) = "test")) (with_root root zero)) log.

(** What a call that loads leaves once it has returned. *)
Definition loaded p : Prop := p_dotenv p = Value tt /\ exists text, p_yaml p = Value text.

Lemma loading_loaded {T} fs (body : option Json -> list string -> M (list request) T) log p x p' :
  loading fs body log p = (Some x, p') -> loaded p'.
Proof using Type.
  unfold loading. destruct (loadDotEnv fs p) as [[[]|] p1] eqn:E1; [|done].
  assert (p_dotenv p1 = Value tt) as H1.
  { unfold loadDotEnv, OnceValue in E1. destruct (p_dotenv p) as [|[]|] eqn:Ed; [|by injection E1 as <-|done].
    injection E1 as E <-. by rewrite E. }
  destruct (loadConfigYaml fs p1) as [[text|] p2] eqn:E2; [|done]. intros [= _ <-].
  unfold loadConfigYaml, OnceValue in E2. destruct (p_yaml p1) as [|t|] eqn:Ey; [|injection E2 as _ <-; split; [exact H1|by exists t]|done].
  injection E2 as E <-. rewrite E. cbn. split; [|by eauto].
  repeat case_match; exact H1.
Qed.

Lemma loading_again {T} fs fs' (body : option Json -> list string -> M (list request) T) log p :
  loaded p -> loading fs' body log p = loading fs body log p /\ (loading fs body log p).2 = p.
Proof using Type.
  intros (Hd & text & Hy). unfold loading, loadDotEnv, loadConfigYaml, OnceValue. rewrite Hd. by rewrite Hy.
Qed.

(** The environment of the process stays as it was but for variables that it did not have. *)
Lemma loading_environ `{!Dotenv load} {T} fs (body : option Json -> list string -> M (list request) T) log p x p' k v :
  loading fs body log p = (x, p') -> Getenv k (p_environ p) = Some v -> Getenv k (p_environ p') = Some v.
Proof using Type.
  intros E Hk. assert (forall p1 o, loadDotEnv fs p = (o, p1) -> Getenv k (p_environ p1) = Some v) as H1.
  { intros p1 o. unfold loadDotEnv, OnceValue. destruct (p_dotenv p); [|by intros [= <- <-]|by intros [= <- <-]]. intros [= _ <-]. cbn.
    repeat case_match; try done. by eapply load_keeps. }
  unfold loading in E. destruct (loadDotEnv fs p) as [o p1]. specialize (H1 p1 o eq_refl).
  assert (p_environ (loadConfigYaml fs p1).2 = p_environ p1) as H2.
  { unfold loadConfigYaml, OnceValue. destruct (p_yaml p1); [|done..]. cbn. by repeat case_match. }
  destruct o; [|by injection E as _ <-]. destruct (loadConfigYaml fs p1) as [[|] p2]; injection E as _ <-; cbn in H2; by rewrite H2.
Qed.
End process.

(** The settings of a process: after the first call that returns, no file is read again, so later
    changes make no difference; outside of tests every later call gives the same root
    settings, whatever has become of the environment; and a variable of the process is
    not changed by the [.env] file. *)
Theorem settings_of_process testing cwd abs_fails fuel load `{!Dotenv load} unmarshal decode_root decode zero_root zero
    fs (p p1 : Process) root :
  p_root p = NotYet ->
  GetRootConfig testing cwd abs_fails fuel load unmarshal decode_root zero_root fs p = (Some root, p1) ->
  (testing = false -> forall fs' p2, p_root p2 = p_root p1 ->
     GetRootConfig testing cwd abs_fails fuel load unmarshal decode_root zero_root fs' p2 = (Some root, p2)) /\
  (forall fs' root' secretsMgr log,
     let run fs := NewConfig testing cwd abs_fails fuel load unmarshal decode zero fs root' secretsMgr log p1 in
     run fs' = run fs /\ (run fs).2 = p1) /\
  (forall k v, Getenv k (p_environ p) = Some v -> Getenv k (p_environ p1) = Some v).
Proof.
  intros Hp Hr.
  assert (exists p0, load_root testing cwd abs_fails fuel load unmarshal decode_root zero_root fs p = (Some root, p0) /\
    p_dotenv p1 = p_dotenv p0 /\ p_yaml p1 = p_yaml p0 /\ p_environ p1 = p_environ p0 /\
    (testing = false -> p_root p1 = Value root)) as (p0 & E0 & Hd & Hy & He & Hroot).
  { unfold GetRootConfig in Hr. destruct testing; [by exists p1|]. unfold OnceValue in Hr. rewrite Hp in Hr.
    destruct (load_root _ _ _ _ _ _ _ _ fs p) as [o p0]. cbn in Hr. injection Hr as -> <-. by exists p0. }
  unfold load_root in E0. destruct (loading _ _ _ _ _ _ fs _ _ p) as [[[r log0]|] p0'] eqn:El; [|done].
  injection E0 as -> ->. split; [|split].
  - intros Ht fs' p2 H2. unfold GetRootConfig, OnceValue. rewrite Ht, H2, Hroot by done. done.
  - intros fs' root' secretsMgr log. cbv zeta. unfold NewConfig. apply loading_again.
    apply loading_loaded in El as [L1 (text & L2)]. split; [by rewrite Hd|]. exists text. by rewrite Hy.
  - intros k v Hk. rewrite He. by eapply loading_environ.
Qed.

(** But names of variables are compared without case only when they are bound: a variable of
    the [.env] file that differs from one of the process by case is added behind it, and is the
    one that counts. *)
Example dotenv_of_another_case :
  let env := Setenv "database_port" "1" ["DATABASE_PORT=5432"] in
  env = ["DATABASE_PORT=5432"; "database_port=1"] /\ parse_environ env !! "database_port" = Some "1".
Proof. vm_compute. by split. Qed.
