(* ===== verification/Providers.v ===== *)
(** * rest, cache, secrets: tokens, cached values, secrets and pointers

    Models [rest/providers/jwt.go], [cache/inmemory.go], [secrets/secrets_aws.go],
    [ptr/ptr.go] and the set-up of resources in [rest/rest.go].  The libraries for tokens,
    caching, encoding and AWS are parameters; hexadecimal texts are modelled as Go
    decodes them. *)

From S2P Require Import Prelude.
From S2P Require Import GoStrings.
From S2P Require Import Errors.
From S2P Require Import Config.
From Stdlib Require Import Ascii.

Open Scope string_scope.
Open Scope list_scope.
Open Scope Z_scope.

(** ** [hex.DecodeString] *)
Inductive hex_error := InvalidByteError (c : ascii) | ErrLength.
Definition from_hex (c : ascii) : option N :=
  let n := N_of_ascii c in
  if (48 <=? n)%N && (n <=? 57)%N then Some (n - 48)%N
  else if (97 <=? n)%N && (n <=? 102)%N then Some (n - 87)%N
  else if (65 <=? n)%N && (n <=? 70)%N then Some (n - 55)%N
  else None.
Fixpoint DecodeString (s : string) : hex_error + string :=
  match s with
  | EmptyString => inr ""
  | String p EmptyString => match from_hex p with None => inl (InvalidByteError p) | Some _ => inl ErrLength end
  | String p (String q s) =>
      match from_hex p, from_hex q with
      | None, _ => inl (InvalidByteError p)
      | _, None => inl (InvalidByteError q)
      | Some a, Some b =>
          match DecodeString s with
          | inl err => inl err
          | inr bytes => inr (String (ascii_of_N (a * 16 + b)) bytes)
          end
      end
  end.

(** The text of bytes. *)
Definition to_hex (n : N) : ascii := ascii_of_N (if (n <? 10)%N then 48 + n else 87 + n).
Fixpoint EncodeToString (s : string) : string :=
  match s with
  | EmptyString => ""
  | String c s => let n := N_of_ascii c in String (to_hex (n / 16)) (String (to_hex (n mod 16)) (EncodeToString s))
  end.

(** ** Tokens *)

(** Claims: a map or a pointer, nil or not; another type that takes an expiration; or one that
    does not.  The map and what pointers point to are changed in place: operations return
    them as they leave them. *)
Inductive claims (V : Type) :=
| MapClaims (m : option (gmap string V))
| RegisteredClaims (c : option (option V * gmap string V))  (** [ExpiresAt] and the other fields *)
| SetsExpiresAt (exp : option V) (other : gmap string V)
| OtherClaims (ty : string) (other : gmap string V).
Arguments MapClaims {V}. Arguments RegisteredClaims {V}. Arguments SetsExpiresAt {V}. Arguments OtherClaims {V}.

Record JWTProvider := MkJWT { key : string }.

(** The package [jwt]: [SignedString] of a token of the method HS256, and [Parse] of a parser
    that accepts this method only, at a time. *)
Class JwtLib (V : Type) := {
  NewNumericDate : Z -> V;
  SignedString : string -> claims V -> string + error;
  ParseToken : string -> Z -> string -> claims V + error;
}.

Section tokens.
Context {V : Type} `{JwtLib V}.

(** [None]: it panics. *)
Definition NewJWTProvider (signingKey : string) : option JWTProvider :=
  if bool_decide (signingKey = "") then None
  else match DecodeString signingKey with inl _ => None | inr key => Some (MkJWT key) end.

Inductive encode_error := CannotSetExpires (ty : string) | FailedToEncode (err : error).

Definition Encode (s : JWTProvider) (c : claims V) : encode_error + string :=
  match SignedString (key s) c with inr err => inl (FailedToEncode err) | inl tokenStr => inr tokenStr end.

(** The result and the claims as they are afterwards; [None]: writing to a nil map or through a
    nil pointer panics. *)
Definition EncodeWithExp (s : JWTProvider) (now : Z) (c : claims V) (ttl : Z)
    : option ((encode_error + string) * claims V) :=
  let exp := NewNumericDate (now + ttl) in
  match c with
  | MapClaims None | RegisteredClaims None => None
  | MapClaims (Some v) => let c := MapClaims (Some (<["exp" := exp]> v)) in Some (Encode s c, c)
  | RegisteredClaims (Some (_, rest)) => let c := RegisteredClaims (Some (Some exp, rest)) in Some (Encode s c, c)
  | SetsExpiresAt _ rest => let c := SetsExpiresAt (Some exp) rest in Some (Encode s c, c)
  | OtherClaims ty rest => Some (inl (CannotSetExpires ty), c)
  end.

(** [inl]: the error with the token's text. *)
Definition Decode (s : JWTProvider) (now : Z) (tokenStr : string) : (string * error) + claims V :=
  match ParseToken (key s) now tokenStr with inr err => inl (tokenStr, err) | inl token => inr token end.
(** With claims of another type to fill; [fill]: what the parser makes of them. *)
Definition DecodeWithCustomRegisteredClaims (fill : claims V -> claims V) (s : JWTProvider) (now : Z) (tokenStr : string)
    : (string * error) + claims V :=
  match ParseToken (key s) now tokenStr with inr err => inl (tokenStr, err) | inl token => inr (fill token) end.
End tokens.

(** What is documented of the package: a signed token is accepted under the key that signed it until it
    expires, with the claims; under another key it is not. *)
Class JwtLaws (V : Type) `{JwtLib V} := {
  expires_at : claims V -> option Z;
  expires_map : forall m t, expires_at (MapClaims (Some (<["exp" := NewNumericDate t]> m))) = Some t;
  expires_registered : forall m t, expires_at (RegisteredClaims (Some (Some (NewNumericDate t), m))) = Some t;
  expires_custom : forall m t, expires_at (SetsExpiresAt (Some (NewNumericDate t)) m) = Some t;
  parse_signed : forall k c now tok, SignedString k c = inl tok ->
    match expires_at c with Some t => now < t | None => True end -> ParseToken k now tok = inl c;
  parse_expired : forall k c now tok t, SignedString k c = inl tok -> expires_at c = Some t -> t <= now ->
    exists err, ParseToken k now tok = inr err;
  parse_other_key : forall k k' c now tok, SignedString k c = inl tok -> k <> k' -> exists err, ParseToken k' now tok = inr err;
}.

(** ** Hexadecimal texts *)
Lemma from_hex_lower c n : from_hex c = Some n -> to_hex n = lower_char c /\ (n < 16)%N.
Proof. destruct c as [[] [] [] [] [] [] [] []]; intros Hc; vm_compute in Hc; try discriminate Hc; injection Hc as <-; by vm_compute. Qed.

Lemma from_to_hex n : (n < 16)%N -> from_hex (to_hex n) = Some n.
Proof.
  intros Hn. assert (In n [0;1;2;3;4;5;6;7;8;9;10;11;12;13;14;15]%N) as Hin by (cbn; lia).
  repeat (destruct Hin as [<-|Hin]; [reflexivity|]). destruct Hin.
Qed.

Lemma byte_parts a b : (a < 16)%N -> (b < 16)%N ->
  (N_of_ascii (ascii_of_N (a * 16 + b)) / 16 = a)%N /\ (N_of_ascii (ascii_of_N (a * 16 + b)) mod 16 = b)%N.
Proof.
  intros Ha Hb. rewrite N_ascii_embedding by lia. split.
  - symmetry. apply (N.div_unique _ 16 a b); lia.
  - symmetry. apply (N.mod_unique _ 16 a b); lia.
Qed.

Lemma two_step (P : string -> Prop) : P "" -> (forall c, P (String c "")) ->
  (forall c d s, P s -> P (String c (String d s))) -> forall s, P s.
Proof.
  intros H0 H1 H2 s. enough (P s /\ forall c, P (String c s)) by tauto.
  induction s as [|c s [IH IH']]; [by split|]. split; [apply IH'|]. intros d. by apply H2.
Qed.

Lemma decode_encode s bytes : DecodeString s = inr bytes -> EncodeToString bytes = ToLower s.
Proof.
  revert bytes. induction s as [|c|c d s IH] using two_step; intros bytes; cbn [DecodeString].
  - by intros [= <-].
  - by destruct (from_hex c).
  - destruct (from_hex c) as [a|] eqn:Ea; [|done]. destruct (from_hex d) as [b|] eqn:Eb; [|done].
    destruct (DecodeString s) as [err|bs]; [done|]. intros [= <-]. cbn [EncodeToString ToLower].
    destruct (from_hex_lower _ _ Ea) as [<- Ha], (from_hex_lower _ _ Eb) as [<- Hb].
    destruct (byte_parts a b Ha Hb) as [-> ->]. by rewrite (IH bs).
Qed.

Lemma encode_decode s : DecodeString (EncodeToString s) = inr s.
Proof.
  induction s as [|c s IH]; [done|]. cbn [EncodeToString DecodeString].
  assert (N_of_ascii c < 256)%N as Hc by apply N_ascii_bounded.
  rewrite !from_to_hex, IH; [|apply N.mod_lt; lia|apply N.Div0.div_lt_upper_bound; lia].
  rewrite N.mul_comm, <- N.div_mod by lia. by rewrite ascii_N_embedding.
Qed.

(** Two texts give one key exactly when they differ in the case of letters only. *)
Lemma same_key s1 s2 k1 k2 : DecodeString s1 = inr k1 -> DecodeString s2 = inr k2 -> k1 = k2 <-> ToLower s1 = ToLower s2.
Proof.
  intros H1 H2. pose proof (decode_encode _ _ H1) as E1. pose proof (decode_encode _ _ H2) as E2. split.
  - intros <-. by rewrite <- E1, <- E2.
  - intros E. assert (EncodeToString k1 = EncodeToString k2) as Ek by congruence.
    pose proof (encode_decode k1) as D1. rewrite Ek, encode_decode in D1. by injection D1.
Qed.

Lemma NewJWTProvider_key signingKey s : NewJWTProvider signingKey = Some s ->
  signingKey <> "" /\ DecodeString signingKey = inr (key s).
Proof.
  unfold NewJWTProvider. case_bool_decide; [done|]. destruct (DecodeString signingKey); [done|]. by intros [= <-].
Qed.

(** Tokens with an expiration: what was encoded is decoded by the same provider until the
    time has come, with the claims and the expiration, which the caller's claims have got;
    from then on, and by a provider whose signing key is another number, it is
    refused. *)
Theorem jwt_round_trip {V} `{JwtLaws V} (signingKey : string) (s : JWTProvider) (now ttl : Z) (c c' : claims V) (tok : string) :
  NewJWTProvider signingKey = Some s -> EncodeWithExp s now c ttl = Some (inr tok, c') ->
  expires_at c' = Some (now + ttl) /\
  (forall now', Decode s now' tok = inr c' <-> now' < now + ttl) /\
  (forall now', now + ttl <= now' -> exists err, Decode s now' tok = inl (tok, err)) /\
  (forall other s' now', NewJWTProvider other = Some s' -> ToLower other <> ToLower signingKey ->
     exists err, Decode s' now' tok = inl (tok, err)).
Proof.
  intros Hs He. destruct (NewJWTProvider_key _ _ Hs) as [_ Hkey].
  assert (expires_at c' = Some (now + ttl) /\ SignedString (key s) c' = inl tok) as [Hexp Hsign].
  { unfold EncodeWithExp, Encode in He.
    destruct c as [[m|]|[[e m]|]|e m|ty m]; try done; injection He as He <-;
      (match type of He with context [SignedString ?k ?c] => destruct (SignedString k c) eqn:E end); try done;
      injection He as <-; split; try exact E; auto using expires_map, expires_registered, expires_custom. }
  assert (forall now', now + ttl <= now' -> exists err, Decode s now' tok = inl (tok, err)) as Hold.
  { intros now' Hle. destruct (parse_expired _ _ now' _ _ Hsign Hexp Hle) as [err He'].
    unfold Decode. rewrite He'. by eexists. }
  split; [done|]. split; [|split; [done|]].
  - intros now'. split.
    + intros Hd. destruct (Z.lt_ge_cases now' (now + ttl)) as [?|Hge]; [done|].
      destruct (Hold _ Hge) as [err Hf]. congruence.
    + intros Hlt. unfold Decode. rewrite (parse_signed (key s) c' now' tok Hsign); [done|]. by rewrite Hexp.
  - intros other s' now' Hs' Hne. destruct (NewJWTProvider_key _ _ Hs') as [_ Hkey'].
    destruct (parse_other_key (key s) (key s') c' now' tok Hsign) as [err Hp].
    { intros Ek. apply Hne. symmetry. by apply (same_key signingKey other (key s) (key s')). }
    unfold Decode. rewrite Hp. by eexists.
Qed.

(** *** Witness: a library that signs one token *)
Definition one_claim : claims Z := MapClaims (Some {["exp" := 100]}).
#[global] Instance claims_eq_dec : EqDecision (claims Z).
Proof. solve_decision. Defined.
Definition expired : error := OpaqueErr "jwt.ValidationError" "token is expired".
#[local] Instance OneToken : JwtLib Z := {
  NewNumericDate t := t;
  SignedString k c := if decide (c = one_claim) then inl ("token:" +:+ k) else inr expired;
  ParseToken k now tok := if bool_decide (tok = "token:" +:+ k) && (now <? 100) then inl one_claim else inr expired;
}.
Definition claims_exp (c : claims Z) : option Z :=
  match c with
  | MapClaims (Some m) => m !! "exp"
  | RegisteredClaims (Some (e, _)) => e
  | SetsExpiresAt e _ => e
  | _ => None
  end.
#[local] Instance OneTokenLaws : JwtLaws Z.
Proof.
  refine {| expires_at := claims_exp |}.
  - intros m t. apply lookup_insert_eq.
  - done.
  - done.
  - intros k c now tok. cbn. case_decide as Hc; [|done]. subst c. intros [= <-]. change (claims_exp one_claim) with (Some 100). intros Hlt. cbn in Hlt.
    rewrite bool_decide_eq_true_2 by done. cbn [andb]. by rewrite (proj2 (Z.ltb_lt now 100) Hlt).
  - intros k c now tok t. cbn. case_decide as Hc; [|done]. subst c. intros [= <-] Hexp Hle.
    assert (t = 100) as -> by (vm_compute in Hexp; congruence). eexists. rewrite bool_decide_eq_true_2 by done. cbn [andb]. by rewrite (proj2 (Z.ltb_ge now 100) Hle).
  - intros k k' c now tok. cbn. case_decide; [|done]. intros [= <-] Hne. eexists.
    rewrite bool_decide_eq_false_2; [done|]. intros E. by apply Hne, (app_inj_l "token:").
Defined.

Lemma jwt_round_trip_witness : exists tok,
  EncodeWithExp (MkJWT "K") 40 (MapClaims (Some ∅) : claims Z) 60 = Some (inr tok, one_claim) /\
  Decode (MkJWT "K") 99 tok = inr one_claim /\ (exists err, Decode (MkJWT "K") 100 tok = inl (tok, err)).
Proof.
  destruct (jwt_round_trip "4b" (MkJWT "K") 40 60 (MapClaims (Some ∅) : claims Z) one_claim "token:K") as (_ & Hd & Ho & _).
  - vm_compute. reflexivity.
  - vm_compute. reflexivity.
  - exists "token:K". split; [vm_compute; reflexivity|]. split; [apply Hd; lia|]. apply Ho. lia.
Defined.

(** ** The cache

    [store]: the state of the library; [Get] fills its destination. *)
Section cache.
Context {T S : Type}.
Context (marshal : T -> string + error) (unmarshal : string -> T -> T * error).
Context (bc_get : string -> S -> string + error) (bc_set : string -> string -> S -> S * error) (bc_delete : string -> S -> S * error).
Context (is_not_found : error -> bool).  (** [errors.Is(err, bigcache.ErrEntryNotFound)] *)
Context (new_cache : Z -> S + error).

Inductive cache_error := InvalidTTL (name : string) (ttl : Z) | FailedToCreate (name : string) (err : error)
  | CacheEntryNotFound | NotSerialized (key : string) (err : error) | LibError (err : error).

Definition NewInMemoryCache (name : string) (ttl : Z) : S + cache_error :=
  if ttl <? 1 then inr (InvalidTTL name ttl)
  else match new_cache ttl with inr err => inr (FailedToCreate name err) | inl c => inl c end.

(** The destination afterwards and the error, if any. *)
Definition as_error (err : error) : option cache_error := match err with NilErr => None | _ => Some (LibError err) end.
Definition Cache_Get (key : string) (dest : T) (c : S) : T * option cache_error :=
  match bc_get key c with
  | inr err => (dest, Some (if is_not_found err then CacheEntryNotFound else LibError err))
  | inl bytes => let r := unmarshal bytes dest in (r.1, as_error r.2)
  end.
Definition Cache_Set (key : string) (value : T) (c : S) : S * option cache_error :=
  match marshal value with
  | inr err => (c, Some (NotSerialized key err))
  | inl bytes => let r := bc_set key bytes c in (r.1, as_error r.2)
  end.
Definition Cache_Remove (key : string) (c : S) : S * option cache_error :=
  let r := bc_delete key c in (r.1, as_error r.2).

(** What was set is got, when the codec reads what it writes and the cache keeps it. *)
Theorem cache_get_set key value dest c c' :
  Cache_Set key value c = (c', None) ->
  (forall bytes, marshal value = inl bytes -> unmarshal bytes dest = (value, NilErr)) ->
  (forall bytes, bc_set key bytes c = (c', NilErr) -> bc_get key c' = inl bytes) ->
  Cache_Get key dest c' = (value, None).
Proof using Type.
  unfold Cache_Set, Cache_Get. intros Hs Hm Hg. destruct (marshal value) as [bytes|err] eqn:E; [|done].
  destruct (bc_set key bytes c) as [c2 err] eqn:Es. cbn [fst snd] in Hs. injection Hs as -> Herr.
  assert (err = NilErr) as -> by by destruct err. rewrite (Hg bytes Es), (Hm bytes eq_refl). done.
Qed.
End cache.

(** ** Secrets of AWS

    [get_value]: the text and the bytes of a secret, or an error; the log are the texts written. *)
Section secrets.
Context (get_value : string -> (option string * string) + error).

Definition GetSecretVerbatim (id : string) : (string * error) * list string :=
  let log := ["GetSecretVerbatim: " +:+ id] in
  match get_value id with
  | inr err => (("", err), log)
  | inl resp => ((default "" resp.1, NilErr), log)
  end.
Definition GetBinarySecretVerbatim (id : string) : (string * error) * list string :=
  let log := ["GetBinarySecretVerbatim: " +:+ id] in
  match get_value id with
  | inr err => (("", err), log)
  | inl resp => ((resp.2, NilErr), log)
  end.
Definition GetSecret (t : DefaultKeyTransformer) (key : string) : (string * error) * list string :=
  let fullId := Transform t key in
  let r := GetSecretVerbatim fullId in (r.1, ("GetSecret: " +:+ key) :: r.2).
Definition GetBinarySecret (t : DefaultKeyTransformer) (key : string) : (string * error) * list string :=
  let fullId := Transform t key in
  let r := GetBinarySecretVerbatim fullId in (r.1, ("GetSecret: " +:+ key) :: r.2).
End secrets.

(** The key transformer of the container, or the default one of the configuration. *)
Definition NewAWSSecretsManager_transformer (prefixFmt keyFmt name env_name env_type : string) (given : option DefaultKeyTransformer)
    : DefaultKeyTransformer :=
  match given with Some t => t | None => NewDefaultKeyTransformer prefixFmt keyFmt name env_name env_type end.

(** ** The configuration of AWS

    [load]: what [LoadDefaultConfig] returns; [append]: [awstrace.AppendMiddleware]; [zero]: the empty
    configuration. The one constructor returns the error, the other panics with it. *)
Section aws_config.
Context {C : Type} (defaults : Defaults) (callers : list Frame) (show : error -> string) (append : C -> C) (zero : C).

Definition aws_config_error (err : error) : error :=
  let msg := "failed to build default AWS config, error: " +:+ show err in
  NewUnknownf defaults (WrapOne "*fmt.wrapError" msg err) msg callers.
Definition aws_NewAWSConfig (tracing : bool) (load : result error C) : C * error :=
  match load with
  | Err err => (zero, aws_config_error err)
  | Ok c => (if tracing then append c else c, NilErr)
  end.
Definition di_NewAWSConfig (tracing : bool) (load : result error C) : error + C :=
  match load with
  | Err err => inl (aws_config_error err)
  | Ok c => inr (if tracing then append c else c)
  end.

(** Both give the same configuration, and the code of what went wrong is kept. *)
Lemma aws_configs_agree tracing load :
  match di_NewAWSConfig tracing load with
  | inr c => aws_NewAWSConfig tracing load = (c, NilErr)
  | inl err => aws_NewAWSConfig tracing load = (zero, err) /\ forall e code, load = Err e -> IsCode e code = true -> IsCode err code = true
  end.
Proof using Type.
  destruct load as [c|e]; [done|]. split; [done|]. intros e1 code [= <-] Hc. unfold aws_config_error, NewUnknownf, Newf. cbn [IsCode existsb].
  rewrite Hc. by case_match.
Qed.
End aws_config.

(** ** Pointers and resources *)
Definition FormatPtr {T} (show : T -> string) (p : option T) : string := match p with None => "<nil>" | Some v => show v end.
Definition ToPtr {T} (v : T) : option T := Some v.
Definition ToValue {T} (zero : T) (p : option T) : T := match p with None => zero | Some v => v end.

(** [Setup] of every resource, in their order; [None]: one panics. *)
Fixpoint Resources_Setup {R S} (setup : R -> S -> option S) (rs : list R) (httpHandler : S) : option S :=
  match rs with
  | [] => Some httpHandler
  | r :: rs => h ← setup r httpHandler; Resources_Setup setup rs h
  end.
Definition NewResources {R S} (setup : R -> S -> option S) (resources : list R) (httpHandler : S) : option (list R * S) :=
  h ← Resources_Setup setup resources httpHandler; Some (resources, h).
