(* ===== verification/ErrorHandler.v ===== *)
(** * rest: the error handler

    Models [rest/middleware/error_handler.go] and [handlePanic] of
    [rest/middleware/panic_recovery.go]: from the errors of a request to one response and
    one log entry. The writer of gin is a parameter. *)

From S2P Require Import Prelude.
From S2P Require Import GoStrings.
From S2P Require Import Errors.
From S2P Require Import Config.

Open Scope string_scope.
Open Scope list_scope.
Open Scope Z_scope.

(** What a response's body is made of. *)
Inductive body (B : Type) := Built (b : B) | ErrWrapper (f : Fields) (ws : list error).
Arguments Built {B}. Arguments ErrWrapper {B}.

(** gin's writer: [ctx.JSON], [ctx.Status], [WriteHeaderNow] and what it tells. *)
Class Gin (W B : Type) := {
  JSON : Z -> body B -> W -> W;
  Status : Z -> W -> W;
  WriteHeaderNow : W -> W;
  status_of : W -> Z;
  Written : W -> bool;
}.

Class GinLaws (W B : Type) `{Gin W B} : Prop := {
  JSON_status : forall st b w, 0 < st -> Written w = false -> status_of (JSON st b w) = st /\ Written (JSON st b w) = true;
  Status_status : forall st w, Written w = false ->
    status_of (Status st w) = (if bool_decide (0 < st) then st else status_of w) /\ Written (Status st w) = false;
  now_written : forall w, Written (WriteHeaderNow w) = true /\ status_of (WriteHeaderNow w) = status_of w;
}.

(** [gin.Error]; [bind]: its type is [ErrorTypeBind]. *)
Record GinError := MkGinError { Err_ : error; bind : bool }.

(** The first framework error of a chain, with what it wraps: [errors.As]. *)
Fixpoint AsError (err : error) : option (Fields * list error) :=
  match err with
  | NilErr | OpaqueErr _ _ => None
  | FwErr f ws => Some (f, ws)
  | WrapOne _ _ w => AsError w
  | WrapMany _ _ ws =>
      (fix any ws := match ws with [] => None | w :: ws => match AsError w with Some x => Some x | None => any ws end end) ws
  end.

Definition errorCodesToStatus (code : string) : Z :=
  if bool_decide (code = ErrCodeUnknown) then 500
  else if bool_decide (code = ErrCodeBadState) then 500
  else if bool_decide (code = ErrCodePanic) then 500
  else if bool_decide (code = ErrCodeNotAuthenticated) then 401
  else if bool_decide (code = ErrCodeNotAllowed) then 403
  else if bool_decide (code = ErrCodeNotFound) then 404
  else if bool_decide (code = ErrCodeConflict) then 409
  else if bool_decide (code = ErrCodeBadArgument) then 422
  else if bool_decide (code = ErrCodeValidationFailed) then 422
  else 0.

Section handler.
Context {W B : Type} `{Gin W B}.

Record ErrorMapper := MkMapper {
  check : error -> bool;
  responseBuilder : GinError -> option B * Z * error;
}.

Definition NewErrorCodeMapper (errCode : string) (builder : GinError -> option B * Z * error) : ErrorMapper :=
  MkMapper (fun err => IsCode err errCode) builder.

Definition NewErrorHandler (errMappings : list ErrorMapper) (defaultErrorMapper : option (GinError -> option B * Z * error))
    : list ErrorMapper :=
  errMappings ++ match defaultErrorMapper with Some builder => [MkMapper (fun _ => true) builder] | None => [] end.

(** The status of the first error, and that error when it is the framework's. *)
Definition default_status (ginErr : option GinError) : Z * option (Fields * list error) :=
  match ginErr with
  | None => (500, None)
  | Some e =>
      if bind e then (422, None)
      else
        match AsError (Err_ e) with
        | Some x => (let st := errorCodesToStatus (Code x.1) in if bool_decide (st = 0) then 500 else st, Some x)
        | None => (0, None)
        end
  end.

Definition hide_stack (x : Fields * list error) : Fields * list error :=
  match Copy x.1 x.2 with FwErr f ws => (SetStackKey "" f, ws) | _ => x end.

Definition defaultHandler (errs : list (option GinError)) (prod : bool) (b : option B) (shouldWrite : bool) (w : W) : W :=
  let s := default_status (default None (head errs)) in
  if shouldWrite then
    let b' :=
      match b, s.2 with
      | Some b, _ => Some (Built b)
      | None, Some x => let x := if prod then hide_stack x else x in Some (ErrWrapper x.1 x.2)
      | None, None => None
      end in
    match b' with Some b => JSON s.1 b w | None => Status s.1 w end
  else w.

(** The inner loop: whether an error was mapped. The warning about a builder that fails
    is not kept. *)
Fixpoint run_mappers (errs : list (option GinError)) (prod shouldWrite : bool) (ms : list ErrorMapper) (e : GinError) (w : W)
    : bool * W :=
  match ms with
  | [] => (false, w)
  | m :: ms =>
      if negb (check m (Err_ e)) then run_mappers errs prod shouldWrite ms e w
      else
        match responseBuilder m e with
        | (b, status, NilErr) =>
            if bool_decide (status = 0) then
              match b with
              | None => run_mappers errs prod shouldWrite ms e w
              | Some b => (true, defaultHandler errs prod (Some b) shouldWrite w)
              end
            else if shouldWrite then
              (true, match b with Some b => JSON status (Built b) w | None => Status status w end)
            else (true, w)
        | (_, _, buildErr) => (true, w)
        end
  end.

(** The loop over [ctx.Errors]; [mapped] is nil until an error was mapped. *)
Fixpoint error_loop (errs : list (option GinError)) (prod shouldWrite : bool) (ms : list ErrorMapper)
    (todo : list (option GinError)) (mapped : error) (others : list error) (w : W) : (error * list error) * W :=
  match todo with
  | [] => ((mapped, others), w)
  | None :: todo => error_loop errs prod shouldWrite ms todo mapped others w
  | Some e :: todo =>
      match mapped with
      | NilErr =>
          let r := run_mappers errs prod shouldWrite ms e w in
          let mapped := if r.1 then Err_ e else NilErr in
          error_loop errs prod shouldWrite ms todo mapped
            (match mapped with NilErr => others ++ [Err_ e] | _ => others end) r.2
      | _ => error_loop errs prod shouldWrite ms todo mapped (others ++ [Err_ e]) w
      end
  end.

Record log_entry := MkLog { level : Z; log_error : error; other_errors : list error }.

(** [None]: the index out of range. *)
Definition handleErrors (prod : bool) (ms : list ErrorMapper) (errs : list (option GinError)) (brokenPipe : bool) (w : W)
    : option (option log_entry * W) :=
  match errs with
  | [] => Some (None, w)
  | _ =>
      let shouldWrite := negb brokenPipe && negb (Written w) in
      let r := error_loop errs prod shouldWrite ms errs NilErr [] w in
      x ←
        (match r.1.1 with
         | NilErr =>
             match r.1.2 with
             | e :: others => Some ((e, others), defaultHandler errs prod None shouldWrite r.2)
             | [] => None
             end
         | _ => Some r
         end);
      let status := status_of x.2 in
      let level := if bool_decide (500 <= status) then LogLevelError
                   else if bool_decide (400 <= status) then LogLevelWarn else LogLevelInfo in
      Some (Some (MkLog level x.1.1 x.1.2), x.2)
  end.

Context (defaults : Defaults) (callers : list Frame) (show : error -> string).

(** The error made of what [recover] returned. *)
Definition recovery_error (errAny : error + string) : error :=
  match errAny with
  | inl err =>
      let msg := "recovery from panic: " +:+ show err in
      Newf defaults ErrCodePanic (WrapOne "*fmt.wrapError" msg err) msg callers
  | inr v =>
      let msg := "recovery from panic: " +:+ v in Newf defaults ErrCodePanic (OpaqueErr "*errors.errorString" msg) msg callers
  end.

(** [syscall_error]: the text of the system error in the chain of the panic's error. *)
Definition is_broken_pipe (syscall_error : option string) : bool :=
  match syscall_error with
  | Some se => Contains (ToLower se) "broken pipe" || Contains (ToLower se) "connection reset by peer"
  | None => false
  end.

(** The result: [brokenPipe], the errors and the writer; [AbortWithError] writes the header. *)
Definition handlePanic (errAny : error + string) (syscall_error : option string) (errs : list (option GinError)) (w : W)
    : (bool * list (option GinError)) * W :=
  let brokenPipe := match errAny with inl _ => is_broken_pipe syscall_error | inr _ => false end in
  let errs := errs ++ [Some (MkGinError (recovery_error errAny) false)] in
  if brokenPipe then ((true, errs), w) else ((false, errs), WriteHeaderNow (Status 500 w)).

(** [Run]: after the handlers, that may have panicked. *)
Definition Run (prod : bool) (ms : list ErrorMapper) (panicked : option ((error + string) * option string))
    (errs : list (option GinError)) (w : W) : option (option log_entry * W) :=
  match panicked with
  | None => handleErrors prod ms errs false w
  | Some (errAny, se) =>
      let r := handlePanic errAny se errs w in handleErrors prod ms r.1.2 r.1.1 r.2
  end.
End handler.
Arguments ErrorMapper : clear implicits.

(** ** Proofs *)
Section proofs.
Context {W B : Type} `{GinLaws W B}.
Implicit Types (ms : list (ErrorMapper B)) (errs todo : list (option GinError)) (w : W).

(** The errors of a request. *)
Definition raised (errs : list (option GinError)) : list error := Err_ <$> omap id errs.

Lemma defaultHandler_silent errs prod b w : defaultHandler errs prod b false w = w.
Proof. done. Qed.

Lemma run_mappers_silent errs prod ms e w : (run_mappers errs prod false ms e w).2 = w.
Proof using Type.
  induction ms as [|m ms IH]; [done|]. cbn [run_mappers]. destruct (check m (Err_ e)); cbn [negb]; [|exact IH].
  destruct (responseBuilder m e) as [[b st] err]. destruct err; [|done..].
  case_bool_decide; [|done]. by destruct b.
Qed.

Lemma error_loop_silent errs prod ms todo mapped others w : (error_loop errs prod false ms todo mapped others w).2 = w.
Proof using Type.
  revert mapped others. induction todo as [|[e|] todo IH]; intros mapped others; cbn [error_loop]; [done| |apply IH].
  destruct mapped; [|apply IH..]. rewrite run_mappers_silent. apply IH.
Qed.

(** Every error is kept once, as the mapped one or among the others. *)
Definition all_errors (r : error * list error) : list error := match r.1 with NilErr => r.2 | e => e :: r.2 end.

Lemma error_loop_all errs prod sw ms todo mapped others w : Forall (fun e => e <> NilErr) (raised todo) ->
  all_errors (error_loop errs prod sw ms todo mapped others w).1 ≡ₚ all_errors (mapped, others) ++ raised todo.
Proof using Type.
  unfold raised. revert mapped others w. induction todo as [|[e|] todo IH]; intros mapped others w Hn; cbn [error_loop omap list_omap id fmap list_fmap].
  - by rewrite app_nil_r.
  - apply Forall_cons in Hn as [He Hn]. destruct mapped; [rewrite IH by done; destruct (run_mappers errs prod sw ms e w).1; unfold all_errors; cbn [fst snd]|..].
    { destruct (Err_ e) eqn:Ee; [done|..]; cbn [app]; by rewrite Permutation_middle. }
    { by rewrite <- app_assoc. }
    all: rewrite IH by done; unfold all_errors; cbn [fst snd app]; by rewrite <- app_assoc.
  - by apply IH.
Qed.

Lemma error_loop_no_mappers errs prod sw todo others w :
  error_loop errs prod sw [] todo NilErr others w = ((NilErr, others ++ raised todo), w).
Proof using Type.
  unfold raised. revert others. induction todo as [|[e|] todo IH]; intros others; cbn [error_loop run_mappers fst snd].
  - by rewrite app_nil_r.
  - rewrite IH. by rewrite <- app_assoc.
  - apply IH.
Qed.

Lemma raised_nil errs : raised errs = [] <-> Forall (fun e => e = None) errs.
Proof using Type.
  unfold raised. induction errs as [|[e|] errs IH]; cbn; [done|split; [done|by inversion 1]|]. rewrite IH.
  split; [by constructor|by inversion 1].
Qed.

Lemma handleErrors_all prod ms errs bp w : Forall (fun e => e <> NilErr) (raised errs) ->
  match handleErrors prod ms errs bp w with
  | None => errs <> [] /\ raised errs = []
  | Some (None, w') => errs = [] /\ w' = w
  | Some (Some l, w') => log_error l :: other_errors l ≡ₚ raised errs
  end.
Proof using Type.
  intros Hn. unfold handleErrors. destruct errs as [|e0 errs]; [done|]. set (all := e0 :: errs) in *.
  pose proof (error_loop_all all prod (negb bp && negb (Written w)) ms all NilErr [] w Hn) as Hp.
  destruct (error_loop all prod _ ms all NilErr [] w) as [[mapped others] w1]. unfold all_errors in Hp. cbn [fst snd app] in Hp |- *.
  destruct mapped; [|exact Hp..]. destruct others as [|e others]; [|exact Hp]. split; [done|]. symmetry. by apply Permutation_nil_l.
Qed.

Lemma handleErrors_silent prod ms errs bp w : bp || Written w = true ->
  match handleErrors prod ms errs bp w with Some r => r.2 = w | None => True end.
Proof using Type.
  intros Hs. unfold handleErrors. destruct errs as [|e0 errs]; [done|]. set (all := e0 :: errs).
  assert (negb bp && negb (Written w) = false) as -> by (by destruct bp, (Written w)).
  pose proof (error_loop_silent all prod ms all NilErr [] w) as Hw.
  destruct (error_loop all prod false ms all NilErr [] w) as [[mapped others] w1]. cbn [fst snd] in Hw |- *. subst w1.
  destruct mapped; [|done..]. by destruct others.
Qed.

(** *** What is answered *)

(** What a mapper makes of an error; [None]: nothing, so that the search goes on. *)
Definition answers (m : ErrorMapper B) (e : GinError) : option (option B * Z * error) :=
  if check m (Err_ e) then
    match responseBuilder m e with
    | (None, st, NilErr) => if bool_decide (st = 0) then None else Some (None, st, NilErr)
    | r => Some r
    end
  else None.

(** The first mapper, in their order, that makes something of the error. *)
Definition mapped_by ms (e : GinError) : option (option B * Z * error) := head (omap (fun m => answers m e) ms).

(** The statuses that the comments of [errors/codes.go] give, but that of
    BAD_ARGUMENT; a code that is not one of the framework's is an internal error. *)
Definition documented : list (string * Z) :=
  [(ErrCodeBadState, 500); (ErrCodeNotFound, 404); (ErrCodeNotAuthenticated, 401); (ErrCodeNotAllowed, 403);
   (ErrCodeValidationFailed, 422); (ErrCodeConflict, 409)].
Definition status_of_code (code : string) (st : Z) : Prop :=
  0 < st /\
  match snd <$> head (filter (fun p => p.1 = code) documented) with
  | Some st' => st = st'
  | None => code <> ErrCodeBadArgument -> st = 500
  end.

(** The status when no mapper gives one, by the first entry; 0 is none. *)
Definition first_status errs (st : Z) : Prop :=
  match errs with
  | Some e :: _ =>
      if bind e then st = 422
      else match AsError (Err_ e) with Some x => status_of_code (Code x.1) st | None => st = 0 end
  | _ => st = 500
  end.

(** The body when no mapper gives one: the first error, when it is the framework's and does not
    come from a binding; in production without its stack. *)
Definition first_body (prod : bool) errs (b : option (body B)) : Prop :=
  match errs with
  | Some e :: _ =>
      match (if bind e then None else AsError (Err_ e)) with
      | Some (f, ws) => exists f' ws', b = Some (ErrWrapper f' ws') /\ Code f' = Code f /\ Message f' = Message f /\
          if prod then stackKey f' = "" else f' = f /\ ws' = ws
      | None => b = None
      end
  | _ => b = None
  end.

Definition respond (st : Z) (b : option (body B)) w : W := match b with Some b => JSON st b w | None => Status st w end.

(** The response of a mapper: its body with its status, or with that of the first entry; nothing
    when it could not build one. *)
Definition mapper_response errs (a : option B * Z * error) w (w' : W) : Prop :=
  match a with
  | (b, st, NilErr) =>
      if bool_decide (st = 0) then exists st', first_status errs st' /\ w' = respond st' (Built <$> b) w
      else w' = respond st (Built <$> b) w
  | _ => w' = w
  end.

Definition level_of_status (st : Z) : Z :=
  if bool_decide (500 <= st) then 8 else if bool_decide (400 <= st) then 4 else 0.

Lemma errorCodesToStatus_documented code :
  status_of_code code (if bool_decide (errorCodesToStatus code = 0) then 500 else errorCodesToStatus code).
Proof using Type.
  destruct (decide (code ∈ [ErrCodeUnknown; ErrCodeBadState; ErrCodePanic; ErrCodeNotAuthenticated; ErrCodeNotAllowed; ErrCodeNotFound;
    ErrCodeConflict; ErrCodeBadArgument; ErrCodeValidationFailed])) as [Hin|Hni].
  - repeat (apply elem_of_cons in Hin as [->|Hin]; [vm_compute; split; [done|first [done|by intros []]]|]). by apply elem_of_nil in Hin.
  - repeat (apply not_elem_of_cons in Hni as [? Hni]). clear Hni.
    assert (errorCodesToStatus code = 0) as -> by (unfold errorCodesToStatus; by rewrite !bool_decide_eq_false_2 by done).
    split; [done|]. unfold documented. rewrite !filter_cons_False by (cbn; congruence). done.
Qed.

Lemma default_status_spec errs : first_status errs (default_status (default None (head errs))).1.
Proof using Type.
  unfold first_status, default_status. destruct errs as [|[e|] errs]; cbn; [done| |done].
  destruct (bind e); cbn; [done|]. destruct (AsError (Err_ e)) as [x|]; cbn; [apply errorCodesToStatus_documented|done].
Qed.

Lemma defaultHandler_mapped errs prod b w :
  exists st, first_status errs st /\ defaultHandler errs prod (Some b) true w = respond st (Some (Built b)) w.
Proof using Type. eexists. split; [apply default_status_spec|]. unfold defaultHandler. by destruct (default_status (default None (head errs))).2. Qed.

Lemma defaultHandler_first errs prod w :
  exists st b, first_status errs st /\ first_body prod errs b /\ defaultHandler errs prod None true w = respond st b w.
Proof using Type.
  unfold defaultHandler. eexists _, _. split; [apply default_status_spec|]. split; [|reflexivity].
  unfold first_body, default_status. destruct errs as [|[e|] errs]; cbn [head default from_option id snd]; [done| |done].
  destruct (bind e); cbn [snd]; [done|]. destruct (AsError (Err_ e)) as [[f ws]|]; cbn [snd]; [|done].
  eexists _, _. split; [reflexivity|]. by destruct prod.
Qed.

Lemma run_mappers_spec errs prod ms e w :
  match mapped_by ms e with
  | None => run_mappers errs prod true ms e w = (false, w)
  | Some a => (run_mappers errs prod true ms e w).1 = true /\ mapper_response errs a w (run_mappers errs prod true ms e w).2
  end.
Proof using Type.
  unfold mapped_by. induction ms as [|m ms IH]; [done|]. cbn [omap list_omap run_mappers]. unfold answers at 1.
  destruct (check m (Err_ e)); cbn [negb]; [|exact IH]. destruct (responseBuilder m e) as [[b st] err].
  destruct err; [|by destruct b..]. destruct b as [b|]; cbn [head]; unfold mapper_response.
  - case_bool_decide; cbn [fst snd]; (split; [done|]); [|done]. apply defaultHandler_mapped.
  - case_bool_decide as Hst; [exact IH|]. cbn [head]. rewrite bool_decide_eq_false_2 by done. done.
Qed.

(** The loop, when the response may be written: it goes to the first error that is mapped. *)
Lemma error_loop_spec errs prod ms todo others w : Forall (fun e => e <> NilErr) (raised todo) ->
  let r := error_loop errs prod true ms todo NilErr others w in
  (exists pre e a post, todo = pre ++ Some e :: post /\
     Forall (fun o => forall e, o = Some e -> mapped_by ms e = None) pre /\ mapped_by ms e = Some a /\
     r.1 = (Err_ e, others ++ raised (pre ++ post)) /\ mapper_response errs a w r.2) \/
  (Forall (fun o => forall e, o = Some e -> mapped_by ms e = None) todo /\ r = ((NilErr, others ++ raised todo), w)).
Proof using Type.
  cbv zeta. revert others. induction todo as [|[e|] todo IH]; intros others Hn; cbn [error_loop].
  - right. by rewrite app_nil_r.
  - change (raised (Some e :: todo)) with (Err_ e :: raised todo) in *. apply Forall_cons in Hn as [He Hn].
    pose proof (run_mappers_spec errs prod ms e w) as Hr. destruct (mapped_by ms e) as [a|] eqn:Ea.
    + destruct Hr as [-> Hr]. left. exists [], e, a, todo. split; [done|]. split; [done|]. split; [done|].
      assert (forall mapped o w, mapped <> NilErr -> error_loop errs prod true ms todo mapped o w = ((mapped, o ++ raised todo), w)) as Hrest.
      { clear. intros mapped o w Hm. revert o. induction todo as [|[e|] todo IH]; intros o; cbn [error_loop].
        - by rewrite app_nil_r.
        - destruct mapped; [done|..]; rewrite IH; change (raised (Some e :: todo)) with (Err_ e :: raised todo); by rewrite <- app_assoc.
        - apply IH. }
      rewrite Hrest by done. by destruct (Err_ e).
    + rewrite Hr. cbn [fst snd]. destruct (IH (others ++ [Err_ e]) Hn) as [(pre & e' & a & post & -> & Hp & Ha & -> & Hw)|[Hp ->]].
      * left. exists (Some e :: pre), e', a, post. split; [done|]. split; [constructor; [by intros ? [= <-]|done]|].
        split; [done|]. split; [|done]. change (raised ((Some e :: pre) ++ post)) with (Err_ e :: raised (pre ++ post)).
        by rewrite <- app_assoc.
      * right. split; [constructor; [by intros ? [= <-]|done]|]. by rewrite <- app_assoc.
  - change (raised (None :: todo)) with (raised todo) in *.
    destruct (IH others Hn) as [(pre & e' & a & post & -> & Hp & Ha & -> & Hw)|[Hp ->]].
    + left. exists (None :: pre), e', a, post. split; [done|]. split; [by constructor|]. by split.
    + right. split; [by constructor|done].
Qed.

Lemma handleErrors_level prod ms errs bp w l w' : handleErrors prod ms errs bp w = Some (Some l, w') ->
  level l = level_of_status (status_of w').
Proof using Type.
  unfold handleErrors. destruct errs as [|e0 errs]; [done|]. destruct (match _ with NilErr => _ | _ => _ end) as [x|]; [|done].
  cbn [mbind option_bind]. by intros [= <- <-].
Qed.
End proofs.


(** BAD_ARGUMENT is answered with 422. *)
Lemma bad_argument_status : errorCodesToStatus ErrCodeBadArgument = 422.
Proof. reflexivity. Qed.

(** ** A writer, for the witnesses *)
Record Recorder := MkRecorder { rec_status : Z; rec_written : bool; rec_body : option (body string) }.

#[export] Instance Recorder_Gin : Gin Recorder string := {
  JSON st b w := MkRecorder st true (Some b);
  Status st w := if bool_decide (0 < st) && negb (rec_written w) then MkRecorder st (rec_written w) (rec_body w) else w;
  WriteHeaderNow w := MkRecorder (rec_status w) true (rec_body w);
  status_of := rec_status;
  Written := rec_written;
}.
#[export] Instance Recorder_GinLaws : GinLaws Recorder string.
Proof.
  split; [done| |done]. intros st w. cbn. intros Hw. rewrite Hw. by case_bool_decide.
Qed.

Definition fresh : Recorder := MkRecorder 200 false None.
Definition missing : error := FwErr (MkFields ErrCodeNotFound "no such order" "" [] "kind" "message" "stack") [].
Definition plain : error := OpaqueErr "*errors.errorString" "connection refused".

(** A mapper that has nothing to say, one for the code, and one that is never asked. *)
Definition not_found_mapper : list (ErrorMapper string) :=
  [MkMapper (fun _ => true) (fun _ => (None, 0, NilErr)); NewErrorCodeMapper ErrCodeNotFound (fun _ => (Some "gone", 410, NilErr));
   MkMapper (fun _ => true) (fun _ => (Some "any", 500, NilErr))].


(** Three requests that failed: with an error of another kind, which is answered with 200;
    with an error whose mapper cannot build its response, 200 as well; and with a panic,
    whose answer has no body although the code has a status and a mapper. *)
Theorem errors_without_answer :
  let builder := fun status err (_ : GinError) => (Some "body", status, err) in
  (exists l, handleErrors true [] [Some (MkGinError plain false)] false fresh = Some (Some l, fresh)) /\
  (exists l, handleErrors true [NewErrorCodeMapper ErrCodeNotFound (builder 404 plain)] [Some (MkGinError missing false)] false fresh =
     Some (Some l, fresh)) /\
  (exists l, Run initial_defaults [] (fun _ => "") true [NewErrorCodeMapper ErrCodePanic (builder 500 NilErr)]
     (Some (inr "boom", None)) [] fresh = Some (Some l, MkRecorder 500 true None)).
Proof. cbv zeta. split_and!; (eexists; vm_compute; reflexivity). Qed.
