(* ===== verification/ErrorMappers.v ===== *)
(** * rest: mappers of errors by type and by identity

    Models [NewErrorAsMapper], [NewErrorIsMapper], [RegisterErrorAsMapper] and [RegisterErrorIsMapper] of
    [rest/middleware/error_handler.go] over file ErrorHandler. [errors.As] and [errors.Is] of Go
    search the tree of an error; which values a variable of a type can hold, and which values
    are the same as the target, are parameters. *)

From S2P Require Import Prelude.
From S2P Require Import Errors.
From S2P Require Import ErrorHandler.

Open Scope string_scope.
Open Scope list_scope.
Open Scope Z_scope.

(** The search of [errors.As] and [errors.Is], and the errors that it meets. *)
Fixpoint search (here : error -> bool) (err : error) : bool :=
  match err with
  | NilErr => false
  | OpaqueErr _ _ => here err
  | FwErr _ ws | WrapMany _ _ ws => here err || existsb (search here) ws
  | WrapOne _ _ w => here err || search here w
  end.
Fixpoint met (err : error) : list error :=
  match err with
  | NilErr => []
  | OpaqueErr _ _ => [err]
  | FwErr _ ws | WrapMany _ _ ws => err :: flat_map met ws
  | WrapOne _ _ w => err :: met w
  end.

Lemma existsb_search here ws : Forall (fun w => search here w = existsb here (met w)) ws ->
  existsb (search here) ws = existsb here (flat_map met ws).
Proof. induction 1 as [|w ws Hw _ IH]; [done|]. cbn. by rewrite Hw, IH, existsb_app. Qed.
Lemma search_met here err : search here err = existsb here (met err).
Proof.
  induction err as [|f ws IH|ty msg|ty msg w IH|ty msg ws IH] using error_rec_strong; cbn; [done|..].
  - by rewrite existsb_search.
  - by rewrite orb_false_r.
  - by rewrite IH.
  - by rewrite existsb_search.
Qed.

Section mappers.
Context {W B : Type} `{Gin W B}.
Notation Builder := (GinError -> option B * Z * error).

(** [assignable]: to a variable of the type parameter. *)
Definition NewErrorAsMapper (assignable : error -> bool) (builder : Builder) : ErrorMapper B :=
  MkMapper (fun err => search assignable err) builder.
(** [same]: equal to [mapErr], or taken for it by a method [Is]. *)
Definition NewErrorIsMapper (same : error -> bool) (builder : Builder) : ErrorMapper B :=
  MkMapper (fun err => search same err) builder.

(** The argument is of the type [error], so that is the type parameter, and any error is assignable
    to it, whatever the type of the value [errAs]. *)
Definition RegisterErrorAsMapper (errAs : error) (builder : Builder) : ErrorMapper B := NewErrorAsMapper (fun _ => true) builder.
Definition RegisterErrorIsMapper (same : error -> bool) (builder : Builder) : ErrorMapper B := NewErrorIsMapper same builder.
End mappers.

(** A mapper made for a type answers the errors that have one of that type in their tree. But one that was registered for
    an error answers every error, and the mappers after it are never asked. *)
Theorem registered_as_mapper {W B} `{GinLaws W B} (assignable : error -> bool) (builder : GinError -> option B * Z * error)
    (errAs : error) (e : GinError) (errs : list (option GinError)) (prod : bool) (ms : list (ErrorMapper B)) (w : W) :
  (check (NewErrorAsMapper assignable builder) (Err_ e) = true <-> exists x, x ∈ met (Err_ e) /\ assignable x = true) /\
  (Err_ e <> NilErr -> check (RegisterErrorAsMapper errAs builder) (Err_ e) = true /\
   forall b st, builder e = (Some b, st, NilErr) -> st <> 0 ->
     run_mappers errs prod true (RegisterErrorAsMapper errAs builder :: ms) e w = (true, JSON st (Built b) w)).
Proof.
  split.
  - cbn [NewErrorAsMapper check]. rewrite search_met, existsb_exists. by setoid_rewrite list_elem_of_In.
  - intros Hn. assert (check (RegisterErrorAsMapper errAs builder) (Err_ e) = true) as Hc.
    { cbn [RegisterErrorAsMapper NewErrorAsMapper check]. by destruct (Err_ e). }
    split; [done|]. intros b st Hb Hst. cbn [run_mappers]. rewrite Hc. cbn [negb RegisterErrorAsMapper NewErrorAsMapper responseBuilder].
    rewrite Hb. by rewrite bool_decide_eq_false_2.
Qed.

(** A service registers an answer for conflicts of its store, and is asked for something that is
    missing: the answer is the conflict's, whatever comes after. *)
Lemma registered_as_mapper_witness :
  let conflict := OpaqueErr "*store.ConflictError" "version changed" in
  check (RegisterErrorAsMapper (B := string) conflict (fun _ => (Some "conflict", 409, NilErr))) missing = true /\
  run_mappers [] true true [RegisterErrorAsMapper conflict (fun _ => (Some "conflict", 409, NilErr));
    NewErrorCodeMapper ErrCodeNotFound (fun _ => (Some "missing", 404, NilErr))] (MkGinError missing false) fresh =
    (true, JSON 409 (Built "conflict") fresh).
Proof.
  destruct (registered_as_mapper (fun _ => true) (fun _ => (Some "conflict", 409, NilErr)) (OpaqueErr "*store.ConflictError" "version changed")
    (MkGinError missing false) [] true [NewErrorCodeMapper ErrCodeNotFound (fun _ => (Some "missing", 404, NilErr))] fresh) as (_ & Hr).
  destruct (Hr ltac:(discriminate)) as [Hc Hrun]. split; [exact Hc|]. by apply Hrun.
Defined.
