(* ===== verification/Log.v ===== *)
(** * log: levels by path, attributes of contexts, and loggers

    Models [log/logger.go], [log/logger_factory.go], [log/logger_internal.go] and
    [log/logger_attrs.go]: which level a path gets, which records a logger emits, and the
    attributes in contexts, whose slices share arrays. The handlers are slog's and
    console-slog's: a parameter that takes records. *)

From S2P Require Import Prelude.
From S2P Require Import GoStrings.
From S2P Require Import GoPath.
From S2P Require Import Config.
From Stdlib Require Import Ascii.
From stdpp Require Import pretty.

Open Scope string_scope.
Open Scope list_scope.
Open Scope Z_scope.

(** ** The level of a path *)

(** [strings.LastIndexAny(s, "/.")] *)
Definition is_sep (c : ascii) : bool := bool_decide (c = "/"%char) || bool_decide (c = "."%char).
Fixpoint LastIndexAny (s : string) : option nat :=
  match s with
  | EmptyString => None
  | String c s =>
      match LastIndexAny s with
      | Some i => Some (S i)
      | None => if is_sep c then Some 0%nat else None
      end
  end.

(** The levels of the configuration; of two names with one clean form the later stays. *)
Definition normalized (levels : list (string * Z)) : gmap string Z :=
  foldl (fun m e => <[Clean e.1 := e.2]> m) ∅ levels.

(** The loop of [newLogger] at index [idx]; [None] for fuel. *)
Fixpoint level_loop (fuel : nat) (levels : gmap string Z) (pth : string) (idx : option nat) : option (option Z) :=
  match fuel with
  | O => None
  | S fuel =>
      match idx with
      | None | Some O => Some None
      | Some idx =>
          let pth := take_bytes idx pth in
          match levels !! pth with
          | Some level => Some (Some level)
          | None => level_loop fuel levels pth (LastIndexAny pth)
          end
      end
  end.
(** *** The paths of callers and types *)
Definition skipPathPrefixes : list string :=
  ["github.com/southernlabs-io/go-fw/log.(*LoggerFactory)."; "github.com/southernlabs-io/go-fw/log.Logger.";
   "github.com/southernlabs-io/go-fw/log.GetLogger"; "github.com/southernlabs-io/go-fw/worker.NewWorkerContext"].

(** [frames]: the functions of up to six callers. *)
Fixpoint findCallerPath (frames : list string) : string :=
  match frames with
  | [] => "_"
  | f :: frames =>
      if existsb (fun p => HasPrefix f p) skipPathPrefixes || bool_decide (f = "") then findCallerPath frames else f
  end.

(** A type: named, with its package; a pointer, slice, array, map or channel; or neither. *)
Inductive rtype := Named (pkg name : string) | Unnamed | Composite (elem : rtype).
Fixpoint type_path (iterations : nat) (t : option rtype) : string :=
  match iterations with
  | O => "_"
  | S n =>
      match t with
      | None => "_"
      | Some (Named pkg name) => if bool_decide (pkg = "") then type_path n None else pkg +:+ "." +:+ name
      | Some Unnamed => type_path n None
      | Some (Composite elem) => type_path n (Some elem)
      end
  end.
Definition pathForType (t : option rtype) : string := type_path 10 t.

(** ** Attributes and arguments of log calls

    A value of [any], as [slog.AnyValue] sees it and resolved: a string, an integer, a
    level, the position of a call, attributes, one attribute, or something else. *)
Section values.
Context {V : Type}.

Inductive value :=
  | VString (s : string)
  | VInt (i : Z)
  | VLevel (l : Z)
  | VSource (function : string) (line : Z) (file : string)
  | VGroup (attrs : list (string * value))
  | VAttr (key : string) (v : value)
  | VOther (v : V).
Definition attr : Type := string * value.

Definition badKey : string := "!BADKEY".

(** [x :: rest] are the arguments. *)
Definition argsToAttr (x : value) (rest : list value) : attr * list value :=
  match x with
  | VString s => match rest with [] => ((badKey, x), []) | v :: rest => ((s, v), rest) end
  | VAttr key v => ((key, v), rest)
  | _ => ((badKey, x), rest)
  end.

(** The loop of [argsToAttrSlice]: as many turns as there are arguments are enough. *)
Fixpoint args_loop (turns : nat) (args : list value) : option (list attr) :=
  match args with
  | [] => Some []
  | x :: rest =>
      match turns with
      | O => None
      | S turns => let r := argsToAttr x rest in attrs ← args_loop turns r.2; Some (r.1 :: attrs)
      end
  end.
Definition argsToAttrSlice (args : list value) : list attr := default [] (args_loop (length args) args).

(** *** What the JSON handler does with an attribute

    [slog.Level.String] *)
Definition signed_text (base : string) (val : Z) : string :=
  if bool_decide (val = 0) then base else base +:+ (if bool_decide (0 < val) then "+" else "") +:+ pretty val.
Definition slog_level_text (l : Z) : string :=
  if bool_decide (l < LogLevelInfo) then signed_text "DEBUG" (l - LogLevelDebug)
  else if bool_decide (l < LogLevelWarn) then signed_text "INFO" (l - LogLevelInfo)
  else if bool_decide (l < LogLevelError) then signed_text "WARN" (l - LogLevelWarn)
  else signed_text "ERROR" (l - LogLevelError).

Context (other_text : value -> string).  (** [slog.Value.String] of the other values *)
Definition value_text (v : value) : string :=
  match v with VString s => s | VInt i => pretty i | VLevel l => slog_level_text l | _ => other_text v end.

Definition logger_group (name function : string) (line : Z) (file : string) : list attr :=
  [("name", VString name)] ++
  (if bool_decide (function = "") then [] else [("method_name", VString function)]) ++
  (if bool_decide (line = 0) then [] else [("line", VInt line)]) ++
  (if bool_decide (file = "") then [] else [("file", VString file)]).

(** The function [ReplaceAttr] of the handler's options; [None]: it panics, since it takes
    every value under the key "source" for a position. *)
Definition ReplaceAttr (name : string) (a : attr) : option attr :=
  if bool_decide (a.1 = "time") then Some ("timestamp", a.2)
  else if bool_decide (a.1 = "level") && bool_decide (value_text a.2 = TraceAsSlogStr) then
    Some (a.1, VString (LogLevel_String LogLevelTrace))
  else if bool_decide (a.1 = "source") then
    match a.2 with
    | VSource function line file =>
        Some ("logger", VGroup (logger_group name function line file))
    | _ => None
    end
  else Some a.

(** slog calls it for the attributes that are no groups, those within groups included. *)
Fixpoint json_attr (name key : string) (v : value) : option attr :=
  match v with
  | VGroup attrs =>
      attrs ← (fix go (l : list attr) : option (list attr) :=
        match l with
        | [] => Some []
        | (k, w) :: l => a ← json_attr name k w; l ← go l; Some (a :: l)
        end) attrs;
      Some (key, VGroup attrs)
  | _ => ReplaceAttr name (key, v)
  end.
End values.
Arguments value : clear implicits.
Arguments attr : clear implicits.

(** ** Loggers *)

(** What loggers use of the configuration. *)
Record LogConf := MkLogConf { env_type : string; log_level : Z; log_levels : gmap string Z; log_writer : string }.
Definition EnvTypeLocal : string := "local".
Definition EnvTypeTest : string := "test".

Inductive writer := Custom (w : nat) | Stdout | Stderr | Buffer.

(** A logger: [l_cell] is its [slog.LevelVar], which its copies share; [l_attrs] are the
    attributes that its handler has taken. *)
Record Logger (V : Type) := MkLogger {
  l_name : string; l_cell : nat; l_console : bool; l_attrs : list (attr V); l_writer : writer; SkipCallers : nat }.
Arguments MkLogger {V}. Arguments l_name {V}. Arguments l_cell {V}. Arguments l_console {V}.
Arguments l_attrs {V}. Arguments l_writer {V}. Arguments SkipCallers {V}.

(** A record that a handler wrote. *)
Record Rec (V : Type) := MkRec { r_writer : writer; r_fields : list (attr V) }.
Arguments MkRec {V}.

(** The levels in cells, what has been written, and the loggers of the factory. *)
Record LogState (V : Type) := MkLogState { cells : list Z; written : list (Rec V); loggersByPath : gmap string (Logger V) }.
Arguments MkLogState {V}. Arguments cells {V}. Arguments written {V}. Arguments loggersByPath {V}.

(** A frame of the stack; [no_frame] when there is none. *)
Record frame := MkFrame { Function : string; File : string; Line : Z }.
Definition no_frame : frame := MkFrame "" "" 0.

Section loggers.
Context {V : Type} (other_text : value V -> string).
Context (own : string -> frame).  (** the frames of the package's functions *)
Context (SemVer : string).
Implicit Types (l : Logger V) (s : LogState V) (stack : list frame) (now : V).

Definition SetLevel l (level : Z) s : LogState V :=
  MkLogState (<[l_cell l := level]> (cells s)) (written s) (loggersByPath s).
Definition Level l s : Z := default 0 (cells s !! l_cell l).

(** The handler takes attributes; [None]: it panics. *)
Definition handler_attrs (console : bool) (name : string) (attrs : list (attr V)) : option (list (attr V)) :=
  if console then Some attrs else mapM (fun a => json_attr other_text name a.1 a.2) attrs.
Definition WithAttrs l (attrs : list (attr V)) : option (Logger V) :=
  attrs ← handler_attrs (l_console l) (l_name l) attrs;
  Some (MkLogger (l_name l) (l_cell l) (l_console l) (l_attrs l ++ attrs) (l_writer l) (SkipCallers l)).
Definition With l (args : list (value V)) : option (Logger V) := WithAttrs l (argsToAttrSlice args).

Definition NewLoggerWithWriter (conf : LogConf) (name : string) (w : writer) s : option (Logger V * LogState V) :=
  let console := bool_decide (env_type conf = EnvTypeLocal) || bool_decide (env_type conf = EnvTypeTest) in
  let logger := MkLogger name (length (cells s)) console [] w 0 in
  let s := MkLogState (cells s ++ [0]) (written s) (loggersByPath s) in
  let s := SetLevel logger (log_level conf) s in
  logger ← WithAttrs logger [if console then ("logger.name", VString name) else ("dd.version", VString SemVer)];
  Some (logger, s).
Definition NewLogger (conf : LogConf) (name : string) s : option (Logger V * LogState V) :=
  NewLoggerWithWriter conf name Stdout s.

(** A handler is enabled for levels from its own on. *)
Definition Enabled l (level : Z) s : bool := bool_decide (Level l s <= level).

(** [runtime.Callers] of one position: [skip] counts from its own frame. *)
Definition Callers (skip : nat) stack : frame := default no_frame (stack !! skip).

(** What a handler writes before the attributes. *)
Definition builtin_fields now (level : Z) (pc : frame) (msg : string) : list (attr V) :=
  [("time", VOther now); ("level", VLevel level); ("source", VSource (Function pc) (Line pc) (File pc)); ("msg", VString msg)].

(** [stack] are the frames from the caller's on; [None]: the handler panics. *)
Definition logAttrs l now (level : Z) (skipCallers : nat) (msg : string) (attrs : list (attr V)) stack s : option (LogState V) :=
  if negb (Enabled l level s) then Some s
  else
    let pc := Callers (SkipCallers l + skipCallers + 1) (own "runtime.Callers" :: own "logAttrs" :: stack) in
    fields ← handler_attrs (l_console l) (l_name l) (builtin_fields now level pc msg);
    attrs ← handler_attrs (l_console l) (l_name l) attrs;
    Some (MkLogState (cells s) (written s ++ [MkRec (l_writer l) (fields ++ l_attrs l ++ attrs)]) (loggersByPath s)).
Definition log l now (level : Z) (msg : string) (args : list (value V)) stack s : option (LogState V) :=
  logAttrs l now level 3 msg (argsToAttrSlice args) (own "log" :: stack) s.
Definition LogAttrs l now (level : Z) (msg : string) (attrs : list (attr V)) stack s : option (LogState V) :=
  logAttrs l now level 2 msg attrs (own "LogAttrs" :: stack) s.
Definition Log l now (level : Z) (msg : string) (args : list (value V)) stack s : option (LogState V) :=
  log l now level msg args (own "Log" :: stack) s.

Definition Trace l now (msg : string) (args : list (value V)) stack s : option (LogState V) :=
  if negb (Enabled l LogLevelTrace s) then Some s else log l now LogLevelTrace msg args (own "Trace" :: stack) s.
Definition Debug l now (msg : string) (args : list (value V)) stack s : option (LogState V) :=
  if negb (Enabled l LogLevelDebug s) then Some s else log l now LogLevelDebug msg args (own "Debug" :: stack) s.
Definition Info l now (msg : string) (args : list (value V)) stack s : option (LogState V) :=
  if negb (Enabled l LogLevelInfo s) then Some s else log l now LogLevelInfo msg args (own "Info" :: stack) s.
Definition Warn l now (msg : string) (args : list (value V)) stack s : option (LogState V) :=
  if negb (Enabled l LogLevelWarn s) then Some s else log l now LogLevelWarn msg args (own "Warn" :: stack) s.
Definition Error l now (msg : string) (args : list (value V)) stack s : option (LogState V) :=
  if negb (Enabled l LogLevelError s) then Some s else log l now LogLevelError msg args (own "Error" :: stack) s.

(** The formatted ones; [msg] is what [fmt.Sprintf] gave. *)
Definition Tracef l now (msg : string) stack s : option (LogState V) :=
  if negb (Enabled l LogLevelTrace s) then Some s else log l now LogLevelTrace msg [] (own "Tracef" :: stack) s.
Definition Debugf l now (msg : string) stack s : option (LogState V) :=
  if negb (Enabled l LogLevelDebug s) then Some s else log l now LogLevelDebug msg [] (own "Debugf" :: stack) s.
Definition Infof l now (msg : string) stack s : option (LogState V) :=
  if negb (Enabled l LogLevelInfo s) then Some s else log l now LogLevelInfo msg [] (own "Infof" :: stack) s.
Definition Warnf l now (msg : string) stack s : option (LogState V) :=
  if negb (Enabled l LogLevelWarn s) then Some s else log l now LogLevelWarn msg [] (own "Warnf" :: stack) s.
Definition Errorf l now (msg : string) stack s : option (LogState V) :=
  if negb (Enabled l LogLevelError s) then Some s else log l now LogLevelError msg [] (own "Errorf" :: stack) s.
(** [msg] is the text of the error, [err] what slog makes of it. *)
Definition ErrorE l now (msg : string) (err : value V) stack s : option (LogState V) :=
  if negb (Enabled l LogLevelError s) then Some s
  else log l now LogLevelError msg [VAttr "error" err] (own "ErrorE" :: stack) s.

(** ** The factory

    [own_writer]: the writer that it was made with, if any. *)
Record LoggerFactory := MkLoggerFactory { coreConfig : LogConf; own_writer : option nat }.

(** [levels] in the order in which Go iterates over the configured ones. *)
Definition NewLoggerFactory (conf : LogConf) (levels : list (string * Z)) : LoggerFactory :=
  MkLoggerFactory (MkLogConf (env_type conf) (log_level conf) (normalized levels) (log_writer conf)) None.
Definition NewLoggerFactoryWithWriter (conf : LogConf) (levels : list (string * Z)) (w : nat) : LoggerFactory :=
  MkLoggerFactory (coreConfig (NewLoggerFactory conf levels)) (Some w).

(** [newLogger]'s writer; [None]: it panics. *)
Definition newLogger_writer (lf : LoggerFactory) : option writer :=
  match own_writer lf with
  | Some w => Some (Custom w)
  | None =>
      let w := log_writer (coreConfig lf) in
      if bool_decide (w = "") || bool_decide (w = "stdout") then Some Stdout
      else if bool_decide (w = "stderr") then Some Stderr
      else if bool_decide (w = "buffer") then Some Buffer
      else None
  end.

(** [None]: it panics, or the loop has not ended, which [level_of_path] excludes. *)
Definition newLogger (lf : LoggerFactory) (pth : string) s : option (Logger V * LogState V) :=
  w ← newLogger_writer lf;
  '(logger, s) ← NewLoggerWithWriter (coreConfig lf) pth w s;
  level ← level_loop (S (String.length pth)) (log_levels (coreConfig lf)) pth (Some (String.length pth));
  Some (logger, match level with Some level => SetLevel logger level s | None => s end).

(** [attrs]: those of the context. [LoadOrStoreFunc] runs as one step here; SyncMap has
    its steps. *)
Definition GetLoggerFromCtxForPath (lf : LoggerFactory) (attrs : list (attr V)) (pth : string) s : option (Logger V * LogState V) :=
  '(logger, s) ← match loggersByPath s !! pth with
    | Some logger => Some (logger, s)
    | None =>
        '(logger, s) ← newLogger lf pth s;
        Some (logger, MkLogState (cells s) (written s) (<[pth := logger]> (loggersByPath s)))
    end;
  if bool_decide (attrs <> []) then logger ← WithAttrs logger attrs; Some (logger, s) else Some (logger, s).

Definition GetLoggerForPath (lf : LoggerFactory) (pth : string) s := GetLoggerFromCtxForPath lf [] pth s.
Definition GetRootLogger (lf : LoggerFactory) s := GetLoggerForPath lf "root" s.
Definition GetLogger (lf : LoggerFactory) (frames : list string) s := GetLoggerFromCtxForPath lf [] (findCallerPath frames) s.
Definition GetLoggerFromCtx (lf : LoggerFactory) (attrs : list (attr V)) (frames : list string) s :=
  GetLoggerFromCtxForPath lf attrs (findCallerPath frames) s.
Definition GetLoggerFromCtxForType (lf : LoggerFactory) (attrs : list (attr V)) (forType : option rtype) s :=
  GetLoggerFromCtxForPath lf attrs (pathForType forType) s.
Definition GetLoggerForType (lf : LoggerFactory) (forType : option rtype) s := GetLoggerFromCtxForType lf [] forType s.
End loggers.

(** ** Attributes of contexts

    A slice is an array, with its capacity, and a length; contexts made from one another
    hold slices that may share an array. *)
Section contexts.
Context {A : Type} (zero : A) (grow : nat -> nat -> nat).  (** the capacity of a new array *)
#[local] Notation Arrays := (list (list A)).
Record Slice := MkSlice { arr : nat; len : nat }.
Implicit Types (sl : Slice) (st : Arrays).

Definition elems sl st : list A := take (len sl) (default [] (st !! arr sl)).

(** Go's [append]. *)
Definition append sl (xs : list A) st : Slice * Arrays :=
  let a := default [] (st !! arr sl) in
  let n := (len sl + length xs)%nat in
  if bool_decide (n <= length a)%nat then
    (MkSlice (arr sl) n, <[arr sl := take (len sl) a ++ xs ++ drop n a]> st)
  else
    let room := (Nat.max n (grow (length a) n) - n)%nat in
    (MkSlice (length st) n, st ++ [take (len sl) a ++ xs ++ replicate room zero]).

(** The slice under the key of the package; [None]: the key is not there. *)
Definition GetLoggerAttrsFromCtx (ctx : option Slice) st : list A :=
  match ctx with Some sl => elems sl st | None => [] end.
Definition CtxWithLoggerAttrs (attrs : Slice) : option Slice := Some attrs.
Definition CtxAppendLoggerAttrs (ctx : option Slice) (attrs : Slice) st : option Slice * Arrays :=
  match ctx with
  | Some oldAttrs => let r := append oldAttrs (elems attrs st) st in (Some r.1, r.2)
  | None => (Some attrs, st)
  end.

Definition valid sl st : Prop := exists a, st !! arr sl = Some a /\ (len sl <= length a)%nat.

Lemma append_spec sl xs st : valid sl st ->
  let r := append sl xs st in
  valid r.1 r.2 /\ elems r.1 r.2 = elems sl st ++ xs /\ elems sl r.2 = elems sl st /\ valid sl r.2 /\
  (forall i a, st !! i = Some a -> i <> arr sl -> r.2 !! i = Some a) /\
  (if bool_decide (len sl + length xs <= length (default [] (st !! arr sl)))%nat then arr r.1 = arr sl else r.2 !! arr sl = st !! arr sl).
Proof using Type.
  intros (a & Ha & Hlen). assert (arr sl < length st)%nat as Hlt by (by eapply lookup_lt_Some).
  unfold append, elems. rewrite Ha. cbn [default from_option id]. case_bool_decide as Hc; cbn [fst snd arr len].
  - rewrite !list_lookup_insert_eq by done. cbn [default from_option id].
    split_and!.
    + eexists. cbn [arr len]. rewrite list_lookup_insert_eq by done. split; [done|]. rewrite !length_app, length_take, length_drop. lia.
    + rewrite app_assoc, take_app_le by (rewrite length_app, length_take; lia).
      apply take_ge. rewrite length_app, length_take. lia.
    + rewrite take_app_le by (rewrite length_take; lia). by rewrite take_take, Nat.min_id.
    + eexists. rewrite list_lookup_insert_eq by done. split; [done|]. rewrite !length_app, length_take, length_drop. lia.
    + intros i b Hi Hne. by rewrite list_lookup_insert_ne.
    + done.
  - split_and!.
    + eexists. cbn [arr len]. rewrite lookup_app_r, Nat.sub_diag by done. split; [done|].
      rewrite !length_app, length_take, length_replicate. lia.
    + rewrite lookup_app_r, Nat.sub_diag by done. cbn [lookup list_lookup default from_option id].
      rewrite app_assoc, take_app_le by (rewrite length_app, length_take; lia).
      apply take_ge. rewrite length_app, length_take. lia.
    + rewrite lookup_app_l by done. by rewrite Ha.
    + eexists. rewrite lookup_app_l by done. by split.
    + intros i b Hi Hne. rewrite lookup_app_l; [done|by eapply lookup_lt_Some].
    + by rewrite lookup_app_l.
Qed.
End contexts.

(** Attributes of contexts: a context made by [CtxAppendLoggerAttrs] has the attributes of
    its parent and the new ones, and the parent keeps its own. But of two contexts made
    from one parent, with an attribute each, the first has the attribute of the
    second when the parent's array had room. *)
Theorem context_attributes {A} (zero : A) grow (p sx sy : Slice) (st : list (list A)) (x y : A) :
  valid p st -> elems sx st = [x] ->
  let r1 := CtxAppendLoggerAttrs zero grow (Some p) sx st in
  elems sy r1.2 = [y] ->
  let r2 := CtxAppendLoggerAttrs zero grow (Some p) sy r1.2 in
  let attrs := elems p st in
  GetLoggerAttrsFromCtx r1.1 r1.2 = attrs ++ [x] /\ GetLoggerAttrsFromCtx (Some p) r1.2 = attrs /\
  GetLoggerAttrsFromCtx r2.1 r2.2 = attrs ++ [y] /\
  GetLoggerAttrsFromCtx r1.1 r2.2 =
    attrs ++ [if bool_decide (len p < length (default [] (st !! arr p)))%nat then y else x].
Proof.
  cbv zeta. intros Hp Hx. cbn [CtxAppendLoggerAttrs fst snd GetLoggerAttrsFromCtx]. rewrite Hx. intros Hy. rewrite Hy.
  pose proof (append_spec zero grow p [x] st Hp) as (Hv1 & He1 & Hk1 & Hvp1 & Ho1 & Hs1). cbv zeta in *.
  pose proof (append_spec zero grow p [y] (append zero grow p [x] st).2 Hvp1) as (Hv2 & He2 & Hk2 & _ & Ho2 & Hs2). cbv zeta in *.
  split; [exact He1|]. split; [exact Hk1|]. split; [by rewrite He2, Hk1|].
  cbn [length] in Hs1, Hs2. destruct Hp as (a & Ha & Hlen). rewrite Ha in *. cbn [default from_option id] in *.
  destruct (decide (len p < length a)%nat) as [Hroom|Hfull].
  - rewrite (bool_decide_eq_true_2 _ Hroom). rewrite bool_decide_eq_true_2 in Hs1 by lia.
    assert (forall q xs st', len (append zero grow q xs st').1 = (len q + length xs)%nat) as Hlen'.
    { clear. intros q xs st'. unfold append. case_bool_decide; reflexivity. }
    assert (length (default [] ((append zero grow p [x] st).2 !! arr p)) = length a) as Hla.
    { unfold append. rewrite Ha. cbn [default from_option id length]. rewrite bool_decide_eq_true_2 by lia. cbn [snd].
      rewrite list_lookup_insert_eq by (by eapply lookup_lt_Some). cbn [default from_option id].
      rewrite !length_app, length_take, length_drop. cbn [length]. lia. }
    rewrite bool_decide_eq_true_2 in Hs2 by (rewrite Hla; lia).
    rewrite <- Hk1, <- He2. unfold elems at 1 2. by rewrite Hs1, Hs2, !Hlen'.
  - rewrite bool_decide_eq_false_2 by done. rewrite bool_decide_eq_false_2 in Hs1 by lia.
    assert (arr (append zero grow p [x] st).1 = length st) as Harr.
    { unfold append. rewrite Ha. cbn [default from_option id length]. by rewrite bool_decide_eq_false_2 by lia. }
    destruct Hv1 as (b & Hb & _). rewrite <- He1. unfold elems. rewrite Hb.
    rewrite (Ho2 _ _ Hb); [done|]. rewrite Harr. apply lookup_lt_Some in Ha. lia.
Qed.

(** ** Which level a path gets *)

(** The byte at [i] is a separator. *)
Definition sep_at (s : string) (i : nat) : bool := match String.get i s with Some c => is_sep c | None => false end.

(** The prefixes of a path that end before a separator, longest first, without the empty one. *)
Definition parents (s : string) : list string :=
  (fun i => take_bytes i s) <$> filter (fun i => sep_at s i = true) (rev (seq 1 (String.length s - 1))).

Lemma get_take_bytes i j s : String.get j (take_bytes i s) = if decide (j < i)%nat then String.get j s else None.
Proof.
  revert i j. induction s as [|c s IH]; intros [|i] [|j]; cbn; try done; [by case_decide|].
  rewrite IH. repeat case_decide; (done || lia).
Qed.

Lemma take_bytes_take i j s : (i <= j)%nat -> take_bytes i (take_bytes j s) = take_bytes i s.
Proof. revert i j. induction s as [|c s IH]; intros [|i] [|j]; cbn; intros; try done; [lia|]. by rewrite IH by lia. Qed.

Lemma length_take_bytes i s : (i <= String.length s)%nat -> String.length (take_bytes i s) = i.
Proof. revert i. induction s as [|c s IH]; intros [|i]; cbn; intros; try done; [lia|]. by rewrite IH by lia. Qed.

Lemma sep_at_length s i : sep_at s i = true -> (i < String.length s)%nat.
Proof.
  revert i. unfold sep_at. induction s as [|c s IH]; intros i; [by destruct i|]. destruct i as [|i]; cbn; [lia|].
  intros Hi. specialize (IH i Hi). lia.
Qed.

Lemma LastIndexAny_spec s :
  match LastIndexAny s with
  | Some i => sep_at s i = true /\ forall k, (i < k)%nat -> sep_at s k = false
  | None => forall k, sep_at s k = false
  end.
Proof.
  induction s as [|c s IH]; [by intros []|]. cbn [LastIndexAny]. unfold sep_at in *.
  destruct (LastIndexAny s) as [i|].
  - destruct IH as [Hi Hk]. split; [exact Hi|]. intros [|k] Hlt; [lia|]. cbn. apply Hk. lia.
  - destruct (is_sep c) eqn:Ec.
    + split; [exact Ec|]. intros [|k] Hlt; [lia|]. apply IH.
    + intros [|k]; [exact Ec|apply IH].
Qed.

Lemma filter_rev_seq_none (P : nat -> Prop) `{!forall x, Decision (P x)} a n :
  (forall k, (a <= k)%nat -> ~ P k) -> filter P (rev (seq a n)) = [].
Proof.
  intros Hn. revert a Hn. induction n as [|n IH]; intros a Hn; [done|]. cbn. rewrite filter_app, IH by (intros; apply Hn; lia).
  rewrite filter_cons, decide_False by (apply Hn; lia). done.
Qed.

(** The longest parent comes first, then its own. *)
Lemma parents_step s :
  parents s =
    match LastIndexAny s with
    | Some (S i) => let q := take_bytes (S i) s in q :: parents q
    | _ => []
    end.
Proof.
  pose proof (LastIndexAny_spec s) as Hs. unfold parents. destruct (LastIndexAny s) as [[|i]|].
  - rewrite filter_rev_seq_none; [done|]. intros k Hk. destruct Hs as [_ Hs]. rewrite Hs by lia. done.
  - destruct Hs as [Hi Hk]. pose proof (sep_at_length _ _ Hi) as Hlen. cbv zeta.
    rewrite length_take_bytes by lia.
    replace (String.length s - 1)%nat with (i + S (String.length s - 1 - S i))%nat by lia.
    rewrite seq_app, rev_app_distr, filter_app. cbn [seq rev]. rewrite filter_app, filter_rev_seq_none.
    2:{ intros k Hle. rewrite Hk by lia. done. }
    rewrite filter_cons, decide_True by done. cbn [app]. rewrite filter_nil. cbn [fmap list_fmap app].
    f_equal. replace (S i - 1)%nat with i by lia.
    assert (forall l, Forall (fun k => (k <= i)%nat) l ->
      (fun j => take_bytes j s) <$> filter (fun k => sep_at s k = true) l =
      (fun j => take_bytes j (take_bytes (S i) s)) <$> filter (fun k => sep_at (take_bytes (S i) s) k = true) l) as Hf.
    { induction l as [|k l IH]; intros Hl; [done|]. apply Forall_cons in Hl as [Hki Hl]. rewrite !filter_cons.
      assert (sep_at (take_bytes (S i) s) k = sep_at s k) as ->.
      { unfold sep_at. rewrite get_take_bytes, decide_True by lia. done. }
      case_decide; [rewrite !fmap_cons, take_bytes_take by lia; f_equal|]; by apply IH. }
    apply Hf, Forall_forall. intros k Hin%list_elem_of_In%in_rev%in_seq. lia.
  - rewrite filter_rev_seq_none; [done|]. intros k _. by rewrite Hs.
Qed.

Lemma level_loop_spec levels fuel pth : (0 < fuel)%nat -> (String.length pth <= fuel)%nat ->
  level_loop fuel levels pth (LastIndexAny pth) = Some (head (omap (fun q => levels !! q) (parents pth))).
Proof.
  revert pth. induction fuel as [|fuel IH]; intros pth H0 Hf; [lia|]. rewrite parents_step. cbn [level_loop].
  pose proof (LastIndexAny_spec pth) as Hs. destruct (LastIndexAny pth) as [[|i]|]; [done| |done].
  destruct Hs as [Hi _]. pose proof (sep_at_length _ _ Hi) as Hlen. cbv zeta. cbn [omap list_omap].
  destruct (levels !! take_bytes (S i) pth) eqn:El; [done|].
  apply IH; [lia|]. rewrite length_take_bytes; lia.
Qed.

Lemma level_loop_ends levels pth :
  level_loop (S (String.length pth)) levels pth (Some (String.length pth)) =
    Some (head (omap (fun q => levels !! q) ((if bool_decide (pth = "") then [] else [pth]) ++ parents pth))).
Proof.
  cbn [level_loop]. destruct pth as [|c s]; [done|]. cbn [String.length].
  set (pth := String c s). change (S (String.length s)) with (String.length pth). rewrite take_bytes_length.
  rewrite bool_decide_eq_false_2 by done. cbn [app omap list_omap].
  destruct (levels !! pth) as [v|] eqn:El; [done|]. rewrite level_loop_spec; [done|cbn; lia|lia].
Qed.

(** ** What calls write *)
Section calls.
Context {V : Type} (other_text : value V -> string) (own : string -> frame) (SemVer : string).
Implicit Types (l : Logger V) (s : LogState V) (stack : list frame) (now : V).

(** The attributes of a position and a level, by the handler of the logger. *)
Definition call_fields l now (level : Z) (msg : string) (caller : frame) : list (attr V) :=
  if l_console l then builtin_fields now level caller msg
  else
    [("timestamp", VOther now); ("level", if bool_decide (level = LogLevelTrace) then VString "TRACE" else VLevel level);
     ("logger", VGroup (logger_group (l_name l) (Function caller) (Line caller) (File caller))); ("msg", VString msg)].

(** One record, when the level is enabled. *)
Definition emits l now (level : Z) (msg : string) (attrs : list (attr V)) (caller : frame) s : option (LogState V) :=
  if bool_decide (Level l s <= level) then
    attrs ← handler_attrs other_text (l_console l) (l_name l) attrs;
    Some (MkLogState (cells s) (written s ++ [MkRec (l_writer l) (call_fields l now level msg caller ++ l_attrs l ++ attrs)])
      (loggersByPath s))
  else Some s.

Lemma signed_text_head base val : exists t, signed_text base val = base +:+ t.
Proof using Type. unfold signed_text. case_bool_decide; [exists ""; by rewrite app_empty_r|by eexists]. Qed.

Lemma trace_text level : slog_level_text level = TraceAsSlogStr <-> level = LogLevelTrace.
Proof using Type.
  split; [|by intros ->]. unfold slog_level_text.
  case_bool_decide as H1; [|repeat case_bool_decide;
    match goal with |- signed_text ?b ?v = _ -> _ => destruct (signed_text_head b v) as [t ->]; rewrite !string_app_String; let Hd := fresh in intros Hd; discriminate Hd end].
  unfold signed_text, TraceAsSlogStr. case_bool_decide; [done|]. case_bool_decide; [done|].
  change "DEBUG-4" with ("DEBUG" +:+ ("" +:+ pretty (-4))). intros Heq. apply app_inj_l, app_inj_l in Heq.
  assert (level - LogLevelDebug = -4) as Hd by (by apply (inj pretty)). unfold LogLevelDebug, LogLevelTrace in *. lia.
Qed.

Lemma builtin_handled l now level caller msg :
  handler_attrs other_text (l_console l) (l_name l) (builtin_fields now level caller msg) =
  Some (call_fields l now level msg caller).
Proof using Type.
  unfold handler_attrs, call_fields. destruct (l_console l); [done|]. unfold builtin_fields. cbn [mapM].
  cbn [json_attr fst snd]. unfold ReplaceAttr at 2 3 4. cbn [fst snd value_text].
  assert (bool_decide (slog_level_text level = TraceAsSlogStr) = bool_decide (level = LogLevelTrace)) as Ht.
  { apply bool_decide_ext, trace_text. }
  unfold ReplaceAttr. cbn [fst snd value_text]. rewrite Ht. clear Ht. destruct (bool_decide (level = LogLevelTrace)); reflexivity.
Qed.

(** [k] frames of the package are between the call and [logAttrs]. *)
Lemma logAttrs_emits l now level k msg attrs inner stack s : length inner = k -> (0 < k)%nat ->
  logAttrs other_text own l now level (S k) msg attrs (inner ++ stack) s =
  emits l now level msg attrs (Callers (SkipCallers l) stack) s.
Proof using Type.
  intros Hk H0. unfold logAttrs, emits, Enabled. case_bool_decide; [|done]. cbn [negb].
  assert (forall a b, Callers (SkipCallers l + S k + 1) (a :: b :: inner ++ stack) = Callers (SkipCallers l) stack) as ->.
  { intros a b. unfold Callers. replace (SkipCallers l + S k + 1)%nat with (S (S (k + SkipCallers l))) by lia.
    change ((a :: b :: inner ++ stack) !! S (S (k + SkipCallers l))) with ((inner ++ stack) !! (k + SkipCallers l)%nat).
    rewrite lookup_app_r by lia. do 2 f_equal. lia. }
  rewrite builtin_handled. done.
Qed.

Lemma log_emits l now level msg args f stack s :
  log other_text own l now level msg args (own f :: stack) s =
  emits l now level msg (argsToAttrSlice args) (Callers (SkipCallers l) stack) s.
Proof using Type. exact (logAttrs_emits l now level 2 msg _ [own "log"; own f] stack s eq_refl ltac:(lia)). Qed.

Lemma gated_emits l now level msg args f stack s :
  (if negb (Enabled l level s) then Some s else log other_text own l now level msg args (own f :: stack) s) =
  emits l now level msg (argsToAttrSlice args) (Callers (SkipCallers l) stack) s.
Proof using Type. rewrite log_emits. unfold emits, Enabled. by case_bool_decide. Qed.

(** Which attributes make the JSON handler panic. *)
Definition bad_source (a : attr V) : Prop := a.1 = "source" /\ match a.2 with VSource _ _ _ => False | _ => True end.
Definition flat (a : attr V) : Prop := match a.2 with VGroup _ => False | _ => True end.

Lemma json_attr_panics name a : flat a -> json_attr other_text name a.1 a.2 = None <-> bad_source a.
Proof using Type.
  clear own SemVer. destruct a as [k v]. unfold flat, bad_source. cbn [fst snd]. intros Hf.
  assert (json_attr other_text name k v = ReplaceAttr other_text name (k, v)) as -> by by destruct v.
  unfold ReplaceAttr. cbn [fst snd]. case_bool_decide; [subst; split; [done|by intros []]|].
  destruct (bool_decide (k = "level") && _) eqn:El.
  { apply andb_true_iff in El as [->%bool_decide_eq_true _]. split; [done|by intros []]. }
  clear El. case_bool_decide; [|split; [done|by intros []]]. destruct v; naive_solver.
Qed.

Lemma handler_attrs_panics name attrs : Forall flat attrs ->
  handler_attrs other_text false name attrs = None <-> Exists bad_source attrs.
Proof using Type.
  intros Hf. unfold handler_attrs. rewrite mapM_None, !Exists_exists. split; intros (a & Hin & Ha); exists a; (split; [done|]);
    apply (json_attr_panics name); try done; by eapply Forall_forall.
Qed.
End calls.

(** A new logger: its level in a new cell, its name or the version as its attribute. *)
Lemma newLogger_spec {V} (other_text : value V -> string) SemVer lf w pth (s : LogState V) :
  newLogger_writer lf = Some w ->
  let conf := coreConfig lf in
  let prefixes := (if bool_decide (pth = "") then [] else [pth]) ++ parents pth in
  exists l,
    newLogger other_text SemVer lf pth s =
      Some (l, MkLogState (cells s ++ [default (log_level conf) (head (omap (fun q => log_levels conf !! q) prefixes))])
                 (written s) (loggersByPath s)) /\
    l_name l = pth /\ l_writer l = w /\ l_cell l = length (cells s).
Proof.
  cbv zeta. intros Hw. unfold newLogger, NewLoggerWithWriter. rewrite Hw. cbn [mbind option_bind].
  set (console := bool_decide _ || bool_decide _). unfold WithAttrs, handler_attrs.
  rewrite level_loop_ends. set (found := hd_error _).
  assert (ReplaceAttr other_text pth ("dd.version", VString SemVer) = Some ("dd.version", VString SemVer)) as Hv by reflexivity.
  destruct console; cbn -[found]; rewrite ?Hv; (eexists; split; [destruct found; cbn; unfold SetLevel; cbn; repeat rewrite insert_middle, app_nil_r; reflexivity|done]).
Qed.

(** C34: the level of a logger: a new logger for a path has the level configured for the
    path, else for its longest prefix before a "/" or "." that has one, else the
    level of the configuration; other loggers keep theirs; and who asks for the path again
    gets the same logger, with the level that has been set since and the attributes of the
    context. *)
Theorem level_of_path {V} (other_text : value V -> string) (SemVer : string) (lf : LoggerFactory) (w : writer)
    (pth : string) (s : LogState V) :
  loggersByPath s !! pth = None -> newLogger_writer lf = Some w ->
  let conf := coreConfig lf in
  let prefixes := (if bool_decide (pth = "") then [] else [pth]) ++ parents pth in
  exists l s',
    GetLoggerForPath other_text SemVer lf pth s = Some (l, s') /\ l_name l = pth /\ l_writer l = w /\
    Level l s' = default (log_level conf) (head (omap (fun q => log_levels conf !! q) prefixes)) /\
    (forall l0, (l_cell l0 < length (cells s))%nat -> Level l0 s' = Level l0 s) /\
    (forall level attrs l2 s2,
      GetLoggerFromCtxForPath other_text SemVer lf attrs pth (SetLevel l level s') = Some (l2, s2) ->
      Level l2 s2 = level /\
      exists more, handler_attrs other_text (l_console l) pth attrs = Some more /\ l_attrs l2 = l_attrs l ++ more).
Proof.
  cbv zeta. intros Hnew Hw. destruct (newLogger_spec other_text SemVer lf w pth s Hw) as (l & Hl & Hn & Hwr & Hc).
  set (found := hd_error _) in *.
  unfold GetLoggerForPath, GetLoggerFromCtxForPath at 1. rewrite Hnew, Hl. cbn [mbind option_bind cells written loggersByPath].
  rewrite bool_decide_eq_false_2 by (intros H; by apply H).
  eexists l, _. split; [reflexivity|]. split; [done|]. split; [done|]. split; [|split].
  - unfold Level. cbn [cells]. by rewrite Hc, lookup_app_r, Nat.sub_diag by lia.
  - intros l0 Hl0. unfold Level. cbn [cells]. by rewrite lookup_app_l by lia.
  - intros level attrs l2 s2. unfold GetLoggerFromCtxForPath. cbn [loggersByPath SetLevel]. rewrite lookup_insert_eq.
    cbn [mbind option_bind].
    assert (forall (l3 : Logger V) (s3 : LogState V), l_cell l3 = l_cell l -> cells s3 = <[l_cell l := level]>
      (cells s ++ [default (log_level (coreConfig lf)) found]) ->
      Level l3 s3 = level) as Hlv.
    { intros l3 s3 Hc3 Hs3. unfold Level. rewrite Hc3, Hs3, list_lookup_insert_eq; [done|]. rewrite length_app, Hc. cbn. lia. }
    case_bool_decide as Ha; cbn [mbind option_bind].
    + destruct (WithAttrs _ _ _) as [l3|] eqn:E3; [|done]. cbn [mbind option_bind]. intros [= <- <-]. unfold WithAttrs in E3.
      rewrite Hn in E3. destruct (handler_attrs _ _ _ _) as [more|] eqn:Em; [|done]. injection E3 as <-. split; [by apply Hlv|by eexists].
    + intros [= <- <-]. split; [by apply Hlv|]. assert (attrs = []) as -> by (destruct attrs; [done|by destruct Ha]).
      exists []. split; [by destruct (l_console l)|by rewrite app_nil_r].
Qed.

(** the log calls: each writes one record, exactly when its level is not below the
    logger's, with the position of its own caller (or of the [SkipCallers]th above) and
    the logger's attributes before its own. A logger of the JSON handler panics exactly
    when an attribute has the key "source". *)
Theorem log_calls {V} (other_text : value V -> string) (own : string -> frame) (l : Logger V) (s : LogState V) (now : V)
    (msg : string) (args : list (value V)) (attrs : list (attr V)) (stack : list frame) (level : Z) (err : value V) :
  let caller := Callers (SkipCallers l) stack in
  let as_args := emits other_text l now in
  (Trace other_text own l now msg args stack s = as_args LogLevelTrace msg (argsToAttrSlice args) caller s /\
   Debug other_text own l now msg args stack s = as_args LogLevelDebug msg (argsToAttrSlice args) caller s /\
   Info other_text own l now msg args stack s = as_args LogLevelInfo msg (argsToAttrSlice args) caller s /\
   Warn other_text own l now msg args stack s = as_args LogLevelWarn msg (argsToAttrSlice args) caller s /\
   Error other_text own l now msg args stack s = as_args LogLevelError msg (argsToAttrSlice args) caller s /\
   Log other_text own l now level msg args stack s = as_args level msg (argsToAttrSlice args) caller s /\
   LogAttrs other_text own l now level msg attrs stack s = as_args level msg attrs caller s) /\
  (Tracef other_text own l now msg stack s = as_args LogLevelTrace msg [] caller s /\
   Debugf other_text own l now msg stack s = as_args LogLevelDebug msg [] caller s /\
   Infof other_text own l now msg stack s = as_args LogLevelInfo msg [] caller s /\
   Warnf other_text own l now msg stack s = as_args LogLevelWarn msg [] caller s /\
   Errorf other_text own l now msg stack s = as_args LogLevelError msg [] caller s /\
   ErrorE other_text own l now msg err stack s = as_args LogLevelError msg [("error", err)] caller s) /\
  (Forall flat attrs ->
   LogAttrs other_text own l now level msg attrs stack s = None <->
   Level l s <= level /\ l_console l = false /\ Exists bad_source attrs).
Proof.
  cbv zeta.
  assert (LogAttrs other_text own l now level msg attrs stack s =
    emits other_text l now level msg attrs (Callers (SkipCallers l) stack) s) as Hla.
  { exact (logAttrs_emits other_text own l now level 1 msg attrs [own "LogAttrs"] stack s eq_refl ltac:(lia)). }
  split; [|split].
  - unfold Trace, Debug, Info, Warn, Error, Log. rewrite !gated_emits, log_emits. done.
  - unfold Tracef, Debugf, Infof, Warnf, Errorf, ErrorE. by rewrite !gated_emits.
  - intros Hf. rewrite Hla. unfold emits. case_bool_decide as Hlv; [|naive_solver].
    destruct (l_console l) eqn:Ec; [cbn; naive_solver|].
    rewrite <- (handler_attrs_panics other_text (l_name l) attrs Hf).
    destruct (handler_attrs _ _ _ _); cbn; naive_solver.
Qed.

(** ** Arguments *)
Lemma args_loop_total {V} (args : list (value V)) turns : (length args <= turns)%nat ->
  exists attrs, args_loop turns args = Some attrs /\ (length attrs <= length args)%nat.
Proof.
  revert args. induction turns as [|turns IH]; intros [|x args] Hf; cbn in Hf; try lia; [by exists []..|].
  cbn [args_loop].
  assert (length (argsToAttr x args).2 <= length args)%nat as Hlen by (destruct x, args; cbn; lia).
  destruct (IH (argsToAttr x args).2) as (attrs & -> & Ha); [lia|]. eexists. split; [reflexivity|]. cbn. lia.
Qed.

(** More turns change nothing. *)
Lemma args_loop_mono {V} (args : list (value V)) turns turns' attrs :
  args_loop turns args = Some attrs -> (turns <= turns')%nat -> args_loop turns' args = Some attrs.
Proof.
  revert turns' args attrs. induction turns as [|turns IH]; intros [|turns'] [|x args] attrs; cbn; try (done || lia).
  intros H Hle. destruct (args_loop turns _) as [more|] eqn:E; [|done]. by rewrite (IH turns' _ _ E) by lia.
Qed.

(** The equations of the loop. *)
Lemma argsToAttrSlice_cons {V} (x : value V) rest :
  argsToAttrSlice (x :: rest) = (argsToAttr x rest).1 :: argsToAttrSlice (argsToAttr x rest).2.
Proof.
  unfold argsToAttrSlice. cbn [length args_loop].
  assert (length (argsToAttr x rest).2 <= length rest)%nat as Hlen by (destruct x, rest; cbn; lia).
  destruct (args_loop_total (argsToAttr x rest).2 (length (argsToAttr x rest).2)) as (attrs & Ha & _); [done|].
  by rewrite Ha, (args_loop_mono _ _ _ _ Ha Hlen).
Qed.

(** ** Contexts, for the witness: arrays double *)
Definition doubling (cap need : nat) : nat := Nat.max need (2 * cap).
(** Three attributes in an array for four; two other arrays hold the new ones. *)
Definition three_of_four : list (list string) := [["a"; "b"; "c"; ""]; ["x"]; ["y"]].

Lemma context_attributes_witness :
  let r1 := CtxAppendLoggerAttrs "" doubling (Some (MkSlice 0 3)) (MkSlice 1 1) three_of_four in
  let r2 := CtxAppendLoggerAttrs "" doubling (Some (MkSlice 0 3)) (MkSlice 2 1) r1.2 in
  GetLoggerAttrsFromCtx r1.1 r2.2 = ["a"; "b"; "c"; "y"].
Proof.
  cbv zeta.
  destruct (context_attributes "" doubling (MkSlice 0 3) (MkSlice 1 1) (MkSlice 2 1) three_of_four "x" "y") as (_ & _ & _ & Hs).
  - eexists. split; [reflexivity|]. cbn. lia.
  - reflexivity.
  - reflexivity.
  - rewrite Hs. reflexivity.
Defined.

(** *** A factory in production *)
Definition conf0 : LogConf := MkLogConf "prod" LogLevelInfo ∅ "".
Definition factory0 : LoggerFactory :=
  NewLoggerFactory conf0 [("github.com/acme/", LogLevelWarn); ("github.com/acme/orders", LogLevelTrace)].
Definition state0 : LogState nat := MkLogState [] [] ∅.

Lemma level_of_path_witness :
  exists l s, GetLoggerForPath (fun _ => "") "v1" factory0 "github.com/acme/orders/db.Store" state0 = Some (l, s) /\
    Level l s = LogLevelTrace.
Proof.
  destruct (level_of_path (V:=nat) (fun _ => "") "v1" factory0 Stdout "github.com/acme/orders/db.Store" state0)
    as (l & s & Hl & _ & _ & Hlv & _); [reflexivity..|].
  exists l, s. split; [exact Hl|]. rewrite Hlv. vm_compute. reflexivity.
Defined.

Lemma log_calls_witness :
  let l := MkLogger "orders" 0 false [] Stdout 0 in
  LogAttrs (fun _ => "") (fun f => MkFrame f "" 0) l 7%nat LogLevelInfo "stored" [("source", VString "db")] [] (MkLogState [0] [] ∅) = None.
Proof.
  cbv zeta.
  apply (log_calls (fun _ => "") (fun f => MkFrame f "" 0) (MkLogger "orders" 0 false [] Stdout 0) (MkLogState [0] [] ∅) 7%nat "stored"
    [] [("source", VString "db")] [] LogLevelInfo (VInt 0)).
  - by repeat constructor.
  - split; [vm_compute; discriminate|]. split; [reflexivity|]. left. by split.
Defined.

Example trace_record :
  let l := MkLogger "orders" 0 false [("dd.version", VString "v1")] Stdout 0 in
  Trace (fun _ => "") (fun f => MkFrame f "" 0) l 7%nat "hi" [VString "k"; VInt 1; VInt 2] [MkFrame "main.run" "main.go" 12] (MkLogState [-8] [] ∅) =
  Some (MkLogState [-8] [MkRec Stdout
    [("timestamp", VOther 7%nat); ("level", VString "TRACE");
     ("logger", VGroup [("name", VString "orders"); ("method_name", VString "main.run"); ("line", VInt 12); ("file", VString "main.go")]);
     ("msg", VString "hi"); ("dd.version", VString "v1"); ("k", VInt 1); ("!BADKEY", VInt 2)]] ∅).
Proof. vm_compute. reflexivity. Qed.
