(* ===== verification/Loggers.v ===== *)
(** * log: the loggers of libraries

    Models the adapters that let libraries log through the loggers of file Log:
    [di/fx_logger.go] and [di/fx_logger_factory.go] (the container's events),
    [database/logger_gorm.go] and [database/logger_goose.go], [rest/logger_gin.go].
    What a library hands over (events, SQL, errors) is data. *)

From S2P Require Import Prelude.
From S2P Require Import GoStrings.
From S2P Require Import Config.
From S2P Require Import Log.
From stdpp Require Import pretty.

Open Scope string_scope.
Open Scope list_scope.
Open Scope Z_scope.

(** ** [time.Duration.String] *)

(** [prec] digits of [u], without the zeros at the end. *)
Fixpoint frac_digits (prec : nat) (u : Z) (printing : bool) : string :=
  match prec with
  | O => ""
  | S prec =>
      let d := u mod 10 in
      let printing := printing || negb (d =? 0) in
      frac_digits prec (u / 10) printing +:+ (if printing then pretty d else "")
  end.
(** [fmtFrac]: the text and the rest of [u]. *)
Definition fmtFrac (u : Z) (prec : nat) : string * Z :=
  let digits := frac_digits prec u false in
  ((if bool_decide (digits = "") then "" else "." +:+ digits), u / 10 ^ Z.of_nat prec).

Definition micro : string := char 194 +:+ char 181.  (** U+00B5 *)
Definition Duration_unsigned (u : Z) : string :=
  if u <? 1000000000 then
    if u =? 0 then "0s"
    else
      let '(prec, unit) := if u <? 1000 then (0%nat, "ns") else if u <? 1000000 then (3%nat, micro +:+ "s") else (6%nat, "ms") in
      let '(frac, u) := fmtFrac u prec in
      pretty u +:+ frac +:+ unit
  else
    let '(frac, u) := fmtFrac u 9 in
    let seconds := pretty (u mod 60) +:+ frac +:+ "s" in
    let u := u / 60 in
    if 0 <? u then
      let minutes := pretty (u mod 60) +:+ "m" +:+ seconds in
      let u := u / 60 in
      if 0 <? u then pretty u +:+ "h" +:+ minutes else minutes
    else seconds.
Definition Duration_String (d : Z) : string :=
  if d <? 0 then "-" +:+ Duration_unsigned (- d) else Duration_unsigned d.

Example duration_texts :
  map Duration_String [0; 7; 1500; 200000000; 1000000000; 90500000000; 3600000000000; -1100000] =
  ["0s"; "7ns"; "1.5" +:+ micro +:+ "s"; "200ms"; "1s"; "1m30.5s"; "1h0m0s"; "-1.1ms"].
Proof. vm_compute. reflexivity. Qed.

(** [strings.CutSuffix], without its flag. *)
Definition CutSuffix (s suffix : string) : string := TrimSuffix s suffix.
Definition newline : string := char 10.

(** ** The events of fx

    [fxevent.Event] with the fields that are read; [UnknownEvent]: a type of a
    newer version. *)
Section events.
Context {V : Type}.

Inductive fx_event :=
| OnStartExecuting (function caller : string)
| OnStartExecuted (function caller : string) (runtime : V) (err : option V)
| OnStopExecuting (function caller : string)
| OnStopExecuted (function caller : string) (runtime : V) (err : option V)
| Supplied (ty : string) (stack modules : V) (module : string) (err : option V)
| Provided (constructor : string) (outputs : list string) (private : bool) (stack modules : V) (module : string) (err : option V)
| Replaced (outputs : list string) (stack modules : V) (module : string) (err : option V)
| Decorated (decorator : string) (outputs : list string) (stack modules : V) (module : string) (err : option V)
| BeforeRun (name kind module : string)
| Run (name kind module : string) (err : option V)
| Invoking (function module : string)
| Invoked (function module trace : string) (err : option V)
| Stopping (signal : string)
| Stopped (err : option V)
| RollingBack (startErr : V)
| RolledBack (err : option V)
| Started (err : option V)
| LoggerInitialized (constructor : string) (err : option V)
| UnknownEvent (event : V).

Context (other_text : value V -> string) (own : string -> frame).
Context (nil : V) (true_value : V).  (** [nil] and [true], as slog holds them *)
Implicit Types (l : Logger V) (s : LogState V) (stack : list frame) (now : V).

(** The empty attribute: it is in the record, and slog's handlers leave it out when they
    write the record. *)
Definition SkipAttr : value V := VAttr "" (VOther nil).
Definition maybeModuleField (name : string) : value V :=
  if bool_decide (String.length name = 0%nat) then SkipAttr else VAttr "module" (VString name).
Definition maybeBool (name : string) (b : bool) : value V :=
  if b then VAttr name (VOther true_value) else SkipAttr.

Definition skip_callers (n : nat) l : Logger V :=
  MkLogger (l_name l) (l_cell l) (l_console l) (l_attrs l) (l_writer l) (SkipCallers l + n).

(** The logger is a copy: the caller's keeps its [SkipCallers]. *)
Definition NewFxLogger l : Logger V := skip_callers 2 l.

(** [for _, x := range xs { f(x) }]; [None]: it panics. *)
Fixpoint for_each {A S} (f : A -> S -> option S) (xs : list A) (s : S) : option S :=
  match xs with [] => Some s | x :: xs => s ← f x s; for_each f xs s end.

(** [stack] are the frames from the caller of [LogEvent] on. *)
Definition LogEvent l now (event : fx_event) stack s : option (LogState V) :=
  let stack := own "LogEvent" :: stack in
  let debug msg args s := Debug other_text own l now msg args stack s in
  let info msg args s := Info other_text own l now msg args stack s in
  let warn msg args s := Warn other_text own l now msg args stack s in
  let error msg args s := Error other_text own l now msg args stack s in
  let str := VString in
  let other := VOther in
  match event with
  | OnStartExecuting function caller =>
      debug "OnStart hook executing" [str "callee"; str function; str "caller"; str caller] s
  | OnStartExecuted function caller runtime err =>
      match err with
      | Some err => error "OnStart hook failed" [str "callee"; str function; str "caller"; str caller; str "error"; other err] s
      | None => debug "OnStart hook executed" [str "callee"; str function; str "caller"; str caller; str "runtime"; other runtime] s
      end
  | OnStopExecuting function caller =>
      debug "OnStop hook executing" [str "callee"; str function; str "caller"; str caller] s
  | OnStopExecuted function caller runtime err =>
      match err with
      | Some err => error "OnStop hook failed" [str "callee"; str function; str "caller"; str caller; str "error"; other err] s
      | None => debug "OnStop hook executed" [str "callee"; str function; str "caller"; str caller; str "runtime"; other runtime] s
      end
  | Supplied ty stacktrace modules module err =>
      match err with
      | Some err =>
          error "Error encountered while applying options"
            [str "type"; str ty; str "stacktrace"; other stacktrace; str "moduletrace"; other modules;
             maybeModuleField module; str "error"; other err] s
      | None =>
          debug "Supplied"
            [str "type"; str ty; str "stacktrace"; other stacktrace; str "moduletrace"; other modules;
             maybeModuleField module] s
      end
  | Provided constructor outputs private stacktrace modules module err =>
      s ← for_each (fun rtype s =>
            debug "Provided"
              [str "constructor"; str constructor; str "stacktrace"; other stacktrace; str "moduletrace"; other modules;
               maybeModuleField module; str "type"; str rtype; maybeBool "private" private] s) outputs s;
      match err with
      | Some err =>
          error "Error encountered while applying options"
            [maybeModuleField module; str "stacktrace"; other stacktrace; str "moduletrace"; other modules;
             str "error"; other err] s
      | None => Some s
      end
  | Replaced outputs stacktrace modules module err =>
      s ← for_each (fun rtype s =>
            debug "Replaced"
              [str "stacktrace"; other stacktrace; str "moduletrace"; other modules;
               maybeModuleField module; str "type"; str rtype] s) outputs s;
      match err with
      | Some err =>
          error "Error encountered while replacing"
            [str "stacktrace"; other stacktrace; str "moduletrace"; other modules;
             maybeModuleField module; str "error"; other err] s
      | None => Some s
      end
  | Decorated decorator outputs stacktrace modules module err =>
      s ← for_each (fun rtype s =>
            debug "Decorated"
              [str "decorator"; str decorator; str "stacktrace"; other stacktrace; str "moduletrace"; other modules;
               maybeModuleField module; str "type"; str rtype] s) outputs s;
      match err with
      | Some err =>
          error "Error encountered while applying options"
            [str "stacktrace"; other stacktrace; str "moduletrace"; other modules;
             maybeModuleField module; str "error"; other err] s
      | None => Some s
      end
  | BeforeRun name kind module =>
      debug "Run" [str "name"; str name; str "kind"; str kind; maybeModuleField module] s
  | Run name kind module err =>
      match err with
      | Some err =>
          error "Error returned" [str "name"; str name; str "kind"; str kind; maybeModuleField module; str "error"; other err] s
      | None => debug "Run" [str "name"; str name; str "kind"; str kind; maybeModuleField module] s
      end
  | Invoking function module => debug "Invoking" [str "function"; str function; maybeModuleField module] s
  | Invoked function module trace err =>
      match err with
      | Some err =>
          error "Invoke failed" [str "error"; other err; str "stack"; str trace; str "function"; str function; maybeModuleField module] s
      | None => Some s
      end
  | Stopping signal => debug "Received signal" [str "signal"; str (ToUpper signal)] s
  | Stopped err =>
      match err with Some err => error "Stop failed" [str "error"; other err] s | None => info "Stopped" [] s end
  | RollingBack startErr => error "Start failed, rolling back" [str "error"; other startErr] s
  | RolledBack err =>
      match err with Some err => error "Rollback failed" [str "error"; other err] s | None => Some s end
  | Started err =>
      match err with Some err => error "Start failed" [str "error"; other err] s | None => info "Started" [] s end
  | LoggerInitialized constructor err =>
      match err with
      | Some err => error "custom logger initialization failed" [str "error"; other err] s
      | None => debug "initialized custom fxevent.Logger" [str "function"; str constructor] s
      end
  | UnknownEvent event =>
      warn "Unknown event!, you are using an fx version newer than what it is supported" [str "event"; other event] s
  end.
End events.
Arguments fx_event : clear implicits.

(** ** What a call writes *)
Section written.
Context {V : Type} (other_text : value V -> string) (own : string -> frame).
Implicit Types (l : Logger V) (s : LogState V) (stack : list frame) (now : V).

(** An attribute that no handler changes. *)
Definition plain (a : attr V) : Prop := flat a /\ a.1 <> "time" /\ a.1 <> "level" /\ a.1 <> "source".

Lemma plain_handled console name attrs : Forall plain attrs ->
  handler_attrs other_text console name attrs = Some attrs.
Proof using Type.
  unfold handler_attrs. destruct console; [done|]. induction 1 as [|[k v] attrs (Hf & Ht & Hl & Hs) _ IH]; [done|].
  cbn [mapM fst snd] in *. rewrite IH.
  assert (json_attr other_text name k v = ReplaceAttr other_text name (k, v)) as -> by by destruct v.
  unfold ReplaceAttr. cbn [fst snd] in *.
  by rewrite (bool_decide_eq_false_2 _ Ht), (bool_decide_eq_false_2 _ Hl), (bool_decide_eq_false_2 _ Hs).
Qed.

(** A call: its level, message and attributes. *)
Notation call := (Z * string * list (attr V))%type.

(** The records of calls made at [caller], of those whose level is enabled. *)
Definition records l now (caller : frame) s (calls : list call) : list (Rec V) :=
  flat_map (fun c => if bool_decide (Level l s <= c.1.1) then
    [MkRec (l_writer l) (call_fields l now c.1.1 c.1.2 caller ++ l_attrs l ++ c.2)] else []) calls.
Definition add_records l now caller (calls : list call) s : LogState V :=
  MkLogState (cells s) (written s ++ records l now caller s calls) (loggersByPath s).

Lemma add_records_app l now caller c1 c2 s :
  add_records l now caller c2 (add_records l now caller c1 s) = add_records l now caller (c1 ++ c2) s.
Proof using Type. unfold add_records, records. cbn. by rewrite flat_map_app, app_assoc. Qed.

Lemma add_records_nil l now caller s : add_records l now caller [] s = s.
Proof using Type. destruct s. unfold add_records. cbn. by rewrite app_nil_r. Qed.

Lemma emits_plain l now level msg attrs caller s : Forall plain attrs ->
  emits other_text l now level msg attrs caller s = Some (add_records l now caller [(level, msg, attrs)] s).
Proof using Type.
  intros Hp. unfold emits, add_records, records. cbn. rewrite (plain_handled _ _ _ Hp).
  case_bool_decide; [done|]. cbn. rewrite app_nil_r. by destruct s.
Qed.

Lemma for_each_records {A} l now caller (f : A -> LogState V -> option (LogState V)) (c : A -> call) xs s :
  (forall x s, f x s = Some (add_records l now caller [c x] s)) ->
  for_each f xs s = Some (add_records l now caller (c <$> xs) s).
Proof using Type.
  intros Hf. revert s. induction xs as [|x xs IH]; intros s; cbn [for_each]; [by rewrite add_records_nil|].
  rewrite Hf. cbn [mbind option_bind]. rewrite IH. by rewrite add_records_app.
Qed.
End written.

(** ** The events *)
Section fx_logged.
Context {V : Type} (other_text : value V -> string) (own : string -> frame) (nil true_value : V).

Definition failed (e : fx_event V) : option V :=
  match e with
  | OnStartExecuted _ _ _ err | OnStopExecuted _ _ _ err | Supplied _ _ _ _ err | Provided _ _ _ _ _ _ err
  | Replaced _ _ _ _ err | Decorated _ _ _ _ _ err | Run _ _ _ err | Invoked _ _ _ err
  | Stopped err | RolledBack err | Started err | LoggerInitialized _ err => err
  | RollingBack err => Some err
  | _ => None
  end.

(** How many calls an event makes. *)
Definition fx_count (e : fx_event V) : nat :=
  match e with
  | Provided _ outputs _ _ _ _ err | Replaced outputs _ _ _ err | Decorated _ outputs _ _ _ err =>
      length outputs + match err with Some _ => 1 | None => 0 end
  | Invoked _ _ _ None | RolledBack None => 0
  | _ => 1
  end.

Lemma fx_caller (l : Logger V) stack :
  Callers (SkipCallers (NewFxLogger l)) (own "LogEvent" :: stack) = Callers (SkipCallers l + 1) stack.
Proof using Type.
  unfold Callers. cbn [SkipCallers NewFxLogger skip_callers].
  by replace (SkipCallers l + 2)%nat with (S (SkipCallers l + 1)) by lia.
Qed.

Lemma fx_call (l : Logger V) now f level msg args stack s : Forall plain (argsToAttrSlice args) ->
  (if negb (Enabled (NewFxLogger l) level s) then Some s
   else log other_text own (NewFxLogger l) now level msg args (own f :: own "LogEvent" :: stack) s) =
  Some (add_records l now (Callers (SkipCallers l + 1) stack) [(level, msg, argsToAttrSlice args)] s).
Proof using Type. intros Hp. by rewrite gated_emits, emits_plain, fx_caller by done. Qed.

(** A record for each of the outputs of an event. *)
Lemma fx_each {A} (l : Logger V) now f level msg (args : A -> list (value V)) xs stack s :
  (forall x, Forall plain (argsToAttrSlice (args x))) ->
  for_each (fun x s => if negb (Enabled (NewFxLogger l) level s) then Some s
    else log other_text own (NewFxLogger l) now level msg (args x) (own f :: own "LogEvent" :: stack) s) xs s =
  Some (add_records l now (Callers (SkipCallers l + 1) stack) ((fun x => (level, msg, argsToAttrSlice (args x))) <$> xs) s).
Proof using Type. intros Hp. apply for_each_records. intros x s1. by apply fx_call. Qed.

Lemma maybeModuleField_attr module :
  exists k v, maybeModuleField nil module = VAttr k v /\ plain (k, v).
Proof using Type.
  unfold maybeModuleField, SkipAttr. case_bool_decide; eexists _, _; (split; [done|]); by split_and!.
Qed.
Lemma maybeBool_attr b : exists k v, maybeBool nil true_value "private" b = VAttr k v /\ plain (k, v).
Proof using Type. unfold maybeBool, SkipAttr. destruct b; eexists _, _; (split; [done|]); by split_and!. Qed.

(** What an event with the error [fail] writes in [n] calls, from the state [s]. *)
Definition fx_outcome (l : Logger V) now stack s (n : nat) (fail : option V) (r : option (LogState V)) : Prop :=
  exists calls,
    r = Some (add_records l now (Callers (SkipCallers l + 1) stack) calls s) /\ length calls = n /\
    match fail with
    | Some err => exists others msg attrs, calls = others ++ [(LogLevelError, msg, attrs)] /\
        ("error", VOther err) ∈ attrs /\ Forall (fun c => c.1.1 = LogLevelDebug) others
    | None => Forall (fun c => c.1.1 < LogLevelError) calls
    end.

Lemma fx_silent (l : Logger V) now stack s : fx_outcome l now stack s 0 None (Some s).
Proof using Type. exists []. by rewrite add_records_nil. Qed.

Lemma fx_ok (l : Logger V) now f level msg args stack s : Forall plain (argsToAttrSlice args) -> level < LogLevelError ->
  fx_outcome l now stack s 1 None
    (if negb (Enabled (NewFxLogger l) level s) then Some s
     else log other_text own (NewFxLogger l) now level msg args (own f :: own "LogEvent" :: stack) s).
Proof using Type. intros Hp Hl. eexists. split; [by apply fx_call|]. split; [done|]. by repeat constructor. Qed.

Lemma fx_error (l : Logger V) now f msg args err stack s : Forall plain (argsToAttrSlice args) ->
  ("error", VOther err) ∈ argsToAttrSlice args ->
  fx_outcome l now stack s 1 (Some err)
    (if negb (Enabled (NewFxLogger l) LogLevelError s) then Some s
     else log other_text own (NewFxLogger l) now LogLevelError msg args (own f :: own "LogEvent" :: stack) s).
Proof using Type. intros Hp Hin. eexists. split; [by apply fx_call|]. split; [done|]. by exists [], msg, (argsToAttrSlice args). Qed.

(** A record for each output, then what follows. *)
Lemma fx_outputs {A} (l : Logger V) now f msg (args : A -> list (value V)) xs stack s n fail (k : LogState V -> option (LogState V)) :
  (forall x, Forall plain (argsToAttrSlice (args x))) -> (forall s, fx_outcome l now stack s n fail (k s)) ->
  fx_outcome l now stack s (length xs + n) fail
    (s ← for_each (fun x s => if negb (Enabled (NewFxLogger l) LogLevelDebug s) then Some s
       else log other_text own (NewFxLogger l) now LogLevelDebug msg (args x) (own f :: own "LogEvent" :: stack) s) xs s; k s).
Proof using Type.
  intros Hp Hk. rewrite fx_each by done. cbn [mbind option_bind].
  set (calls := _ <$> xs). destruct (Hk (add_records l now (Callers (SkipCallers l + 1) stack) calls s)) as (more & -> & Hn & Hf).
  exists (calls ++ more). rewrite add_records_app. split; [done|]. split.
  { rewrite length_app, Hn. unfold calls. by rewrite length_fmap. }
  assert (Forall (fun c => c.1.1 = LogLevelDebug) calls) as Hd.
  { unfold calls. apply Forall_fmap, Forall_forall. by intros x _. }
  destruct fail as [err|].
  - destruct Hf as (others & m & attrs & -> & ? & ?). exists (calls ++ others), m, attrs.
    rewrite app_assoc. split_and!; [done..|]. by apply Forall_app.
  - apply Forall_app. split; [|done]. eapply Forall_impl; [exact Hd|]. by intros c ->.
Qed.
End fx_logged.

Ltac fx_plain := cbn; repeat (apply Forall_cons; split; [first [assumption | by split_and!]|]); apply Forall_nil; done.

(** C38: the container's events in the log: the logger never panics, whatever the event holds;
    an event that carries an error writes it, as the last record and in one record of
    level Error; an event without one writes no record of that level; events with outputs
    have one record for each; and every record has the position of the caller of the
    caller of [LogEvent]. *)
Theorem fx_event_logged {V} (other_text : value V -> string) (own : string -> frame) (nil true_value : V)
    (l : Logger V) (now : V) (e : fx_event V) (stack : list frame) (s : LogState V) :
  fx_outcome l now stack s (fx_count e) (failed e)
    (LogEvent other_text own nil true_value (NewFxLogger l) now e stack s).
Proof.
  destruct e; unfold LogEvent, Debug, Info, Warn, Error;
    try (match goal with |- context [maybeModuleField nil ?m] =>
      destruct (maybeModuleField_attr nil m) as (mk & mv & -> & Hm) end);
    try (destruct (maybeBool_attr nil true_value private) as (bk & bv & -> & Hb));
    try (match goal with o : option V |- _ => destruct o as [err|] end); cbn [failed fx_count].
  all: first [ apply fx_silent | apply fx_error; [fx_plain|set_solver] | apply fx_ok; [fx_plain|done]
    | apply fx_outputs; [intros; fx_plain|intros; first [apply fx_silent | apply fx_error; [fx_plain|set_solver]]] ].
Qed.

(** ** The logger of gorm

    [gormlogger.LogLevel]: the library's four levels, or another number. *)
Inductive gorm_level := GormSilent | GormError | GormWarn | GormInfo | GormOther (n : Z).
#[global] Instance gorm_level_eq_dec : EqDecision gorm_level.
Proof. solve_decision. Defined.

Section gorm.
Context {V : Type} (other_text : value V -> string) (own : string -> frame).
Context (of_duration : Z -> V) (true_value : V).  (** durations and [true], as slog holds them *)
Context (is_not_found : V -> bool).  (** [errors.Is(err, gorm.ErrRecordNotFound)] *)
Implicit Types (l : Logger V) (s : LogState V) (stack : list frame) (now : V) (ctx : list (attr V)).

Record GormLogger := MkGorm { gl_logger : Logger V; silent : bool; slowThreshold : Z; ignoreRecordNotFoundError : bool }.
Implicit Types (gl : GormLogger).

Definition NewGormLogger l : GormLogger := MkGorm (skip_callers 1 l) false 200000000 true.

(** [None]: it panics. *)
Definition LogMode gl (level : gorm_level) s : option (GormLogger * LogState V) :=
  let silenced := MkGorm (gl_logger gl) true (slowThreshold gl) (ignoreRecordNotFoundError gl) in
  '(newGL, logLevel) ← match level with
    | GormInfo => Some (gl, LogLevelTrace)
    | GormWarn => Some (gl, LogLevelWarn)
    | GormError => Some (gl, LogLevelError)
    | GormSilent => Some (silenced, LogLevelError)
    | GormOther _ => None
    end;
  Some (newGL, SetLevel (gl_logger newGL) logLevel s).

(** [ctx]: the attributes of the context. *)
Definition configureLogger gl ctx : option (Logger V) :=
  if bool_decide (0 < length ctx)%nat then WithAttrs other_text (gl_logger gl) ctx else Some (gl_logger gl).

(** [msg]: what [fmt.Sprintf] makes of format and arguments. *)
Definition Gorm_Info gl ctx now (msg : string) stack s : option (LogState V) :=
  logger ← configureLogger gl ctx; Infof other_text own logger now msg (own "Info" :: stack) s.
Definition Gorm_Warn gl ctx now (msg : string) stack s : option (LogState V) :=
  logger ← configureLogger gl ctx; Warnf other_text own logger now msg (own "Warn" :: stack) s.
Definition Gorm_Error gl ctx now (msg : string) stack s : option (LogState V) :=
  logger ← configureLogger gl ctx; Errorf other_text own logger now msg (own "Error" :: stack) s.

(** [elapsed]: [time.Since(begin)]; [fc ()]: the statement and its rows; [err]: the error,
    if any.  The result tells whether [fc] was called. *)
Definition Gorm_Trace gl ctx now (elapsed : Z) (fc : unit -> string * Z) (err : option V) stack s
    : option (bool * LogState V) :=
  let stack := own "Trace" :: stack in
  let failure := match err with
    | Some err => if negb (is_not_found err) || negb (ignoreRecordNotFoundError gl) then Some err else None
    | None => None
    end in
  if silent gl then Some (false, s)
  else
    match failure with
    | Some err =>
        let '(sql, rows) := fc tt in
        let attrs := [VAttr "error" (VOther err); VAttr "sql" (VString sql);
                      VAttr "duration" (VOther (of_duration elapsed)); VAttr "rows" (VInt rows)] in
        logger ← configureLogger gl ctx;
        s ← Error other_text own (skip_callers 2 logger) now "Failed to run query" attrs stack s;
        Some (true, s)
    | None =>
        if bool_decide (elapsed > slowThreshold gl) && bool_decide (slowThreshold gl <> 0) &&
           Enabled (gl_logger gl) LogLevelWarn s
        then
          let '(sql, rows) := fc tt in
          let attrs := [VAttr "sql" (VString sql); VAttr "duration" (VOther (of_duration elapsed));
                        VAttr "rows" (VInt rows); VAttr "slow_sql" (VOther true_value)] in
          logger ← configureLogger gl ctx;
          s ← Warn other_text own (skip_callers 2 logger) now ("Slow sql executed: " +:+ Duration_String elapsed) attrs stack s;
          Some (true, s)
        else if Enabled (gl_logger gl) LogLevelTrace s then
          let '(sql, rows) := fc tt in
          let attrs := [VAttr "sql" (VString sql); VAttr "duration" (VOther (of_duration elapsed))] in
          let attrs := if bool_decide (rows <> -1) then attrs ++ [VAttr "rows" (VInt rows)] else attrs in
          logger ← configureLogger gl ctx;
          s ← Trace other_text own (skip_callers 2 logger) now ("SQL executed: " +:+ Duration_String elapsed) attrs stack s;
          Some (true, s)
        else Some (false, s)
    end.

(** ** The loggers of goose and gin

    [sprintf]: [fmt.Sprintf].  [Fatalf] ends the process: the state it leaves. *)
Context (sprintf : string -> list (value V) -> string).
Definition NewGooseLogger l : Logger V := skip_callers 1 l.
Definition Goose_Fatalf l now (format : string) (v : list (value V)) stack s : option (LogState V) :=
  let format := CutSuffix format newline in
  Errorf other_text own l now (sprintf format v) (own "Fatalf" :: stack) s.
Definition Goose_Printf l now (format : string) (v : list (value V)) stack s : option (LogState V) :=
  let format := CutSuffix format newline in
  Infof other_text own l now (sprintf format v) (own "Printf" :: stack) s.

(** The writers: the function that they hold, and [Write], which returns the number of
    bytes. *)
Definition NewDefaultGinWriter l now (msg : string) stack s : option (LogState V) :=
  Info other_text own (skip_callers 4 l) now (CutSuffix msg newline) [] (own "func1" :: stack) s.
Definition NewDefaultErrorGinWriter l now (msg : string) stack s : option (LogState V) :=
  Error other_text own (skip_callers 3 l) now (CutSuffix msg newline) [] (own "func1" :: stack) s.
Definition Gin_Write (write : string -> list frame -> LogState V -> option (LogState V)) (p : string) stack s
    : option (nat * LogState V) :=
  s ← write p (own "Write" :: stack) s;
  Some (String.length p, s).
End gorm.
Arguments GormLogger : clear implicits.

(** ** What gorm's logger does *)
Section gorm_facts.
Context {V : Type} (other_text : value V -> string) (own : string -> frame).
Context (of_duration : Z -> V) (true_value : V) (is_not_found : V -> bool).

Definition gorm_code (level : gorm_level) : option Z :=
  match level with
  | GormInfo => Some LogLevelTrace
  | GormWarn => Some LogLevelWarn
  | GormError | GormSilent => Some LogLevelError
  | GormOther _ => None
  end.

Lemma configureLogger_plain (gl : GormLogger V) ctx : Forall plain ctx ->
  exists l, configureLogger other_text gl ctx = Some l /\ l_cell l = l_cell (gl_logger gl) /\
    SkipCallers l = SkipCallers (gl_logger gl) /\ l_name l = l_name (gl_logger gl) /\
    l_console l = l_console (gl_logger gl) /\ l_writer l = l_writer (gl_logger gl) /\
    l_attrs l = l_attrs (gl_logger gl) ++ ctx.
Proof using Type.
  intros Hp. unfold configureLogger. case_bool_decide as Hl.
  - unfold WithAttrs. rewrite plain_handled by done. eexists. split; [done|]. done.
  - assert (ctx = []) as -> by (destruct ctx; [done|cbn in Hl; lia]).
    eexists. split; [done|]. by rewrite app_nil_r.
Qed.

(** Which record a statement gets: of a failure, of a slow statement, or of any. *)
Definition reported (gl : GormLogger V) (err : option V) : bool :=
  match err with Some e => negb (is_not_found e && ignoreRecordNotFoundError gl) | None => false end.
Definition trace_level (gl : GormLogger V) (elapsed : Z) (err : option V) (s : LogState V) : option Z :=
  if silent gl then None
  else if reported gl err then Some LogLevelError
  else if bool_decide (slowThreshold gl < elapsed /\ slowThreshold gl <> 0 /\ Level (gl_logger gl) s <= LogLevelWarn)
  then Some LogLevelWarn
  else if bool_decide (Level (gl_logger gl) s <= LogLevelTrace) then Some LogLevelTrace
  else None.

(** A record of [Trace]: of the context's logger, at the caller three frames above. *)
Definition traced (gl : GormLogger V) ctx now stack (level : Z) msg attrs s : LogState V :=
  MkLogState (cells s)
    (written s ++ [MkRec (l_writer (gl_logger gl))
      (call_fields (gl_logger gl) now level msg (Callers (SkipCallers (gl_logger gl) + 1) stack) ++
       (l_attrs (gl_logger gl) ++ ctx) ++ attrs)]) (loggersByPath s).

Lemma traced_call (gl : GormLogger V) ctx now f level msg args stack s : Forall plain ctx ->
  Forall plain (argsToAttrSlice args) -> Level (gl_logger gl) s <= level ->
  (logger ← configureLogger other_text gl ctx;
   (if negb (Enabled (skip_callers 2 logger) level s) then Some s
    else log other_text own (skip_callers 2 logger) now level msg args (own f :: own "Trace" :: stack) s)) =
  Some (traced gl ctx now stack level msg (argsToAttrSlice args) s).
Proof using Type.
  intros Hc Hp Hl. destruct (configureLogger_plain gl ctx Hc) as (l & -> & Ecell & Esk & En & Eco & Ew & Ea).
  cbn [mbind option_bind]. rewrite gated_emits. unfold emits. cbn [l_cell l_console l_name l_attrs l_writer skip_callers].
  assert (Level (skip_callers 2 l) s = Level (gl_logger gl) s) as -> by (unfold Level; cbn; by rewrite Ecell).
  rewrite bool_decide_eq_true_2, plain_handled by done. cbn [mbind option_bind]. unfold traced, call_fields. cbn [l_console l_name skip_callers].
  rewrite Eco, En, Ew, Ea. do 4 f_equal. unfold Callers. cbn [SkipCallers skip_callers].
  rewrite Esk. by replace (SkipCallers (gl_logger gl) + 2)%nat with (S (SkipCallers (gl_logger gl) + 1)) by lia.
Qed.

Lemma gorm_bind {A B C} (m : option A) (f : A -> option B) (g : B -> option C) r :
  (x ← m; f x) = Some r -> (x ← m; y ← f x; g y) = g r.
Proof using Type. destruct m as [x|]; cbn; [|done]. by intros ->. Qed.
End gorm_facts.

(** a statement of gorm in the log: a silent logger neither writes nor asks for the text;
    else a reported error is written at level Error, else a statement slower than the
    threshold at Warn, else any at Trace, if that level is enabled; there is at most one
    record, it holds the statement and the error, and the text is asked for exactly
    when a record is written. *)
Theorem gorm_trace {V} (other_text : value V -> string) (own : string -> frame) (of_duration : Z -> V)
    (true_value : V) (is_not_found : V -> bool) (gl : GormLogger V) (ctx : list (attr V)) (now : V) (elapsed : Z)
    (fc : unit -> string * Z) (err : option V) (stack : list frame) (s : LogState V) :
  Forall plain ctx -> Level (gl_logger gl) s <= LogLevelError ->
  let r := Gorm_Trace other_text own of_duration true_value is_not_found gl ctx now elapsed fc err stack s in
  match trace_level is_not_found gl elapsed err s with
  | None => r = Some (false, s)
  | Some level => exists msg attrs,
      r = Some (true, traced gl ctx now stack level msg attrs s) /\
      ("sql", VString (fc tt).1) ∈ attrs /\
      (level = LogLevelError -> exists e, err = Some e /\ ("error", VOther e) ∈ attrs)
  end.
Proof.
  cbv zeta. intros Hc Hl. unfold Gorm_Trace, trace_level. destruct (silent gl); [done|].
  assert (match err with Some e => if negb (is_not_found e) || negb (ignoreRecordNotFoundError gl) then Some e else None | None => None end
    = if reported is_not_found gl err then err else None) as ->.
  { destruct err as [e|]; [|done]. unfold reported. by rewrite negb_andb. }
  destruct (fc tt) as [sql rows] eqn:Ef. unfold Error, Warn, Trace.
  destruct (reported is_not_found gl err) eqn:Er.
  - destruct err as [e|]; [|done].
    erewrite gorm_bind by (apply traced_call; [done|fx_plain|done]).
    eexists _, _. split; [reflexivity|]. cbn. split; [set_solver|]. intros _. exists e. split; [done|set_solver].
  - clear Er. rewrite <- !bool_decide_and. unfold Enabled. rewrite <- bool_decide_and.
    assert (forall b, b = bool_decide ((elapsed > slowThreshold gl /\ slowThreshold gl <> 0) /\ Level (gl_logger gl) s <= LogLevelWarn) -> b =
      bool_decide (slowThreshold gl < elapsed /\ slowThreshold gl <> 0 /\ Level (gl_logger gl) s <= LogLevelWarn)) as Hb.
    { intros b ->. apply bool_decide_ext. lia. }
    rewrite (Hb _ eq_refl). clear Hb. case_bool_decide as Hw; [|case_bool_decide as Ht; [|done]].
    + erewrite gorm_bind by (apply traced_call; [done|fx_plain|apply Hw]).
      eexists _, _. split; [reflexivity|]. cbn. split; [set_solver|done].
    + destruct (bool_decide (rows <> -1)); cbn [app];
        (erewrite gorm_bind by (apply traced_call; [done|fx_plain|done]));
        (eexists _, _; split; [reflexivity|]; cbn; split; [set_solver|done]).
Qed.

(** [LogMode]: the logger it returns has the level asked for, and so has every logger that
    shares its level: the one it was made from, and the copies of other sessions. A
    silent logger traces nothing, and none made from it does, whatever its level,
    although its errors are still written. *)
Theorem gorm_log_mode {V} (other_text : value V -> string) (own : string -> frame) (of_duration : Z -> V)
    (true_value : V) (is_not_found : V -> bool) (gl : GormLogger V) (level : gorm_level) (s : LogState V)
    (code : Z) :
  (l_cell (gl_logger gl) < length (cells s))%nat -> gorm_code level = Some code ->
  exists gl' s', LogMode gl level s = Some (gl', s') /\
    (forall l, l_cell l = l_cell (gl_logger gl) -> Level l s' = code) /\
    (forall l, l_cell l <> l_cell (gl_logger gl) -> Level l s' = Level l s) /\
    (silent gl' = true <-> silent gl = true \/ level = GormSilent) /\
    (silent gl' = true -> forall ctx now elapsed fc err stack s2,
       Gorm_Trace other_text own of_duration true_value is_not_found gl' ctx now elapsed fc err stack s2 = Some (false, s2)) /\
    (forall now msg stack, Gorm_Error other_text own gl' [] now msg stack s' =
       Some (add_records (gl_logger gl) now (Callers (SkipCallers (gl_logger gl)) (own "Error" :: stack))
         [(LogLevelError, msg, [])] s') /\
       Level (gl_logger gl) s' <= LogLevelError).
Proof.
  intros Hcell Hcode.
  assert (forall l0 n, l_cell l0 = l_cell (gl_logger gl) ->
    Level l0 (SetLevel (gl_logger gl) n s) = n) as Hsame.
  { intros l0 n E. unfold Level, SetLevel. cbn. by rewrite E, list_lookup_insert_eq. }
  assert (forall l0 n, l_cell l0 <> l_cell (gl_logger gl) ->
    Level l0 (SetLevel (gl_logger gl) n s) = Level l0 s) as Hother.
  { intros l0 n E. unfold Level, SetLevel. cbn. by rewrite list_lookup_insert_ne. }
  set (gl' := if decide (level = GormSilent)
    then MkGorm (gl_logger gl) true (slowThreshold gl) (ignoreRecordNotFoundError gl) else gl).
  assert (gl_logger gl' = gl_logger gl) as Egl by (unfold gl'; by case_decide).
  exists gl', (SetLevel (gl_logger gl) code s). split_and!; [|auto..| | |].
  - destruct level; cbn in Hcode; simplify_eq; done.
  - unfold gl'. case_decide; cbn; naive_solver.
  - intros Hs ctx now elapsed fc err stack s2. unfold Gorm_Trace. by rewrite Hs.
  - intros now msg stack. split.
    + unfold Gorm_Error, configureLogger. rewrite Egl. cbn [length mbind option_bind].
      rewrite bool_decide_eq_false_2 by lia. cbn [mbind option_bind]. unfold Errorf. rewrite gated_emits.
      by apply emits_plain.
    + rewrite Hsame by done. destruct level; cbn in Hcode; simplify_eq; done.
Qed.

(** *** Witnesses *)
Definition app_logger : Logger nat := MkLogger "gorm.DB" 0 false [] Stdout 0.
Definition gorm0 : GormLogger nat := NewGormLogger app_logger.

Lemma gorm_log_mode_witness : exists gl' s',
  LogMode gorm0 GormSilent (MkLogState [LogLevelInfo] [] ∅) = Some (gl', s') /\
  Level (gl_logger gorm0) s' = LogLevelError.
Proof.
  destruct (gorm_log_mode (V:=nat) (fun _ => "") (fun f => MkFrame f "" 0) Z.to_nat 1%nat (fun _ => false)
    gorm0 GormSilent (MkLogState [LogLevelInfo] [] ∅) LogLevelError) as (gl' & s' & Hm & Hl & _).
  - cbn. lia.
  - reflexivity.
  - exists gl', s'. split; [exact Hm|]. by apply Hl.
Defined.

Lemma gorm_trace_witness : exists msg attrs,
  Gorm_Trace (fun _ => "") (fun f => MkFrame f "" 0) Z.to_nat 1%nat (fun _ => false) gorm0 [("request", VString "7")] 5%nat
    250000000 (fun _ => ("SELECT 1", 1)) None [] (MkLogState [LogLevelInfo] [] ∅) =
  Some (true, traced gorm0 [("request", VString "7")] 5%nat [] LogLevelWarn msg attrs (MkLogState [LogLevelInfo] [] ∅)) /\
  ("sql", VString "SELECT 1") ∈ attrs.
Proof.
  destruct (gorm_trace (V:=nat) (fun _ => "") (fun f => MkFrame f "" 0) Z.to_nat 1%nat (fun _ => false) gorm0
    [("request", VString "7")] 5%nat 250000000 (fun _ => ("SELECT 1", 1)) None [] (MkLogState [LogLevelInfo] [] ∅))
    as (msg & attrs & Hr & Hs & _).
  - repeat constructor; cbn; done.
  - vm_compute. discriminate.
  - exists msg, attrs. split; [exact Hr|exact Hs].
Defined.
