(* ===== verification/GoContext.v ===== *)
(** * context: trees of contexts, detached contexts, and waiting on them

    Models [context/context.go], [context/context_request.go], [Sleep] of
    [sync/sync.go] and [worker/worker_context.go] over Go's package [context]: its
    background, value and cancelable contexts, with causes.  A cancelable context is a
    number; the store has its parent and how it was canceled.  Contexts of
    other packages that have a method [Set], like gin's, are objects of a type that is a
    parameter. *)

From S2P Require Import Prelude.
From S2P Require Import Log.

Open Scope string_scope.
Open Scope list_scope.

(** Keys: [CtxKey] of a string is that string. *)
Inductive ckey := KStr (s : string) | KOther (n : nat).
#[global] Instance ckey_eq_dec : EqDecision ckey.
Proof. solve_decision. Defined.

(** The errors of contexts, and causes given by clients. *)
Inductive cerr := Canceled | DeadlineExceeded | CauseErr (n : nat).
#[global] Instance cerr_eq_dec : EqDecision cerr.
Proof. solve_decision. Defined.

Inductive cval := VText (s : string) | VWorkerInfo (Name ID : string) | VAttrs (sl : Slice) | VLoggerFactory (f : nat) | VAny (n : nat).

Inductive ctx :=
| Background
| CancelCtx (id : nat)
| ValueCtx (key : ckey) (v : cval) (parent : ctx)
| NoDeadline (parent : ctx)           (** [noDeadlineContext] *)
| Settable (o : nat).                 (** of another package, with [Set] *)

Section contexts.
Context {Obj : Type}.
(** Objects with [Set]: [obj_value] is their [Value] for other keys than the one of
    [context.Cause]; they are never canceled here. *)
Context (obj_set : string -> cval -> Obj -> Obj) (obj_value : ckey -> Obj -> option cval).

(** The parent of each cancelable context, and its [err] and [cause] once canceled. *)
Record Ctxs := MkCtxs { parents_of : list ctx; ended : gmap nat (cerr * cerr); objs : gmap nat Obj }.
Implicit Types (c : ctx) (st : Ctxs).

(** A path leads through each cancelable context at most once. *)
Definition depth st : nat := length (parents_of st).

(** [Err], and [Done] being closed. A cancelable context takes over what ends its parent when
    that happens ([cancel] below). *)
Fixpoint Err st c : option cerr :=
  match c with
  | Background | NoDeadline _ | Settable _ => None
  | CancelCtx id => fst <$> ended st !! id
  | ValueCtx _ _ p => Err st p
  end.
(** [Done() == nil]: never canceled. *)
Fixpoint never_done c : bool :=
  match c with Background | NoDeadline _ | Settable _ => true | CancelCtx _ => false | ValueCtx _ _ p => never_done p end.

(** [Deadline]: a cancelable context has the one that it was made with ([own_deadline]), else its
    parent's; [obj_deadline]: of objects of other packages. *)
Fixpoint deadline_in (own_deadline : nat -> option Z) (obj_deadline : Obj -> option Z) (fuel : nat) st : ctx -> option Z :=
  fix go c :=
    match c with
    | Background | NoDeadline _ => None
    | ValueCtx _ _ p => go p
    | Settable o => o ← objs st !! o; obj_deadline o
    | CancelCtx id =>
        match own_deadline id, fuel with
        | Some d, _ => Some d
        | None, O => None
        | None, S fuel => p ← parents_of st !! id; deadline_in own_deadline obj_deadline fuel st p
        end
    end.
Definition Deadline (own_deadline : nat -> option Z) (obj_deadline : Obj -> option Z) st c : option Z :=
  deadline_in own_deadline obj_deadline (depth st) st c.

(** [Value] for a key of a client; as many steps up as there are cancelable contexts. *)
Fixpoint value_in (fuel : nat) st (key : ckey) : ctx -> option cval :=
  fix go c :=
    match c with
    | Background => None
    | ValueCtx k v p => if decide (k = key) then Some v else go p
    | NoDeadline p => go p
    | Settable o => o ← objs st !! o; obj_value key o
    | CancelCtx id =>
        match fuel with
        | O => None
        | S fuel => p ← parents_of st !! id; value_in fuel st key p
        end
    end.
Definition Value st (key : ckey) c : option cval := value_in (depth st) st key c.

(** [c.Value(&cancelCtxKey)] called from [context.value]: the nearest cancelable context. *)
Fixpoint cancel_ctx_of c : option nat :=
  match c with
  | Background | Settable _ => None
  | CancelCtx id => Some id
  | ValueCtx _ _ p | NoDeadline p => cancel_ctx_of p
  end.
(** Called from [context.Cause] itself: [noDeadlineContext.Value] sees its caller. *)
Definition cause_ctx c : option nat := match c with NoDeadline _ => None | _ => cancel_ctx_of c end.
(** [context.Cause] *)
Definition Cause st c : option cerr :=
  match cause_ctx c with
  | Some id => snd <$> ended st !! id
  | None => Err st c
  end.

(** [noDeadlineContext] *)
Definition NoDeadlineAndNotCancellableContext (parent : ctx) : ctx := NoDeadline parent.

Definition CtxSetValue st c (key : ckey) (v : cval) : Ctxs * ctx :=
  match key, c with
  | KStr s, Settable o =>
      (MkCtxs (parents_of st) (ended st) (alter (obj_set s v) o (objs st)), c)
  | _, _ => (st, ValueCtx key v c)
  end.

(** ** Go's cancelation *)

(** [context.WithCancelCause]: a child of a context that has ended ends at once. *)
Definition WithCancelCause st (parent : ctx) : Ctxs * nat :=
  let id := length (parents_of st) in
  (MkCtxs (parents_of st ++ [parent])
     (match Err st parent with
      | Some e => <[id := (e, default e (Cause st parent))]> (ended st)
      | None => ended st
      end) (objs st), id).

(** The cancelable context that ends a context. *)
Fixpoint ended_by c : option nat :=
  match c with
  | Background | NoDeadline _ | Settable _ => None
  | CancelCtx id => Some id
  | ValueCtx _ _ p => ended_by p
  end.
(** [id] or a context whose chain of parents leads to it without a detached one. *)
Fixpoint linked (fuel : nat) st (id x : nat) : bool :=
  bool_decide (x = id) ||
  match fuel with
  | O => false
  | S fuel => match parents_of st !! x ≫= ended_by with Some y => linked fuel st id y | None => false end
  end.

(** [cancel(cause)]: the context and its linked descendants end, those that have not. *)
Definition cancel st (id : nat) (err : cerr) (cause : option cerr) : Ctxs :=
  if decide (is_Some (ended st !! id)) then st
  else
    let hit := filter (fun x => linked (depth st) st id x = true) (seq 0 (length (parents_of st))) in
    MkCtxs (parents_of st)
      (foldr (fun x m => match m !! x with Some _ => m | None => <[x := (err, default err cause)]> m end) (ended st) hit)
      (objs st).

(** ** [Sleep]

    What it returns when the timer has fired or the context is done; with both, either. *)
Definition Sleep st c (timer : bool) (r : option cerr) : Prop :=
  (timer = true /\ r = None) \/ (is_Some (Err st c) /\ r = Cause st c).

(** ** Requests and workers *)
Definition RequestIDCtxKey : ckey := KStr "_fw_request_id".
Definition GetRequestIDFromCtx st c : string :=
  match Value st RequestIDCtxKey c with Some (VText s) => s | _ => "" end.

Definition workerInfoKey : ckey := KStr "_fw_worker".
Definition loggerAttrsCtxKey : ckey := KStr "_fw_logger_attrs".
Context {A : Type} (zero : A) (grow : nat -> nat -> nat).

(** [attrs]: the slice with the group of the worker's name and id. *)
Definition NewWorkerContext st (parentCtx : ctx) (name id : string) (attrs : Slice) (arrays : list (list A))
    : Ctxs * ctx * list (list A) :=
  let r := CtxSetValue st parentCtx workerInfoKey (VWorkerInfo name id) in
  let old := match Value r.1 loggerAttrsCtxKey r.2 with Some (VAttrs sl) => Some sl | _ => None end in
  let a := CtxAppendLoggerAttrs zero grow old attrs arrays in
  (CtxSetValue r.1 r.2 loggerAttrsCtxKey (VAttrs (default attrs a.1)), a.2).
Definition GetWorkerName st c : string * bool :=
  match Value st workerInfoKey c with Some (VWorkerInfo n _) => (n, true) | _ => ("", false) end.
Definition GetWorkerID st c : string * bool :=
  match Value st workerInfoKey c with Some (VWorkerInfo _ i) => (i, true) | _ => ("", false) end.
End contexts.
Arguments Ctxs : clear implicits.

(** ** What holds of stores *)
Section facts.
Context {Obj : Type} (obj_set : string -> cval -> Obj -> Obj) (obj_value : ckey -> Obj -> option cval).
Implicit Types (c : ctx) (st : Ctxs Obj).

(** The cancelable contexts that a context leads to are below [n]. *)
Fixpoint below (n : nat) c : Prop :=
  match c with
  | Background | Settable _ => True
  | CancelCtx id => (id < n)%nat
  | ValueCtx _ _ p | NoDeadline p => below n p
  end.

(** Parents are older; a context whose parent has ended has ended too. *)
Record wf_ctxs st : Prop := {
  wf_parents : forall id p, parents_of st !! id = Some p -> below id p;
  wf_ended : forall id, is_Some (ended st !! id) -> (id < length (parents_of st))%nat;
  wf_down : forall id p, parents_of st !! id = Some p -> is_Some (Err st p) -> is_Some (ended st !! id);
}.

(** Nothing that a context's cancelation can reach is the one with the number [id]. *)
Definition reaches st (id : nat) c : Prop :=
  exists x, ended_by c = Some x /\ linked (depth st) st id x = true.

Lemma below_mono n m c : (n <= m)%nat -> below n c -> below m c.
Proof using Type. intros Hle. induction c; cbn; auto. lia. Qed.

Lemma Err_ended_by st c : Err st c = (x ← ended_by c; fst <$> ended st !! x).
Proof using Type. induction c; cbn; auto. Qed.

Lemma ended_by_below n c x : below n c -> ended_by c = Some x -> (x < n)%nat.
Proof using Type. induction c; cbn; try done. by intros ? [= <-]. Qed.

Lemma never_done_ended_by c : never_done c = true <-> ended_by c = None.
Proof using Type. induction c; cbn; auto; done. Qed.

(** The first cancelation of a context stays. *)
Definition hits (err : cerr) (cause : option cerr) (hit : list nat) (m : gmap nat (cerr * cerr)) : gmap nat (cerr * cerr) :=
  foldr (fun x m => match m !! x with Some _ => m | None => <[x := (err, default err cause)]> m end) m hit.

Lemma hits_lookup err cause hit m x :
  hits err cause hit m !! x =
    match m !! x with Some r => Some r | None => if decide (x ∈ hit) then Some (err, default err cause) else None end.
Proof using Type.
  revert x. induction hit as [|y hit IH]; intros x; cbn [hits foldr]; [rewrite decide_False by set_solver; by destruct (m !! x)|].
  change (foldr _ m hit) with (hits err cause hit m). destruct (hits err cause hit m !! y) as [r|] eqn:Ey.
  - rewrite IH. destruct (m !! x) eqn:Em; [done|]. destruct (decide (x = y)) as [->|Hne].
    + rewrite IH, Em in Ey. case_decide; [|done]. rewrite decide_True; [done|set_solver].
    + repeat case_decide; (done || exfalso; set_solver).
  - rewrite lookup_insert. case_decide as Hxy.
    + subst y. rewrite IH in Ey. destruct (m !! x); [done|]. rewrite decide_True; [done|set_solver].
    + rewrite IH. destruct (m !! x); [done|]. repeat case_decide; (done || exfalso; set_solver).
Qed.

Lemma cancel_lookup st id err cause x : ended st !! id = None ->
  ended (cancel st id err cause) !! x =
    match ended st !! x with
    | Some r => Some r
    | None => if decide ((x < length (parents_of st))%nat /\ linked (depth st) st id x = true)
              then Some (err, default err cause) else None
    end.
Proof using Type.
  intros Hid. unfold cancel. rewrite decide_False by (rewrite Hid; by intros [? ?]). cbn [ended].
  change (foldr _ _ _) with (hits err cause (filter (fun x => linked (depth st) st id x = true) (seq 0 (length (parents_of st)))) (ended st)).
  rewrite hits_lookup. destruct (ended st !! x); [done|]. 
  assert (x ∈ filter (fun x => linked (depth st) st id x = true) (seq 0 (length (parents_of st))) <->
    (x < length (parents_of st))%nat /\ linked (depth st) st id x = true) as Hx.
  { rewrite list_elem_of_filter, list_elem_of_In, in_seq. intuition lia. }
  repeat case_decide; tauto.
Qed.

(** *** [Value] has enough steps *)
Lemma value_in_fuel st key : wf_ctxs st -> forall n m c, below n c -> (n <= m)%nat ->
  value_in obj_value m st key c = value_in obj_value n st key c.
Proof using Type.
  intros Hwf n. induction n as [n IH] using lt_wf_ind. intros m c. induction c as [|id|k v p IHp|p IHp|o]; cbn [below]; intros Hb Hle.
  - by destruct m, n.
  - destruct n as [|n]; [lia|]. destruct m as [|m]; [lia|]. cbn [value_in].
    destruct (parents_of st !! id) as [p|] eqn:Ep; [|done]. cbn [mbind option_bind].
    pose proof (wf_parents _ Hwf _ _ Ep) as Hp.
    apply (IH n); [lia| |lia]. eapply below_mono; [|exact Hp]. lia.
  - specialize (IHp Hb Hle). destruct m, n; cbn [value_in] in *; by rewrite ?IHp.
  - specialize (IHp Hb Hle). destruct m, n; cbn [value_in] in *; by rewrite ?IHp.
  - by destruct m, n.
Qed.

(** The equations of [Value]. *)
Lemma Value_cancel st key id p : wf_ctxs st -> parents_of st !! id = Some p ->
  Value obj_value st key (CancelCtx id) = Value obj_value st key p.
Proof using Type.
  intros Hwf Hp. unfold Value, depth. pose proof (lookup_lt_Some _ _ _ Hp) as Hlt.
  destruct (length (parents_of st)) as [|n] eqn:El; [lia|].
  change (value_in obj_value (S n) st key (CancelCtx id)) with (p ← parents_of st !! id; value_in obj_value n st key p).
  rewrite Hp. cbn [mbind option_bind]. symmetry. apply (value_in_fuel st key Hwf n); [|lia].
  eapply below_mono; [|by eapply wf_parents]. lia.
Qed.
Lemma Value_value st key k v p :
  Value obj_value st key (ValueCtx k v p) = if decide (k = key) then Some v else Value obj_value st key p.
Proof using Type. unfold Value. by destruct (depth st). Qed.
Lemma Value_detached st key p : Value obj_value st key (NoDeadline p) = Value obj_value st key p.
Proof using Type. unfold Value. by destruct (depth st). Qed.

(** *** Cancelation *)
Lemma linked_self fuel st id : linked fuel st id id = true.
Proof using Type. destruct fuel; cbn; by rewrite bool_decide_eq_true_2. Qed.

(** A link is a chain: more steps find no other. *)
Lemma linked_fuel st : wf_ctxs st -> forall n m id x, (x < n)%nat -> (n <= m)%nat ->
  linked m st id x = linked n st id x.
Proof using Type.
  intros Hwf n. induction n as [|n IH]; intros m id x Hx Hle; [lia|]. destruct m as [|m]; [lia|]. cbn [linked].
  f_equal. destruct (parents_of st !! x) as [p|] eqn:Ep; [|done]. cbn [mbind option_bind].
  destruct (ended_by p) as [y|] eqn:Ey; [|done].
  pose proof (ended_by_below _ _ _ (wf_parents _ Hwf _ _ Ep) Ey) as Hy.
  destruct (decide (y < n)%nat); [apply IH; lia|lia].
Qed.

Lemma linked_step st id x p y : wf_ctxs st -> parents_of st !! x = Some p -> ended_by p = Some y ->
  linked (depth st) st id y = true -> linked (depth st) st id x = true.
Proof using Type.
  intros Hwf Hp Hy Hl. unfold depth in *. pose proof (lookup_lt_Some _ _ _ Hp) as Hx.
  pose proof (ended_by_below _ _ _ (wf_parents _ Hwf _ _ Hp) Hy) as Hyx.
  destruct (length (parents_of st)) as [|n]; [lia|]. cbn [linked]. rewrite Hp. cbn [mbind option_bind]. rewrite Hy.
  rewrite (linked_fuel st Hwf n) in Hl by lia. rewrite Hl. by rewrite orb_true_r.
Qed.

Lemma cancel_wf st id err cause : wf_ctxs st -> (id < length (parents_of st))%nat -> wf_ctxs (cancel st id err cause).
Proof using Type.
  intros Hwf Hid. destruct (ended st !! id) as [r|] eqn:Ee.
  { unfold cancel. by rewrite decide_True by eauto. }
  assert (parents_of (cancel st id err cause) = parents_of st) as Hpar by (unfold cancel; by case_decide).
  split; rewrite ?Hpar.
  - apply Hwf.
  - intros x. rewrite cancel_lookup by done. destruct (ended st !! x) eqn:Ex.
    + intros _. apply (wf_ended _ Hwf). by eexists.
    + case_decide as Hx; [by intros _; apply Hx|by intros [? ?]].
  - intros x p Hp. rewrite Err_ended_by. destruct (ended_by p) as [y|] eqn:Ey; cbn [mbind option_bind]; [|by intros [? ?]].
    rewrite fmap_is_Some, !cancel_lookup by done. intros Hs.
    destruct (ended st !! x) eqn:Ex; [by eexists|].
    destruct (ended st !! y) as [r|] eqn:Ey'.
    + pose proof (wf_down _ Hwf _ _ Hp) as Hd. rewrite Err_ended_by, Ey in Hd. cbn [mbind option_bind] in Hd.
      rewrite Ey', Ex in Hd. destruct Hd as [? ?]; [by eexists|done].
    + case_decide as Hy; [|by destruct Hs]. rewrite decide_True; [by eexists|].
      split; [by eapply lookup_lt_Some|]. eapply linked_step; [done..|apply Hy].
Qed.

Lemma WithCancelCause_wf st parent : wf_ctxs st -> below (length (parents_of st)) parent ->
  wf_ctxs (WithCancelCause st parent).1.
Proof using Type.
  intros Hwf Hb. set (n := length (parents_of st)) in *.
  set (en := ended (WithCancelCause st parent).1).
  assert (forall x, (x < n)%nat -> en !! x = ended st !! x) as Hold.
  { intros x Hx. unfold en, WithCancelCause. cbn [fst ended]. destruct (Err st parent); [|done].
    rewrite lookup_insert_ne; [done|]. fold n. lia. }
  assert (forall c, below n c -> Err (WithCancelCause st parent).1 c = Err st c) as Herr.
  { intros c Hc. rewrite !Err_ended_by. destruct (ended_by c) as [y|] eqn:Ey; [|done]. cbn [mbind option_bind].
    fold en. by rewrite Hold by by eapply ended_by_below. }
  assert (forall id p, parents_of (WithCancelCause st parent).1 !! id = Some p ->
    parents_of st !! id = Some p \/ id = n /\ p = parent) as Hlook.
  { intros id p. unfold WithCancelCause. cbn [fst parents_of]. rewrite lookup_app. fold n.
    destruct (parents_of st !! id) as [q|] eqn:Eq; [by left|]. apply lookup_ge_None in Eq. fold n in Eq.
    destruct (id - n)%nat eqn:Ed; cbn; [intros [= ->]; right; split; [lia|done]|done]. }
  split.
  - intros id p [Hp|[-> ->]]%Hlook; [by eapply wf_parents|done].
  - intros id. unfold WithCancelCause at 2. cbn [fst parents_of]. rewrite length_app. cbn [length]. fold n en.
    intros Hs. destruct (decide (id < n)%nat); [lia|]. unfold en, WithCancelCause in Hs. cbn [fst ended] in Hs. fold n in Hs.
    destruct (Err st parent); [rewrite lookup_insert in Hs; case_decide; [lia|]|];
      apply (wf_ended _ Hwf) in Hs; fold n in Hs; lia.
  - intros id p [Hp|[-> ->]]%Hlook; fold en.
    + pose proof (lookup_lt_Some _ _ _ Hp) as Hlt. fold n in Hlt.
      assert (below n p) by (eapply (below_mono id); [lia|by eapply wf_parents]).
      rewrite Herr, Hold by done. by eapply wf_down.
    + rewrite Herr by done. intros [e He]. unfold en, WithCancelCause. cbn [fst ended]. rewrite He. fold n.
      rewrite lookup_insert_eq. by eexists.
Qed.

Lemma background_wf : wf_ctxs (MkCtxs (Obj := Obj) [] ∅ ∅).
Proof using Type. split; cbn; [done| |done]. by intros id [? ?]. Qed.

(** What ends a context that was alive. *)
Lemma cancel_Err_linked st id err cause c y : ended st !! id = None -> below (length (parents_of st)) c ->
  ended_by c = Some y -> Err st c = None ->
  Err (cancel st id err cause) c = if linked (depth st) st id y then Some err else None.
Proof using Type.
  intros Hid Hb Hy He. rewrite Err_ended_by, Hy in *. cbn [mbind option_bind] in *. rewrite cancel_lookup by done.
  destruct (ended st !! y); [done|]. pose proof (ended_by_below _ _ _ Hb Hy).
  destruct (linked (depth st) st id y); case_decide; naive_solver.
Qed.

Lemma ended_by_cancel_ctx c x : ended_by c = Some x -> cancel_ctx_of c = Some x.
Proof using Type. induction c; cbn; auto; done. Qed.

(** The causes of contexts that end go with the errors. *)
Lemma Err_Cause st c : is_Some (Err st c) -> is_Some (Cause st c).
Proof using Type.
  rewrite Err_ended_by. intros Hs. unfold Cause.
  assert (forall x, ended_by c = Some x -> cause_ctx c = Some x) as Hc.
  { intros x Hx. pose proof (ended_by_cancel_ctx c x Hx) as Hcc. by destruct c. }
  destruct (ended_by c) as [x|]; [|by destruct Hs]. rewrite (Hc x eq_refl). cbn [mbind option_bind] in Hs.
  destruct (ended st !! x); [by eexists|by destruct Hs].
Qed.

(** A context over a detached one, with values only in between. *)
Fixpoint over_detached (vs : list (ckey * cval)) (p : ctx) : ctx :=
  match vs with [] => NoDeadline p | (k, v) :: vs => ValueCtx k v (over_detached vs p) end.

Lemma over_detached_facts vs p st : ended_by (over_detached vs p) = None /\
  cancel_ctx_of (over_detached vs p) = cancel_ctx_of p /\ never_done (over_detached vs p) = true /\
  (forall n, below n (over_detached vs p) <-> below n p).
Proof using Type. clear obj_set obj_value. induction vs as [|[k v] vs IH]; cbn; [by split_and!|]. tauto. Qed.

Lemma Deadline_detached own_deadline obj_deadline st p vs : Deadline own_deadline obj_deadline st (over_detached vs p) = None.
Proof using Type.
  clear obj_set obj_value. unfold Deadline. destruct (depth st); (induction vs as [|[k v] vs IH]; [done|exact IH]).
Qed.
End facts.

(** C37: a detached context keeps the values of its parent and nothing of its end: whatever has
    been canceled, it is not done, it has no error, no deadline and no cause, and a cancelable
    context made from it, with values or not, is alive and stays so when any older
    context is canceled. But with a value on top of it, [context.Cause] returns the
    cause of the parent's nearest cancelable context. *)
Theorem detached_context {Obj} (obj_value : ckey -> Obj -> option cval) (st : Ctxs Obj) (p : ctx) (vs : list (ckey * cval)) :
  wf_ctxs st -> below (length (parents_of st)) p ->
  let d := over_detached vs p in
  Err st d = None /\ never_done d = true /\
  (forall own_deadline obj_deadline, Deadline own_deadline obj_deadline st d = None) /\
  (forall key, Value obj_value st key (NoDeadlineAndNotCancellableContext p) = Value obj_value st key p) /\
  (let r := WithCancelCause st d in
   wf_ctxs r.1 /\ Err r.1 (CancelCtx r.2) = None /\
   forall id err cause, (id < length (parents_of st))%nat -> Err (cancel r.1 id err cause) (CancelCtx r.2) = None) /\
  Cause st d = (if decide (vs = []) then None else x ← cancel_ctx_of p; snd <$> ended st !! x).
Proof.
  intros Hwf Hb. cbv zeta. destruct (over_detached_facts vs p st) as (He & Hc & Hn & Hbel).
  assert (Err st (over_detached vs p) = None) as Herr by (rewrite Err_ended_by, He; done).
  split; [done|]. split; [done|]. split; [intros own_deadline obj_deadline; apply Deadline_detached|].
  split; [intros key; apply Value_detached|]. split.
  - assert (wf_ctxs (WithCancelCause st (over_detached vs p)).1) as Hwf' by by apply WithCancelCause_wf, Hbel.
    unfold WithCancelCause in *. rewrite Herr in *. cbn [fst snd parents_of ended objs] in *.
    set (n := length (parents_of st)) in *. set (st1 := MkCtxs _ _ _) in *.
    assert (Err st1 (CancelCtx n) = None) as Hn0.
    { cbn. destruct (ended st !! n) eqn:E; [|done]. pose proof (wf_ended _ Hwf n ltac:(by eexists)). unfold n in *. lia. }
    split; [done|]. split; [done|]. intros id err cause Hid.
    destruct (ended st1 !! id) eqn:Ee; [unfold cancel; by rewrite decide_True by by eexists|].
    rewrite (cancel_Err_linked st1 id err cause (CancelCtx n) n Ee); [|cbn; rewrite length_app; cbn; unfold n; lia|done|done].
    unfold depth. cbn [st1 parents_of]. rewrite length_app. cbn [length]. rewrite Nat.add_1_r. cbn [linked].
    rewrite bool_decide_eq_false_2 by lia. cbn [parents_of]. unfold st1. cbn [parents_of].
    rewrite lookup_app_r, Nat.sub_diag by done. cbn [lookup list_lookup mbind option_bind]. by rewrite He.
  - unfold Cause. destruct vs as [|[k v] vs]; [by rewrite decide_True|]. rewrite decide_False by done.
    cbn [over_detached cause_ctx cancel_ctx_of] in *. rewrite Hc. destruct (cancel_ctx_of p); done.
Qed.

(** [Sleep] returns no error only when the time is over, and else the cause of the context's
    end; it returns as soon as one of both has happened. *)
Theorem sleep_result {Obj} (st : Ctxs Obj) (c : ctx) (timer : bool) :
  (forall r, Sleep st c timer r ->
     match r with
     | None => timer = true
     | Some e => is_Some (Err st c) /\ Cause st c = Some e
     end) /\
  ((exists r, Sleep st c timer r) <-> timer = true \/ is_Some (Err st c)).
Proof.
  split.
  - intros r [[-> ->]|[Hs ->]]; [done|]. destruct (Err_Cause st c Hs) as [e He]. by rewrite He.
  - split.
    + intros (r & [[-> _]|[? _]]); auto.
    + intros [->|Hs]; [exists None; by left|eexists; by right].
Qed.

(** A worker's context: the names are found in it, and the attributes of loggers are the
    parent's with those of the worker behind; also when the parent is an object that
    keeps what is set. *)
Section worker_context.
Context {Obj A : Type} (obj_set : string -> cval -> Obj -> Obj) (obj_value : ckey -> Obj -> option cval).
Context (zero : A) (grow : nat -> nat -> nat).
Hypothesis obj_get_set : forall s v o, obj_value (KStr s) (obj_set s v o) = Some v.
Hypothesis obj_get_other : forall s k v o, k <> KStr s -> obj_value k (obj_set s v o) = obj_value k o.

Lemma Value_CtxSetValue (st : Ctxs Obj) c s v key :
  (forall o, c = Settable o -> is_Some (objs st !! o)) ->
  let r := CtxSetValue obj_set st c (KStr s) v in
  Value obj_value r.1 key r.2 = (if decide (KStr s = key) then Some v else Value obj_value st key c) /\
  (forall o, r.2 = Settable o -> is_Some (objs r.1 !! o)).
Proof using obj_get_other obj_get_set.
  intros Ho. destruct c as [|id|k' v' p|p|o]; cbn [CtxSetValue fst snd]; try (split; [apply Value_value|done]).
  destruct (Ho o eq_refl) as [x Hx]. split.
  - unfold Value, depth. cbn [parents_of]. destruct (length (parents_of st)); cbn [value_in objs];
      rewrite lookup_alter_eq, Hx; cbn [fmap option_fmap option_map mbind option_bind];
      (case_decide as Hk; [subst key; apply obj_get_set|by rewrite obj_get_other by congruence]).
  - intros o' [= <-]. cbn [objs]. rewrite lookup_alter_eq, Hx. by eexists.
Qed.

Theorem worker_context (st : Ctxs Obj) parentCtx name wid attrs arrays old :
  (forall o, parentCtx = Settable o -> is_Some (objs st !! o)) ->
  Value obj_value st loggerAttrsCtxKey parentCtx = Some (VAttrs old) ->
  let '(st', c, arrays') := NewWorkerContext obj_set obj_value zero grow st parentCtx name wid attrs arrays in
  let new := append zero grow old (elems attrs arrays) arrays in
  GetWorkerName obj_value st' c = (name, true) /\ GetWorkerID obj_value st' c = (wid, true) /\
  Value obj_value st' loggerAttrsCtxKey c = Some (VAttrs new.1) /\ arrays' = new.2 /\
  GetRequestIDFromCtx obj_value st' c = GetRequestIDFromCtx obj_value st parentCtx.
Proof using obj_get_other obj_get_set.
  intros Ho Hold. unfold NewWorkerContext.
  destruct (CtxSetValue obj_set st parentCtx workerInfoKey (VWorkerInfo name wid)) as [st1 c1] eqn:E1. cbn [fst snd].
  assert (forall key, Value obj_value st1 key c1 = if decide (workerInfoKey = key) then Some (VWorkerInfo name wid) else Value obj_value st key parentCtx) as Hv1.
  { intros key. pose proof (Value_CtxSetValue st parentCtx "_fw_worker" (VWorkerInfo name wid) key Ho) as [Hv _].
    unfold workerInfoKey in E1. cbv zeta in Hv. by rewrite E1 in Hv. }
  assert (forall o, c1 = Settable o -> is_Some (objs st1 !! o)) as Ho1.
  { pose proof (Value_CtxSetValue st parentCtx "_fw_worker" (VWorkerInfo name wid) workerInfoKey Ho) as [_ Hs].
    unfold workerInfoKey in E1. cbv zeta in Hs. by rewrite E1 in Hs. }
  rewrite Hv1, decide_False, Hold by done. cbn [CtxAppendLoggerAttrs fst snd default from_option id].
  set (new := append zero grow old (elems attrs arrays) arrays).
  destruct (CtxSetValue obj_set st1 c1 loggerAttrsCtxKey (VAttrs new.1)) as [st2 c2] eqn:E2.
  assert (forall key, Value obj_value st2 key c2 = if decide (loggerAttrsCtxKey = key) then Some (VAttrs new.1) else Value obj_value st1 key c1) as Hv2.
  { intros key. pose proof (Value_CtxSetValue st1 c1 "_fw_logger_attrs" (VAttrs new.1) key Ho1) as [Hv _].
    unfold loggerAttrsCtxKey in E2. cbv zeta in Hv. by rewrite E2 in Hv. }
  unfold GetWorkerName, GetWorkerID, GetRequestIDFromCtx. rewrite !Hv2, !Hv1.
  repeat (rewrite decide_False by done). repeat (rewrite decide_True by done). done.
Qed.
End worker_context.

(** *** Witness: the parent is canceled, with a cause *)
Definition canceled_parent : Ctxs unit := cancel (WithCancelCause (MkCtxs [] ∅ ∅) Background).1 0 Canceled (Some (CauseErr 7)).

Lemma detached_context_witness :
  let d := NoDeadlineAndNotCancellableContext (CancelCtx 0) in
  Err canceled_parent d = None /\ Cause canceled_parent d = None /\
  Err canceled_parent (ValueCtx (KStr "k") (VAny 1) d) = None /\
  Cause canceled_parent (ValueCtx (KStr "k") (VAny 1) d) = Some (CauseErr 7).
Proof.
  assert (wf_ctxs canceled_parent) as Hwf.
  { apply cancel_wf; [|cbn; lia]. apply WithCancelCause_wf; [apply background_wf|done]. }
  destruct (detached_context (fun _ _ => None) canceled_parent (CancelCtx 0) [] Hwf) as (H1 & _ & _ & _ & _ & H2); [vm_compute; lia|].
  destruct (detached_context (fun _ _ => None) canceled_parent (CancelCtx 0) [(KStr "k", VAny 1)] Hwf) as (H3 & _ & _ & _ & _ & H4); [vm_compute; lia|].
  cbv zeta. split; [exact H1|]. split; [exact H2|]. split; [exact H3|]. cbn [over_detached] in H4. unfold NoDeadlineAndNotCancellableContext.
  rewrite H4. vm_compute. reflexivity.
Defined.
