(* ===== verification/LogPackage.v ===== *)
(** * log: the functions of the package and its default factory

    Models the functions of [log/logger_factory.go] that are not methods, and
    [LoggerFactory.SetCtx].  Factories are numbers; the state of the package has each
    factory with its loggers by path, what all of them share (the cells of the levels and
    what has been written), and the default factory.  Contexts are those of GoContext. *)

From S2P Require Import Prelude.
From S2P Require Import GoStrings.
From S2P Require Import Log.
From S2P Require Import GoContext.

Open Scope string_scope.
Open Scope list_scope.

(** A number that is not in [factories] is a nil pointer. *)
Record LogPackage (V : Type) := MkLogPackage {
  factories : list (LoggerFactory * gmap string (Logger V)); pk_cells : list Z; pk_written : list (Rec V);
  defaultLoggerFactory : nat }.
Arguments MkLogPackage {V}. Arguments factories {V}. Arguments pk_cells {V}. Arguments pk_written {V}.
Arguments defaultLoggerFactory {V}.

Definition loggerFactoryCtxKey : ckey := KStr "_fw_logger_factory".

Section package.
Context {V Obj : Type} (other_text : value V -> string) (SemVer : string).
Context (obj_set : string -> cval -> Obj -> Obj) (obj_value : ckey -> Obj -> option cval).
Implicit Types (p : LogPackage V) (st : Ctxs Obj) (c : ctx) (arrays : list (list (attr V))) (stack : list string).

(** The state of the package when it is initialised. *)
Definition package_start (root : LogConf) (levels : list (string * Z)) : LogPackage V :=
  MkLogPackage [(NewLoggerFactory root levels, ∅)] [] [] 0.
(** A factory that a client makes. *)
Definition allocate (lf : LoggerFactory) p : LogPackage V * nat :=
  (MkLogPackage (factories p ++ [(lf, ∅)]) (pk_cells p) (pk_written p) (defaultLoggerFactory p), length (factories p)).

Definition SetDefaultLoggerFactory (f : nat) p : LogPackage V :=
  MkLogPackage (factories p) (pk_cells p) (pk_written p) f.
Definition GetDefaultLoggerFactory p : nat := defaultLoggerFactory p.
Definition SetCtx (f : nat) st c : Ctxs Obj * ctx := CtxSetValue obj_set st c loggerFactoryCtxKey (VLoggerFactory f).

(** A method of factory [f]; [None]: it panics. *)
Definition on_factory (f : nat) (m : LoggerFactory -> LogState V -> option (Logger V * LogState V)) p : option (Logger V * LogPackage V) :=
  '(lf, loggers) ← factories p !! f;
  '(logger, s) ← m lf (MkLogState (pk_cells p) (pk_written p) loggers);
  Some (logger, MkLogPackage (<[f := (lf, loggersByPath s)]> (factories p)) (cells s) (written s) (defaultLoggerFactory p)).

(** What [runtime.Callers] gives to [findCallerPath] of a method that the function [own] of
    the package calls; [stack] are the functions from its caller's on. *)
Definition callers (own : string) stack : list string :=
  take 6 (("github.com/southernlabs-io/go-fw/log." +:+ own)%string :: stack).

Definition pkg_GetRootLogger p := on_factory (defaultLoggerFactory p) (GetRootLogger other_text SemVer) p.
Definition pkg_GetLoggerForPath (pth : string) p :=
  on_factory (defaultLoggerFactory p) (fun lf => GetLoggerForPath other_text SemVer lf pth) p.
Definition pkg_GetLoggerForType (forType : option rtype) p :=
  on_factory (defaultLoggerFactory p) (fun lf => GetLoggerForType other_text SemVer lf forType) p.
Definition pkg_GetLogger stack p :=
  on_factory (defaultLoggerFactory p) (fun lf => GetLogger other_text SemVer lf (callers "GetLogger" stack)) p.

(** The factory under the key of the context, else the default one. *)
Definition ctx_factory st c p : nat :=
  match Value obj_value st loggerFactoryCtxKey c with Some (VLoggerFactory f) => f | _ => defaultLoggerFactory p end.
(** [GetLoggerAttrsFromCtx] *)
Definition ctx_attrs st c arrays : list (attr V) :=
  GetLoggerAttrsFromCtx (match Value obj_value st loggerAttrsCtxKey c with Some (VAttrs sl) => Some sl | _ => None end) arrays.

Definition pkg_GetLoggerFromCtx st c arrays stack p :=
  on_factory (ctx_factory st c p)
    (fun lf => GetLoggerFromCtx other_text SemVer lf (ctx_attrs st c arrays) (callers "GetLoggerFromCtx" stack)) p.
Definition pkg_GetLoggerFromCtxForType st c arrays (forType : option rtype) p :=
  on_factory (ctx_factory st c p)
    (fun lf => GetLoggerFromCtxForType other_text SemVer lf (ctx_attrs st c arrays) forType) p.
Definition pkg_GetLoggerFromCtxForPath st c arrays (pth : string) p :=
  on_factory (ctx_factory st c p)
    (fun lf => GetLoggerFromCtxForPath other_text SemVer lf (ctx_attrs st c arrays) pth) p.
End package.

(** ** What the functions do *)
Section package_facts.
Context {V Obj : Type} (other_text : value V -> string) (SemVer : string).
Context (obj_set : string -> cval -> Obj -> Obj) (obj_value : ckey -> Obj -> option cval).
Hypothesis obj_get_set : forall s v o, obj_value (KStr s) (obj_set s v o) = Some v.
Hypothesis obj_get_other : forall s k v o, k <> KStr s -> obj_value k (obj_set s v o) = obj_value k o.
Implicit Types (p : LogPackage V) (st : Ctxs Obj) (c : ctx) (arrays : list (list (attr V))).

(** A context that [SetCtx] made leads to that factory, whatever the default one is, also
    when it is detached from its parent; the attributes are those of the parent. *)
Lemma ctx_factory_SetCtx f st c arrays p :
  (forall o, c = Settable o -> is_Some (objs st !! o)) ->
  let r := SetCtx obj_set f st c in
  ctx_factory obj_value r.1 r.2 p = f /\
  ctx_factory obj_value r.1 (NoDeadlineAndNotCancellableContext r.2) p = f /\
  ctx_attrs obj_value r.1 r.2 arrays = ctx_attrs obj_value st c arrays.
Proof using obj_get_other obj_get_set.
  intros Ho. cbv zeta. unfold ctx_factory, ctx_attrs, SetCtx, loggerFactoryCtxKey, NoDeadlineAndNotCancellableContext.
  rewrite Value_detached.
  pose proof (fun key => Value_CtxSetValue obj_set obj_value obj_get_set obj_get_other st c "_fw_logger_factory" (VLoggerFactory f) key Ho) as Hv.
  cbv zeta in Hv. rewrite !(proj1 (Hv _)), decide_True, decide_False by done. done.
Qed.

(** A logger for a path that the factory has had a logger for is that logger. *)
Lemma GetLoggerForPath_again lf pth (s : LogState V) l s' :
  GetLoggerForPath other_text SemVer lf pth s = Some (l, s') ->
  loggersByPath s' !! pth = Some l /\ written s' = written s /\
  (forall q, q <> pth -> loggersByPath s' !! q = loggersByPath s !! q) /\
  GetLoggerForPath other_text SemVer lf pth s' = Some (l, s').
Proof using Type.
  unfold GetLoggerForPath, GetLoggerFromCtxForPath. intros H.
  destruct (loggersByPath s !! pth) as [l0|] eqn:E.
  { cbn in H. injection H as <- <-. rewrite E. done. }
  destruct (newLogger other_text SemVer lf pth s) as [[l1 s1]|] eqn:En; [|done].
  cbn in H. injection H as <- <-. cbn [loggersByPath cells written].
  assert (written s1 = written s /\ loggersByPath s1 = loggersByPath s) as [Hw Hl].
  { revert En. unfold newLogger, NewLoggerWithWriter, SetLevel. cbn [cells written loggersByPath].
    destruct (newLogger_writer lf); [|done]. cbn [mbind option_bind].
    destruct (WithAttrs _ _ _) as [lg|]; [|done]. cbn [mbind option_bind].
    destruct (level_loop _ _ _ _) as [[lv|]|]; [| |done]; by intros [= _ <-]. }
  rewrite lookup_insert_eq. split_and!; [done|done| |done].
  intros q Hq. by rewrite lookup_insert_ne, Hl.
Qed.

(** A function of the package acts as the method of one factory: the other
    factories and the default one stay, and a number that is no factory panics. *)
Lemma on_factory_frame f m p l p' :
  on_factory (V := V) f m p = Some (l, p') ->
  defaultLoggerFactory p' = defaultLoggerFactory p /\ length (factories p') = length (factories p) /\
  (f < length (factories p))%nat /\
  (forall g, g <> f -> factories p' !! g = factories p !! g) /\
  fst <$> factories p' = fst <$> factories p.
Proof using Type.
  unfold on_factory. destruct (factories p !! f) as [[lf ls]|] eqn:E; [|done]. cbn [mbind option_bind].
  destruct (m lf _) as [[l1 s1]|]; [|done]. cbn [mbind option_bind]. intros [= <- <-].
  cbn [defaultLoggerFactory factories]. pose proof (lookup_lt_Some _ _ _ E) as Hf.
  split_and!; [done|apply length_insert|done| |].
  - intros g Hg. by rewrite list_lookup_insert_ne.
  - apply list_eq. intros g. rewrite !list_lookup_fmap. destruct (decide (g = f)) as [->|Hg].
    + by rewrite list_lookup_insert_eq, E.
    + by rewrite list_lookup_insert_ne.
Qed.

(** [GetLogger] of the package is for the same path as the method called from the same
    place, when there are at most five callers. *)
Lemma callers_path own frames : HasPrefix own "GetLogger" = true -> (length frames <= 5)%nat ->
  findCallerPath (callers own frames) = findCallerPath frames.
Proof using Type.
  intros Ho Hn. unfold callers. cbn [take]. rewrite take_ge by done. cbn [findCallerPath].
  replace (existsb _ skipPathPrefixes) with true; [done|]. symmetry. apply existsb_exists.
  exists "github.com/southernlabs-io/go-fw/log.GetLogger". split; [by right; right; left|].
  revert Ho. unfold HasPrefix. cbn. done.
Qed.

(** In a process whose default factory is replaced, a context made before by [SetCtx]
    still leads to its own factory; a path asked for twice gives one logger, and the
    other factories stay as they were. *)
Theorem package_loggers f g st c pth p l p' arrays :
  (forall o, c = Settable o -> is_Some (objs st !! o)) -> ctx_attrs obj_value st c arrays = [] ->
  let r := SetCtx obj_set f st c in
  pkg_GetLoggerFromCtxForPath other_text SemVer obj_value r.1 r.2 arrays pth p = Some (l, p') ->
  pkg_GetLoggerFromCtxForPath other_text SemVer obj_value r.1 r.2 arrays pth (SetDefaultLoggerFactory g p') =
    Some (l, SetDefaultLoggerFactory g p') /\
  pkg_GetLoggerForPath other_text SemVer pth (SetDefaultLoggerFactory f p') = Some (l, SetDefaultLoggerFactory f p') /\
  pk_written p' = pk_written p /\
  (forall h, h <> f -> factories p' !! h = factories p !! h).
Proof using obj_get_other obj_get_set.
  cbv zeta. intros Ho Ha.
  destruct (ctx_factory_SetCtx f st c arrays p Ho) as (Hf & _ & Hat).
  destruct (ctx_factory_SetCtx f st c arrays (SetDefaultLoggerFactory g p') Ho) as (Hf' & _ & _).
  unfold pkg_GetLoggerFromCtxForPath, pkg_GetLoggerForPath. rewrite Hf, Hf', Hat, Ha.
  cbn [SetDefaultLoggerFactory defaultLoggerFactory]. intros H.
  destruct (on_factory_frame _ _ _ _ _ H) as (_ & _ & Hlt & Hframe & _).
  revert H. unfold on_factory, SetDefaultLoggerFactory. cbn [factories pk_cells pk_written defaultLoggerFactory].
  destruct (factories p !! f) as [[lf ls]|]; [|done]. cbn [mbind option_bind].
  destruct (GetLoggerFromCtxForPath other_text SemVer lf [] pth _) as [[l1 s1]|] eqn:E; [|done].
  cbn [mbind option_bind]. intros [= <- <-]. cbn [factories pk_cells pk_written defaultLoggerFactory] in *.
  destruct (GetLoggerForPath_again _ _ _ _ _ E) as (_ & Hw & _ & Hag). unfold GetLoggerForPath in *.
  rewrite list_lookup_insert_eq by done. cbn [mbind option_bind].
  replace (MkLogState (cells s1) (written s1) (loggersByPath s1)) with s1 by by destruct s1.
  rewrite Hag. cbn [mbind option_bind]. rewrite list_insert_insert_eq. done.
Qed.
End package_facts.
