(* ===== verification/Router.v ===== *)
(** * rest: routes with metadata

    Models [rest/gin_routergroup.go] and [rest/gin_routergroup_internal.go]: groups of
    routes that share one mapping from paths and methods to metadata. gin's groups
    are a library: how it joins paths and which routes it refuses are parameters. *)

From S2P Require Import Prelude.
From S2P Require Import GoStrings.
From S2P Require Import GoPath.

Open Scope string_scope.
Open Scope list_scope.

Section router.
Context {A : Type}.  (** metadata *)
Context (joinPaths : string -> string -> string).  (** the path of gin for a path relative to a group's *)
Context (refused : list (string * string) -> string * string -> bool).  (** gin panics *)

Notation MetaMapping := (gmap string (gmap string (list A))).

(** A group: gin's base path and the metadata of the group; the mapping and gin's routes
    are shared. *)
Record GinRouterGroup := MkGroup { BasePath : string; groupMetadata : list A }.
Record Router := MkRouter { byPath : MetaMapping; routes : list (string * string) }.
Implicit Types (g : GinRouterGroup) (r : Router).

(** [base]: the path of gin's group. *)
Definition NewGinRouterGroup (base : string) : GinRouterGroup := MkGroup base [].

Definition GetMetaByFullPath (fullPath : string) (httpMethod : string) r : list A :=
  default [] (default ∅ (byPath r !! fullPath) !! httpMethod).

(** [MetaMapping] copies the mapping of paths; the mappings of methods under them are shared with
    the router. What a copy that was taken at [r] shows when the router is at [r']. *)
Definition MetaMapping_shows r r' : MetaMapping := filter (fun e => is_Some (byPath r !! e.1)) (byPath r').

(** [value]: what the context of a request has under the key. *)
Definition GetPathMetaFromCtx (value : option (list A)) : list A := match value with Some meta => meta | None => [] end.

(** What [middleware] puts into the context of a request for a route. *)
Definition middleware (route : string * string) r : list A := GetMetaByFullPath route.2 route.1 r.

Definition addMeta g (relativePath : string) (httpMethod : string) (metadata : option A) r : Router :=
  let fullPath := Join2 (BasePath g) relativePath in
  let pathMapping := default ∅ (byPath r !! fullPath) in
  let metas := default (groupMetadata g) (pathMapping !! httpMethod) in
  let metas := match metadata with Some m => metas ++ [m] | None => metas end in
  MkRouter (<[fullPath := <[httpMethod := metas]> pathMapping]> (byPath r)) (routes r).

(** gin's [Handle] of one method. *)
Definition gin_Handle g (httpMethod : string) (relativePath : string) r : option Router :=
  let route := (httpMethod, joinPaths (BasePath g) relativePath) in
  if refused (routes r) route then None else Some (MkRouter (byPath r) (routes r ++ [route])).

Definition Handle g (httpMethod : string) (relativePath : string) r : option Router :=
  gin_Handle g httpMethod relativePath (addMeta g relativePath httpMethod None r).
Definition HandleWithMeta g (httpMethod : string) (relativePath : string) (metadata : option A) r : option Router :=
  gin_Handle g httpMethod relativePath (addMeta g relativePath httpMethod metadata r).

(** gin registers every method; the code adds no metadata. *)
Fixpoint Match g (methods : list string) (relativePath : string) r : option Router :=
  match methods with
  | [] => Some r
  | m :: methods => r ← gin_Handle g m relativePath r; Match g methods relativePath r
  end.
(** The loop returns in its first turn. *)
Definition MatchWithMeta g (methods : list string) (relativePath : string) (metadata : option A) r : option Router :=
  match methods with
  | method :: _ => HandleWithMeta g method relativePath metadata r
  | [] => Some r
  end.

Definition GroupWithMeta g (relativePath : string) (metadata : option A) : GinRouterGroup :=
  MkGroup (joinPaths (BasePath g) relativePath) (groupMetadata g ++ match metadata with Some m => [m] | None => [] end).
Definition Group g (relativePath : string) : GinRouterGroup := GroupWithMeta g relativePath None.

Definition GETWithMeta g (relativePath : string) (metadata : option A) r := HandleWithMeta g "GET" relativePath metadata r.
Definition POSTWithMeta g (relativePath : string) (metadata : option A) r := HandleWithMeta g "POST" relativePath metadata r.
Definition PUTWithMeta g (relativePath : string) (metadata : option A) r := HandleWithMeta g "PUT" relativePath metadata r.
Definition PATCHWithMeta g (relativePath : string) (metadata : option A) r := HandleWithMeta g "PATCH" relativePath metadata r.
Definition DELETEWithMeta g (relativePath : string) (metadata : option A) r := HandleWithMeta g "DELETE" relativePath metadata r.
Definition OPTIONSWithMeta g (relativePath : string) (metadata : option A) r := HandleWithMeta g "OPTIONS" relativePath metadata r.
Definition HEADWithMeta g (relativePath : string) (metadata : option A) r := HandleWithMeta g "HEAD" relativePath metadata r.

Definition GET g (relativePath : string) r := Handle g "GET" relativePath r.
Definition POST g (relativePath : string) r := Handle g "POST" relativePath r.
Definition PUT g (relativePath : string) r := Handle g "PUT" relativePath r.
Definition PATCH g (relativePath : string) r := Handle g "PATCH" relativePath r.
Definition DELETE g (relativePath : string) r := Handle g "DELETE" relativePath r.
Definition OPTIONS g (relativePath : string) r := Handle g "OPTIONS" relativePath r.
Definition HEAD g (relativePath : string) r := Handle g "HEAD" relativePath r.

(** A group within groups, from the outermost on. *)
Definition nested (base : string) (path : list (string * option A)) : GinRouterGroup :=
  foldl (fun g e => GroupWithMeta g e.1 e.2) (NewGinRouterGroup base) path.

Lemma nested_metadata base path : groupMetadata (nested base path) = omap snd path.
Proof using Type.
  unfold nested. assert (forall g, groupMetadata (foldl (fun g e => GroupWithMeta g e.1 e.2) g path) = groupMetadata g ++ omap snd path) as H.
  { induction path as [|[rel [m|]] path IH]; intros g; cbn [foldl omap list_omap]; [by rewrite app_nil_r|..]; rewrite IH; cbn;
      by rewrite <- ?app_assoc, ?app_nil_r. }
  apply H.
Qed.

Lemma addMeta_get g rel m meta r p m' :
  GetMetaByFullPath p m' (addMeta g rel m meta r) =
  if bool_decide (p = Join2 (BasePath g) rel /\ m' = m) then
    default (groupMetadata g) (default ∅ (byPath r !! p) !! m') ++ match meta with Some x => [x] | None => [] end
  else GetMetaByFullPath p m' r.
Proof using Type.
  unfold GetMetaByFullPath, addMeta. cbn [byPath]. case_bool_decide as Hc.
  - destruct Hc as [-> ->]. rewrite lookup_insert_eq. cbn [default from_option id]. rewrite lookup_insert_eq. cbn [default from_option id].
    destruct meta; [done|by rewrite app_nil_r].
  - destruct (decide (p = Join2 (BasePath g) rel)) as [->|Hp]; [|by rewrite lookup_insert_ne].
    rewrite lookup_insert_eq. cbn [default from_option id]. rewrite lookup_insert_ne; [done|]. intros ->. by apply Hc.
Qed.
(** A copy shows at once all that there is, later also what is added to its paths, and nothing
    of other paths. *)
Lemma MetaMapping_shared g rel m meta r p :
  let r' := addMeta g rel m meta r in
  MetaMapping_shows r r = byPath r /\
  MetaMapping_shows r r' !! p = if bool_decide (is_Some (byPath r !! p)) then byPath r' !! p else None.
Proof using Type.
  cbv zeta. unfold MetaMapping_shows. split.
  - apply map_eq. intros q. destruct (byPath r !! q) as [x|] eqn:E.
    + apply map_lookup_filter_Some. split; [done|]. cbn. by rewrite E.
    + apply map_lookup_filter_None. by left.
  - case_bool_decide as Hs.
    + destruct (byPath (addMeta g rel m meta r) !! p) as [x|] eqn:E; [by apply map_lookup_filter_Some|].
      apply map_lookup_filter_None. by left.
    + apply map_lookup_filter_None. right. intros x _. done.
Qed.
End router.
Arguments GinRouterGroup : clear implicits.
Arguments Router : clear implicits.

(** C33: metadata of routes: a request for a route that was registered once, in groups
    within groups, finds the metadata of the groups from the outermost on and then the
    route's, provided that gin's full path is the clean one; where it is not, as for a path that
    ends in a slash, it finds what it found before. Other paths and methods keep
    what they had. Of several methods given to [MatchWithMeta] only the first is registered. *)
Theorem route_metadata {A} (joinPaths : string -> string -> string) (refused : list (string * string) -> string * string -> bool)
    (base : string) (path : list (string * option A)) (rel method : string) (meta : option A) (r r' : Router A) (p m : string) :
  let g := nested joinPaths base path in
  let full := joinPaths (BasePath g) rel in
  HandleWithMeta joinPaths refused g method rel meta r = Some r' ->
  default ∅ (byPath r !! full) !! method = None ->
  (method, full) ∈ routes r' /\
  middleware (method, full) r' =
    (if bool_decide (full = Join2 (BasePath g) rel) then omap snd (path ++ [(rel, meta)]) else middleware (method, full) r) /\
  (p <> Join2 (BasePath g) rel \/ m <> method -> middleware (m, p) r' = middleware (m, p) r) /\
  (forall methods, MatchWithMeta joinPaths refused g (method :: methods) rel meta r = Some r').
Proof.
  cbv zeta. set (g := nested _ _ _). intros Hh Hnew. pose proof Hh as Hm. unfold HandleWithMeta, gin_Handle in Hh. destruct (refused _ _); [done|]. injection Hh as <-.
  split; [cbn; set_solver|].
  assert (forall m0 p0, middleware (m0, p0) (MkRouter (byPath (addMeta g rel method meta r)) (routes (addMeta g rel method meta r) ++ [(method, joinPaths (BasePath g) rel)])) =
    GetMetaByFullPath p0 m0 (addMeta g rel method meta r)) as Hg by reflexivity.
  split; [|split].
  - rewrite Hg, addMeta_get. case_bool_decide as Hf; [|rewrite bool_decide_eq_false_2; [done|by intros He; apply Hf]].
    rewrite bool_decide_eq_true_2 by apply Hf. rewrite Hnew. cbn [default from_option id]. unfold g. rewrite nested_metadata, omap_app. cbn. by destruct meta.
  - intros Hne. rewrite Hg, addMeta_get, bool_decide_eq_false_2; [done|]. naive_solver.
  - intros methods. exact Hm.
Qed.

(** ** gin's paths

    As documented: [path.Join], and a slash at the end of the relative path stays. *)
Definition gin_joinPaths (abs rel : string) : string :=
  if bool_decide (rel = "") then abs
  else
    let p := Join2 abs rel in
    if HasSuffix rel "/" && negb (HasSuffix p "/") then p +:+ "/" else p.
Definition gin_refuses (routes : list (string * string)) (route : string * string) : bool := bool_decide (route ∈ routes).

(** The first example of the documentation. *)
Definition example_router : option (Router string) :=
  let resources := GroupWithMeta gin_joinPaths (NewGinRouterGroup "/") "resources" (Some "first_level") in
  r ← GET gin_joinPaths gin_refuses resources ":id" (MkRouter ∅ []);
  let sub := GroupWithMeta gin_joinPaths resources "sub-resources" (Some "second_level") in
  r ← GETWithMeta gin_joinPaths gin_refuses sub "" (Some "list") r;
  r ← GET gin_joinPaths gin_refuses sub ":id" r;
  let lowest := GroupWithMeta gin_joinPaths sub "lowest-resource" (Some "third_level") in
  POSTWithMeta gin_joinPaths gin_refuses lowest ":id" (Some "create") r.

Example documented_metadata :
  (fun r => (middleware ("GET", "/resources/:id") r, middleware ("GET", "/resources/sub-resources") r,
             middleware ("GET", "/resources/sub-resources/:id") r,
             middleware ("POST", "/resources/sub-resources/lowest-resource/:id") r)) <$> example_router =
  Some (["first_level"], ["first_level"; "second_level"; "list"], ["first_level"; "second_level"],
        ["first_level"; "second_level"; "third_level"; "create"]).
Proof. vm_compute. reflexivity. Qed.

(** A route whose path ends in a slash has no metadata. *)
Example slash_without_metadata :
  (fun r => (routes r, middleware ("GET", "/orders/") r)) <$>
    GETWithMeta gin_joinPaths gin_refuses (NewGinRouterGroup "/") "orders/" (Some "list") (MkRouter ∅ []) =
  Some ([("GET", "/orders/")], []).
Proof. vm_compute. reflexivity. Qed.

Lemma route_metadata_witness :
  exists r, HandleWithMeta gin_joinPaths gin_refuses (nested gin_joinPaths "/" [("resources", Some "first"); ("sub", None)]) "GET" ":id" (Some "get")
    (MkRouter ∅ []) = Some r /\ middleware ("GET", "/resources/sub/:id") r = ["first"; "get"].
Proof.
  eexists. split; [reflexivity|].
  exact (proj1 (proj2 (route_metadata gin_joinPaths gin_refuses "/" [("resources", Some "first"); ("sub", None)] ":id" "GET"
    (Some "get") (MkRouter ∅ []) _ "" "" eq_refl eq_refl))).
Defined.
