(* ===== verification/Middleware.v ===== *)
(** * rest: middleware

    Models [rest/middleware/middleware.go] (the order of middleware), [authn.go], [authz.go],
    [health.go], [ready.go], [db_trx.go] and what [request_logger.go] decides. gin's context is
    a record of what these functions read and write; the providers of authentication
    and authorisation and the checks are parameters. *)

From S2P Require Import Prelude.
From S2P Require Import GoStrings.
From S2P Require Import GoPath.
From S2P Require Import Errors.
From S2P Require Import Config.
From S2P Require Import Database.
From S2P Require Import Log.
From stdpp Require Import sorting.

Open Scope string_scope.
Open Scope list_scope.
Open Scope Z_scope.

(** ** The order of middleware *)
Definition MiddlewarePriorityHighest : Z := 0.
Definition MiddlewarePriorityProbes : Z := 1000.
Definition MiddlewarePriorityAuthN : Z := 2000.
Definition MiddlewarePriorityAuthZ : Z := 3000.
Definition MiddlewarePriorityHeader : Z := 4000.
Definition MiddlewarePriorityBody : Z := 5000.
Definition MiddlewarePriorityDefault : Z := 6000.
Definition MiddlewarePriorityLowest : Z := 7000.

(** A middleware: its priority, the name and the package of its type, and itself. *)
Record Middleware (A : Type) := MkMiddleware { Priority : Z; Name : string; PkgPath : string; itself : A }.
Arguments MkMiddleware {A}. Arguments Priority {A}. Arguments Name {A}. Arguments PkgPath {A}. Arguments itself {A}.

(** Go's [<] on strings. *)
Definition lt_string (a b : string) : bool := String.leb a b && negb (bool_decide (a = b)).

(** The function that [NewMiddlewares] sorts with. *)
Definition compare {A} (a b : Middleware A) : Z :=
  if bool_decide (Priority a < Priority b) then -1
  else if bool_decide (Priority a = Priority b) then
    if lt_string (Name a) (Name b) then -1
    else if bool_decide (Name a = Name b) then
      if lt_string (PkgPath a) (PkgPath b) then -1
      else if bool_decide (PkgPath a = PkgPath b) then 0
      else 1
    else 1
  else 1.

(** What [slices.SortFunc] asks of a comparison, and what it promises then. *)
Record weak_order {A} (cmp : A -> A -> Z) : Prop := {
  cmp_irrefl : forall a, ~ cmp a a < 0;
  cmp_trans : forall a b c, cmp a b < 0 -> cmp b c < 0 -> cmp a c < 0;
  cmp_apart : forall a b c, cmp a b < 0 -> cmp a c < 0 \/ cmp c b < 0;
}.
Class SortFunc (sort : forall A, (A -> A -> Z) -> list A -> list A) : Prop := {
  sort_perm : forall A cmp l, weak_order cmp -> sort A cmp l ≡ₚ l;
  sort_sorted : forall A cmp l, weak_order cmp -> StronglySorted (fun a b => ~ cmp b a < 0) (sort A cmp l);
}.

(** [NewMiddlewares]: the order in which [Setup] calls the middleware. *)
Definition NewMiddlewares (sort : forall A, (A -> A -> Z) -> list A -> list A) {A} (ms : list (Middleware A)) : list (Middleware A) :=
  sort _ compare ms.

(** *** The order is that of priority, name and package *)
Definition key {A} (m : Middleware A) : Z * string * string := (Priority m, Name m, PkgPath m).
Definition before {A} (a b : Middleware A) : Prop :=
  Priority a < Priority b \/
  (Priority a = Priority b /\
    (lt_string (Name a) (Name b) = true \/ (Name a = Name b /\ lt_string (PkgPath a) (PkgPath b) = true))).

Lemma lt_string_spec a b : lt_string a b = true <-> String.le a b /\ a <> b.
Proof.
  unfold lt_string, String.le. rewrite andb_true_iff, negb_true_iff, bool_decide_eq_false. by rewrite Is_true_true.
Qed.
Lemma lt_string_irrefl a : lt_string a a = false.
Proof. unfold lt_string. by rewrite bool_decide_eq_true_2, andb_false_r. Qed.
Lemma lt_string_trans a b c : lt_string a b = true -> lt_string b c = true -> lt_string a c = true.
Proof.
  rewrite !lt_string_spec. intros [Hab Hne] [Hbc _]. split; [by transitivity b|]. intros ->. by destruct Hne; apply (anti_symm String.le).
Qed.
Lemma lt_string_total a b : lt_string a b = true \/ a = b \/ lt_string b a = true.
Proof. rewrite !lt_string_spec. destruct (decide (a = b)); [by auto|]. destruct (total String.le a b); auto. Qed.

Lemma compare_before {A} (a b : Middleware A) : compare a b < 0 <-> before a b.
Proof.
  unfold compare, before. repeat case_bool_decide; repeat match goal with |- context [if ?x then _ else _] => destruct x eqn:? end;
    naive_solver lia.
Qed.

Lemma before_irrefl {A} (a : Middleware A) : ~ before a a.
Proof. unfold before. rewrite !lt_string_irrefl. naive_solver lia. Qed.

Lemma before_trans {A} (a b c : Middleware A) : before a b -> before b c -> before a c.
Proof.
  unfold before. intros [Hp|[Ep Hn]] [Hq|[Eq Hm]]; [left; lia..|]. right. split; [congruence|].
  destruct Hn as [Hn|[En Hn]], Hm as [Hm|[Em Hm]].
  - left. by eapply lt_string_trans.
  - left. by rewrite <- Em.
  - left. by rewrite En.
  - right. split; [congruence|]. by eapply lt_string_trans.
Qed.

Lemma before_total {A} (a b : Middleware A) : before a b \/ key a = key b \/ before b a.
Proof.
  unfold before, key. destruct (Z.lt_trichotomy (Priority a) (Priority b)) as [?|[?|?]]; [auto| |auto].
  destruct (lt_string_total (Name a) (Name b)) as [?|[?|?]]; [auto| |auto 6].
  destruct (lt_string_total (PkgPath a) (PkgPath b)) as [?|[?|?]]; [auto 6| |auto 9]. right. left. congruence.
Qed.

Lemma before_key {A} (a b c : Middleware A) : key a = key b -> before a c <-> before b c.
Proof. unfold key, before. intros [= -> -> ->]. done. Qed.

Lemma compare_weak_order {A} : weak_order (@compare A).
Proof.
  split.
  - intros a. rewrite compare_before. apply before_irrefl.
  - intros a b c. rewrite !compare_before. apply before_trans.
  - intros a b c. rewrite !compare_before. intros Hab. destruct (before_total a c) as [?|[Hk|Hca]]; [by left|..]; right.
    + by apply (before_key a c b Hk).
    + by eapply before_trans.
Qed.

(** the order of middleware: whatever the order in which the container provides them,
    middleware is set up in the same order, by priority, then by the name and the package of its type,
    as long as no type is provided twice. *)
Theorem middleware_order {A} (sort : forall A, (A -> A -> Z) -> list A -> list A) `{!SortFunc sort} (ms ms' : list (Middleware A)) :
  NoDup (key <$> ms) -> ms ≡ₚ ms' ->
  NewMiddlewares sort ms ≡ₚ ms /\ StronglySorted before (NewMiddlewares sort ms) /\
  NewMiddlewares sort ms' = NewMiddlewares sort ms.
Proof.
  intros Hnd Hp.
  assert (forall l, l ≡ₚ ms -> NewMiddlewares sort l ≡ₚ ms /\ StronglySorted before (NewMiddlewares sort l)) as Hs.
  { intros l Hl. unfold NewMiddlewares.
    pose proof (@sort_perm sort _ (Middleware A) compare l compare_weak_order) as Hperm.
    pose proof (@sort_sorted sort _ (Middleware A) compare l compare_weak_order) as Hsorted.
    pose proof (transitivity Hperm Hl) as Hpm. split; [exact Hpm|]. rewrite <- Hpm in Hnd. clear Hpm Hperm.
    induction Hsorted as [|a l' Hs IH Ha]; [by constructor|]. rewrite fmap_cons in Hnd. apply NoDup_cons in Hnd as [Hni Hnd].
    constructor; [by apply IH|]. rewrite Forall_forall in Ha |- *. intros b Hb. specialize (Ha b Hb). rewrite compare_before in Ha.
    destruct (before_total a b) as [?|[Hk|?]]; [done| |done]. destruct Hni. rewrite Hk. by apply list_elem_of_fmap_2. }
  destruct (Hs ms) as [Hp1 Hs1]; [done|]. destruct (Hs ms') as [Hp2 Hs2]; [done|]. split; [done|]. split; [done|].
  apply (StronglySorted_unique_strong before); [|done|done|by rewrite Hp1, Hp2].
  intros x1 x2 _ _ H12 H21. destruct (before_irrefl x1). by eapply before_trans.
Qed.

(** ** Authentication *)

Definition PrincipalCtxKey : string := "authn_principal".
Definition AuthNExcludedCtxKey : string := "authn_excluded".

(** The exclusions, by prefix of a path: the methods, or none for all; what has been
    decided for a path and a method. *)
Record AuthNMiddleware := MkAuthN {
  BasePath : string;
  excludes : gmap string (list string);
  excludesCache : gmap (string * string) bool;
}.
Definition NewAuthN (base : string) : AuthNMiddleware := MkAuthN base ∅ ∅.

Definition ExcludePrefix (pathPrefix : string) (m : AuthNMiddleware) : AuthNMiddleware :=
  MkAuthN (BasePath m) (<[pathPrefix := []]> (excludes m)) (excludesCache m).

(** [None]: it panics. *)
Definition ExcludePrefixAndMethods (pathPrefix : string) (methods : list string) (m : AuthNMiddleware) : option AuthNMiddleware :=
  match methods with
  | [] => None
  | _ =>
      match excludes m !! pathPrefix with
      | Some [] => Some m
      | o => Some (MkAuthN (BasePath m) (<[pathPrefix := default [] o ++ methods]> (excludes m)) (excludesCache m))
      end
  end.

(** The function in [Require]; the order of iteration over the map does not matter. *)
Definition excluded (m : AuthNMiddleware) (path method : string) : bool :=
  if negb (HasPrefix path (BasePath m)) then true
  else
    existsb (fun e => HasPrefix path (Join2 (BasePath m) e.1) && (bool_decide (e.2 = []) || bool_decide (method ∈ e.2)))
      (map_to_list (excludes m)).

Section requests.
Context {V : Type} (zero : attr V) (grow : nat -> nat -> nat).
#[local] Notation Arrays := (list (list (attr V))).

Record Principal := MkPrincipal { GetID : value V; GetType : string }.

(** gin's context: the route, the keys, and how the request has been answered so far. *)
Record GinCtx := MkGinCtx {
  FullPath : string;
  Method : string;
  authn_principal : option Principal;
  authn_excluded : bool;
  logger_attrs : option Slice;
  aborted : bool;
  status : option Z;
  Errors : list error;
}.
Implicit Types (ctx : GinCtx) (st : Arrays).

Definition Abort ctx : GinCtx :=
  MkGinCtx (FullPath ctx) (Method ctx) (authn_principal ctx) (authn_excluded ctx) (logger_attrs ctx) true (status ctx) (Errors ctx).
Definition AbortWithStatus (code : Z) ctx : GinCtx :=
  MkGinCtx (FullPath ctx) (Method ctx) (authn_principal ctx) (authn_excluded ctx) (logger_attrs ctx) true (Some code) (Errors ctx).
Definition ctx_Error (err : error) ctx : GinCtx :=
  MkGinCtx (FullPath ctx) (Method ctx) (authn_principal ctx) (authn_excluded ctx) (logger_attrs ctx) (aborted ctx) (status ctx)
    (Errors ctx ++ [err]).
Definition set_excluded ctx : GinCtx :=
  MkGinCtx (FullPath ctx) (Method ctx) (authn_principal ctx) true (logger_attrs ctx) (aborted ctx) (status ctx) (Errors ctx).
Definition set_principal (p : Principal) (attrs : option Slice) ctx : GinCtx :=
  MkGinCtx (FullPath ctx) (Method ctx) (Some p) (authn_excluded ctx) attrs (aborted ctx) (status ctx) (Errors ctx).

Definition GetPrincipal ctx : option Principal := authn_principal ctx.
(** [inr]: it panics. *)
Definition MustGetPrincipal ctx : GinCtx * (Principal + unit) :=
  match GetPrincipal ctx with
  | Some p => (ctx, inl p)
  | None => (AbortWithStatus 401 ctx, inr tt)
  end.

Definition principalAttr (p : Principal) : attr V := ("usr", VGroup [("id", GetID p); ("type", VString (GetType p))]).

(** The place of the attribute in the slice, which [SetPrincipal] writes to. *)
Definition attr_index (k : string) (attrs : list (attr V)) : option nat := fst <$> list_find (fun a => a.1 = k) attrs.

Definition SetPrincipal (p : Principal) ctx st : GinCtx * Arrays :=
  let attrs := GetLoggerAttrsFromCtx (logger_attrs ctx) st in
  let a := principalAttr p in
  match logger_attrs ctx, attr_index a.1 attrs with
  | Some sl, Some idx => (set_principal p (Some sl) ctx, alter (fun l => <[idx := a]> l) (arr sl) st)
  | _, _ =>
      (** the variadic argument is an array of its own *)
      let r := CtxAppendLoggerAttrs zero grow (logger_attrs ctx) (MkSlice (length st) 1) (st ++ [[a]]) in
      (set_principal p r.1 ctx, r.2)
  end.

(** [authenticate]: what the provider returns; [invalid]: [errors.Is(err, ErrInvalidToken)]. *)
Definition Require (authenticate : GinCtx -> result error Principal) (invalid : error -> bool) (m : AuthNMiddleware) ctx st
    : AuthNMiddleware * (GinCtx * Arrays) :=
  let route := (FullPath ctx, Method ctx) in
  let ex := match excludesCache m !! route with Some b => b | None => excluded m route.1 route.2 end in
  let m := MkAuthN (BasePath m) (excludes m) (<[route := ex]> (excludesCache m)) in
  if ex then (m, (set_excluded ctx, st))
  else
    match authenticate ctx with
    | Err err => (m, (AbortWithStatus (if invalid err then 401 else 500) ctx, st))
    | Ok p => (m, SetPrincipal p ctx st)
    end.

(** ** Authorisation

    An argument of a provider: a value, or the arguments of the caller as one slice. *)
Inductive authz_arg := AnArg (v : V) | ArgSlice (vs : list authz_arg).

Context (defaults : Defaults) (callers : list Frame) (show : error -> string).

Definition handler (authorize : GinCtx -> list authz_arg -> bool * error) (args : list authz_arg) ctx : GinCtx :=
  if authn_excluded ctx then ctx
  else
    let r := authorize ctx [ArgSlice args] in
    match r.2 with
    | NilErr => if r.1 then ctx else AbortWithStatus 403 ctx
    | err =>
        let msg := "failed to authorize: " +:+ show err in
        Abort (ctx_Error (NewUnknownf defaults (WrapOne "*fmt.wrapError" msg err) msg callers) ctx)
    end.
Definition RequireCustom (authorize : GinCtx -> list authz_arg -> bool * error) (args : list authz_arg) : GinCtx -> GinCtx :=
  handler authorize args.
(** [AuthZMiddleware.Require], with the provider of the middleware. *)
Definition AuthZ_Require (provider : GinCtx -> list authz_arg -> bool * error) (args : list authz_arg) : GinCtx -> GinCtx :=
  RequireCustom provider args.

(** ** Health and readiness

    A check: its name and its error. The result: the status, the errors by name, and the
    errors added to the context; [order] is that of the iteration over the map. *)
Definition ErrCodeHealthCheckFailed : string := "HEALTH_CHECK_FAILED".
Definition ErrCodeReadyCheckFailed : string := "READY_CHECK_FAILED".

Definition failed_checks (checks : list (string * error)) : gmap string error :=
  foldl (fun failed c => match c.2 with NilErr => failed | err => <[c.1 := err]> failed end) ∅ checks.

Record probe_response := MkResponse { r_status : Z; r_failed : gmap string error; r_errors : list error }.
Definition probe (code what : string) (checks : list (string * error)) (order : list (string * error)) : probe_response :=
  let failed := failed_checks checks in
  if bool_decide (failed = ∅) then MkResponse 200 ∅ []
  else
    MkResponse 500 failed
      ((fun e =>
          let msg := what +:+ " check failed: " +:+ e.1 +:+ " with error: " +:+ show e.2 in
          Newf defaults code (WrapOne "*fmt.wrapError" msg e.2) msg callers) <$> order).
Definition HealthCheck (checks order : list (string * error)) : probe_response := probe ErrCodeHealthCheckFailed "health" checks order.
Definition ReadyCheck (checks order : list (string * error)) : probe_response := probe ErrCodeReadyCheckFailed "ready" checks order.
End requests.
Arguments Principal : clear implicits.
Arguments GinCtx : clear implicits.

(** ** What the request logger decides *)
Definition IsAbs (path : string) : bool := HasPrefix path "/".
Definition excludeMap (base : string) (excludes : list string) : gset string :=
  list_to_set ((fun e => if IsAbs e then e else Join2 base e) <$> excludes).
(** The level of the entry at the end of a request; [None]: the path is excluded. *)
Definition end_level (base : string) (excludes : list string) (fullPath : string) (status : Z) : option Z :=
  if bool_decide (fullPath ∈ excludeMap base excludes) then None
  else Some (if bool_decide (500 <= status) then LogLevelError else if bool_decide (400 <= status) then LogLevelWarn else LogLevelInfo).

(** ** Transactions of requests *)
Section transactions.
Context {C Stmt : Type} `{Sql C Stmt}.

(** After the handlers: a transaction of the context that the client opened and left
    open is rolled back; its error is only logged. *)
Definition rollback_dangling (ctx : Ctx) : M (Db C) unit :=
  match GetDBTxFromCtx ctx with
  | None => mret tt
  | Some t =>
      tx ← read_tx t;
      if negb (automatic tx) && negb (closed tx) then DBTx_Rollback t ;; mret tt else mret tt
  end.

(** [DatabaseTrxMiddleware.Run]: [next] are the handlers; the context they leave, and
    what else they leave, of which a panic goes on after the rollback. *)
Definition Run {R} (next : Ctx -> M (Db C) (Ctx * R)) (ctx : Ctx) : M (Db C) (Ctx * R) :=
  r ← next (MkCtx true (DBTxCtxKey ctx));
  rollback_dangling r.1 ;;
  mret r.
End transactions.

(** ** Which requests are excluded *)
Lemma excluded_spec m path method :
  excluded m path method = true <->
  HasPrefix path (BasePath m) = false \/
  exists pathPrefix methods, excludes m !! pathPrefix = Some methods /\
    HasPrefix path (Join2 (BasePath m) pathPrefix) = true /\ (methods = [] \/ method ∈ methods).
Proof.
  unfold excluded. destruct (HasPrefix path (BasePath m)); cbn [negb]; [|naive_solver].
  rewrite existsb_exists. split.
  - intros ([p ms] & Hin & Hc). right. exists p, ms. split; [by apply elem_of_map_to_list, list_elem_of_In|].
    apply andb_true_iff in Hc as [Hc [?%bool_decide_eq_true|?%bool_decide_eq_true]%orb_true_iff]; auto.
  - intros [?|(p & ms & Hl & Hp & Hm)]; [done|]. exists (p, ms). split; [by apply list_elem_of_In, elem_of_map_to_list|].
    cbn. rewrite Hp. cbn. destruct Hm as [->|Hm]; [done|]. by rewrite (bool_decide_eq_true_2 _ Hm), orb_true_r.
Qed.

(** What the functions that exclude add. *)
Lemma ExcludePrefix_spec pathPrefix m path method :
  excluded (ExcludePrefix pathPrefix m) path method =
  excluded m path method || HasPrefix path (Join2 (BasePath m) pathPrefix).
Proof.
  apply Bool.eq_iff_eq_true. rewrite orb_true_iff, !excluded_spec. cbn [BasePath excludes ExcludePrefix]. split.
  - intros [?|(p & ms & Hl & Hp & Hm)]; [by do 2 left|]. apply lookup_insert_Some in Hl as [[<- <-]|[_ Hl]]; [by right|]. left. right. eauto.
  - intros [[?|(p & ms & Hl & Hp & Hm)]|Hp]; [by left| |]; right.
    + destruct (decide (p = pathPrefix)) as [->|Hne]; [exists pathPrefix, []; rewrite lookup_insert_eq; by auto|].
      exists p, ms. rewrite lookup_insert_ne by done. by auto.
    + exists pathPrefix, []. rewrite lookup_insert_eq. by auto.
Qed.

Lemma ExcludePrefixAndMethods_spec pathPrefix methods m m' path method :
  ExcludePrefixAndMethods pathPrefix methods m = Some m' ->
  excluded m' path method =
  excluded m path method || (HasPrefix path (Join2 (BasePath m) pathPrefix) && bool_decide (method ∈ methods)).
Proof.
  intros He. assert (methods <> []) as Hne by by intros ->.
  apply Bool.eq_iff_eq_true. rewrite orb_true_iff, andb_true_iff, bool_decide_eq_true, !excluded_spec.
  unfold ExcludePrefixAndMethods in He. destruct methods as [|x methods]; [done|].
  assert (excludes m !! pathPrefix = Some [] /\ m' = m \/
    exists old, (excludes m !! pathPrefix = None /\ old = [] \/ excludes m !! pathPrefix = Some old /\ old <> []) /\
      m' = MkAuthN (BasePath m) (<[pathPrefix := old ++ x :: methods]> (excludes m)) (excludesCache m)) as [[Hl ->]|(old & Ho & ->)].
  { destruct (excludes m !! pathPrefix) as [[|y l]|] eqn:El; injection He as <-; [by left|right; by eexists; eauto..]. }
  - split; [by left|]. intros [?|[Hp Hm]]; [done|]. right. exists pathPrefix, []. by auto.
  - cbn [BasePath excludes]. split.
    + intros [?|(p & ms & Hl & Hp & Hm)]; [by do 2 left|]. apply lookup_insert_Some in Hl as [[<- <-]|[_ Hl]]; [|left; right; by eauto 6].
      destruct Hm as [Hm|Hm]; [by destruct old|]. apply elem_of_app in Hm as [Hm|Hm]; [|by right].
      destruct Ho as [[_ ->]|[Ho _]]; [by apply elem_of_nil in Hm|]. left. right. by eauto 6.
    + intros [[?|(p & ms & Hl & Hp & Hm)]|[Hp Hm]]; [by left|right..].
      * destruct (decide (p = pathPrefix)) as [->|Hd]; [|exists p, ms; rewrite lookup_insert_ne by done; by auto].
        exists pathPrefix, (old ++ x :: methods). rewrite lookup_insert_eq. split; [done|]. split; [done|]. right.
        destruct Ho as [[Ho _]|[Ho Hn]]; rewrite Ho in Hl; [done|]. injection Hl as ->. destruct Hm as [->|Hm]; [done|]. apply elem_of_app. by left.
      * exists pathPrefix, (old ++ x :: methods). rewrite lookup_insert_eq. split; [done|]. split; [done|]. right. apply elem_of_app. by right.
Qed.

(** The cache agrees with the exclusions, as long as these do not change. *)
Definition cache_ok (m : AuthNMiddleware) : Prop := map_Forall (fun r ex => ex = excluded m r.1 r.2) (excludesCache m).

Section guarded.
Context {V : Type} (zero : attr V) (grow : nat -> nat -> nat).
Implicit Types (ctx : GinCtx V) (st : list (list (attr V))).

Lemma Require_cases authenticate invalid m ctx st : cache_ok m ->
  let r := Require zero grow authenticate invalid m ctx st in
  cache_ok r.1 /\ BasePath r.1 = BasePath m /\ excludes r.1 = excludes m /\
  r.2 =
    if excluded m (FullPath ctx) (Method ctx) then (set_excluded ctx, st)
    else
      match authenticate ctx with
      | Err err => (AbortWithStatus (if invalid err then 401 else 500) ctx, st)
      | Ok p => SetPrincipal zero grow p ctx st
      end.
Proof using Type.
  cbv zeta. intros Hc. unfold Require. cbn [fst snd].
  assert (default (excluded m (FullPath ctx) (Method ctx)) (excludesCache m !! (FullPath ctx, Method ctx)) = excluded m (FullPath ctx) (Method ctx)) as Hex.
  { destruct (excludesCache m !! _) as [b|] eqn:Eb; [|done]. exact (Hc _ _ Eb). }
  assert (match excludesCache m !! (FullPath ctx, Method ctx) with Some b => b | None => excluded m (FullPath ctx) (Method ctx) end =
    excluded m (FullPath ctx) (Method ctx)) as -> by by destruct (excludesCache m !! _).
  set (m' := MkAuthN _ _ _).
  assert (cache_ok m') as Hc'.
  { intros route b. unfold m'. cbn [excludesCache]. rewrite lookup_insert_Some. intros [[<- <-]|[_ Hb]]; [done|]. exact (Hc _ _ Hb). }
  destruct (excluded m _ _); [done|]. by destruct (authenticate ctx).
Qed.

Lemma SetPrincipal_ctx p ctx st : exists attrs, (SetPrincipal zero grow p ctx st).1 = set_principal p attrs ctx.
Proof using Type.
  unfold SetPrincipal. destruct (logger_attrs ctx); [|by eexists]. destruct (attr_index _ _); by eexists.
Qed.
End guarded.

(** C32: guarded requests: a request passes authentication exactly when it is
    excluded or the provider gives a principal, which is then in its context; otherwise it is
    aborted with 401 for an invalid token and 500 for another error. It also passes
    authorisation exactly when it is excluded or the provider authorises without an error.
    The cached exclusions stay those of the rules. *)
Theorem guarded_request {V} (zero : attr V) (grow : nat -> nat -> nat) (defaults : Defaults) (callers : list Frame) (show : error -> string)
    (authenticate : GinCtx V -> result error (Principal V)) (invalid : error -> bool)
    (authorize : GinCtx V -> list (@authz_arg V) -> bool * error) (args : list authz_arg)
    (m : AuthNMiddleware) (ctx : GinCtx V) (st : list (list (attr V))) :
  cache_ok m -> aborted ctx = false -> authn_excluded ctx = false ->
  let r := Require zero grow authenticate invalid m ctx st in
  let ctx1 := r.2.1 in
  let ctx2 := handler defaults callers show authorize args ctx1 in
  let ex := excluded m (FullPath ctx) (Method ctx) in
  cache_ok r.1 /\ authn_excluded ctx1 = ex /\
  (aborted ctx1 = false <-> ex = true \/ exists p, authenticate ctx = Ok p /\ GetPrincipal ctx1 = Some p) /\
  (ex = false -> forall err, authenticate ctx = Err err -> status ctx1 = Some (if invalid err then 401 else 500)) /\
  (aborted ctx1 = false ->
    aborted ctx2 = false <-> ex = true \/ authorize ctx1 [ArgSlice args] = (true, NilErr)).
Proof.
  cbv zeta. intros Hc Ha He. destruct (Require_cases zero grow authenticate invalid m ctx st Hc) as (Hc' & _ & _ & ->).
  split; [exact Hc'|]. clear Hc'.
  assert (forall ctx1, aborted ctx1 = false -> aborted (handler defaults callers show authorize args ctx1) = false <->
    authn_excluded ctx1 = true \/ authorize ctx1 [ArgSlice args] = (true, NilErr)) as Hh.
  { intros ctx1 Ha1. unfold handler. destruct (authn_excluded ctx1); [naive_solver|].
    destruct (authorize ctx1 [ArgSlice args]) as [b err]. cbn [fst snd]. destruct err; [destruct b|..]; naive_solver. }
  destruct (excluded m (FullPath ctx) (Method ctx)); cbn [fst snd].
  - split; [done|]. split; [naive_solver|]. split; [done|]. intros _. rewrite Hh by done. naive_solver.
  - destruct (authenticate ctx) as [p|err] eqn:Ep; cbn [fst snd].
    + destruct (SetPrincipal_ctx zero grow p ctx st) as [attrs ->]. split; [done|]. split; [naive_solver|]. split; [naive_solver|].
      intros _. rewrite Hh by done. cbn [authn_excluded set_principal]. rewrite He. naive_solver.
    + split; [done|]. split; [naive_solver|]. split; [by intros _ ? [= ->]|]. done.
Qed.

(** *** The principal in the log *)
Lemma SetPrincipal_logged {V} (zero : attr V) grow (p : Principal V) (ctx : GinCtx V) st :
  (forall sl, logger_attrs ctx = Some sl -> valid sl st) ->
  let attrs := GetLoggerAttrsFromCtx (logger_attrs ctx) st in
  let r := SetPrincipal zero grow p ctx st in
  GetLoggerAttrsFromCtx (logger_attrs r.1) r.2 =
    match attr_index "usr" attrs with
    | Some idx => <[idx := principalAttr p]> attrs
    | None => attrs ++ [principalAttr p]
    end.
Proof.
  cbv zeta. intros Hv. unfold SetPrincipal. change (principalAttr p).1 with "usr". generalize (principalAttr p) as pa. intros pa.
  destruct (logger_attrs ctx) as [sl|] eqn:El.
  - specialize (Hv sl eq_refl). cbn [GetLoggerAttrsFromCtx].
    destruct (attr_index "usr" (elems sl st)) as [idx|] eqn:Ei; cbn [set_principal logger_attrs fst snd GetLoggerAttrsFromCtx].
    + destruct Hv as (a & Ha & Hlen).
      unfold attr_index in Ei. apply fmap_Some in Ei as ([i x] & (Hx & _)%list_find_Some & ->). apply lookup_lt_Some in Hx.
      unfold elems in Hx |- *. rewrite length_take in Hx. rewrite list_lookup_alter_eq, Ha. cbn. rewrite take_insert_lt by lia. done.
    + cbn [CtxAppendLoggerAttrs fst snd GetLoggerAttrsFromCtx].
      assert (valid sl (st ++ [[pa]])) as Hv'.
      { destruct Hv as (a & Ha & Hlen). exists a. split; [|done]. apply lookup_app_l_Some, Ha. }
      destruct (append_spec zero grow sl (elems (MkSlice (length st) 1) (st ++ [[pa]])) _ Hv')
        as (_ & He & _). cbv zeta in He. rewrite He. unfold elems. cbn [arr len].
      rewrite (lookup_app_r st _ (length st)), Nat.sub_diag by done. destruct Hv as (a & Ha & _). by rewrite (lookup_app_l_Some _ _ _ _ Ha), Ha.
  - cbn. unfold elems. cbn. by rewrite lookup_app_r, Nat.sub_diag by done.
Qed.

(** ** What the probes answer *)

(** The errors of the checks of a name. *)
Definition errors_of (n : string) (checks : list (string * error)) : list error :=
  omap (fun c => if bool_decide (c.1 = n) then match c.2 with NilErr => None | err => Some err end else None) checks.

Lemma failed_checks_lookup checks n : failed_checks checks !! n = last (errors_of n checks).
Proof.
  unfold failed_checks, errors_of. induction checks as [|c checks IH] using rev_ind; [done|].
  rewrite foldl_app, omap_app, last_app. cbn. destruct c as [k err]. cbn [fst snd].
  destruct (decide (k = n)) as [->|Hne].
  - rewrite bool_decide_eq_true_2 by done. destruct err; cbn; rewrite ?lookup_insert_eq; done.
  - rewrite bool_decide_eq_false_2 by done. cbn. destruct err; rewrite ?lookup_insert_ne by done; done.
Qed.

(** The probes answer 200 exactly when no check fails, and 500 otherwise, with the error of the
    last failing check of every name. *)
Theorem probes_answer defaults callers show (checks order : list (string * error)) :
  order ≡ₚ map_to_list (failed_checks checks) ->
  (forall what code, let r := probe defaults callers show code what checks order in
    (r_status r = 200 <-> Forall (fun c => c.2 = NilErr) checks) /\
    (r_status r <> 200 -> r_status r = 500 /\ (forall n, r_failed r !! n = last (errors_of n checks)) /\
      length (r_errors r) = size (r_failed r))).
Proof.
  intros Ho what code. unfold probe. case_bool_decide as Hf; cbn.
  - split; [|done]. split; [intros _|done]. apply Forall_forall. intros [n err] Hin.
    assert (last (errors_of n checks) = None) as Hl by by rewrite <- failed_checks_lookup, Hf.
    apply last_None in Hl. destruct (decide (err = NilErr)) as [|Hne] || (destruct err; [done|..]; exfalso).
    all: assert (exists e, e ∈ errors_of n checks) as [e He] by
      (eexists; apply list_elem_of_omap; eexists; split; [exact Hin|]; cbn; by rewrite bool_decide_eq_true_2);
      rewrite Hl in He; by apply elem_of_nil in He.
  - split; [|intros _; split; [done|]].
    + split; [done|]. intros Ha. destruct Hf. apply map_eq. intros n. rewrite failed_checks_lookup, lookup_empty.
      apply last_None. destruct (errors_of n checks) as [|e l] eqn:E; [done|].
      assert (e ∈ errors_of n checks) as He by (rewrite E; left).
      apply list_elem_of_omap in He as ([k err] & Hin & Hs). rewrite Forall_forall in Ha. specialize (Ha _ Hin). cbn in Ha, Hs. subst err.
      by destruct (bool_decide (k = n)).
    + split; [apply failed_checks_lookup|]. rewrite length_fmap, Ho. apply length_map_to_list.
Qed.

(** ** Transactions of requests

    A handler that begins a transaction, and one that also defers its end: the context that
    it leaves, and whether it panicked; [None] when the process is gone. *)
Section handlers.
Context {C Stmt : Type} `{Sql C Stmt}.
Context (defaults : Defaults) (callers : list Frame) (show : error -> string).

Definition leaves_open (name : string) (p : prog Stmt) (ctx : Ctx) : M (Db C) (Ctx * bool) :=
  r ← WithTx name ctx; e ← run defaults callers show p r.2;
  match e with Ended _ => mret (r.2, false) | Panicked => mret (r.2, true) | Exited _ => panic end.
Definition finishes (name : string) (p : prog Stmt) (ctx : Ctx) : M (Db C) (Ctx * bool) :=
  r ← WithTx name ctx; e ← run defaults callers show p r.2;
  match e with
  | Ended err => DeferredCommitOrRollback defaults callers show false r.1 err ;; mret (r.2, false)
  | Panicked | Exited _ => panic
  end.
End handlers.

(** What a function does in a transaction that a handler has just begun. *)
Lemma handler_runs_inside {C Stmt D} `{L : SqlLaws C Stmt D} defaults callers show (s : Db C) name p :
  distinct [] p -> current (conn s) = None ->
  let t := length (txs s) in let ctx := MkCtx true (Some t) in
  exists s1 s2 e d, WithTx name (MkCtx true None) s = Some ((t, ctx), s1) /\
    run defaults callers show p ctx s1 = Some (e, s2) /\ committed (conn s2) = committed (conn s) /\
    denotes defaults callers show p (committed (conn s)) e d /\
    ((forall code, e <> Exited code) -> (exists sv, inside ctx t s2 d sv) /\
       Forall (fun t => closed t = true) (drop t (alter close_tx t (txs s2)))).
Proof.
  intros Hdis Hcur. cbv zeta. destruct (try_WithTx_top name s Hcur) as (s1 & Hr1 & (h & Ht1 & _) & Hc1 & Hin).
  cbv zeta in Hr1, Hin. apply WithTx_run in Hr1.
  destruct (run_inside defaults callers show p [] _ _ s1 _ [] Hdis Hin) as (e & s2 & more & d & Hr2 & Hc2 & Ht2 & Hd & Hend).
  exists s1, s2, e, d. split_and!; [done|done|congruence|done|]. intros He.
  destruct (Hend He) as (Hm & extra & Hin2 & _). split; [by eexists|].
  rewrite Ht2, Ht1, <- app_assoc. cbn [app]. rewrite alter_last, drop_app_length. by constructor.
Qed.

(** transactions of requests, over a database that may refuse each of its commands: what a handler
    wrote in a transaction that it left open, returning or panicking, is rolled back; what a handler
    ends itself is all there or not at all, as its commit succeeds. No transaction of the request remains
    open, and the panic goes on; unless the process ends first. *)
Theorem request_transactions {C Stmt D} `{L : SqlLaws C Stmt D} defaults callers show (s : Db C) (db : bool) name p :
  distinct [] p -> current (conn s) = None ->
  exists e d, denotes defaults callers show p (committed (conn s)) e d /\
  match e with
  | Exited _ => True
  | _ => exists ctx s',
      Run (leaves_open defaults callers show name p) (MkCtx db None) s = Some ((ctx, match e with Panicked => true | _ => false end), s') /\
      current (conn s') = None /\ committed (conn s') = committed (conn s) /\
      Forall (fun t => closed t = true) (drop (length (txs s)) (txs s'))
  end /\
  match e with
  | Ended err => exists ctx s',
      Run (finishes defaults callers show name p) (MkCtx db None) s = Some ((ctx, false), s') /\
      current (conn s') = None /\
      (committed (conn s') = committed (conn s) \/ err = NilErr /\ committed (conn s') = d) /\
      Forall (fun t => closed t = true) (drop (length (txs s)) (txs s'))
  | _ => True
  end.
Proof.
  intros Hdis Hcur.
  destruct (handler_runs_inside defaults callers show s name p Hdis Hcur) as (s1 & s2 & e & d & Hw & Hr & Hc & Hd & Hend).
  set (t := length (txs s)) in *. exists e, d. split; [done|].
  assert ((forall code, e <> Exited code) -> exists ctx s',
    Run (leaves_open defaults callers show name p) (MkCtx db None) s =
      Some ((ctx, match e with Panicked => true | _ => false end), s') /\
    current (conn s') = None /\ committed (conn s') = committed (conn s) /\
    Forall (fun t => closed t = true) (drop t (txs s'))) as Hopen.
  { intros He. destruct (Hend He) as [[sv Hin] Hcl]. destruct (rollback_top _ _ _ _ _ Hin) as (e1 & c & Hrb & Hn & Hcc & _).
    eexists _, (MkDb (alter close_tx t (txs s2)) c). split; [|cbn [txs conn]; by rewrite Hcc].
    unfold Run, leaves_open. cbn [DBTxCtxKey].
    rewrite (M_bind_run _ _ s (MkCtx true (Some t), match e with Panicked => true | _ => false end) s2).
    2:{ rewrite (M_bind_run _ _ _ _ _ Hw). cbn [fst snd]. rewrite (M_bind_run _ _ _ _ _ Hr). destruct e; [done|by edestruct He|done]. }
    destruct Hin as (_ & h & Ht & _). unfold rollback_dangling. cbn [GetDBTxFromCtx DBTxCtxKey fst].
    rewrite (M_bind_run _ _ s2 tt (MkDb (alter close_tx t (txs s2)) c)); [done|].
    rewrite (M_bind_run _ _ s2 (top_tx h) s2) by (unfold read_tx; m_unfold; by rewrite Ht). cbn [automatic closed top_tx negb andb].
    by rewrite (M_bind_run _ _ _ _ _ Hrb). }
  destruct e as [err|code|]; [split; [by apply Hopen|]|done|split; [by apply Hopen|done]].
  destruct (Hend ltac:(done)) as [[sv Hin] Hcl].
  destruct (deferred_top defaults callers show _ _ _ _ _ err Hin) as (s3 & e & Hr3 & Ht3 & Hcur3 & _ & Hc3).
  eexists _, s3. split; [|split; [exact Hcur3|]].
  - unfold Run, finishes. cbn [DBTxCtxKey]. rewrite (M_bind_run _ _ s (MkCtx true (Some t), false) s3).
    2:{ rewrite (M_bind_run _ _ _ _ _ Hw). cbn [fst snd]. rewrite (M_bind_run _ _ _ _ _ Hr). by rewrite (M_bind_run _ _ _ _ _ Hr3). }
    destruct Hin as (_ & h & Ht & _). unfold rollback_dangling. cbn [GetDBTxFromCtx DBTxCtxKey fst].
    rewrite (M_bind_run _ _ s3 tt s3); [done|]. rewrite (M_bind_run _ _ s3 (close_tx (top_tx h)) s3); [done|].
    unfold read_tx. m_unfold. by rewrite Ht3, list_lookup_alter_eq, Ht.
  - rewrite Ht3. split; [|exact Hcl]. destruct err; [destruct Hc3 as [->|[_ ->]]; auto|..]; left; congruence.
Qed.

(** ** Witnesses *)

(** A sort: [merge_sort] of stdpp. *)
#[export] Instance cmp_le_dec {A} (cmp : A -> A -> Z) : RelDecision (fun a b => ~ cmp b a < 0).
Proof. intros a b. apply _. Defined.
Definition sort_func (A : Type) (cmp : A -> A -> Z) (l : list A) : list A := merge_sort (fun a b => ~ cmp b a < 0) l.
#[export] Instance sort_func_SortFunc : SortFunc sort_func.
Proof.
  split; intros A cmp l Hw; unfold sort_func; [apply merge_sort_Permutation|].
  apply StronglySorted_merge_sort.
  - intros a b c Hab Hbc Hca. destruct (cmp_apart _ Hw _ _ b Hca); by auto.
  - intros a b. destruct (decide (cmp b a < 0)) as [Hba|]; [|by left]. right. intros Hab. by apply (cmp_irrefl _ Hw a), (cmp_trans _ Hw a b a).
Qed.

(** The middleware of the framework. *)
Definition fw_middleware : list (Middleware unit) :=
  let pkg := "github.com/southernlabs-io/go-fw/rest/middleware" in
  [MkMiddleware MiddlewarePriorityBody "ErrorHandlerMiddleware" pkg tt; MkMiddleware MiddlewarePriorityAuthN "AuthNMiddleware" pkg tt;
   MkMiddleware MiddlewarePriorityProbes "ReadyCheckMiddleware" pkg tt; MkMiddleware MiddlewarePriorityProbes "HealthCheckMiddleware" pkg tt;
   MkMiddleware (MiddlewarePriorityAuthN - 1) "DatabaseTrxMiddleware" pkg tt;
   MkMiddleware (MiddlewarePriorityHighest + 1) "PanicRecoveryMiddleware" pkg tt;
   MkMiddleware MiddlewarePriorityHighest "RequestLoggerMiddleware" pkg tt].

Lemma middleware_order_witness :
  NewMiddlewares sort_func (reverse fw_middleware) = NewMiddlewares sort_func fw_middleware.
Proof.
  apply (middleware_order sort_func fw_middleware (reverse fw_middleware)).
  - apply (bool_decide_eq_true_1 (NoDup (key <$> fw_middleware))). vm_compute. reflexivity.
  - symmetry. apply reverse_Permutation.
Defined.

Example fw_order :
  Name <$> NewMiddlewares sort_func fw_middleware =
  ["RequestLoggerMiddleware"; "PanicRecoveryMiddleware"; "HealthCheckMiddleware"; "ReadyCheckMiddleware"; "DatabaseTrxMiddleware";
   "AuthNMiddleware"; "ErrorHandlerMiddleware"].
Proof. vm_compute. reflexivity. Qed.

(** An excluded prefix excludes more than the paths below it. *)
Example prefix_is_no_segment :
  excluded (ExcludePrefix "/admin" (NewAuthN "/api")) "/api/administrators" "GET" = true.
Proof. vm_compute. reflexivity. Qed.

Definition ctx_of (path method : string) : GinCtx nat := MkGinCtx path method None false None false None [].

Lemma guarded_request_witness :
  let authenticate := fun _ : GinCtx nat => Ok (MkPrincipal (VInt 7) "user") : result error _ in
  let r := Require ("", VInt 0) doubling authenticate (fun _ => false) (NewAuthN "/api") (ctx_of "/api/orders" "GET") [] in
  aborted r.2.1 = false /\
  aborted (handler initial_defaults [] (fun _ => "") (fun _ _ => (false, NilErr)) [] r.2.1) = true.
Proof.
  cbv zeta.
  destruct (guarded_request ("", VInt 0) doubling initial_defaults [] (fun _ => "")
    (fun _ : GinCtx nat => Ok (MkPrincipal (VInt 7) "user")) (fun _ => false) (fun _ _ => (false, NilErr)) []
    (NewAuthN "/api") (ctx_of "/api/orders" "GET") []) as (_ & _ & Hp & _ & Hz); [by apply map_Forall_empty|reflexivity..|].
  assert (aborted (Require ("", VInt 0) doubling (fun _ : GinCtx nat => Ok (MkPrincipal (VInt 7) "user")) (fun _ => false)
    (NewAuthN "/api") (ctx_of "/api/orders" "GET") []).2.1 = false) as Ha.
  { apply Hp. right. by eexists. }
  split; [exact Ha|]. apply not_false_iff_true. intros E.
  apply (proj1 (Hz Ha)) in E. destruct E as [E|E]; [|discriminate E]. vm_compute in E. discriminate E.
Defined.

Lemma request_transactions_witness : exists ctx s',
  Run (leaves_open initial_defaults [] (fun _ => "") "o" sample_tx) (MkCtx true None) (MkDb [] (MkMiniDb ∅ None)) = Some ((ctx, false), s') /\
  mini_data (conn s') = ∅.
Proof.
  destruct (request_transactions (L:=Mini_SqlLaws) initial_defaults [] (fun _ => "") (MkDb [] (MkMiniDb ∅ None)) true "o" sample_tx)
    as (e & d & _ & Ho & _); [repeat split; try set_solver|reflexivity|].
  destruct e as [err|code|].
  - destruct Ho as (ctx & s' & Hr & _ & Hd & _). exists ctx, s'. split; [exact Hr|exact Hd].
  - eexists _, _. split; [vm_compute; reflexivity|vm_compute; reflexivity].
  - destruct Ho as (ctx & s' & Hr & _). vm_compute in Hr. discriminate Hr.
Defined.
