(* ===== verification/RequestLogger.v ===== *)
(** * rest: the request logger

    Models [rest/middleware/request_logger.go]: the request's id and attributes in its
    context, and the entries at its start and end, over the loggers of file Log.  What gin
    and the tracer say of a request is a record; the handlers that follow are a parameter. *)

From S2P Require Import Prelude.
From S2P Require Import GoStrings.
From S2P Require Import Config.
From S2P Require Import Log.
From S2P Require Import Loggers.
From S2P Require Import Middleware.
From Stdlib Require Import Ascii.
From stdpp Require Import pretty.

Open Scope string_scope.
Open Scope list_scope.
Open Scope Z_scope.

(** ** [url.URL.Hostname] and [url.URL.Port] *)
Definition digit_char (c : ascii) : bool := let n := nat_of_ascii c in bool_decide (48 <= n <= 57)%nat.
Fixpoint all_digits (s : string) : bool :=
  match s with EmptyString => true | String c s => digit_char c && all_digits s end.
Definition validOptionalPort (port : string) : bool :=
  match port with EmptyString => true | String c rest => bool_decide (c = ":"%char) && all_digits rest end.

(** [strings.LastIndexByte(s, ':')] *)
Fixpoint last_colon (s : string) : option nat :=
  match s with
  | EmptyString => None
  | String c s =>
      match last_colon s with
      | Some i => Some (S i)
      | None => if bool_decide (c = ":"%char) then Some O else None
      end
  end.
Definition splitHostPort (hostPort : string) : string * string :=
  let '(host, port) :=
    match last_colon hostPort with
    | Some colon =>
        if validOptionalPort (drop_bytes colon hostPort)
        then (take_bytes colon hostPort, drop_bytes (S colon) hostPort) else (hostPort, "")
    | None => (hostPort, "")
    end in
  if HasPrefix host "[" && HasSuffix host "]"
  then (take_bytes (String.length host - 2) (drop_bytes 1 host), port) else (host, port).
Definition Hostname (host : string) : string := (splitHostPort host).1.
Definition Port (host : string) : string := (splitHostPort host).2.

(** [strconv.Atoi] of digits. *)
Fixpoint digits_value (acc : Z) (s : string) : Z :=
  match s with
  | EmptyString => acc
  | String c s => digits_value (acc * 10 + (Z.of_nat (nat_of_ascii c) - 48)) s
  end.
Definition Atoi (s : string) : option Z :=
  if bool_decide (s <> "") && all_digits s && (digits_value 0 s <? two63) then Some (digits_value 0 s) else None.

Example ports :
  map (fun h => (Hostname h, Port h)) ["example.com:8080"; "example.com"; "[::1]:80"; "[::1]"; "a:b"; "h:"] =
  [("example.com", "8080"); ("example.com", ""); ("::1", "80"); ("::1", ""); ("a:b", ""); ("h", "")] /\
  map Atoi ["8080"; "9223372036854775808"; ""] = [Some 8080; None; None].
Proof. vm_compute. by split. Qed.

(** ** A request *)
Section requests.
Context {V : Type} (other_text : value V -> string) (own : string -> frame) (SemVer : string).
Context (zero : attr V) (grow : nat -> nat -> nat).
Context (nil : V) (of_duration : Z -> V).  (** [nil] and durations, as slog holds them *)

Record Request := MkRequest {
  rq_path : string; rq_id_header : string; rq_host : string; rq_method : string; rq_uri : string;
  rq_referer : string; rq_user_agent : string; rq_proto : string; rq_query : V; rq_client_ip : string;
  rq_full_path : string;
  rq_span : option (V * V);     (** the ids of the tracer's span, if there is one *)
}.

(** What the middleware changes: the context of the request, the arrays of attributes and
    the log. *)
Record State := MkState { st_id : option string; st_attrs : option Slice; st_arrays : list (list (attr V)); st_log : LogState V }.

Definition portAttr (host : string) : attr V :=
  let portStr := Port host in
  if bool_decide (portStr <> "") then
    match Atoi portStr with Some port => ("port", VInt port) | None => ("", VOther nil) end
  else ("", VOther nil).

Definition request_attrs (rq : Request) (requestID : string) : list (attr V) :=
  [("http", VGroup [
      ("method", VString (rq_method rq)); ("url", VString (rq_uri rq)); ("request_id", VString requestID);
      ("referer", VString (rq_referer rq)); ("useragent", VString (rq_user_agent rq)); ("version", VString (rq_proto rq));
      ("url_details", VGroup [
        ("host", VString (Hostname (rq_host rq))); portAttr (rq_host rq); ("path", VString (rq_path rq));
        ("queryString", VOther (rq_query rq))])]);
   ("network.client.ip", VString (rq_client_ip rq))].

(** [new_id]: [uuid.NewString]; [frames]: the callers that the log's factory looks at;
    [next]: the handlers, with the status and whatever else they leave, which is in the
    result when they have been called; [times]: the readings of the log's clock,
    and how long the request took.  [None]: it panics. *)
Definition RequestLogger_Run {R} (lf : LoggerFactory) (tracing : bool) (excludes : gset string) (new_id : string)
    (frames : list string) (forType : option rtype) (now1 now2 now3 : V) (latency : Z)
    (next : State -> option (State * Z * R)) (rq : Request) (stack : list frame) (st : State) : option (State * option R) :=
  let stack := own "Run" :: stack in
  let requestID := if bool_decide (rq_id_header rq = "") then new_id else rq_id_header rq in
  let attrs := request_attrs rq requestID in
  let ctx_attrs st := GetLoggerAttrsFromCtx (st_attrs st) (st_arrays st) in
  '(attrs, log) ←
    (if tracing then
       match rq_span rq with
       | Some (trace_id, span_id) =>
           Some (attrs ++ [("dd.trace_id", VOther trace_id); ("dd.span_id", VOther span_id)], st_log st)
       | None =>
           '(logger, log) ← GetLoggerFromCtx other_text SemVer lf (ctx_attrs st) frames (st_log st);
           logger ← WithAttrs other_text logger attrs;
           log ← Errorf other_text own logger now1 "tracing is enabled but there is no span in the context!" stack log;
           Some (attrs, log)
       end
     else Some (attrs, st_log st));
  let arrays := st_arrays st ++ [attrs] in
  let r := CtxAppendLoggerAttrs zero grow (st_attrs st) (MkSlice (length (st_arrays st)) (length attrs)) arrays in
  let st := MkState (Some requestID) r.1 r.2 log in
  if bool_decide (rq_full_path rq ∈ excludes) then Some (st, None)
  else
    '(logger, log) ← GetLoggerFromCtxForType other_text SemVer lf (ctx_attrs st) forType (st_log st);
    log ← Debugf other_text own logger now2 ("Req Start: " +:+ rq_path rq) stack log;
    '(st, status, rest) ← next (MkState (st_id st) (st_attrs st) (st_arrays st) log);
    '(logger, log) ← GetLoggerFromCtx other_text SemVer lf (ctx_attrs st) frames (st_log st);
    let level := if bool_decide (500 <= status) then LogLevelError
                 else if bool_decide (400 <= status) then LogLevelWarn else LogLevelInfo in
    log ← Log other_text own logger now3 level ("Req End: " +:+ rq_path rq)
            [VAttr "http.status_code" (VInt status); VAttr "duration" (VOther (of_duration latency))] stack log;
    Some (MkState (st_id st) (st_attrs st) (st_arrays st) log, Some rest).
End requests.
Arguments Request : clear implicits.
Arguments State : clear implicits.

(** ** What every request gets *)
Section facts.
Context {V : Type} (other_text : value V -> string) (own : string -> frame) (SemVer : string).
Context (zero : attr V) (grow : nat -> nat -> nat) (nil : V) (of_duration : Z -> V).
Implicit Types (rq : Request V) (st : State V).

Definition valid_attrs st : Prop := match st_attrs st with Some sl => valid sl (st_arrays st) | None => True end.

Lemma append_arrays (o : option Slice) (arrays : list (list (attr V))) attrs :
  match o with Some sl => valid sl arrays | None => True end ->
  let r := CtxAppendLoggerAttrs zero grow o (MkSlice (length arrays) (length attrs)) (arrays ++ [attrs]) in
  GetLoggerAttrsFromCtx r.1 r.2 = GetLoggerAttrsFromCtx o arrays ++ attrs.
Proof using Type.
  intros Ho. assert (forall (l : list (list (attr V))), elems (MkSlice (length l) (length attrs)) (l ++ [attrs]) = attrs) as Hnew.
  { intros l. unfold elems. cbn [arr len]. rewrite lookup_app_r, Nat.sub_diag by done. cbn. by rewrite firstn_all. }
  destruct o as [sl|]; cbn [CtxAppendLoggerAttrs fst snd GetLoggerAttrsFromCtx]; [|by rewrite Hnew].
  destruct Ho as (a & Ha & Hlen).
  assert (elems sl (arrays ++ [attrs]) = elems sl arrays) as He.
  { unfold elems. rewrite lookup_app_l by (by eapply lookup_lt_Some). done. }
  rewrite Hnew. destruct (append_spec zero grow sl attrs (arrays ++ [attrs])) as (_ & -> & _).
  { exists a. rewrite lookup_app_l by (by eapply lookup_lt_Some). by split. }
  by rewrite He.
Qed.
End facts.

(** A request whose path is excluded, without tracing: nothing is written, no handler is called from
    here, and the context has the id and the attributes all the same; else the same context
    is what the handlers start from. *)
Theorem request_context {V R} (other_text : value V -> string) own SemVer zero grow (nil : V) of_duration lf excludes new_id
    frames forType now1 now2 now3 latency (next : State V -> option (State V * Z * R)) (rq : Request V) stack (st : State V) :
  valid_attrs st ->
  let requestID := if bool_decide (rq_id_header rq = "") then new_id else rq_id_header rq in
  let run next := RequestLogger_Run other_text own SemVer zero grow nil of_duration lf false excludes new_id
    frames forType now1 now2 now3 latency next rq stack st in
  exists st', GetLoggerAttrsFromCtx (st_attrs st') (st_arrays st') =
      GetLoggerAttrsFromCtx (st_attrs st) (st_arrays st) ++ request_attrs nil rq requestID /\
    st_id st' = Some requestID /\ st_log st' = st_log st /\
    (rq_full_path rq ∈ excludes -> run next = Some (st', None)) /\
    (rq_full_path rq ∉ excludes -> forall st2 o, run next = Some (st2, o) -> exists log st1 status rest,
      next (MkState (Some requestID) (st_attrs st') (st_arrays st') log) = Some (st1, status, rest) /\ o = Some rest /\
      st_attrs st2 = st_attrs st1 /\ st_arrays st2 = st_arrays st1 /\ st_id st2 = st_id st1).
Proof.
  intros Hv. cbv zeta. set (requestID := if bool_decide _ then _ else _).
  pose proof (append_arrays zero grow (st_attrs st) (st_arrays st) (request_attrs nil rq requestID) Hv) as Happ.
  unfold RequestLogger_Run. cbn [mbind option_bind]. fold requestID.
  set (r := CtxAppendLoggerAttrs _ _ _ _ _) in *.
  exists (MkState (Some requestID) r.1 r.2 (st_log st)). split; [exact Happ|]. split; [done|]. split; [done|]. split.
  - intros Hin. by rewrite bool_decide_eq_true_2.
  - intros Hin st2 o. rewrite bool_decide_eq_false_2 by done. cbn [st_attrs st_arrays st_log st_id].
    destruct (GetLoggerFromCtxForType _ _ _ _ _ _) as [[logger log1]|]; [|done]. cbn [mbind option_bind].
    destruct (Debugf _ _ _ _ _ _ _) as [log2|]; [|done]. cbn [mbind option_bind].
    destruct (next _) as [[[st1 status] rest]|] eqn:En; [|done]. cbn [mbind option_bind].
    destruct (GetLoggerFromCtx _ _ _ _ _ _) as [[logger3 log3]|]; [|done]. cbn [mbind option_bind].
    destruct (Log _ _ _ _ _ _ _ _ _) as [log4|]; [|done]. intros [= <- <-]. by exists log2, st1, status, rest.
Qed.
