(* ===== verification/Pipeline.v ===== *)
(** * rest: a request through the middleware

    The composition of file Middleware, file RequestLogger, file ErrorHandler, file Database and file
    Router: what the methods [Setup] and [Priority] of [rest/middleware/*.go] register, in which
    order, and what a request meets on its way to a handler and back. gin's groups and its
    chain of handlers are a library with their documented behaviour as laws. *)

From S2P Require Import Prelude.
From S2P Require Import GoStrings.
From S2P Require Import GoPath.
From S2P Require Import Errors.
From S2P Require Import Database.
From S2P Require Import ErrorHandler.
From S2P Require Import Slices.
From S2P Require Import Predicates.
From S2P Require Import Log.
From S2P Require Import Router.
From S2P Require Import Middleware.
From S2P Require Import RequestLogger.

Open Scope string_scope.
Open Scope list_scope.
Open Scope Z_scope.

(** ** gin

    A handler gets what [ctx.Next] does. In gin a handler that returns without calling it
    is followed by the next one all the same, so such a handler calls it at its end.
    [aborted]: [ctx.IsAborted]. *)
Class GinChain {S O : Type} (aborted : S -> bool) (done : S -> O) (serve : list ((S -> O) -> S -> O) -> S -> O) : Prop := {
  serve_nil : forall s, serve [] s = done s;
  serve_cons : forall h hs s, serve (h :: hs) s = h (fun s => if aborted s then done s else serve hs s) s;
}.

(** A group of routes: the path of the group, the handlers that [Use] has added so far, and the
    handlers of the routes. A route keeps the handlers that were there when it was added. *)
Class GinGroup (G H : Type) := {
  group_path : G -> string;
  group_handlers : G -> list H;
  chain_of : G -> string -> option (list H);
  group_Use : H -> G -> G;
  group_GET : string -> H -> G -> G;
}.
Class GinGroupLaws (G H : Type) `{GinGroup G H} : Prop := {
  Use_path : forall h g, group_path (group_Use h g) = group_path g;
  Use_handlers : forall h g, group_handlers (group_Use h g) = group_handlers g ++ [h];
  Use_chain : forall h g p, chain_of (group_Use h g) p = chain_of g p;
  GET_path : forall rel h g, group_path (group_GET rel h g) = group_path g;
  GET_handlers : forall rel h g, group_handlers (group_GET rel h g) = group_handlers g;
  GET_chain : forall rel h g p, chain_of g (gin_joinPaths (group_path g) rel) = None ->
    chain_of (group_GET rel h g) p =
      if bool_decide (p = gin_joinPaths (group_path g) rel) then Some (group_handlers g ++ [h]) else chain_of g p;
}.

(** ** What middleware sets up *)
Inductive setup (H : Type) :=
| Uses (h : H)                    (** [httpHandler.Root.Use] *)
| Probes (path : string) (h : H)  (** [httpHandler.Root.GET] of the path relative to [BasePath] *)
| SetsNothing.
Arguments Uses {H}. Arguments Probes {H}. Arguments SetsNothing {H}.

Section registration.
Context {G H : Type} `{GinGroup G H}.

(** [None]: it panics. *)
Definition Middleware_Setup (basePath : string) (m : Middleware (setup H)) (g : G) : option G :=
  match itself m with
  | Uses h => Some (group_Use h g)
  | Probes path h => rel ← Rel_abs basePath path; Some (group_GET rel h g)
  | SetsNothing => Some g
  end.

Fixpoint Middlewares_Setup (basePath : string) (ms : list (Middleware (setup H))) (g : G) : option G :=
  match ms with
  | [] => Some g
  | m :: ms => g ← Middleware_Setup basePath m g; Middlewares_Setup basePath ms g
  end.

(** What [NewMiddlewares] does with the middleware of the container. *)
Definition setup_middlewares (sort : forall A, (A -> A -> Z) -> list A -> list A) (basePath : string)
    (ms : list (Middleware (setup H))) (g : G) : option G :=
  Middlewares_Setup basePath (NewMiddlewares sort ms) g.

(** The handlers that a list of middleware adds to the group. *)
Definition used (ms : list (Middleware (setup H))) : list H :=
  omap (fun m => match itself m with Uses h => Some h | _ => None end) ms.
Definition probe_paths (ms : list (Middleware (setup H))) : list string :=
  omap (fun m => match itself m with Probes path _ => Some path | _ => None end) ms.
End registration.

(** ** A request *)
Section pipeline.
Context {V W B C Stmt : Type} `{!Gin W B} `{!Sql C Stmt}.

(** What a handler panicked with, and the text of a system error in it. *)
Notation panic_value := ((error + string) * option string)%type.

(** All that the middleware reads and writes: the keys of gin's context, the errors, the
    writer, the id, attributes and log of the request, the database, and the cache of
    exclusions, which outlives the request. [q_entries]: what the error handler logged. *)
Record Req := MkReq {
  q_principal : option (Principal V);
  q_excluded : bool;
  q_aborted : bool;
  q_errors : list (option GinError);
  q_writer : W;
  q_state : State V;
  q_ctx : Ctx;
  q_db : Db C;
  q_authn : AuthNMiddleware;
  q_entries : list log_entry;
}.
(** How handlers end; [Lost]: a panic in the code that ends a request, which is not followed. *)
Inductive outcome := Ends (q : Req) | Panics (v : panic_value) (q : Req) | Lost.
Notation Handler := ((Req -> outcome) -> Req -> outcome).
Implicit Types (q : Req) (next : Req -> outcome).

Definition with_response (aborted : bool) (errs : list (option GinError)) (w : W) q : Req :=
  MkReq (q_principal q) (q_excluded q) aborted errs w (q_state q) (q_ctx q) (q_db q) (q_authn q) (q_entries q).
Definition with_db (ctx : Ctx) (db : Db C) q : Req :=
  MkReq (q_principal q) (q_excluded q) (q_aborted q) (q_errors q) (q_writer q) (q_state q) ctx db (q_authn q) (q_entries q).
Definition with_state (st : State V) q : Req :=
  MkReq (q_principal q) (q_excluded q) (q_aborted q) (q_errors q) (q_writer q) st (q_ctx q) (q_db q) (q_authn q) (q_entries q).
Definition with_authn (m : AuthNMiddleware) q : Req :=
  MkReq (q_principal q) (q_excluded q) (q_aborted q) (q_errors q) (q_writer q) (q_state q) (q_ctx q) (q_db q) m (q_entries q).
Definition with_entry (e : option log_entry) q : Req :=
  MkReq (q_principal q) (q_excluded q) (q_aborted q) (q_errors q) (q_writer q) (q_state q) (q_ctx q) (q_db q) (q_authn q)
    (q_entries q ++ option_list e).

(** The request, and gin's context as file Middleware has it. *)
Context (rq : Request V).
Definition gin_ctx q : GinCtx V :=
  MkGinCtx (rq_full_path rq) (rq_method rq) (q_principal q) (q_excluded q) (st_attrs (q_state q)) (q_aborted q) None
    (raised (q_errors q)).
(** [AbortWithStatus] writes the header at once. *)
Definition put_ctx (ctx : GinCtx V) (arrays : list (list (attr V))) q : Req :=
  MkReq (authn_principal ctx) (authn_excluded ctx) (aborted ctx)
    (q_errors q ++ ((fun e => Some (MkGinError e false)) <$> drop (length (raised (q_errors q))) (Middleware.Errors ctx)))
    (match status ctx with Some code => WriteHeaderNow (Status code (q_writer q)) | None => q_writer q end)
    (MkState (st_id (q_state q)) (logger_attrs ctx) arrays (st_log (q_state q)))
    (q_ctx q) (q_db q) (q_authn q) (q_entries q).

Context (defaults : Defaults) (callers : list Frame) (show : error -> string).

(** [handlePanic] on the request. *)
Definition recovered (v : panic_value) q : Req :=
  let r := handlePanic defaults callers show v.1 v.2 (q_errors q) (q_writer q) in
  with_response true r.1.2 r.2 q.

Definition PanicRecovery_Run : Handler := fun next q =>
  match next q with
  | Panics v q => Ends (recovered v q)
  | o => o
  end.

Definition index_out_of_range : panic_value :=
  (inl (OpaqueErr "runtime.boundsError" "runtime error: index out of range [0] with length 0"), None).

Definition ErrorHandler_Run (prod : bool) (ms : list (ErrorMapper B)) : Handler := fun next q =>
  let finish p q :=
    let q' := match p with Some v => recovered v q | None => q end in
    match ErrorHandler.Run defaults callers show prod ms p (q_errors q) (q_writer q) with
    | Some (entry, w) => Ends (with_response (q_aborted q') (q_errors q') w (with_entry entry q'))
    | None => Panics index_out_of_range q'
    end in
  match next q with
  | Ends q => finish None q
  | Panics v q => finish (Some v) q
  | Lost => Lost
  end.

Definition req_of (o : outcome) : option Req := match o with Ends q | Panics _ q => Some q | Lost => None end.
Definition map_req (f : Req -> Req) (o : outcome) : outcome :=
  match o with Ends q => Ends (f q) | Panics v q => Panics v (f q) | Lost => Lost end.

Definition DatabaseTrx_Run : Handler := fun next q =>
  match Middleware.Run (fun ctx db =>
          let o := next (with_db ctx db q) in
          q' ← req_of o; Some ((q_ctx q', o), q_db q')) (q_ctx q) (q_db q) with
  | Some ((ctx, o), db) => map_req (with_db ctx db) o
  | None => Lost
  end.

Context (zero : attr V) (grow : nat -> nat -> nat).

Definition AuthN_Run (authenticate : GinCtx V -> result error (Principal V)) (invalid : error -> bool) : Handler := fun next q =>
  let r := Require zero grow authenticate invalid (q_authn q) (gin_ctx q) (st_arrays (q_state q)) in
  next (put_ctx r.2.1 r.2.2 (with_authn r.1 q)).

(** Authorisation is a handler of a route. *)
Definition AuthZ_Run (provider : GinCtx V -> list authz_arg -> bool * error) (args : list authz_arg) : Handler := fun next q =>
  next (put_ctx (AuthZ_Require defaults callers show provider args (gin_ctx q)) (st_arrays (q_state q)) q).

(** [respond]: the body of the answer. *)
Definition Probe_Run (respond : probe_response -> B) (r : probe_response) : Handler := fun next q =>
  next (with_response (q_aborted q || negb (bool_decide (r_failed r = ∅)))
          (q_errors q ++ ((fun e => Some (MkGinError e false)) <$> r_errors r)) (JSON (r_status r) (Built (respond r)) (q_writer q)) q).

(** The request logger; [logger_run] is its [Run] with the configuration, the clock and the
    caller filled in. *)
Definition RequestLogger_handler
    (logger_run : (State V -> option (State V * Z * Req)) -> Request V -> State V -> option (State V * option Req)) : Handler :=
  fun next q =>
    match logger_run (fun st =>
            match next (with_state st q) with
            | Ends q' => Some (q_state q', status_of (q_writer q'), q')
            | _ => None
            end) rq (q_state q) with
    | Some (st, Some q') => Ends (with_state st q')
    | Some (st, None) => next (with_state st q)
    | None => Lost
    end.

(** The handler of a resource, which does not call [ctx.Next]. *)
Definition last_handler (f : Req -> outcome) : Handler := fun next q =>
  match f q with Ends q => next q | o => o end.
End pipeline.
Arguments Req : clear implicits.
Arguments outcome : clear implicits.

(** ** The middleware of the framework: [Priority] and [Setup] of each *)
Section framework.
Context {H : Type}.
Definition fw_package : string := "github.com/southernlabs-io/go-fw/rest/middleware".
Definition RequestLogger_setup (h : H) : Middleware (setup H) :=
  MkMiddleware MiddlewarePriorityHighest "RequestLoggerMiddleware" fw_package (Uses h).
Definition PanicRecovery_setup (h : H) : Middleware (setup H) :=
  MkMiddleware (MiddlewarePriorityHighest + 1) "PanicRecoveryMiddleware" fw_package (Uses h).
Definition HealthCheck_setup (h : H) : Middleware (setup H) :=
  MkMiddleware MiddlewarePriorityProbes "HealthCheckMiddleware" fw_package (Probes "/health" h).
Definition ReadyCheck_setup (h : H) : Middleware (setup H) :=
  MkMiddleware MiddlewarePriorityProbes "ReadyCheckMiddleware" fw_package (Probes "/ready" h).
Definition DatabaseTrx_setup (h : H) : Middleware (setup H) :=
  MkMiddleware (MiddlewarePriorityAuthN - 1) "DatabaseTrxMiddleware" fw_package (Uses h).
Definition AuthN_setup (h : H) : Middleware (setup H) :=
  MkMiddleware MiddlewarePriorityAuthN "AuthNMiddleware" fw_package (Uses h).
Definition AuthZ_setup : Middleware (setup H) :=
  MkMiddleware MiddlewarePriorityAuthZ "AuthZMiddleware" fw_package SetsNothing.
Definition ErrorHandler_setup (h : H) : Middleware (setup H) :=
  MkMiddleware MiddlewarePriorityBody "ErrorHandlerMiddleware" fw_package (Uses h).
End framework.

(** [NewHealthCheck] and [NewReadyCheck] keep the providers that are not nil, in an interface or
    as a pointer: a connection that was not opened has no provider. *)
Definition NewHealthCheck {P} (is_nil : P -> bool) (healthChecks : slice P) : M unit (slice P) :=
  Slices.Filter healthChecks (fun c => mret (Not is_nil c)).
Definition NewReadyCheck {P} (is_nil : P -> bool) (readyChecks : slice P) : M unit (slice P) :=
  Slices.Filter readyChecks (fun c => mret (Not is_nil c)).

(** The handlers of the root group that [NewHTTPHandler] makes: those of the engine, and the one that
    [NewGinRouterGroup] adds for the metadata of routes. *)
Definition root_handlers {H} (cors trace metadata : H) (tracing : bool) : list H :=
  cors :: (if tracing then [trace] else []) ++ [metadata].

(** ** What is registered *)
Section registered.
Context {G H : Type} `{GinGroupLaws G H}.
Implicit Types (ms : list (Middleware (setup H))) (g : G) (h : H).

(** gin's path of the group of a base path. *)
Definition group_of (base : string) : string := gin_joinPaths "/" base.

Lemma group_of_parts base : base <> "" -> HasPrefix (group_of base) "/" = true /\ path_parts (group_of base) = path_parts base.
Proof using Type.
  intros Hb. unfold group_of, gin_joinPaths. rewrite bool_decide_eq_false_2 by done.
  destruct (Join2_root base Hb) as [-> E]. rewrite <- E.
  assert (HasPrefix ("/" +:+ "/" +:+ base) "/" = true) as Hr by apply prefix_app.
  destruct (path_parts_Clean _ Hr) as [E1 E2]. rewrite (Clean_rooted _ Hr) in *.
  destruct (HasSuffix base "/" && _); (split; [|done]); [|apply prefix_app].
  change (("/" +:+ ?x) +:+ "/") with ("/" +:+ (x +:+ "/")). apply prefix_app.
Qed.

Lemma probe_joinPaths base path : HasPrefix base "/" = true -> HasPrefix path "/" = true ->
  exists r, Rel_abs base path = Some r /\ gin_joinPaths (group_of base) r = Clean path.
Proof using Type.
  intros Hb Hp. destruct (group_of_parts base) as [Hg Eg]; [by intros ->|].
  destruct (Rel_abs_Join base (group_of base) path Hb Hp Hg Eg) as (r & Hr & Hj & Hne & Hs). exists r. split; [done|].
  unfold gin_joinPaths. rewrite bool_decide_eq_false_2 by done. by rewrite Hs, Hj.
Qed.

Lemma setup_run base ms g : HasPrefix base "/" = true -> group_path g = group_of base ->
  Forall (fun p => HasPrefix p "/" = true) (probe_paths ms) -> NoDup (Clean <$> probe_paths ms) ->
  (forall p, p ∈ Clean <$> probe_paths ms -> chain_of g p = None) ->
  exists g', Middlewares_Setup base ms g = Some g' /\ group_path g' = group_of base /\
    group_handlers g' = group_handlers g ++ used ms /\
    (forall p, p ∉ Clean <$> probe_paths ms -> chain_of g' p = chain_of g p) /\
    forall pre m post path h, ms = pre ++ m :: post -> itself m = Probes path h ->
      chain_of g' (Clean path) = Some (group_handlers g ++ used pre ++ [h]).
Proof using All.
  revert g. induction ms as [|m ms IH]; intros g Hb Hg Hr Hnd Hfree.
  { exists g. rewrite app_nil_r. split_and!; [done..|]. intros pre m post path h E. by destruct pre. }
  unfold probe_paths, used in *. cbn [omap list_omap Middlewares_Setup] in *. unfold Middleware_Setup.
  destruct (itself m) as [h0|path0 h0|] eqn:Em; cbn [mbind option_bind].
  - destruct (IH (group_Use h0 g)) as (g' & E & Hp & Hh & Ho & Hc); [done|by rewrite Use_path|done..| |].
    { intros p Hin. rewrite Use_chain. by apply Hfree. }
    exists g'. split; [exact E|]. split; [done|]. rewrite Hh, Use_handlers, <- app_assoc. split; [done|]. split.
    + intros p Hin. by rewrite Ho, Use_chain.
    + intros [|m1 pre] m' post path h E' Em'; [injection E' as <- <-; congruence|]. injection E' as <- ->. cbn [omap list_omap]. rewrite Em.
      by rewrite (Hc pre m' post path h eq_refl Em'), Use_handlers, <- app_assoc.
  - cbn in Hr, Hnd. apply Forall_cons in Hr as [Hr0 Hr]. apply NoDup_cons in Hnd as [Hn0 Hnd].
    destruct (probe_joinPaths base path0 Hb Hr0) as (r & -> & Hj). cbn [mbind option_bind].
    assert (chain_of g (gin_joinPaths (group_path g) r) = None) as Hnone.
    { rewrite Hg, Hj. apply Hfree. left. }
    pose proof (fun p => GET_chain r h0 g p Hnone) as Hget. rewrite Hg, Hj in Hget.
    destruct (IH (group_GET r h0 g)) as (g' & E & Hp & Hh & Ho & Hc); [done|by rewrite GET_path|done..| |].
    { intros p Hin. rewrite Hget, bool_decide_eq_false_2 by (by intros ->). apply Hfree. by right. }
    exists g'. split; [exact E|]. split; [done|]. rewrite Hh, GET_handlers. split; [done|]. split.
    + intros p Hin. cbn in Hin. apply not_elem_of_cons in Hin as [Hp0 Hin]. by rewrite Ho, Hget, bool_decide_eq_false_2.
    + intros [|m1 pre] m' post path h E' Em'.
      * injection E' as <- <-. rewrite Em in Em'. injection Em' as <- <-. rewrite Ho, Hget by done. by rewrite bool_decide_eq_true_2.
      * injection E' as <- ->. cbn [omap list_omap]. rewrite Em. by rewrite (Hc pre m' post path h eq_refl Em'), GET_handlers.
  - destruct (IH g) as (g' & E & Hp & Hh & Ho & Hc); [done..|].
    exists g'. split; [exact E|]. split_and!; [done..|].
    intros [|m1 pre] m' post path h E' Em'; [injection E' as <- <-; congruence|]. injection E' as <- ->. cbn [omap list_omap]. rewrite Em.
    exact (Hc pre m' post path h eq_refl Em').
Qed.
End registered.

(** C29: what is registered: the order in which the container provides middleware makes no
    difference, as long as no type is provided twice. With an absolute base path, setting up the middleware of the
    container succeeds; a route that a resource adds later has the handlers of all middleware, in
    the order of priority, before its own and after those of the server; a probe answers at its absolute path, whatever the
    base path is, and has only the handlers of the middleware before it: the error handler
    never sees the errors of a probe. Without a base path, a probe makes the start panic. *)
Theorem routes_registered {G H} `{GinGroupLaws G H} (sort : forall A, (A -> A -> Z) -> list A -> list A) `{!SortFunc sort}
    (base : string) (ms ms' : list (Middleware (setup H))) (g : G) :
  NoDup (key <$> ms) -> ms ≡ₚ ms' ->
  group_path g = group_of base -> (forall p, chain_of g p = None) ->
  Forall (fun p => HasPrefix p "/" = true) (probe_paths ms) -> NoDup (Clean <$> probe_paths ms) ->
  let sorted := NewMiddlewares sort ms in
  StronglySorted before sorted /\ setup_middlewares sort base ms' g = setup_middlewares sort base ms g /\
  (HasPrefix base "/" = true ->
   exists g', setup_middlewares sort base ms g = Some g' /\
     (forall rel h, gin_joinPaths (group_of base) rel ∉ Clean <$> probe_paths ms ->
        chain_of (group_GET rel h g') (gin_joinPaths (group_of base) rel) = Some (group_handlers g ++ used sorted ++ [h])) /\
     forall pre m post path h, sorted = pre ++ m :: post -> itself m = Probes path h ->
       chain_of g' (Clean path) = Some (group_handlers g ++ used pre ++ [h])) /\
  (base = "" -> probe_paths ms <> [] -> setup_middlewares sort base ms g = None).
Proof.
  intros Hkey Hms Hg Hc Hr Hnd sorted. destruct (middleware_order sort ms ms' Hkey Hms) as (Hp & Hsorted & Hsame).
  fold sorted in Hp. split; [exact Hsorted|]. split; [unfold setup_middlewares; by rewrite Hsame|]. clear Hsorted Hsame.
  assert (probe_paths sorted ≡ₚ probe_paths ms) as Hpp by (unfold probe_paths; by rewrite Hp).
  split.
  - intros Hb. destruct (setup_run base sorted g Hb Hg) as (g' & E & Hg' & Hh' & Ho & Hpr).
    { by rewrite Hpp. } { by rewrite Hpp. } { intros; apply Hc. }
    exists g'. split; [exact E|]. split.
    + intros rel h Hfree. rewrite <- Hg' in Hfree |- *. rewrite GET_chain, bool_decide_eq_true_2, Hh'; [by rewrite <- app_assoc|done|].
      rewrite Ho, Hc; [done|]. by rewrite Hpp.
    + intros pre m post path h. exact (Hpr pre m post path h).
  - intros -> Hne. unfold setup_middlewares. fold sorted.
    assert (probe_paths sorted <> []) as Hne' by (intros E; rewrite E in Hpp; by apply Permutation_nil_l in Hpp).
    assert (Forall (fun p => HasPrefix p "/" = true) (probe_paths sorted)) as Hr' by by rewrite Hpp.
    clear -Hne' Hr'. revert g. induction sorted as [|m ms0 IH]; intros g; [done|].
    unfold probe_paths in *. cbn [omap list_omap Middlewares_Setup] in *. unfold Middleware_Setup.
    destruct (itself m) as [h0|path0 h0|]; cbn [mbind option_bind]; [by apply IH| |by apply IH].
    apply Forall_cons in Hr' as [Hr0 _]. unfold Rel_abs. rewrite bool_decide_eq_false_2; [done|].
    rewrite (Clean_rooted path0) by exact Hr0. discriminate.
Qed.

(** ** What a request meets *)
Section served.
Context {V W B C Stmt : Type} `{!Gin W B} `{!GinLaws W B} `{!Sql C Stmt}.
Notation Req := (Req V W C).
Notation outcome := (outcome V W C).
Notation panic_value := ((error + string) * option string)%type.
Implicit Types (q : Req) (o : outcome).

(** A transaction that is left open is one that [WithTx] began, as [DBTx] objects are. *)
Definition tx_ok q : Prop :=
  match GetDBTxFromCtx (q_ctx q) with
  | None => True
  | Some t => exists x, txs (q_db q) !! t = Some x /\
      (closed x = false -> automatic x = false -> handle x <> Replaced /\ parentTx x = None)
  end.
(** No transaction of the request is open that nobody ends. *)
Definition nothing_open q : Prop :=
  match GetDBTxFromCtx (q_ctx q) with
  | None => True
  | Some t => exists x, txs (q_db q) !! t = Some x /\ (closed x = true \/ automatic x = true)
  end.

Lemma rollback_dangling_ends q : tx_ok q ->
  exists db, rollback_dangling (q_ctx q) (q_db q) = Some (tt, db) /\ nothing_open (with_db (q_ctx q) db q) /\
    (nothing_open q -> db = q_db q).
Proof using Type.
  unfold tx_ok, nothing_open, rollback_dangling. cbn [q_ctx q_db with_db]. destruct (GetDBTxFromCtx (q_ctx q)) as [t|]; [|by eauto].
  intros (x & Hx & Hok). m_unfold. rewrite Hx. destruct (automatic x) eqn:Ea; cbn [negb andb]; [by eauto 10|].
  destruct (closed x) eqn:Ec; cbn [negb andb]; [by eauto 10|]. destruct (Hok eq_refl eq_refl) as [Hh Hp].
  assert (exists e c, DBTx_Rollback t (q_db q) = Some (e, MkDb (alter close_tx t (txs (q_db q))) c)) as (e & c & Hr).
  { unfold DBTx_Rollback. m_unfold. rewrite Hx, Hp, Ea. destruct (handle x); [by eauto..|done]. }
  rewrite Hr. eexists. split; [reflexivity|]. cbn [txs]. split.
  - exists (close_tx x). rewrite list_lookup_alter_eq, Hx. by auto.
  - intros (x' & Hx' & [|]); congruence.
Qed.

Context (rq : Request V) (defaults : Defaults) (callers : list Frame) (show : error -> string).
Context (zero : attr V) (grow : nat -> nat -> nat).

(** The middleware for transactions over handlers that do not lose the request. *)
Lemma DatabaseTrx_ends next q q2 :
  req_of (next (with_db (MkCtx true (DBTxCtxKey (q_ctx q))) (q_db q) q)) = Some q2 -> tx_ok q2 ->
  exists db, rollback_dangling (q_ctx q2) (q_db q2) = Some (tt, db) /\ nothing_open (with_db (q_ctx q2) db q2) /\
    (nothing_open q2 -> db = q_db q2) /\
    DatabaseTrx_Run next q = map_req (with_db (q_ctx q2) db) (next (with_db (MkCtx true (DBTxCtxKey (q_ctx q))) (q_db q) q)).
Proof using Type.
  intros Hn Hok. destruct (rollback_dangling_ends q2 Hok) as (db & Hr & Hno & Hsame). exists db. split_and!; [done..|].
  unfold DatabaseTrx_Run, Middleware.Run. m_unfold. cbn [mbind option_bind]. rewrite Hn. cbn [mbind option_bind fst snd]. by rewrite Hr.
Qed.

(** The response to a request whose handlers ended, or panicked with [p]. *)
Definition broken (v : panic_value) : bool := match v.1 with inl _ => is_broken_pipe v.2 | inr _ => false end.
Definition answered (prod : bool) (ms : list (ErrorMapper B)) (p : option panic_value) q (w : W) : Prop :=
  match ErrorHandler.Run defaults callers show prod ms p (q_errors q) (q_writer q) with
  | Some (_, w') => w = w'
  | None => p = None /\ w = WriteHeaderNow (Status 500 (q_writer q))
  end /\
  (forall v, p = Some v -> broken v = false -> Written (q_writer q) = false -> status_of w = 500 /\ Written w = true).

Lemma error_loop_some errs prod sw (ms : list (ErrorMapper B)) todo mapped others (w : W) :
  raised todo <> [] \/ mapped <> NilErr \/ others <> [] ->
  let r := (error_loop errs prod sw ms todo mapped others w).1 in r.1 <> NilErr \/ r.2 <> [].
Proof using Type.
  cbv zeta. revert mapped others w. induction todo as [|[e|] todo IH]; intros mapped others w Hs; cbn [error_loop].
  - destruct Hs as [Hs|Hs]; [by destruct Hs|exact Hs].
  - destruct mapped; [|apply IH; right; left; done..]. apply IH. right.
    destruct (if (run_mappers errs prod sw ms e w).1 then Err_ e else NilErr); [right|left; done..]. by destruct others.
  - by apply IH.
Qed.

Lemma handleErrors_some prod (ms : list (ErrorMapper B)) errs bp (w : W) : raised errs <> [] ->
  exists l w', handleErrors prod ms errs bp w = Some (Some l, w').
Proof using Type.
  intros Hr. unfold handleErrors. destruct errs as [|e0 errs]; [done|]. set (all := e0 :: errs) in *.
  destruct (error_loop_some all prod (negb bp && negb (Written w)) ms all NilErr [] w (or_introl Hr)) as [Hm|Ho];
    destruct (error_loop all prod _ ms all NilErr [] w) as [[mapped others] w1]; cbn [fst snd] in *.
  - destruct mapped; [done|..]; by eauto.
  - destruct mapped; [|by eauto..]. destruct others; [done|]. by eauto.
Qed.

Lemma handlePanic_facts errAny se errs (w : W) :
  let r := handlePanic defaults callers show errAny se errs w in raised r.1.2 <> [] /\ r.1.1 || Written r.2 = true.
Proof using GinLaws0.
  unfold handlePanic. assert (forall e, raised (errs ++ [Some (MkGinError e false)]) <> []) as Hr.
  { intros e E. unfold raised in E. rewrite omap_app, fmap_app in E. by apply app_eq_nil in E as [_ E]. }
  destruct (match errAny with inl _ => _ | inr _ => _ end); cbn [fst snd orb]; (split; [apply Hr|]); [done|]. apply now_written.
Qed.

(** After a panic the response is the one that [handlePanic] has written. *)
Lemma Run_panicked prod ms v q : exists l,
  ErrorHandler.Run defaults callers show prod ms (Some v) (q_errors q) (q_writer q) =
    Some (Some l, q_writer (recovered defaults callers show v q)).
Proof using GinLaws0.
  destruct v as [errAny se]. cbn [ErrorHandler.Run]. unfold recovered. cbn [q_writer with_response fst snd].
  destruct (handlePanic_facts errAny se (q_errors q) (q_writer q)) as [Hr Hs].
  set (r := handlePanic _ _ _ _ _ _ _) in *. destruct (handleErrors_some prod ms r.1.2 r.1.1 r.2 Hr) as (l & w' & E).
  exists l. rewrite E. pose proof (handleErrors_silent prod ms r.1.2 r.1.1 r.2 Hs) as Hw. by rewrite E in Hw; cbn in Hw; rewrite Hw.
Qed.

Lemma recovered_answer v q : broken v = false -> Written (q_writer q) = false ->
  status_of (q_writer (recovered defaults callers show v q)) = 500 /\ Written (q_writer (recovered defaults callers show v q)) = true.
Proof using GinLaws0.
  destruct v as [errAny se]. intros Hb Hw. unfold recovered, handlePanic. cbn [q_writer with_response fst snd].
  unfold broken in Hb. cbn [fst snd] in Hb. rewrite Hb. cbn [snd]. destruct (now_written (Status 500 (q_writer q))) as [-> ->].
  by destruct (Status_status 500 (q_writer q) Hw) as [-> _].
Qed.
(** How the handlers of a request ended. *)
Definition ended o (v : option panic_value) q : Prop := o = match v with None => Ends q | Some v => Panics v q end.

Lemma ErrorHandler_answers prod ms next q1 v q2 : ended (next q1) v q2 ->
  exists q3, q_ctx q3 = q_ctx q2 /\ q_db q3 = q_db q2 /\
    ((ErrorHandler_Run defaults callers show prod ms next q1 = Ends q3 /\ answered prod ms v q2 (q_writer q3)) \/
     (ErrorHandler_Run defaults callers show prod ms next q1 = Panics index_out_of_range q3 /\
      answered prod ms v q2 (q_writer (recovered defaults callers show index_out_of_range q3)))).
Proof using GinLaws0.
  unfold ended, ErrorHandler_Run, answered. intros ->. destruct v as [v|].
  - destruct (Run_panicked prod ms v q2) as (l & E). rewrite E. eexists. split; [|split; [|left; split; [reflexivity|]]]; [done..|].
    split; [done|]. intros ? [= <-]. apply recovered_answer.
  - destruct (ErrorHandler.Run _ _ _ _ _ None _ _) as [[e w]|]; eexists; split; [|split; [|left; split; [reflexivity|]]|
      |split; [|right; split; [reflexivity|]]]; done.
Qed.

Context (authenticate : GinCtx V -> result error (Principal V)) (invalid : error -> bool).

(** Who is let in: nobody in particular on an excluded route, else whom the provider names. *)
Definition admission q : result error (option (Principal V)) :=
  if excluded (q_authn q) (rq_full_path rq) (rq_method rq) then Ok None
  else p ← authenticate (gin_ctx rq q); Ok (Some p).

(** What authentication makes of a request. *)
Lemma AuthN_passes next q : cache_ok (q_authn q) -> q_aborted q = false -> q_excluded q = false ->
  exists q1, AuthN_Run rq zero grow authenticate invalid next q = next q1 /\ q_ctx q1 = q_ctx q /\ q_db q1 = q_db q /\
    q_excluded q1 = excluded (q_authn q) (rq_full_path rq) (rq_method rq) /\
    match admission q with
    | Err err => q_aborted q1 = true /\ q_writer q1 = WriteHeaderNow (Status (if invalid err then 401 else 500) (q_writer q))
    | Ok p => q_aborted q1 = false /\ q_writer q1 = q_writer q /\ (forall x, p = Some x -> q_principal q1 = Some x)
    end.
Proof using Type.
  intros Hc Ha He. unfold AuthN_Run. eexists. split; [reflexivity|]. cbn [q_ctx q_db put_ctx with_authn]. split; [done|]. split; [done|].
  destruct (Require_cases zero grow authenticate invalid (q_authn q) (gin_ctx rq q) (st_arrays (q_state q)) Hc) as (_ & _ & _ & ->).
  unfold admission. cbn [FullPath Method gin_ctx]. destruct (excluded _ _ _); cbn [fst snd]; [done|].
  destruct (authenticate (gin_ctx rq q)) as [p|err]; cbn [mbind result_bind].
  - destruct (SetPrincipal_ctx zero grow p (gin_ctx rq q) (st_arrays (q_state q))) as [attrs ->].
    cbn. split; [done|]. split; [done|]. split; [done|]. by intros ? [= <-].
  - by cbn.
Qed.
(** The last handler of a chain, whether it aborts or not. *)
Lemma last_handler_ends serve `{!GinChain (@q_aborted V W C) Ends serve} (f : Req -> outcome) q1 :
  match f q1 with Ends q2 | Panics _ q2 => tx_ok q2 | Lost => False end ->
  exists v q2, ended (f q1) v q2 /\ ended (serve [last_handler f] q1) v q2 /\ tx_ok q2.
Proof using Type.
  rewrite serve_cons. unfold last_handler, ended. destruct (f q1) as [q2|v q2|]; [|by exists (Some v), q2|done].
  intros Hok. exists None, q2. split; [done|]. rewrite serve_nil. by destruct (q_aborted q2).
Qed.
End served.

(** C28: a request through the middleware, whatever its handler does: panics do not get past the
    recovery. Only a request that is excluded or that the provider authenticates
    reaches the handler, with its principal and with the database in its context; any other is
    aborted and answered with 401 or 500, and nothing touches the database. When the
    handler has ended or panicked, the error handler gives the response, which is 500 for a
    panic on a connection that is alive and not answered yet; and a transaction that was left
    open is rolled back, so that nothing stays open. *)
Theorem request_served {V W B C Stmt} `{!Gin W B} `{!GinLaws W B} `{!Sql C Stmt} serve
    `{!GinChain (@q_aborted V W C) Ends serve} (rq : Request V) defaults callers show (zero : attr V) grow
    (prod : bool) (ms : list (ErrorMapper B)) (authenticate : GinCtx V -> result error (Principal V)) (invalid : error -> bool)
    (f : Req V W C -> outcome V W C) (q : Req V W C) :
  q_aborted q = false -> q_excluded q = false -> DBTxCtxKey (q_ctx q) = None -> Written (q_writer q) = false ->
  cache_ok (q_authn q) ->
  (forall q1, DBTxCtxKey (q_ctx q1) = None -> match f q1 with Ends q2 | Panics _ q2 => tx_ok q2 | Lost => False end) ->
  exists q',
    serve [PanicRecovery_Run defaults callers show; DatabaseTrx_Run; AuthN_Run rq zero grow authenticate invalid;
           ErrorHandler_Run defaults callers show prod ms; last_handler f] q = Ends q' /\
    nothing_open q' /\
    match admission rq authenticate q with
    | Err err => status_of (q_writer q') = (if invalid err then 401 else 500) /\ q_aborted q' = true /\ q_db q' = q_db q
    | Ok p => exists q1 v q2,
        (forall x, p = Some x -> q_principal q1 = Some x) /\
        q_excluded q1 = excluded (q_authn q) (rq_full_path rq) (rq_method rq) /\
        q_ctx q1 = MkCtx true None /\ q_db q1 = q_db q /\ q_writer q1 = q_writer q /\
        ended (f q1) v q2 /\ answered defaults callers show prod ms v q2 (q_writer q') /\
        rollback_dangling (q_ctx q2) (q_db q2) = Some (tt, q_db q') /\ (nothing_open q2 -> q_db q' = q_db q2)
    end.
Proof.
  intros Ha He Htx Hw Hc Hf. rewrite serve_cons. unfold PanicRecovery_Run. rewrite Ha, serve_cons.
  set (q0 := with_db (MkCtx true (DBTxCtxKey (q_ctx q))) (q_db q) q).
  set (inner := fun s : Req V W C => if q_aborted s then Ends s else serve _ s).
  destruct (AuthN_passes rq zero grow authenticate invalid
    (fun s => if q_aborted s then Ends s else serve [ErrorHandler_Run defaults callers show prod ms; last_handler f] s) q0 Hc Ha He)
    as (q1 & E1 & Hctx & Hdb & Hex & Hadm).
  assert (inner q0 = AuthN_Run rq zero grow authenticate invalid
    (fun s => if q_aborted s then Ends s else serve [ErrorHandler_Run defaults callers show prod ms; last_handler f] s) q0) as Ei.
  { unfold inner. change (q_aborted q0) with (q_aborted q). by rewrite Ha, serve_cons. }
  rewrite E1 in Ei. clear E1. change (admission rq authenticate q0) with (admission rq authenticate q) in Hadm.
  change (q_ctx q0) with (MkCtx true (DBTxCtxKey (q_ctx q))) in Hctx. rewrite Htx in Hctx. change (q_db q0) with (q_db q) in Hdb.
  change (excluded (q_authn q0)) with (excluded (q_authn q)) in Hex. change (q_writer q0) with (q_writer q) in Hadm.
  destruct (admission rq authenticate q) as [p|err].
  - destruct Hadm as (Ha1 & Hw1 & Hp). rewrite Ha1, serve_cons in Ei.
    destruct (last_handler_ends serve f q1 (Hf q1 ltac:(by rewrite Hctx))) as (v & q2 & Hf1 & Hl & Hok).
    set (nxt := fun s => if q_aborted s then Ends s else serve [last_handler f] s) in *.
    assert (ended (nxt q1) v q2) as Hnxt by (unfold nxt; by rewrite Ha1).
    destruct (ErrorHandler_answers defaults callers show prod ms nxt q1 v q2 Hnxt) as (q3 & Hctx3 & Hdb3 & Hans).
    assert (req_of (inner q0) = Some q3) as Hreq by (rewrite Ei; by destruct Hans as [[-> _]|[-> _]]).
    destruct (DatabaseTrx_ends inner q q3 Hreq) as (db & Hr & Hno & Hsame & ->).
    { unfold tx_ok. by rewrite Hctx3, Hdb3. }
    fold q0. rewrite Ei. rewrite Hctx3, Hdb3 in Hr. unfold nothing_open in Hsame. rewrite Hctx3, Hdb3 in Hsame.
    destruct Hans as [[-> Hans]|[-> Hans]]; cbn [map_req]; (eexists; split; [reflexivity|]; split; [exact Hno|]);
      exists q1, v, q2; by split_and!.
  - destruct Hadm as (Ha1 & Hw1). rewrite Ha1 in Ei.
    destruct (DatabaseTrx_ends inner q q1) as (db & Hr & Hno & Hsame & ->).
    { fold q0. by rewrite Ei. }
    { unfold tx_ok. by rewrite Hctx. }
    fold q0. rewrite Ei. cbn [map_req]. eexists. split; [reflexivity|]. split; [exact Hno|].
    cbn [q_writer q_aborted q_db with_db]. rewrite Hw1, Ha1, Hsame by (unfold nothing_open; by rewrite Hctx).
    destruct (now_written (Status (if invalid err then 401 else 500) (q_writer q))) as [_ ->].
    destruct (Status_status (if invalid err then 401 else 500) (q_writer q) Hw) as [-> _].
    split; [by destruct (invalid err)|]. split; [done|exact Hdb].
Qed.

(** The request logger around the other handlers, without tracing: when it ends, they have
    started with the id and the attributes of the request in their context, and what they left
    is what remains, but for the log. *)
Theorem request_logged {V W B C} `{!Gin W B} serve `{!GinChain (@q_aborted V W C) Ends serve}
    (other_text : value V -> string) own SemVer zero grow (nil : V) of_duration lf excludes new_id
    frames forType now1 now2 now3 latency stack (rq : Request V) hs (q q' : Req V W C) :
  valid_attrs (q_state q) -> rq_full_path rq ∉ excludes -> q_aborted q = false ->
  serve (RequestLogger_handler rq (fun next rq => RequestLogger_Run other_text own SemVer zero grow nil of_duration lf false
           excludes new_id frames forType now1 now2 now3 latency next rq stack) :: hs) q = Ends q' ->
  exists st1 q1 log,
    serve hs (with_state st1 q) = Ends q1 /\
    GetLoggerAttrsFromCtx (st_attrs st1) (st_arrays st1) =
      GetLoggerAttrsFromCtx (st_attrs (q_state q)) (st_arrays (q_state q)) ++
      request_attrs nil rq (if bool_decide (rq_id_header rq = "") then new_id else rq_id_header rq) /\
    st_id st1 = Some (if bool_decide (rq_id_header rq = "") then new_id else rq_id_header rq) /\
    q' = with_state (MkState (st_id (q_state q1)) (st_attrs (q_state q1)) (st_arrays (q_state q1)) log) q1.
Proof.
  intros Hv Hin Ha. rewrite serve_cons. unfold RequestLogger_handler.
  set (next := fun st => match _ with Ends q2 => Some (q_state q2, status_of (q_writer q2), q2) | _ => None end).
  destruct (request_context other_text own SemVer zero grow nil of_duration lf excludes new_id frames forType now1 now2 now3
    latency next rq stack (q_state q) Hv) as (st & Hattrs & Hid & _ & _ & Hrun).
  specialize (Hrun Hin). destruct (RequestLogger_Run _ _ _ _ _ _ _ _ _ _ _ _ _ _ _ _ _ next _ _ _) as [[st2 o]|]; [|done].
  destruct (Hrun st2 o eq_refl) as (log & st1 & status & rest & Hn & -> & Es1 & Es2 & Es3).
  unfold next in Hn. cbn [q_aborted with_state] in Hn. rewrite Ha in Hn.
  destruct (serve hs _) as [q1| |] eqn:Eq in Hn; [|done..]. injection Hn as <- <- <-. intros [= <-].
  eexists _, q1, (st_log st2). split; [exact Eq|]. split; [exact Hattrs|]. split; [done|].
  rewrite <- Es1, <- Es2, <- Es3. by destruct st2.
Qed.

(** ** Examples *)
Fixpoint serve_chain {S O} (aborted : S -> bool) (done : S -> O) (hs : list ((S -> O) -> S -> O)) (s : S) : O :=
  match hs with
  | [] => done s
  | h :: hs => h (fun s => if aborted s then done s else serve_chain aborted done hs s) s
  end.
#[export] Instance serve_chain_GinChain {S O} (aborted : S -> bool) (done : S -> O) : GinChain aborted done (serve_chain aborted done).
Proof. by split. Qed.

Record GroupState (H : Type) := MkGroup { gr_path : string; gr_handlers : list H; gr_routes : gmap string (list H) }.
Arguments MkGroup {H}. Arguments gr_path {H}. Arguments gr_handlers {H}. Arguments gr_routes {H}.
#[export] Instance Group_GinGroup H : GinGroup (GroupState H) H := {
  group_path := gr_path;
  group_handlers := gr_handlers;
  chain_of g p := gr_routes g !! p;
  group_Use h g := MkGroup (gr_path g) (gr_handlers g ++ [h]) (gr_routes g);
  group_GET rel h g :=
    MkGroup (gr_path g) (gr_handlers g) (<[gin_joinPaths (gr_path g) rel := gr_handlers g ++ [h]]> (gr_routes g));
}.
#[export] Instance Group_GinGroupLaws H : GinGroupLaws (GroupState H) H.
Proof.
  split; try done. intros rel h g p _. cbn. case_bool_decide as E; [subst; by rewrite lookup_insert_eq|]. by rewrite lookup_insert_ne.
Qed.

(** The framework's middleware as the container may provide it, by name. *)
Definition container : list (Middleware (setup string)) :=
  [HealthCheck_setup "health"; ReadyCheck_setup "ready"; PanicRecovery_setup "panics"; ErrorHandler_setup "errors";
   RequestLogger_setup "request log"; AuthN_setup "authentication"; AuthZ_setup; DatabaseTrx_setup "transactions"].

(** A route of a resource meets all of it; a probe only what has a higher priority. *)
Example chains :
  (fun g => (chain_of (group_GET "orders" "orders" g) "/api/v1/orders", chain_of g "/health")) <$>
    setup_middlewares sort_func "/api/v1/" container (MkGroup "/api/v1/" (root_handlers "cors" "trace" "metadata" true) ∅) =
  Some (Some ["cors"; "trace"; "metadata"; "request log"; "panics"; "transactions"; "authentication"; "errors"; "orders"],
        Some ["cors"; "trace"; "metadata"; "request log"; "panics"; "health"]).
Proof. vm_compute. reflexivity. Qed.

Lemma routes_registered_witness :
  setup_middlewares sort_func "" container (MkGroup "/" [] ∅) = None.
Proof.
  refine (proj2 (proj2 (proj2 (routes_registered sort_func "" container container (MkGroup "/" [] ∅) _ _ eq_refl _ _ _))) eq_refl _).
  - apply (bool_decide_eq_true_1 (NoDup (key <$> container))). vm_compute. reflexivity.
  - reflexivity.
  - intros p. reflexivity.
  - repeat constructor.
  - apply (bool_decide_eq_true_1 (NoDup (Clean <$> probe_paths container))). vm_compute. reflexivity.
  - discriminate.
Defined.

(** A handler that begins a transaction and panics. *)
Definition careless (q : Req nat Recorder MiniDb) : outcome nat Recorder MiniDb :=
  match WithTx "o" (q_ctx q) (q_db q) with
  | Some ((_, ctx), db) => Panics (inr "boom", None) (with_db ctx db q)
  | None => Ends q
  end.

Lemma careless_tx_ok (q : Req nat Recorder MiniDb) : DBTxCtxKey (q_ctx q) = None ->
  match careless q with Ends q2 | Panics _ q2 => tx_ok q2 | Lost => False end.
Proof.
  destruct q as [pr ex ab errs w st [dbkey txkey] [l c] m es]. cbn [q_ctx DBTxCtxKey]. intros ->. unfold careless, tx_ok.
  destruct dbkey; [|done]. exists (MkDBTx false false None "" Working). split; [|done].
  change ((l ++ [MkDBTx false false None "" Working]) !! length l = Some (MkDBTx false false None "" Working)).
  by rewrite lookup_app_r, Nat.sub_diag.
Qed.

Definition order_request : Request nat :=
  MkRequest "/api/v1/orders" "" "shop:8080" "GET" "/api/v1/orders" "" "" "HTTP/1.1" 0%nat "10.0.0.1" "/api/v1/orders" None.
Definition fresh_request : Req nat Recorder MiniDb :=
  MkReq None false false [] fresh (MkState None None [] (MkLogState [] [] ∅)) (MkCtx false None) (MkDb [] (MkMiniDb ∅ None))
    (NewAuthN "/api/v1/") [].

Lemma request_served_witness : exists q',
  serve_chain (@q_aborted nat Recorder MiniDb) Ends
    [PanicRecovery_Run initial_defaults [] (fun _ => ""); DatabaseTrx_Run;
     AuthN_Run order_request ("", VInt 0) doubling (fun _ => Ok (MkPrincipal (VInt 7) "user")) (fun _ => false);
     ErrorHandler_Run (B:=string) initial_defaults [] (fun _ => "") true []; last_handler careless] fresh_request = Ends q' /\
  rec_status (q_writer q') = 500 /\ nothing_open q'.
Proof.
  destruct (request_served (serve_chain q_aborted Ends) order_request initial_defaults [] (fun _ => "") ("", VInt 0) doubling true []
    (fun _ => Ok (MkPrincipal (VInt 7) "user")) (fun _ => false) careless fresh_request) as (q' & Hs & Hno & Hq).
  - reflexivity. - reflexivity. - reflexivity. - reflexivity. - apply map_Forall_empty.
  - intros q1 Hq1. exact (careless_tx_ok q1 Hq1).
  - exists q'. split; [exact Hs|]. split; [|exact Hno].
    assert (admission order_request (fun _ => Ok (MkPrincipal (VInt 7) "user")) fresh_request = Ok (Some (MkPrincipal (VInt 7) "user"))) as Ea
      by (vm_compute; reflexivity).
    rewrite Ea in Hq. destruct Hq as (q1 & v & q2 & _ & _ & Hc & Hd & Hw & Hf & [_ Ha] & _).
    unfold ended, careless in Hf. rewrite Hc, Hd in Hf. cbn in Hf.
    destruct v as [v|]; [|discriminate Hf]. injection Hf as <- <-.
    destruct (Ha _ eq_refl eq_refl) as [E _]; [|exact E]. cbn [q_writer with_db]. rewrite Hw. reflexivity.
Defined.
