(* ===== verification/HTTPServer.v ===== *)
(** * rest: the server of [NewHTTPHandler]

    Models the life of the server of [rest/http_handler.go]: the hooks that fx runs at start
    and stop, the goroutine that serves, and Go's [http.Server] as far as they
    use it: [Serve] returns [ErrServerClosed] when [Shutdown] has begun, also when it
    is called after that, and closes its listener when it returns. The root group
    and its handlers are in file Pipeline. *)

From S2P Require Import Prelude.
From S2P Require Import GoStrings.
From S2P Require Import Config.
From stdpp Require Import pretty.

Open Scope string_scope.
Open Scope list_scope.
Open Scope Z_scope.

Definition EnvTypeProd : string := "prod".
(** The argument of [gin.SetMode]. *)
Definition gin_mode (env_type : string) : string := if bool_decide (env_type = EnvTypeProd) then "release" else "debug".

(** [fmt.Sprintf("%s:%d", ...)] *)
Definition bindAddress (BindAddress : string) (Port : Z) : string := BindAddress +:+ ":" +:+ pretty Port.

Section server.
(** The errors, the server's own, and their texts; [address] is [bindAddress]. *)
Context {E : Type} (is_ErrServerClosed : E -> bool) (ErrServerClosed : E) (show : E -> string) (address : string).

(** The goroutine of the start hook: not made, about to call [Serve], in it, or at its end. *)
Inductive goroutine := NotMade | Made | InServe | Ended.

(** The process: whether it listens on [address], the goroutine, whether [Shutdown] has begun
    and the stop hook has returned, what has been logged, and the text of a panic that
    nothing recovers, which ends the process. *)
Record Server := MkServer {
  listening : bool; serving : goroutine; inShutdown : bool; stopped : bool; logged : list (Z * string); panicked : option string }.
Implicit Types (s : Server).

Definition new_server : Server := MkServer false NotMade false false [] None.

(** The start hook; [err]: what [net.Listen] returns. *)
Definition start_hook (err : option E) s : Server :=
  match err with
  | Some err =>
      MkServer (listening s) (serving s) (inShutdown s) (stopped s) (logged s)
        (Some ("failed to run gin server on: " +:+ address +:+ ", error: " +:+ show err))
  | None =>
      MkServer true Made (inShutdown s) (stopped s)
        (logged s ++ [(LogLevelInfo, "Running gin server on: " +:+ address)]) (panicked s)
  end.

(** What the goroutine does with what [Serve] returns; the listener is closed. *)
Definition after_Serve (err : E) s : Server :=
  MkServer false Ended (inShutdown s) (stopped s) (logged s)
    (if negb (is_ErrServerClosed err) then Some ("failed to run gin server, error: " +:+ show err) else panicked s).

(** [Serve] begins. *)
Definition Serve_begins s : Server :=
  if inShutdown s then after_Serve ErrServerClosed s
  else MkServer (listening s) InServe (inShutdown s) (stopped s) (logged s) (panicked s).
(** Its listener accepts no more, with [err], which is not the server's own error. *)
Definition Accept_fails (err : E) s : Server := after_Serve (if inShutdown s then ErrServerClosed else err) s.

(** The stop hook: [Shutdown] begins and closes the listeners that [Serve] has taken; later it
    returns [err]. *)
Definition Shutdown_begins s : Server :=
  MkServer (match serving s with InServe => false | _ => listening s end) (serving s) true (stopped s) (logged s) (panicked s).
Definition Shutdown_returns (err : option E) s : Server :=
  MkServer (listening s) (serving s) (inShutdown s) true
    (logged s ++ match err with Some err => [(LogLevelError, "Error while shutting down gin: " +:+ show err)] | None => [] end) (panicked s).

(** fx runs the start hook once, and the stop hook once after it has returned. *)
Inductive step : Server -> Server -> Prop :=
| step_start err s : panicked s = None -> serving s = NotMade -> step s (start_hook err s)
| step_serve s : panicked s = None -> serving s = Made -> step s (Serve_begins s)
| step_accept err s : panicked s = None -> serving s = InServe -> is_ErrServerClosed err = false -> step s (Accept_fails err s)
| step_shutdown s : panicked s = None -> serving s <> NotMade -> inShutdown s = false -> step s (Shutdown_begins s)
| step_stopped err s : panicked s = None -> inShutdown s = true -> stopped s = false -> step s (Shutdown_returns err s).

Inductive reachable : Server -> Prop :=
| reachable_new : reachable new_server
| reachable_step s s' : reachable s -> step s s' -> reachable s'.
End server.

(** ** What holds of the server *)
Section server_facts.
Context {E : Type} (is_ErrServerClosed : E -> bool) (ErrServerClosed : E) (show : E -> string) (address : string).
Hypothesis closed_is_closed : is_ErrServerClosed ErrServerClosed = true.
(** What [Accept] returns for a closed listener. *)
Context (ErrClosed : E).
Hypothesis ErrClosed_other : is_ErrServerClosed ErrClosed = false.
#[local] Notation step := (step is_ErrServerClosed ErrServerClosed show address).
#[local] Notation reachable := (reachable is_ErrServerClosed ErrServerClosed show address).
Implicit Types (s : Server).

(** The process listens when its goroutine has the listener or will have it, and while
    it serves no longer than until [Shutdown]. *)
Definition listens s : bool :=
  match serving s with Made => true | InServe => negb (inShutdown s) | NotMade | Ended => false end.

Record server_ok s : Prop := {
  ok_listening : listening s = listens s;
  ok_not_made : serving s = NotMade -> inShutdown s = false /\ stopped s = false /\ logged s = [];
  ok_stopped : stopped s = true -> inShutdown s = true;
  ok_panicked : is_Some (panicked s) -> inShutdown s = false;
  ok_logged : serving s <> NotMade ->
    exists errs, logged s = (LogLevelInfo, "Running gin server on: " +:+ address) :: errs /\
      (length errs <= 1)%nat /\ (stopped s = false -> errs = []);
}.

(** Steps of the goroutine keep what has been logged and whether the server is stopped. *)
Lemma after_Serve_ok err s : server_ok s -> panicked s = None -> serving s <> NotMade ->
  (inShutdown s = true -> is_ErrServerClosed err = true) -> server_ok (after_Serve is_ErrServerClosed show err s).
Proof using Type.
  intros [Hl Hn Hs Hp Hg] Hnone Hmade Herr. unfold after_Serve. split; cbn; [done|done|done| |by intros _; apply Hg].
  rewrite Hnone. destruct (inShutdown s); [by rewrite Herr by done; intros []|done].
Qed.

Lemma server_ok_step s s' : server_ok s -> step s s' -> server_ok s'.
Proof using closed_is_closed.
  intros Hok Hstep. pose proof Hok as [Hl Hn Hs Hp Hg]. unfold listens in Hl.
  destruct Hstep as [err s Hnone Hmade|s Hnone Hmade|err s Hnone Hmade Herr|s Hnone Hmade Hi|err s Hnone Hi Hst].
  - destruct (Hn Hmade) as (Hi & Hst & Hlog).
    destruct err as [err|]; split; unfold listens; cbn; rewrite ?Hi, ?Hst, ?Hlog, ?Hmade in *; try done.
    intros _. exists []. split_and!; [done|cbn; lia|done].
  - unfold Serve_begins. destruct (inShutdown s) eqn:Hi; [apply after_Serve_ok; [done|done|congruence|done]|].
    split; unfold listens; cbn; rewrite ?Hi, ?Hmade in *; try done. intros _. by apply Hg.
  - apply after_Serve_ok; [done|done|congruence|]. by intros ->.
  - split; unfold listens; cbn; [by destruct (serving s)|done|done|by rewrite Hnone; intros []|by intros _; apply Hg].
  - split; unfold listens; cbn; [done| |done|done|].
    + intros Hm. destruct (Hn Hm). congruence.
    + intros Hm. destruct (Hg Hm) as (errs & -> & _ & Hnil). rewrite Hnil by done.
      destruct err; eexists; (split_and!; [reflexivity|cbn; lia|done]).
Qed.

Lemma reachable_ok s : reachable s -> server_ok s.
Proof using closed_is_closed.
  induction 1 as [|s s' _ IH Hstep]; [|by eapply server_ok_step]. by split.
Qed.

(** How many steps the server still takes at most. *)
Definition steps_left s : nat :=
  match serving s with NotMade => 3 | Made => 2 | InServe => 1 | Ended => 0 end +
  (if inShutdown s then 0 else 1) + (if stopped s then 0 else 1) + match panicked s with Some _ => 0 | None => 1 end.

Lemma step_decreases s s' : step s s' -> (steps_left s' < steps_left s)%nat.
Proof using Type.
  intros [[err|] s0 Hnone Hmade|s0 Hnone Hmade|err s0 Hnone Hmade Herr|s0 Hnone Hmade Hi|err s0 Hnone Hi Hst];
    unfold steps_left, start_hook, Serve_begins, Accept_fails, after_Serve; cbn; repeat case_match; cbn in *; simplify_eq; lia.
Qed.

(** C40: the life of the server: it listens from its start to its shutdown, or until it fails;
    nothing that happens after [Shutdown] has begun panics, in whichever order the
    goroutine and the stop hook run; and when nothing more can happen to a process that has
    not panicked it has stopped, does not listen, and has logged one record, or two
    when [Shutdown] failed. *)
Theorem server_life s : reachable s ->
  listening s = listens s /\
  (inShutdown s = true -> panicked s = None) /\
  (forall s', step s s' -> (steps_left s' < steps_left s)%nat) /\
  ((forall s', ~ step s s') -> panicked s = None ->
     serving s = Ended /\ stopped s = true /\ listening s = false /\
     exists errs, logged s = (LogLevelInfo, "Running gin server on: " +:+ address) :: errs /\ (length errs <= 1)%nat).
Proof using closed_is_closed ErrClosed ErrClosed_other.
  intros Hr. destruct (reachable_ok s Hr) as [Hl Hn Hs Hp Hg]. split; [done|]. split_and!.
  - intros Hi. destruct (panicked s) eqn:E0; [|done]. assert (inShutdown s = false) by (apply Hp; by eexists). congruence.
  - apply step_decreases.
  - intros Hstuck Hnone.
    assert (serving s <> NotMade) as Hmade by (intros E0; by eapply Hstuck, (step_start _ _ _ _ None)).
    assert (inShutdown s = true) as Hi.
    { destruct (inShutdown s) eqn:Hi; [done|]. exfalso. by eapply Hstuck, step_shutdown. }
    assert (stopped s = true) as Hst.
    { destruct (stopped s) eqn:Hst; [done|]. exfalso. by eapply Hstuck, (step_stopped _ _ _ _ None). }
    assert (serving s = Ended) as Hend.
    { destruct (serving s) eqn:E0; [done|..|done]; exfalso; [by eapply Hstuck, step_serve|by eapply Hstuck, (step_accept _ _ _ _ ErrClosed)]. }
    destruct (Hg Hmade) as (errs & Hlog & Hlen & _).
    split; [done|]. split; [done|]. split; [by rewrite Hl; unfold listens; rewrite Hend|]. by exists errs.
Qed.
End server_facts.

(** A server whose goroutine calls [Serve] only after [Shutdown] has begun. *)
Lemma server_life_witness :
  let step := step (E := nat) (fun e => Nat.eqb e 0) 0%nat (fun _ => "failed") ":8080" in
  let s := MkServer true Made true false [(LogLevelInfo, "Running gin server on: :8080")] None in
  listening s = true /\ panicked s = None /\ step s (Serve_begins (fun e => Nat.eqb e 0) 0%nat (fun _ => "failed") s) /\
  listening (Serve_begins (fun e => Nat.eqb e 0) 0%nat (fun _ => "failed") s) = false.
Proof.
  assert (reachable (E := nat) (fun e => Nat.eqb e 0) 0%nat (fun _ => "failed") ":8080"
    (MkServer true Made true false [(LogLevelInfo, "Running gin server on: :8080")] None)) as Hr.
  { eapply reachable_step; [eapply reachable_step; [apply reachable_new|by apply (step_start _ _ _ _ None)]|].
    by apply (step_shutdown _ _ _ _ (MkServer true Made false false [(LogLevelInfo, "Running gin server on: :8080")] None)). }
  destruct (server_life (E := nat) (fun e => Nat.eqb e 0) 0%nat (fun _ => "failed") ":8080" eq_refl 1%nat eq_refl _ Hr)
    as (Hl & Hp & _ & _).
  cbv zeta. split; [exact Hl|]. split; [apply Hp; reflexivity|]. split; [by apply step_serve|reflexivity].
Defined.
