(* ===== verification/DI.v ===== *)
(** * di: the container of a service

    Models what [di/di.go], [rest/providers/providers.go] and the functions [ProvideAs...] and
    [Register...] of the framework give to the container: constructors with what they
    take and return, as their signatures and the tags of their structs say, and
    annotations on them. The container itself, package fx, is a library: what its
    documentation promises about a start is the record [fx_run] of a sequence of calls. *)

From S2P Require Import Prelude.
From S2P Require Import GoReflect.

Open Scope string_scope.
Open Scope list_scope.

(** ** Constructors

    A value in the container: the only one of its type, one with a name, or a member of a
    group. *)
Inductive key := KType (t : string) | KName (t n : string) | KGroup (t g : string).
#[global] Instance key_eq_dec : EqDecision key.
Proof. solve_decision. Defined.

(** A parameter, or a field of a struct with [fx.In]. *)
Inductive param := Required (k : key) | Optional (k : key) | Group (t g : string).
#[global] Instance param_eq_dec : EqDecision param.
Proof. solve_decision. Defined.
Definition param_key (q : param) : key := match q with Required k | Optional k => k | Group t g => KGroup t g end.

(** A constructor, or a function to invoke, with the types of its parameters and results;
    [n_hook]: it adds a hook to the lifecycle. *)
Record node := MkNode { n_name : string; n_params : list param; n_results : list key; n_hook : bool }.
#[global] Instance node_eq_dec : EqDecision node.
Proof. solve_decision. Defined.

(** Annotations; [From] has the types that replace those of the first parameters, [OnStop]
    the parameters of the hook. *)
Inductive tag := NoTag | TagOptional | TagName (n : string) | TagGroup (g : string).
Inductive annotation := ParamTags (tags : list tag) | ResultTags (tags : list tag) | From (types : list string) | OnStop (params : list key).

Definition tag_param (t : tag) (q : param) : param :=
  match t, q with
  | TagOptional, Required k => Optional k
  | TagName n, Required (KType ty) => Required (KName ty n)
  | TagGroup g, Required (KType ty) => Group ty g
  | _, _ => q
  end.
Definition tag_result (t : tag) (k : key) : key :=
  match t, k with
  | TagName n, KType ty => KName ty n
  | TagGroup g, KType ty => KGroup ty g
  | _, _ => k
  end.
Fixpoint zip_tags {A} (f : tag -> A -> A) (ts : list tag) (l : list A) : list A :=
  match ts, l with
  | t :: ts, x :: l => f t x :: zip_tags f ts l
  | _, _ => l
  end.
Definition annotate (a : annotation) (n : node) : node :=
  match a with
  | ParamTags ts => MkNode (n_name n) (zip_tags tag_param ts (n_params n)) (n_results n) (n_hook n)
  | ResultTags ts => MkNode (n_name n) (n_params n) (zip_tags tag_result ts (n_results n)) (n_hook n)
  | From types => MkNode (n_name n) (((fun t => Required (KType t)) <$> types) ++ drop (length types) (n_params n)) (n_results n) (n_hook n)
  | OnStop ps => MkNode (n_name n) (n_params n ++ (Required <$> filter (fun k => k ∉ n_results n) ps)) (n_results n) true
  end.
(** [fx.Annotate] *)
Definition Annotate (n : node) (anns : list annotation) : node := foldl (fun n a => annotate a n) n anns.

(** ** Options of the container *)
Inductive fx_option :=
| Provide (constructor : node)
| Invoke (function : node)
| WithLogger (constructor : node)
| Decorate (decorator : node)
| Options (options : list fx_option).

(** [fx.Supply] of a value, which may be annotated. *)
Definition value (name t : string) : node := MkNode name [] [KType t] false.
Definition Supply (n : node) : fx_option := Provide n.

Section collect.
Context {A : Type} (f : fx_option -> list A).
Fixpoint collect (o : fx_option) : list A :=
  match o with
  | Options os => (fix go os := match os with [] => [] | o :: os => collect o ++ go os end) os
  | _ => f o
  end.
Lemma collect_Options os : collect (Options os) = os ≫= collect.
Proof using Type. cbn [collect]. induction os as [|o os IH]; [done|]. cbn. by rewrite IH. Qed.
End collect.

Definition provided : fx_option -> list node := collect (fun o => match o with Provide n => [n] | _ => [] end).
Definition invoked : fx_option -> list node := collect (fun o => match o with Invoke n => [n] | _ => [] end).
Definition loggers : fx_option -> list node := collect (fun o => match o with WithLogger n => [n] | _ => [] end).
Definition decorators : fx_option -> list node := collect (fun o => match o with Decorate n => [n] | _ => [] end).
Definition invokes (o : fx_option) : list string := n_name <$> invoked o.

(** [o] is among the options [os]. *)
Inductive within (o : fx_option) : fx_option -> Prop :=
| within_self : within o o
| within_Options o' os : within o o' -> o' ∈ os -> within o (Options os).

Lemma within_trans o o' os : within o o' -> within o' os -> within o os.
Proof. intros Hw. induction 1 as [|o'' os _ IH Hin]; [done|]. by eapply within_Options. Qed.

Lemma within_provided o os n : within o os -> n ∈ provided o -> n ∈ provided os.
Proof.
  induction 1 as [|o' os _ IH Hin]; [done|]. intros Hn. unfold provided. rewrite collect_Options.
  apply list_elem_of_bind. exists o'. split; [by apply IH|done].
Qed.

(** ** [di.FxProvideAs]

    [None]: it panics, as the provider is no function or returns nothing. The
    second constructor is the function literal, which takes what the provider returns. *)
Definition as_interface (interface : string) (provider : node) : node :=
  MkNode (interface +:+ " of " +:+ n_name provider) [Required (KType interface)] [KType interface] false.
Definition FxProvideAs (interface : string) (kind : Kind) (provider : node) (tAnns iAnns : list annotation) : option fx_option :=
  if negb (bool_decide (kind = Func)) then None
  else
    match n_results provider with
    | KType t :: _ =>
        Some (Options
          [Provide (Annotate provider tAnns);
           Provide (Annotate (as_interface interface provider) (iAnns ++ [From [t]]))])
    | _ => None
    end.

(** *** Who calls it *)
Definition ProvideAsMiddleware (kind : Kind) (provider : node) (anns : list annotation) : option fx_option :=
  FxProvideAs "middleware.Middleware" kind provider anns [ResultTags [TagGroup "middlewares"]].
Definition ProvideAsResource (kind : Kind) (provider : node) (anns : list annotation) : option fx_option :=
  FxProvideAs "rest.Resource" kind provider [] (anns ++ [ResultTags [TagGroup "resources"]]).
Definition ProvideAsHealthCheck (kind : Kind) (provider : node) (anns : list annotation) : option fx_option :=
  FxProvideAs "middleware.HealthCheckProvider" kind provider anns [ResultTags [TagGroup "health_checks"]].
Definition ProvideAsAuthN (kind : Kind) (provider : node) (anns : list annotation) : option fx_option :=
  FxProvideAs "middleware.AuthNProvider" kind provider anns [].
Definition ProvideAsAuthZ (kind : Kind) (provider : node) (anns : list annotation) : option fx_option :=
  FxProvideAs "middleware.AuthZProvider" kind provider anns [].
Definition ProvideAsLongRunningWorker (kind : Kind) (provider : node) (anns : list annotation) : option fx_option :=
  FxProvideAs "worker.LongRunningWorker" kind provider anns [ResultTags [TagGroup "long_running_workers"]].

(** The mappers of errors; [mapper], [builder]: the names of the values. *)
Definition AsErrorMapper (mapper : string) : node :=
  Annotate (value mapper "middleware.ErrorMapper") [ResultTags [TagGroup "error_mappers"]].
Definition RegisterErrorAsMapper (mapper : string) : fx_option := Supply (AsErrorMapper mapper).
Definition RegisterErrorIsMapper (mapper : string) : fx_option := Supply (AsErrorMapper mapper).
Definition RegisterErrorCodeMapper (mapper : string) : fx_option := Supply (AsErrorMapper mapper).
Definition RegisterDefaultErrorMapper (builder : string) : fx_option :=
  Supply (Annotate (value builder "middleware.ErrorResponseBuilder") [ResultTags [TagName "default_error_mapper"]]).

(** ** What fx promises about a start

    [roots]: the function of [WithLogger] and then the invoked ones. *)
Record Container := MkContainer { c_nodes : list node; c_decorators : list node; c_roots : list node }.
Definition container_of (o : fx_option) : Container := MkContainer (provided o) (decorators o) (loggers o ++ invoked o).

(** What fx provides itself. *)
Definition builtin (k : key) : bool := bool_decide (k ∈ [KType "fx.Lifecycle"; KType "fx.Shutdowner"; KType "fx.DotGraph"]).
Definition is_group (k : key) : bool := match k with KGroup _ _ => true | _ => false end.

Section container.
Context (c : Container).
Implicit Types (n p : node) (k : key) (q : param).

(** Who gives [n] a value under a key: the constructors, and the decorators but for a decorator. *)
Definition suppliers n k : list node :=
  filter (fun p => k ∈ n_results p) (c_nodes c ++ (if bool_decide (n ∈ c_decorators c) then [] else c_decorators c)).
Definition needs n p : Prop := exists q, q ∈ n_params n /\ p ∈ suppliers n (param_key q).

(** Everything that is required is there. *)
Inductive complete : node -> Prop :=
| complete_node n :
    (forall k, Required k ∈ n_params n -> builtin k = true \/ suppliers n k <> []) ->
    (forall q p, q ∈ n_params n -> (forall k, q <> Optional k) -> p ∈ suppliers n (param_key q) -> complete p) ->
    complete n.

Definition closed (S : list node) : Prop := forall n p, n ∈ S -> needs n p -> p ∈ S.

(** A start: constructors that are called, and roots that are run. *)
Inductive event := Call (n : node) | Root (n : node).
Definition event_node (e : event) : node := match e with Call n | Root n => n end.
Definition called (e : event) : option node := match e with Call n => Some n | Root _ => None end.
Definition rooted (e : event) : option node := match e with Call _ => None | Root n => Some n end.

(** Keys but for those of groups have one constructor; a constructor runs at most once, when
    a root that is about to run needs it; whatever a function takes is made before; an optional
    value is left out when something that it requires is missing; otherwise a missing
    one makes the start fail, so there is no such sequence. *)
Record fx_run (tr : list event) : Prop := {
  run_unique : NoDup (filter (fun k => is_group k = false) (c_nodes c ≫= n_results));
  run_once : NoDup (omap called tr);
  run_known : forall p, Call p ∈ tr -> p ∈ c_nodes c ++ c_decorators c;
  run_roots : omap rooted tr = c_roots c;
  run_complete : forall e, e ∈ tr -> complete (event_node e);
  run_before : forall pre e post p, tr = pre ++ e :: post -> needs (event_node e) p -> complete p -> Call p ∈ pre;
  run_lazy : forall pre p post, tr = pre ++ Call p :: post ->
    exists mid r post', post = mid ++ Root r :: post' /\ omap rooted mid = [] /\ forall S, closed S -> r ∈ S -> p ∈ S;
}.

(** The hooks of a lifecycle run at the start in the order in which they were added, and
    at the end in the opposite order. *)
Definition starts (tr : list event) : list node := filter (fun n => n_hook n = true) (omap called tr).
Definition stops (tr : list event) : list node := reverse (starts tr).
End container.

(** ** Order *)
Definition before {A} (a b : A) (l : list A) : Prop := exists l1 l2 l3, l = l1 ++ a :: l2 ++ b :: l3.

Lemma before_split {A} (a b : A) l1 l2 : a ∈ l1 -> before a b (l1 ++ b :: l2).
Proof. intros (x & y & ->)%list_elem_of_split. exists x, y, l2. by rewrite <- app_assoc. Qed.
Lemma before_reverse {A} (a b : A) l : before a b l -> before b a (reverse l).
Proof.
  intros (l1 & l2 & l3 & ->). exists (reverse l3), (reverse l2), (reverse l1).
  rewrite reverse_app, reverse_cons, reverse_app, reverse_cons. by rewrite <- !app_assoc.
Qed.
Lemma before_omap {A B} (f : A -> option B) a b x y l : before a b l -> f a = Some x -> f b = Some y -> before x y (omap f l).
Proof.
  intros (l1 & l2 & l3 & ->) Ha Hb. exists (omap f l1), (omap f l2), (omap f l3).
  rewrite omap_app. cbn. rewrite Ha, omap_app. cbn. by rewrite Hb.
Qed.
Lemma before_filter {A} (P : A -> Prop) `{!forall x, Decision (P x)} a b l : before a b l -> P a -> P b -> before a b (filter P l).
Proof.
  intros (l1 & l2 & l3 & ->) Ha Hb. exists (filter P l1), (filter P l2), (filter P l3).
  by rewrite filter_app, filter_cons_True, filter_app, filter_cons_True.
Qed.
Lemma before_elem {A} (a b : A) l : before a b l -> a ∈ l /\ b ∈ l.
Proof. intros (l1 & l2 & l3 & ->). set_solver. Qed.

(** ** What follows for a start *)
Lemma complete_supplier c n q p : complete c n -> q ∈ n_params n -> (forall k, q <> Optional k) ->
  p ∈ suppliers c n (param_key q) -> complete c p.
Proof. intros [n' _ Hall]. apply Hall. Qed.
Lemma complete_supplied c n k : complete c n -> Required k ∈ n_params n -> builtin k = false -> exists p, p ∈ suppliers c n k /\ complete c p.
Proof.
  intros Hc Hk Hb. pose proof Hc as Hc'. inversion_clear Hc' as [n' Hreq _]. destruct (Hreq k Hk) as [?|Hs]; [congruence|].
  destruct (suppliers c n k) as [|p ps] eqn:E; [done|]. exists p. split; [left|]. eapply complete_supplier; [done..|]. cbn. rewrite E. left.
Qed.

Section runs.
Context (c : Container) (tr : list event).
Hypothesis Hrun : fx_run c tr.
Implicit Types (n p : node) (e : event) (q : param).

Lemma needed_first e p : e ∈ tr -> needs c (event_node e) p -> complete c p -> before (Call p) e tr.
Proof using Hrun.
  intros (l1 & l2 & E)%list_elem_of_split Hn Hc. rewrite E. apply before_split. by eapply (run_before _ _ Hrun).
Qed.

(** What is not optional is there before. *)
Lemma required_first e q p : e ∈ tr -> q ∈ n_params (event_node e) -> (forall k, q <> Optional k) ->
  p ∈ suppliers c (event_node e) (param_key q) -> before (Call p) e tr.
Proof using Hrun.
  intros He Hq Hno Hp. apply needed_first; [done|by exists q|]. eapply complete_supplier; [by apply (run_complete _ _ Hrun)|done..].
Qed.

Lemma required_supplied e k : e ∈ tr -> Required k ∈ n_params (event_node e) -> builtin k = false ->
  exists p, p ∈ suppliers c (event_node e) k /\ before (Call p) e tr.
Proof using Hrun.
  intros He Hk Hb. destruct (complete_supplied c _ k (run_complete _ _ Hrun e He) Hk Hb) as (p & Hp & _).
  exists p. split; [done|]. by apply (required_first e (Required k)).
Qed.

(** Hooks start in the order of the calls and stop in the opposite one. *)
Lemma hooks_order n p : before (Call p) (Call n) tr -> n_hook p = true -> n_hook n = true ->
  before p n (starts tr) /\ before n p (stops tr).
Proof using Type.
  intros Hb Hp Hn. assert (before p n (starts tr)) as Hs.
  { apply before_filter; [|done|done]. by eapply before_omap. }
  split; [done|]. by apply before_reverse.
Qed.

(** What none of the roots up to [r] needs is made after [r]. *)
Lemma late p rs1 r rs2 S : Call p ∈ tr -> c_roots c = rs1 ++ r :: rs2 -> closed c S ->
  Forall (fun x => x ∈ S) (rs1 ++ [r]) -> p ∉ S -> before (Root r) (Call p) tr.
Proof using Hrun.
  intros Hin Hr HS Hrs Hp. apply list_elem_of_split in Hin as (pre & post & E).
  destruct (run_lazy _ _ Hrun pre p post E) as (mid & r0 & post' & -> & Hmid & Hr0).
  rewrite E. apply before_split.
  pose proof (run_roots _ _ Hrun) as Hroots. rewrite E, Hr in Hroots. rewrite omap_app in Hroots. cbn in Hroots.
  rewrite omap_app, Hmid in Hroots. cbn in Hroots.
  assert (r ∈ omap rooted pre) as Hrin.
  { assert (omap rooted pre ++ r0 :: omap rooted post' = (rs1 ++ [r]) ++ rs2) as Heq by (by rewrite <- app_assoc).
    apply app_eq_inv in Heq as [(k & Hk & _)|(k & Hk & Hk2)]; [rewrite Hk; set_solver|].
    destruct k as [|x k]; [rewrite app_nil_r in Hk; rewrite <- Hk; set_solver|]. exfalso. injection Hk2 as -> _.
    apply Hp, Hr0; [done|]. rewrite Forall_forall in Hrs. apply Hrs. rewrite Hk. set_solver. }
  apply list_elem_of_omap in Hrin as (e & He & Hre). destruct e; cbn in Hre; [done|]. by injection Hre as ->.
Qed.
End runs.

(** ** A container to compute with

    Constructors called depth first; every sequence that [check_run] accepts is one that
    the promises allow. *)
Section compute.
Context (c : Container).
Implicit Types (n p : node) (e : event).
#[global] Instance event_eq_dec : EqDecision event.
Proof. solve_decision. Defined.

Definition is_optional (q : param) : bool := match q with Optional _ => true | _ => false end.

Fixpoint completes (fuel : nat) n : bool :=
  match fuel with
  | O => false
  | S fuel =>
      forallb (fun q =>
        (match q with Required k => builtin k || negb (bool_decide (suppliers c n k = [])) | _ => true end) &&
        (is_optional q || forallb (completes fuel) (suppliers c n (param_key q)))) (n_params n)
  end.

Fixpoint make (fuel : nat) n (tr : list event) : list event :=
  match fuel with
  | O => tr
  | S fuel =>
      foldl (fun tr q =>
        foldl (fun tr p =>
          if bool_decide (Call p ∈ tr) || (is_optional q && negb (completes fuel p)) then tr else make fuel p tr ++ [Call p])
          tr (suppliers c n (param_key q))) tr (n_params n)
  end.
Definition start_run (fuel : nat) : list event := foldl (fun tr r => make fuel r tr ++ [Root r]) [] (c_roots c).

Fixpoint reaches (fuel : nat) n p : bool :=
  bool_decide (n = p) ||
  match fuel with
  | O => false
  | S fuel => existsb (fun q => existsb (fun m => reaches fuel m p) (suppliers c n (param_key q))) (n_params n)
  end.

Fixpoint next_root (tr : list event) : option node :=
  match tr with [] => None | Root r :: _ => Some r | Call _ :: tr => next_root tr end.
Fixpoint check_lazy (fuel : nat) (tr : list event) : bool :=
  match tr with
  | [] => true
  | Call p :: tr => match next_root tr with Some r => reaches fuel r p | None => false end && check_lazy fuel tr
  | Root _ :: tr => check_lazy fuel tr
  end.
Fixpoint check_before (pre : list event) (tr : list event) : bool :=
  match tr with
  | [] => true
  | e :: tr =>
      forallb (fun q => forallb (fun p => bool_decide (Call p ∈ pre)) (suppliers c (event_node e) (param_key q))) (n_params (event_node e)) &&
      check_before (pre ++ [e]) tr
  end.
Definition check_run (fuel : nat) (tr : list event) : bool :=
  bool_decide (NoDup (filter (fun k => is_group k = false) (c_nodes c ≫= n_results))) &&
  bool_decide (NoDup (omap called tr)) &&
  forallb (fun e => match called e with Some p => bool_decide (p ∈ c_nodes c ++ c_decorators c) | None => true end) tr &&
  bool_decide (omap rooted tr = c_roots c) &&
  forallb (fun e => completes fuel (event_node e)) tr &&
  check_before [] tr && check_lazy fuel tr.

Lemma completes_sound fuel n : completes fuel n = true -> complete c n.
Proof using Type.
  revert n. induction fuel as [|fuel IH]; intros n Hc; [done|]. cbn [completes] in Hc. rewrite forallb_forall in Hc. constructor.
  - intros k Hk. apply list_elem_of_In in Hk. specialize (Hc _ Hk). apply andb_true_iff in Hc as [Hc _].
    apply orb_true_iff in Hc as [Hc|Hc]; [by left|right]. by apply negb_true_iff, bool_decide_eq_false in Hc.
  - intros q p Hq Hno Hp. apply list_elem_of_In in Hq. specialize (Hc _ Hq). apply andb_true_iff in Hc as [_ Hc].
    apply orb_true_iff in Hc as [Hc|Hc]; [destruct q as [k|k|t g]; [done|by destruct (Hno k)|done]|]. rewrite forallb_forall in Hc.
    apply IH, Hc. by apply list_elem_of_In.
Qed.

Lemma reaches_sound fuel n p S : reaches fuel n p = true -> closed c S -> n ∈ S -> p ∈ S.
Proof using Type.
  intros Hr HS. revert n Hr. induction fuel as [|fuel IH]; intros n Hr Hn; cbn [reaches] in Hr; apply orb_true_iff in Hr as [Hr|Hr];
    try (by apply bool_decide_eq_true in Hr as ->); [done|].
  apply existsb_exists in Hr as (q & Hq & Hr). apply existsb_exists in Hr as (m & Hm & Hr). apply (IH m Hr), (HS n m Hn).
  exists q. by rewrite !list_elem_of_In.
Qed.

Definition check_closed (S : list node) : bool :=
  forallb (fun n => forallb (fun q => forallb (fun p => bool_decide (p ∈ S)) (suppliers c n (param_key q))) (n_params n)) S.
Lemma check_closed_sound S : check_closed S = true -> closed c S.
Proof using Type.
  unfold check_closed. rewrite forallb_forall. intros Hc n p Hn (q & Hq & Hp). apply list_elem_of_In in Hn, Hq, Hp.
  specialize (Hc n Hn). rewrite forallb_forall in Hc. specialize (Hc q Hq). rewrite forallb_forall in Hc.
  by apply (bool_decide_eq_true_1 _), Hc.
Qed.

Lemma next_root_split tr r : next_root tr = Some r -> exists mid post, tr = mid ++ Root r :: post /\ omap rooted mid = [].
Proof using Type.
  induction tr as [|[p|r'] tr IH]; cbn; [done| |].
  - intros H. destruct (IH H) as (mid & post & -> & Hm). by exists (Call p :: mid), post.
  - intros [= ->]. by exists [], tr.
Qed.

Lemma check_lazy_sound fuel tr pre p post : check_lazy fuel tr = true -> tr = pre ++ Call p :: post ->
  exists mid r post', post = mid ++ Root r :: post' /\ omap rooted mid = [] /\ forall S, closed c S -> r ∈ S -> p ∈ S.
Proof using Type.
  revert tr. induction pre as [|e pre IH]; intros tr Hc ->.
  - cbn in Hc. apply andb_true_iff in Hc as [Hc _]. destruct (next_root post) as [r|] eqn:E; [|done].
    destruct (next_root_split _ _ E) as (mid & post' & -> & Hm). exists mid, r, post'. split_and!; [done..|].
    intros S HS Hr. by eapply reaches_sound.
  - apply (IH (pre ++ Call p :: post)); [|done]. destruct e; cbn in Hc; [by apply andb_true_iff in Hc as [_ Hc]|done].
Qed.

Lemma check_before_sound acc tr pre e post p : check_before acc tr = true -> tr = pre ++ e :: post ->
  needs c (event_node e) p -> Call p ∈ acc ++ pre.
Proof using Type.
  revert acc tr. induction pre as [|e' pre IH]; intros acc tr Hc -> (q & Hq & Hp); cbn in Hc; apply andb_true_iff in Hc as [Hc1 Hc2].
  - rewrite forallb_forall in Hc1. apply list_elem_of_In in Hq, Hp. specialize (Hc1 _ Hq). rewrite forallb_forall in Hc1.
    rewrite app_nil_r. by apply (bool_decide_eq_true_1 _), Hc1.
  - specialize (IH (acc ++ [e']) _ Hc2 eq_refl). rewrite <- app_assoc in IH. apply IH. by exists q.
Qed.

Lemma check_run_sound fuel tr : check_run fuel tr = true -> fx_run c tr.
Proof using Type.
  unfold check_run. rewrite !andb_true_iff, !bool_decide_eq_true. intros ((((((Hu & Ho) & Hk) & Hr) & Hc) & Hb) & Hl). split; [done|done| |done| | |].
  - intros p Hp. rewrite forallb_forall in Hk. apply list_elem_of_In in Hp. specialize (Hk _ Hp). by apply bool_decide_eq_true in Hk.
  - intros e He. rewrite forallb_forall in Hc. apply list_elem_of_In in He. by eapply completes_sound, Hc.
  - intros pre e post p -> Hn _. by apply (check_before_sound [] _ pre e post p Hb).
  - intros pre p post. by apply check_lazy_sound with (fuel := fuel).
Qed.
End compute.
