(* ===== verification/Modules.v ===== *)
(** * The modules of the framework

    The constructors of the framework that the container is given, with what their signatures and
    the tags of their structs say, and the variables [Module...] of all packages over file DI. *)

From S2P Require Import Prelude.
From S2P Require Import GoReflect.
From S2P Require Import DI.

Open Scope string_scope.
Open Scope list_scope.

#[local] Notation req t := (Required (KType t)).
#[local] Notation opt t := (Optional (KType t)).

(** What [di.FxProvideAs] gives for a function of the source; [modules_provided] below says
    that none of them makes it panic. *)
Definition provided_as (o : option fx_option) : fx_option := default (Options []) o.

(** ** config, log, di *)
Definition NewConfig : node := MkNode "config.NewConfig" [req "config.RootConfig"; req "config.SecretsManager"] [KType "config.Config"] false.
Definition GetRootConfig : node := MkNode "config.GetRootConfig" [] [KType "config.RootConfig"] false.
Definition config_Module : fx_option :=
  Options [Provide (Annotate NewConfig [ParamTags [NoTag; TagOptional]]); Provide GetRootConfig].

Definition NewLoggerFactory : node := MkNode "log.NewLoggerFactory" [req "config.RootConfig"] [KType "*log.LoggerFactory"] false.
Definition log_Module : fx_option := Provide NewLoggerFactory.

Definition NewFxLoggerFactory : node := MkNode "di.NewFxLoggerFactory" [req "*log.LoggerFactory"] [KType "di.FxLoggerFactory"] false.
Definition di_Module : fx_option := Provide NewFxLoggerFactory.

(** The struct that the constructors of the framework embed. *)
Definition BaseParams : list param :=
  [req "*log.LoggerFactory"; req "fx.Lifecycle"; req "fx.Shutdowner"; req "config.Config"; opt "database.DB"].

(** ** database, redis, secrets, AWS, slack *)
Definition NewDB : node := MkNode "database.NewDB" [req "config.Config"; req "*log.LoggerFactory"] [KType "database.DB"] false.
Definition database_Module : fx_option := Provide (Annotate NewDB [OnStop [KType "database.DB"]]).

Definition NewRedis : node := MkNode "redis.NewRedis" [req "config.Config"; req "*log.LoggerFactory"] [KType "*redis.Redis"] false.
Definition redis_Module : fx_option := Provide (Annotate NewRedis [OnStop [KType "redis.Redis"]]).

Definition secrets_convert : node :=
  MkNode "secrets.Module.func1" [req "secrets.SecretsManager"] [KType "config.SecretsManager"] false.
Definition secrets_Module : fx_option := Options [Provide secrets_convert].
Definition NewAWSSecretsManager : node :=
  MkNode "secrets.NewAWSSecretsManager" [req "config.RootConfig"; req "*aws.Config"; opt "secrets.KeyTransformer"]
    [KType "*secrets.AWSSecretsManager"] false.
Definition secrets_ModuleAWS : fx_option :=
  Options [secrets_Module; provided_as (FxProvideAs "secrets.SecretsManager" Func NewAWSSecretsManager [] [])].

Definition aws_NewAWSConfig : node := MkNode "aws.NewAWSConfig" [req "config.RootConfig"] [KType "aws.Config"] false.
Definition aws_Module : fx_option := Provide aws_NewAWSConfig.
(** Not part of a module. *)
Definition di_NewAWSConfig : node := MkNode "di.NewAWSConfig" [req "config.RootConfig"] [KType "*aws.Config"] false.

Definition NewSlackClient : node := MkNode "slack.NewSlackClient" [req "config.Config"; req "*log.LoggerFactory"] [KType "*slack.Client"] false.
Definition slack_NewFxLoggerFactory : node :=
  MkNode "slack.NewFxLoggerFactory" [req "di.FxLoggerFactory"; req "*slack.Client"; req "*log.LoggerFactory"] [KType "di.FxLoggerFactory"] false.
Definition slack_Module : fx_option := Options [Provide NewSlackClient; Decorate slack_NewFxLoggerFactory].

(** ** distributedlock and worker *)
Definition NewRedisFactory : node := MkNode "distributedlock.NewRedisFactory" [req "redis.Redis"] [KType "*distributedlock.RedisFactory"] false.
Definition NewPostgresFactory : node := MkNode "distributedlock.NewPostgresFactory" [] [KType "*distributedlock.PostgresFactory"] false.
Definition NewLocalFactory : node := MkNode "distributedlock.NewLocalFactory" [] [KType "*distributedlock.LocalFactory"] false.
Definition ModuleRedis : fx_option := provided_as (FxProvideAs "distributedlock.Factory" Func NewRedisFactory [] []).
Definition ModulePostgres : fx_option := provided_as (FxProvideAs "distributedlock.Factory" Func NewPostgresFactory [] []).
Definition ModuleLocal : fx_option := provided_as (FxProvideAs "distributedlock.Factory" Func NewLocalFactory [] []).

(** It adds [Start] and [Stop] to the lifecycle. *)
Definition NewLongRunningWorkerHandlerFx : node :=
  MkNode "worker.NewLongRunningWorkerHandlerFx"
    (BaseParams ++ [req "distributedlock.Factory"; Group "worker.LongRunningWorker" "long_running_workers"])
    [KType "*worker.LongRunningWorkerHandler"] true.
Definition worker_ModuleWorkerHandler : fx_option :=
  provided_as (FxProvideAs "worker.Handler" Func NewLongRunningWorkerHandlerFx [] [ResultTags [TagGroup "worker_handlers"]]).

(** ** rest *)
Definition NewHTTPHandler : node :=
  MkNode "rest.NewHTTPHandler" [req "config.Config"; req "*log.LoggerFactory"; req "fx.Lifecycle"] [KType "rest.HTTPHandler"] true.
Definition invoke_NewResources : node :=
  MkNode "rest.NewResources" [Group "rest.Resource" "resources"; opt "rest.HTTPHandler"] [KType "rest.Resources"] false.
Definition rest_Module : fx_option := Options [Invoke invoke_NewResources; Provide NewHTTPHandler].

Definition NewHealthCheckFx : node :=
  MkNode "middleware.NewHealthCheckFx" (BaseParams ++ [Group "middleware.HealthCheckProvider" "health_checks"])
    [KType "*middleware.HealthCheckMiddleware"] false.
Definition NewReadyCheckFx : node :=
  MkNode "middleware.NewReadyCheckFx" (BaseParams ++ [req "*log.LoggerFactory"; Group "middleware.ReadyCheckProvider" "ready_checks"])
    [KType "*middleware.ReadyCheckMiddleware"] false.
Definition NewPanicRecovery : node :=
  MkNode "middleware.NewPanicRecovery" [req "config.Config"; req "*log.LoggerFactory"] [KType "*middleware.PanicRecoveryMiddleware"] false.
Definition NewErrorHandlerFx : node :=
  MkNode "middleware.NewErrorHandlerFx"
    (BaseParams ++ [Group "middleware.ErrorMapper" "error_mappers"; Optional (KName "middleware.ErrorResponseBuilder" "default_error_mapper")])
    [KType "*middleware.ErrorHandlerMiddleware"] false.
Definition NewRequestLogger : node :=
  MkNode "middleware.NewRequestLogger" [req "config.Config"; req "*log.LoggerFactory"] [KType "*middleware.RequestLoggerMiddleware"] false.
Definition NewAuthN : node :=
  MkNode "middleware.NewAuthN" [req "config.Config"; req "*log.LoggerFactory"; req "middleware.AuthNProvider"]
    [KType "*middleware.AuthNMiddleware"] false.
Definition NewAuthZ : node :=
  MkNode "middleware.NewAuthZ" [req "config.Config"; req "*log.LoggerFactory"; req "middleware.AuthZProvider"]
    [KType "*middleware.AuthZMiddleware"] false.
Definition NewDatabaseTrx : node :=
  MkNode "middleware.NewDatabaseTrx" [req "config.Config"; req "*log.LoggerFactory"; req "database.DB"]
    [KType "*middleware.DatabaseTrxMiddleware"] false.
Definition invoke_NewMiddlewares : node :=
  MkNode "middleware.NewMiddlewares" [req "*log.LoggerFactory"; Group "middleware.Middleware" "middlewares"; req "rest.HTTPHandler"]
    [KType "middleware.Middlewares"] false.

Definition RequestLoggerModule : fx_option := provided_as (ProvideAsMiddleware Func NewRequestLogger []).
Definition AuthNModule : fx_option := provided_as (ProvideAsMiddleware Func NewAuthN []).
Definition AuthZModule : fx_option := provided_as (ProvideAsMiddleware Func NewAuthZ []).
Definition DatabaseTrxModule : fx_option := provided_as (ProvideAsMiddleware Func NewDatabaseTrx []).
Definition middleware_Module : fx_option :=
  Options [Invoke invoke_NewMiddlewares;
           provided_as (ProvideAsMiddleware Func NewHealthCheckFx []); provided_as (ProvideAsMiddleware Func NewReadyCheckFx []);
           provided_as (ProvideAsMiddleware Func NewPanicRecovery []); provided_as (ProvideAsMiddleware Func NewErrorHandlerFx [])].

Definition NewDatabaseHealthCheckProvider_node : node :=
  MkNode "providers.NewDatabaseHealthCheckProvider" [req "database.DB"] [KType "*providers.DatabaseHealthCheckProvider"] false.
Definition NewRedisHealthCheckProvider_node : node :=
  MkNode "providers.NewRedisHealthCheckProvider" [req "redis.Redis"] [KType "*providers.RedisHealthCheckProvider"] false.
Definition providers_Module : fx_option :=
  Options [provided_as (ProvideAsHealthCheck Func NewDatabaseHealthCheckProvider_node [ParamTags [TagOptional]]);
           provided_as (ProvideAsHealthCheck Func NewRedisHealthCheckProvider_node [ParamTags [TagOptional]])].
Definition NewJWTProvider_node : node := MkNode "providers.NewJWTProvider" [req "config.Config"] [KType "providers.JWTProvider"] false.
Definition JWTProviderModule : fx_option := Provide NewJWTProvider_node.

(** A function with a result is accepted. *)
Lemma FxProvideAs_func interface n t ks tAnns iAnns : n_results n = KType t :: ks ->
  FxProvideAs interface Func n tAnns iAnns =
    Some (Options [Provide (Annotate n tAnns); Provide (Annotate (as_interface interface n) (iAnns ++ [From [t]]))]).
Proof. unfold FxProvideAs. by intros ->. Qed.

Lemma modules_provided : Forall (fun n => is_Some (FxProvideAs "" Func n [] []))
  [NewAWSSecretsManager; NewRedisFactory; NewPostgresFactory; NewLocalFactory; NewLongRunningWorkerHandlerFx; NewHealthCheckFx; NewReadyCheckFx;
   NewPanicRecovery; NewErrorHandlerFx; NewRequestLogger; NewAuthN; NewAuthZ; NewDatabaseTrx; NewDatabaseHealthCheckProvider_node;
   NewRedisHealthCheckProvider_node].
Proof. repeat constructor; by eexists. Qed.
