(* ===== verification/Commands.v ===== *)
(** * cmd and bootstrap: the commands of a service

    Models [cmd/*.go] and [bootstrap/app.go] over the options and modules of files DI and
    Modules. The command line is a library, like the container, of which this file uses
    that the invoked functions run in the order of the options. *)

From S2P Require Import Prelude.
From S2P Require Import GoStrings.
From S2P Require Import GoPath.
From S2P Require Import GoReflect.
From S2P Require Import Router.
From S2P Require Import Middleware.
From S2P Require Import Providers.
From S2P Require Import Pipeline.
From S2P Require Import DI.
From S2P Require Import Modules.

Open Scope string_scope.
Open Scope list_scope.
Open Scope Z_scope.

(** ** The functions that the commands run

    What their structs ask for. *)
Definition serve_Run : node := MkNode "serve" [Required (KType "config.Config"); Required (KType "rest.HTTPHandler")] [] false.
Definition work_Run : node := MkNode "work" [Required (KType "config.Config"); Group "worker.Handler" "worker_handlers"] [] false.
Definition serve_work_Run : node :=
  MkNode "serve-work"
    [Required (KType "config.Config"); Required (KType "rest.HTTPHandler"); Group "worker.Handler" "worker_handlers"] [] false.

(** ** The commands *)
Record Command := MkCommand { Cmd : string; Short : string; GetFXOpts : fx_option; Cmd_Run : node }.

Definition NewServeCommand (fxOpts : fx_option) : Command :=
  MkCommand "app:serve" "serve application" (Options [fxOpts; providers_Module; middleware_Module; rest_Module]) serve_Run.
Definition NewWorkCommand (fxOpts : fx_option) : Command :=
  MkCommand "app:work" "worker application" (Options [fxOpts; worker_ModuleWorkerHandler]) work_Run.
Definition NewServeWorkCommand (fxCommonOpts fxServerOpts fxWorkerOpts : fx_option) : Command :=
  MkCommand "app:serve-work" "server and worker application"
    (Options [fxCommonOpts; GetFXOpts (NewServeCommand fxServerOpts); GetFXOpts (NewWorkCommand fxWorkerOpts)]) serve_work_Run.

(** A command of the command line, with the options of the application it runs. *)
Record cobra := MkCobra { Use : string; Short_ : string; application : fx_option }.
Definition CreateLogger : node := MkNode "cmd.WrapSubCommand.func1" [Required (KType "di.FxLoggerFactory")] [KType "fxevent.Logger"] false.
Definition WrapSubCommand (cmd : Command) : cobra :=
  MkCobra (Cmd cmd) (Short cmd)
    (Options [config_Module; log_Module; di_Module; WithLogger CreateLogger; GetFXOpts cmd; Invoke (Cmd_Run cmd)]).
Definition WrapSubCommands (commands : list Command) : list cobra := WrapSubCommand <$> commands.

(** The command [rootCmd] is a variable of the package, to which [NewApp] adds. *)
Definition NewApp (rootCmd : list cobra) (commands : list Command) : list cobra := rootCmd ++ WrapSubCommands commands.
Definition NewAppWithServe (rootCmd : list cobra) (fxOpts : fx_option) : list cobra := NewApp rootCmd [NewServeCommand fxOpts].
Definition NewAppWithWork (rootCmd : list cobra) (fxOpts : fx_option) : list cobra := NewApp rootCmd [NewWorkCommand fxOpts].
Definition NewAppWithServeAndWork (rootCmd : list cobra) (fxCommonOpts fxServerOpts fxWorkerOpts : fx_option) : list cobra :=
  NewApp rootCmd
    [NewServeCommand (Options [fxCommonOpts; fxServerOpts]); NewWorkCommand (Options [fxCommonOpts; fxWorkerOpts]);
     NewServeWorkCommand fxCommonOpts fxServerOpts fxWorkerOpts].

(** What a command does when it is invoked: tracing and profiling as configured; [None]: the
    profiler does not start, which panics. *)
Inductive instrument := Tracer | Profiler.
Definition command_Run (tracing profiling profiler_starts : bool) : option (list instrument) :=
  let tracer := if tracing then [Tracer] else [] in
  if profiling then (if profiler_starts then Some (tracer ++ [Profiler]) else None) else Some tracer.

(** ** The start of an application

    The invoked functions one after the other, on the group of routes. *)
Section start.
Context {G : Type} (invoke : string -> G -> option G).
Fixpoint run_invokes (fs : list string) (g : G) : option G :=
  match fs with
  | [] => Some g
  | f :: fs => g ← invoke f g; run_invokes fs g
  end.
Definition start (o : fx_option) (g : G) : option G := run_invokes (invokes o) g.

Lemma run_invokes_app fs fs' g : run_invokes (fs ++ fs') g = (g ← run_invokes fs g; run_invokes fs' g).
Proof using Type.
  revert g. induction fs as [|f fs IH]; intros g; [done|]. cbn [app run_invokes]. destruct (invoke f g) as [g'|]; [|done]. cbn. apply IH.
Qed.
End start.

Lemma invokes_Options os : invokes (Options os) = os ≫= invokes.
Proof.
  unfold invokes, invoked. rewrite collect_Options. induction os as [|o os IH]; [done|]. cbn. by rewrite fmap_app, IH.
Qed.

(** What each command invokes: first what the service asks for, then the framework's
    middleware, then its resources, and the command itself at the end. *)
Lemma command_invokes fxOpts fxServerOpts fxWorkerOpts :
  invokes (application (WrapSubCommand (NewServeCommand fxOpts))) =
    invokes fxOpts ++ ["middleware.NewMiddlewares"; "rest.NewResources"; "serve"] /\
  invokes (application (WrapSubCommand (NewWorkCommand fxOpts))) = invokes fxOpts ++ ["work"] /\
  invokes (application (WrapSubCommand (NewServeWorkCommand fxOpts fxServerOpts fxWorkerOpts))) =
    invokes fxOpts ++ invokes fxServerOpts ++ ["middleware.NewMiddlewares"; "rest.NewResources"] ++ invokes fxWorkerOpts ++ ["serve-work"].
Proof.
  unfold WrapSubCommand, NewServeWorkCommand, NewServeCommand, NewWorkCommand. cbn [application GetFXOpts Cmd_Run].
  rewrite !invokes_Options. cbn [mbind list_bind app]. rewrite !invokes_Options. cbn [mbind list_bind app].
  rewrite !invokes_Options. cbn. rewrite ?app_nil_r, <- ?app_assoc. by split_and!.
Qed.

(** ** Which routes the middleware guards *)
Section guarded.
Context {G H : Type} `{GG : GinGroup G H} `{GL : !GinGroupLaws G H}.
Implicit Types (g : G) (rs : list (string * H)).

(** A resource that registers one route. *)
Definition resource_Setup (r : string * H) (g : G) : option G := Some (group_GET r.1 r.2 g).

Lemma resources_registered base rs g : group_path g = base -> NoDup (gin_joinPaths base <$> rs.*1) ->
  (forall p, p ∈ gin_joinPaths base <$> rs.*1 -> chain_of g p = None) ->
  exists g', Resources_Setup resource_Setup rs g = Some g' /\
    (forall rel h, (rel, h) ∈ rs -> chain_of g' (gin_joinPaths base rel) = Some (group_handlers g ++ [h])) /\
    (forall p, p ∉ gin_joinPaths base <$> rs.*1 -> chain_of g' p = chain_of g p).
Proof using All.
  revert g. induction rs as [|[rel0 h0] rs IH]; intros g Hg Hnd Hfree; [exists g; split_and!; [done|set_solver|done]|].
  cbn in Hnd. apply NoDup_cons in Hnd as [Hn0 Hnd].
  assert (chain_of g (gin_joinPaths (group_path g) rel0) = None) as Hnone by (rewrite Hg; apply Hfree; left).
  pose proof (fun p => GET_chain rel0 h0 g p Hnone) as Hget. rewrite Hg in Hget.
  destruct (IH (group_GET rel0 h0 g)) as (g' & E & Hin & Hout); [by rewrite GET_path|done| |].
  { intros p Hp. rewrite Hget, bool_decide_eq_false_2 by (by intros ->). apply Hfree. by right. }
  exists g'. split; [exact E|]. split.
  - intros rel h [[= -> ->]|Hr]%elem_of_cons; [|by rewrite (Hin rel h Hr), GET_handlers].
    by rewrite Hout, Hget, bool_decide_eq_true_2.
  - intros p Hp. cbn in Hp. apply not_elem_of_cons in Hp as [Hp0 Hp]. by rewrite Hout, Hget, bool_decide_eq_false_2.
Qed.

(** The functions that the serve command invokes; [user]: those of the service. *)
Definition serve_invoke (sort : forall A, (A -> A -> Z) -> list A -> list A) (base : string) (ms : list (Middleware (setup H)))
    (rs : list (string * H)) (user : string -> G -> option G) (f : string) (g : G) : option G :=
  if bool_decide (f = "middleware.NewMiddlewares") then setup_middlewares sort base ms g
  else if bool_decide (f = "rest.NewResources") then snd <$> NewResources resource_Setup rs g
  else if bool_decide (f = "serve") then Some g
  else user f g.
Definition framework_functions : list string := ["middleware.NewMiddlewares"; "rest.NewResources"; "serve"].

Lemma user_invokes sort base ms rs user fs g : Forall (fun f => f ∉ framework_functions) fs ->
  run_invokes (serve_invoke sort base ms rs user) fs g = run_invokes user fs g.
Proof using Type.
  clear GL. intros Hf. revert g. induction Hf as [|f fs Hn Hf IH]; intros g; [done|]. cbn [run_invokes].
  assert (serve_invoke sort base ms rs user f g = user f g) as ->.
  { unfold serve_invoke. rewrite !bool_decide_eq_false_2; [done|intros ->; set_solver..]. }
  destruct (user f g) as [g'|]; [|done]. cbn. apply IH.
Qed.
End guarded.

(** C30: the start of a server: the routes of its resources have the handlers of all middleware, in the
    order of priority; but routes that a function of the service registers when it is invoked have
    none of it, no authentication among others: the middleware comes later. *)
Theorem start_order {G H} `{GinGroupLaws G H} (sort : forall A, (A -> A -> Z) -> list A -> list A) `{!SortFunc sort}
    base (ms : list (Middleware (setup H))) (rs : list (string * H)) (user : string -> G -> option G) (fxOpts : fx_option) (g0 g1 : G) :
  HasPrefix base "/" = true -> Forall (fun f => f ∉ framework_functions) (invokes fxOpts) ->
  run_invokes user (invokes fxOpts) g0 = Some g1 -> group_path g1 = group_of base ->
  Forall (fun p => HasPrefix p "/" = true) (probe_paths ms) ->
  NoDup ((Clean <$> probe_paths ms) ++ (gin_joinPaths (group_of base) <$> rs.*1)) ->
  (forall p, p ∈ (Clean <$> probe_paths ms) ++ (gin_joinPaths (group_of base) <$> rs.*1) -> chain_of g1 p = None) ->
  exists g', start (serve_invoke sort base ms rs user) (application (WrapSubCommand (NewServeCommand fxOpts))) g0 = Some g' /\
    (forall rel h, (rel, h) ∈ rs ->
       chain_of g' (gin_joinPaths (group_of base) rel) = Some (group_handlers g1 ++ used (NewMiddlewares sort ms) ++ [h])) /\
    (forall p hs, chain_of g1 p = Some hs -> chain_of g' p = Some hs).
Proof.
  intros Hb Hf Hu Hg Hr Hnd Hfree. unfold start. rewrite (proj1 (command_invokes fxOpts fxOpts fxOpts)).
  rewrite run_invokes_app, user_invokes, Hu by done. cbn [mbind option_bind run_invokes].
  change (serve_invoke sort base ms rs user "middleware.NewMiddlewares" g1) with (setup_middlewares sort base ms g1).
  apply NoDup_app in Hnd as (Hn1 & Hdis & Hn2).
  assert (probe_paths (NewMiddlewares sort ms) ≡ₚ probe_paths ms) as Hpp.
  { unfold probe_paths. by rewrite (@sort_perm sort _ _ compare ms compare_weak_order : NewMiddlewares sort ms ≡ₚ ms). }
  destruct (setup_run base (NewMiddlewares sort ms) g1 Hb Hg) as (g2 & E2 & Hg2 & Hh2 & Ho2 & _).
  { by rewrite Hpp. } { by rewrite Hpp. } { intros p Hp. apply Hfree. rewrite Hpp in Hp. set_solver. }
  unfold setup_middlewares. rewrite E2. cbn [mbind option_bind].
  destruct (resources_registered (group_of base) rs g2 Hg2 Hn2) as (g3 & E3 & Hin & Hout).
  { intros p Hp. rewrite Ho2; [apply Hfree; set_solver|]. rewrite Hpp. intros Hq. by apply (Hdis p). }
  change (serve_invoke sort base ms rs user "rest.NewResources" g2) with (snd <$> NewResources resource_Setup rs g2).
  unfold NewResources. rewrite E3. cbn [mbind option_bind fmap option_fmap option_map snd].
  exists g3. split; [reflexivity|]. split.
  - intros rel h Hi. by rewrite (Hin rel h Hi), Hh2, <- app_assoc.
  - intros p hs Hp. rewrite Hout, Ho2; [done|..]; [rewrite Hpp|]; intros Hq; rewrite Hfree in Hp by set_solver; done.
Qed.

Lemma start_order_witness : exists g',
  start (serve_invoke sort_func "/api/" container [("orders", "orders")] (fun _ g => Some (group_GET "admin" "admin" g)))
    (application (WrapSubCommand (NewServeCommand (Invoke (MkNode "registerAdmin" [] [] false))))) (MkGroup "/api/" [] ∅) = Some g' /\
  chain_of g' "/api/admin" = Some ["admin"] /\
  chain_of g' "/api/orders" = Some ["request log"; "panics"; "transactions"; "authentication"; "errors"; "orders"].
Proof.
  destruct (start_order sort_func "/api/" container [("orders", "orders")] (fun _ g => Some (group_GET "admin" "admin" g))
    (Invoke (MkNode "registerAdmin" [] [] false)) (MkGroup "/api/" [] ∅) (group_GET "admin" "admin" (MkGroup "/api/" [] ∅)))
    as (g' & E & Hres & Huser).
  - reflexivity.
  - apply (bool_decide_eq_true_1 (Forall _ _)). vm_compute. reflexivity.
  - reflexivity.
  - reflexivity.
  - repeat constructor.
  - apply (bool_decide_eq_true_1 (NoDup _)). vm_compute. reflexivity.
  - apply Forall_forall. apply (bool_decide_eq_true_1 (Forall _ _)). vm_compute. reflexivity.
  - exists g'. split; [exact E|]. split; [apply Huser; vm_compute; reflexivity|].
    pose proof (Hres "orders" "orders" ltac:(left)) as Ho. exact Ho.
Defined.
