(* ===== verification/Wiring.v ===== *)
(** * The start and the end of an application

    What the promises of the container (file DI) say of the commands (file Commands) with the
    framework's modules (file Modules) and the options of a service: which parts are there when they
    are used, in which order the hooks of parts run, and which parts are never made. *)

From stdpp Require Import relations.
From S2P Require Import Prelude.
From S2P Require Import GoReflect.
From S2P Require Import DI.
From S2P Require Import Modules.
From S2P Require Import Commands.

Open Scope string_scope.
Open Scope list_scope.

(** ** Applications *)
Definition app_of (cmd : Command) : Container := container_of (application (WrapSubCommand cmd)).
Definition serve_app (fxOpts : fx_option) : Container := app_of (NewServeCommand fxOpts).
Definition work_app (fxOpts : fx_option) : Container := app_of (NewWorkCommand fxOpts).

(** ** What is used, directly or not *)
Section uses.
Context (c : Container) (tr : list event).
Hypothesis Hrun : fx_run c tr.

Definition uses (n p : node) : Prop := tc (fun n p => needs c n p /\ complete c p) n p.

Lemma uses_split n p : uses n p -> forall pre e post, tr = pre ++ e :: post -> event_node e = n -> Call p ∈ pre.
Proof using Hrun.
  induction 1 as [n p [Hn Hc]|n m p [Hn Hc] _ IH]; intros pre e post E <-.
  - by eapply (run_before _ _ Hrun).
  - assert (Call m ∈ pre) as (a & b & ->)%list_elem_of_split by (by eapply (run_before _ _ Hrun)).
    assert (Call p ∈ a); [|set_solver]. apply (IH a (Call m) (b ++ e :: post)); [|done]. by rewrite E, <- app_assoc.
Qed.

(** Whatever a part uses starts before it and stops after it. *)
Lemma uses_order n p : uses n p -> Call n ∈ tr -> n_hook p = true -> n_hook n = true ->
  before p n (starts tr) /\ before n p (stops tr).
Proof using Hrun.
  intros Hu (pre & post & E)%list_elem_of_split Hp Hn. apply hooks_order; [|done|done].
  rewrite E. apply before_split. by eapply uses_split.
Qed.

(** A provider that [FxProvideAs] puts into a group is there for whoever takes the group. *)
Lemma grouped interface g kind m t ks tAnns o e :
  FxProvideAs interface kind m tAnns [ResultTags [TagGroup g]] = Some o -> n_results m = KType t :: ks ->
  KType t ∈ n_results (Annotate m tAnns) -> (forall n, n ∈ provided o -> n ∈ c_nodes c) ->
  e ∈ tr -> Group interface g ∈ n_params (event_node e) -> before (Call (Annotate m tAnns)) e tr.
Proof using Hrun.
  intros Ho Ht Hann Hin He Hg. unfold FxProvideAs in Ho. destruct (negb _); [done|]. rewrite Ht in Ho. injection Ho as <-.
  apply list_elem_of_split in He as (pre & post & E). rewrite E. apply before_split.
  set (i := Annotate (as_interface interface m) ([ResultTags [TagGroup g]] ++ [From [t]])) in *.
  assert (i ∈ suppliers c (event_node e) (KGroup interface g)) as Hi.
  { unfold suppliers. apply list_elem_of_filter. split; [by left|]. apply elem_of_app. left. apply Hin. cbn. set_solver. }
  assert (complete c i) as Hci.
  { eapply complete_supplier; [apply (run_complete _ _ Hrun e); rewrite E; set_solver|exact Hg|done|exact Hi]. }
  apply (uses_split (event_node e) _) with (e := e) (post := post); [|done|done].
  eapply tc_l; [split; [by exists (Group interface g)|exact Hci]|]. apply tc_once.
  assert (Annotate m tAnns ∈ suppliers c i (KType t)) as Hm.
  { unfold suppliers. apply list_elem_of_filter. split; [done|]. apply elem_of_app. left. apply Hin. cbn. set_solver. }
  split; [exists (Required (KType t)); split; [left|done]|].
  eapply (complete_supplier c i (Required (KType t))); [exact Hci|left|done|exact Hm].
Qed.
End uses.

(** ** The parts of an application *)
Lemma app_roots cmd : c_roots (app_of cmd) = CreateLogger :: loggers (GetFXOpts cmd) ++ invoked (GetFXOpts cmd) ++ [Cmd_Run cmd].
Proof.
  unfold app_of, container_of, WrapSubCommand. cbn [c_roots application]. unfold loggers, invoked. rewrite !collect_Options. cbn.
  by rewrite app_nil_r.
Qed.

Lemma app_within cmd o : within o (GetFXOpts cmd) -> forall n, n ∈ provided o -> n ∈ c_nodes (app_of cmd).
Proof.
  intros Hw n Hn. eapply within_provided; [|exact Hn]. eapply within_Options; [exact Hw|]. cbn. set_solver.
Qed.

Lemma app_nodes cmd : c_nodes (app_of cmd) =
  provided (Options [config_Module; log_Module; di_Module]) ++ provided (GetFXOpts cmd).
Proof. unfold app_of, container_of, WrapSubCommand. cbn [c_nodes application]. unfold provided. rewrite !collect_Options. cbn. by rewrite app_nil_r. Qed.

Lemma app_root c tr r : fx_run c tr -> r ∈ c_roots c -> Root r ∈ tr.
Proof.
  intros Hrun Hr. rewrite <- (run_roots _ _ Hrun) in Hr. apply list_elem_of_omap in Hr as (e & He & Hre).
  destruct e; cbn in Hre; [done|]. by injection Hre as ->.
Qed.

Lemma run_root cmd tr : fx_run (app_of cmd) tr -> Root (Cmd_Run cmd) ∈ tr.
Proof. intros Hrun. eapply app_root; [done|]. rewrite app_roots. set_solver. Qed.

Lemma invoked_root cmd tr n : fx_run (app_of cmd) tr -> within (Invoke n) (GetFXOpts cmd) -> Root n ∈ tr.
Proof.
  intros Hrun Hw. eapply app_root; [done|]. rewrite app_roots. apply elem_of_cons. right. apply elem_of_app. right. apply elem_of_app. left.
  induction Hw as [|o' os _ IH Hin]; [cbn; set_solver|]. unfold invoked. rewrite collect_Options. apply list_elem_of_bind. by exists o'.
Qed.

(** The tags of the service do not change the type of what a provider gives. *)
Definition result_kept (m : node) (anns : list annotation) : Prop :=
  match n_results m with k :: _ => k ∈ n_results (Annotate m anns) | [] => True end.

Lemma grouped_in cmd tr interface g kind m anns o e : fx_run (app_of cmd) tr ->
  FxProvideAs interface kind m anns [ResultTags [TagGroup g]] = Some o -> result_kept m anns -> within o (GetFXOpts cmd) ->
  e ∈ tr -> Group interface g ∈ n_params (event_node e) -> before (Call (Annotate m anns)) e tr.
Proof.
  intros Hrun Ho Hk Hw He Hg. pose proof Ho as Ho'. unfold FxProvideAs in Ho'. destruct (negb _); [done|]. unfold result_kept in Hk.
  destruct (n_results m) as [|[t| |] ks] eqn:Ht; [done| |done|done]. eapply grouped; [exact Hrun|exact Ho|exact Ht|exact Hk| |exact He|exact Hg].
  by apply app_within.
Qed.

Lemma supplied_in cmd tr n k q e : fx_run (app_of cmd) tr -> within (Supply n) (GetFXOpts cmd) -> k ∈ n_results n ->
  e ∈ tr -> q ∈ n_params (event_node e) -> param_key q = k -> n_params n = [] -> before (Call n) e tr.
Proof.
  intros Hrun Hw Hk He Hq Hqk Hp. apply (needed_first (app_of cmd)); [done|done| |].
  - exists q. split; [done|]. rewrite Hqk. unfold suppliers. apply list_elem_of_filter. split; [done|]. apply elem_of_app. left.
    eapply app_within; [exact Hw|]. cbn. set_solver.
  - constructor; rewrite Hp; set_solver.
Qed.

Lemma serve_within fxOpts o : within o fxOpts \/ within o providers_Module \/ within o middleware_Module \/ within o rest_Module ->
  within o (GetFXOpts (NewServeCommand fxOpts)).
Proof. intros [Hw|[Hw|[Hw|Hw]]]; (eapply within_Options; [exact Hw|]; cbn; set_solver). Qed.

(** C6: what is registered is there in time. In every start of a server that the container's promises
    allow: middleware and resources, of the service or the framework, are made before the functions that set them up
    run, and providers of health checks and mappers of errors before the middleware that
    uses them: the tags of groups and names fit together. *)
Theorem registered_in_time (fxOpts : fx_option) (tr : list event) : fx_run (serve_app fxOpts) tr ->
  let has o := within o fxOpts \/ within o providers_Module \/ within o middleware_Module \/ within o rest_Module in
  (forall kind m anns o, ProvideAsMiddleware kind m anns = Some o -> has o -> result_kept m anns ->
     before (Call (Annotate m anns)) (Root invoke_NewMiddlewares) tr) /\
  (forall kind m o, ProvideAsResource kind m [] = Some o -> has o -> before (Call m) (Root invoke_NewResources) tr) /\
  (forall kind m anns o, ProvideAsHealthCheck kind m anns = Some o -> has o -> result_kept m anns ->
     before (Call (Annotate m anns)) (Call NewHealthCheckFx) tr) /\
  (forall mapper, has (RegisterErrorCodeMapper mapper) -> before (Call (AsErrorMapper mapper)) (Call NewErrorHandlerFx) tr) /\
  (forall builder, has (RegisterDefaultErrorMapper builder) -> exists n, n_name n = builder /\ before (Call n) (Call NewErrorHandlerFx) tr).
Proof.
  intros Hrun has. pose proof (serve_within fxOpts) as Hw.
  assert (Root invoke_NewMiddlewares ∈ tr) as Hm.
  { apply (invoked_root (NewServeCommand fxOpts) tr); [done|]. apply Hw. right. right. left. eapply within_Options; [apply within_self|left]. }
  assert (Root invoke_NewResources ∈ tr) as Hr.
  { apply (invoked_root (NewServeCommand fxOpts) tr); [done|]. apply Hw. right. right. right. eapply within_Options; [apply within_self|left]. }
  assert (forall n, within (provided_as (ProvideAsMiddleware Func n [])) middleware_Module -> (exists t, n_results n = [KType t]) -> Call n ∈ tr) as Hcall.
  { intros n Hn [t Ht]. refine (proj1 (before_elem _ (Root invoke_NewMiddlewares) _ _)).
    eapply (grouped_in (NewServeCommand fxOpts) tr "middleware.Middleware" "middlewares" Func n []);
      [done|by apply (FxProvideAs_func _ n t [])|unfold result_kept; rewrite Ht; cbn; rewrite Ht; left| |exact Hm|cbn; set_solver].
    unfold provided_as, ProvideAsMiddleware in Hn. rewrite (FxProvideAs_func _ n t []) in Hn by done. apply Hw. by right; right; left. }
  assert (Call NewHealthCheckFx ∈ tr) as Hh.
  { apply Hcall; [|by eexists]. eapply within_Options; [apply within_self|cbn; set_solver]. }
  assert (Call NewErrorHandlerFx ∈ tr) as Hee.
  { apply Hcall; [|by eexists]. eapply within_Options; [apply within_self|cbn; set_solver]. }
  split_and!.
  - intros kind m anns o Ho Hin Hk. eapply (grouped_in (NewServeCommand fxOpts)); [done|exact Ho|done|by apply Hw|done|cbn; set_solver].
  - intros kind m o Ho Hin. apply (grouped_in (NewServeCommand fxOpts) tr "rest.Resource" "resources" kind m [] o (Root invoke_NewResources)); [done|exact Ho| |by apply Hw|done|cbn; set_solver].
    unfold result_kept, Annotate. cbn. destruct (n_results m); [done|left].
  - intros kind m anns o Ho Hin Hk. eapply (grouped_in (NewServeCommand fxOpts)); [done|exact Ho|done|by apply Hw|done|cbn; set_solver].
  - intros mapper Hin. eapply (supplied_in (NewServeCommand fxOpts) tr _ (KGroup "middleware.ErrorMapper" "error_mappers") (Group "middleware.ErrorMapper" "error_mappers"));
      [done|by apply Hw|cbn; set_solver|done|cbn; set_solver|done|done].
  - intros builder Hin. eexists. split; [|eapply (supplied_in (NewServeCommand fxOpts) tr _ (KName "middleware.ErrorResponseBuilder" "default_error_mapper")
      (Optional (KName "middleware.ErrorResponseBuilder" "default_error_mapper"))); [done|by apply Hw|cbn; set_solver|done|cbn; set_solver|done|done]].
    done.
Qed.

(** *** The workers *)
Lemma work_within cmd : (exists o, cmd = NewWorkCommand o) \/ (exists co so wo, cmd = NewServeWorkCommand co so wo) ->
  within worker_ModuleWorkerHandler (GetFXOpts cmd) /\ Group "worker.Handler" "worker_handlers" ∈ n_params (Cmd_Run cmd).
Proof.
  intros [(o & ->)|(co & so & wo & ->)]; (split; [|cbn; set_solver]).
  - eapply within_Options; [apply within_self|cbn; set_solver].
  - apply (within_Options _ (Options [wo; worker_ModuleWorkerHandler])); [eapply within_Options; [apply within_self|]|]; cbn; set_solver.
Qed.

Lemma handler_made cmd tr : (exists o, cmd = NewWorkCommand o) \/ (exists co so wo, cmd = NewServeWorkCommand co so wo) ->
  fx_run (app_of cmd) tr -> Call NewLongRunningWorkerHandlerFx ∈ tr.
Proof.
  intros Hcmd Hrun. destruct (work_within cmd Hcmd) as [Hw Hg]. refine (proj1 (before_elem _ (Root (Cmd_Run cmd)) _ _)).
  apply (grouped_in cmd tr "worker.Handler" "worker_handlers" Func NewLongRunningWorkerHandlerFx [] worker_ModuleWorkerHandler);
    [done|reflexivity|left|done|by apply run_root|done].
Qed.

(** C35: the hooks of the workers, in every start of an application with workers that the container's promises allow: the handler is made, after
    a factory of locks and all workers of the service; of whatever it uses, directly or not (the
    factory, the database, what workers take), hooks start before the handler starts and stop after it has
    stopped. *)
Theorem worker_lifecycle (cmd : Command) (tr : list event) :
  (exists o, cmd = NewWorkCommand o) \/ (exists co so wo, cmd = NewServeWorkCommand co so wo) -> fx_run (app_of cmd) tr ->
  let handler := NewLongRunningWorkerHandlerFx in
  Call handler ∈ tr /\
  (exists f, KType "distributedlock.Factory" ∈ n_results f /\ before (Call f) (Call handler) tr) /\
  (forall kind w anns o, ProvideAsLongRunningWorker kind w anns = Some o -> within o (GetFXOpts cmd) -> result_kept w anns ->
     before (Call (Annotate w anns)) (Call handler) tr) /\
  (forall d, uses (app_of cmd) handler d -> n_hook d = true -> before d handler (starts tr) /\ before handler d (stops tr)).
Proof.
  intros Hcmd Hrun handler. pose proof (handler_made cmd tr Hcmd Hrun) as Hh.
  split; [done|]. split_and!.
  - destruct (required_supplied _ _ Hrun (Call handler) (KType "distributedlock.Factory")) as (f & Hf & Hb); [done|cbn; set_solver|done|].
    exists f. split; [|done]. unfold suppliers in Hf. by apply list_elem_of_filter in Hf as [? _].
  - intros kind w anns o Ho Hin Hk. eapply (grouped_in cmd); [done|exact Ho|done|done|done|cbn; set_solver].
  - intros d Hu Hd. by apply (uses_order (app_of cmd)).
Qed.

(** *** The server *)

(** C39: the server starts early and stops late: in every start of a server, a part that nothing
    needs but the service's resources is made after the server, so its hooks start when
    the server already listens, and stop while it still serves. [S]: what the container's logger, the service's functions and the
    middleware need. *)
Theorem server_first (fxOpts : fx_option) (tr : list event) (S : list node) (p : node) : fx_run (serve_app fxOpts) tr ->
  closed (serve_app fxOpts) S -> Forall (fun r => r ∈ S) (CreateLogger :: loggers fxOpts ++ invoked fxOpts ++ [invoke_NewMiddlewares]) ->
  Call p ∈ tr -> p ∉ S -> n_hook p = true ->
  before (Root invoke_NewMiddlewares) (Call p) tr /\ before NewHTTPHandler p (starts tr) /\ before p NewHTTPHandler (stops tr).
Proof.
  intros Hrun HS Hroots Hp Hout Hhook.
  assert (c_roots (serve_app fxOpts) = (CreateLogger :: loggers fxOpts ++ invoked fxOpts) ++ invoke_NewMiddlewares :: [invoke_NewResources; serve_Run]) as Hr.
  { unfold serve_app. rewrite app_roots. unfold NewServeCommand. cbn [GetFXOpts Cmd_Run]. unfold loggers, invoked. rewrite !collect_Options.
    cbn. by rewrite !app_nil_r, <- !app_assoc. }
  assert (before (Root invoke_NewMiddlewares) (Call p) tr) as Hlate.
  { eapply (late (serve_app fxOpts)); [done|done|exact Hr|exact HS| |done]. by rewrite <- app_comm_cons, <- app_assoc. }
  split; [done|]. apply hooks_order; [|done|done].
  destruct Hlate as (l1 & l2 & l3 & E). rewrite E.
  assert (Call NewHTTPHandler ∈ l1) as (a & b & ->)%list_elem_of_split.
  { assert (NewHTTPHandler ∈ suppliers (serve_app fxOpts) invoke_NewMiddlewares (KType "rest.HTTPHandler")) as Hh.
    { unfold suppliers. apply list_elem_of_filter. split; [left|]. apply elem_of_app. left.
      apply (app_within (NewServeCommand fxOpts) rest_Module); [apply serve_within; right; right; right; constructor|cbn; set_solver]. }
    apply (run_before _ _ Hrun l1 (Root invoke_NewMiddlewares) (l2 ++ Call p :: l3)); [exact E|exists (Required (KType "rest.HTTPHandler")); split; [cbn; set_solver|done]|].
    eapply (complete_supplier _ _ (Required (KType "rest.HTTPHandler"))); [apply (run_complete _ _ Hrun (Root invoke_NewMiddlewares)); rewrite E; set_solver| |done|exact Hh]. cbn. set_solver. }
  exists a, (b ++ Root invoke_NewMiddlewares :: l2), l3. by rewrite <- !app_assoc.
Qed.

(** *** What is missing *)
Definition gives (o : fx_option) (k : key) : Prop := exists n, n ∈ provided o ++ decorators o /\ k ∈ n_results n.

Lemma framework_keys cmd k n p : p ∈ suppliers (app_of cmd) n k ->
  gives (GetFXOpts cmd) k \/ k ∈ [KType "config.Config"; KType "config.RootConfig"; KType "*log.LoggerFactory"; KType "di.FxLoggerFactory"].
Proof.
  unfold suppliers. rewrite list_elem_of_filter. intros [Hk Hp].
  assert (p ∈ provided (Options [config_Module; log_Module; di_Module]) \/ p ∈ provided (GetFXOpts cmd) ++ decorators (GetFXOpts cmd)) as [Hf|Hu].
  { assert (c_decorators (app_of cmd) = decorators (GetFXOpts cmd)) as Hd.
    { unfold app_of, container_of, WrapSubCommand. cbn [c_decorators application]. unfold decorators. rewrite collect_Options. cbn. by rewrite app_nil_r. }
    rewrite app_nodes in Hp. rewrite !elem_of_app in Hp. rewrite elem_of_app. destruct Hp as [[?|?]|Hp]; [by left|by right; left|].
    case_bool_decide; [by apply elem_of_nil in Hp|]. rewrite Hd in Hp. by right; right. }
  - right. cbn in Hf. set_unfold in Hf. destruct_or!; subst p; cbn in Hk; set_solver.
  - left. by exists p.
Qed.

Lemma decide_gives o k : gives o k \/ ~ gives o k.
Proof.
  destruct (decide (Exists (fun n => k ∈ n_results n) (provided o ++ decorators o))) as [He|He]; [left|right].
  - apply Exists_exists in He as (n & Hn & Hk). by exists n.
  - intros (n & Hn & Hk). apply He, Exists_exists. by exists n.
Qed.

(** A start has nothing that requires what nobody gives. *)
Lemma never_made cmd tr n k : fx_run (app_of cmd) tr -> Required k ∈ n_params n -> builtin k = false -> ~ gives (GetFXOpts cmd) k ->
  k ∉ [KType "config.Config"; KType "config.RootConfig"; KType "*log.LoggerFactory"; KType "di.FxLoggerFactory"] ->
  ~ complete (app_of cmd) n.
Proof. intros Hrun Hk Hb Hg Hf Hc. destruct (complete_supplied _ _ _ Hc Hk Hb) as (p & Hp & _). destruct (framework_keys cmd k n p Hp); tauto. Qed.

(** A provider of the framework that lacks something keeps whatever takes the interface from
    being complete. *)
Lemma as_incomplete cmd tr interface m t k e : fx_run (app_of cmd) tr -> n_results m = [KType t] ->
  within (provided_as (FxProvideAs interface Func m [] [])) (GetFXOpts cmd) ->
  ~ complete (app_of cmd) m -> Required (KType interface) ∈ n_params e -> k = KType interface -> ~ complete (app_of cmd) e.
Proof.
  intros Hrun Ht Hw Hm He -> Hc. unfold provided_as in Hw. rewrite (FxProvideAs_func interface m t []) in Hw by done. cbn [default] in Hw.
  set (i := Annotate (as_interface interface m) ([] ++ [From [t]])) in *.
  assert (complete (app_of cmd) i) as Hi.
  { eapply (complete_supplier _ e (Required (KType interface))); [done|done|done|]. unfold suppliers. apply list_elem_of_filter.
    split; [left|]. apply elem_of_app. left. eapply app_within; [exact Hw|]. cbn. set_solver. }
  apply Hm. eapply (complete_supplier _ i (Required (KType t))); [done|left|done|]. unfold suppliers. apply list_elem_of_filter.
  cbn [param_key]. rewrite Ht. split; [left|]. apply elem_of_app. left. eapply app_within; [exact Hw|]. cbn. set_solver.
Qed.

(** C27: what is missing: no application with workers starts without a factory of locks; none starts with the
    Redis factory and Redis modules alone, since the module of [redis] gives a pointer where the
    factory asks for the value; and with the modules of [secrets] and [aws] alone the secrets manager of AWS is never
    made, since the one gives a value where the other asks for a pointer: the configuration, which takes it as optional, is loaded
    without it. [gives]: the rest of the service's options. *)
Theorem missing_parts (cmd : Command) (tr : list event) : fx_run (app_of cmd) tr ->
  let workers := (exists o, cmd = NewWorkCommand o) \/ (exists co so wo, cmd = NewServeWorkCommand co so wo) in
  (workers -> gives (GetFXOpts cmd) (KType "distributedlock.Factory")) /\
  (workers -> within ModuleRedis (GetFXOpts cmd) -> gives (GetFXOpts cmd) (KType "redis.Redis")) /\
  (within secrets_ModuleAWS (GetFXOpts cmd) -> Call secrets_convert ∈ tr -> gives (GetFXOpts cmd) (KType "*aws.Config")) /\
  ~ gives (Options [redis_Module; ModuleRedis]) (KType "redis.Redis") /\
  ~ gives (Options [aws_Module; secrets_ModuleAWS]) (KType "*aws.Config").
Proof.
  intros Hrun workers.
  assert (workers -> complete (app_of cmd) NewLongRunningWorkerHandlerFx) as Hh.
  { intros Hcmd. apply (run_complete _ _ Hrun (Call NewLongRunningWorkerHandlerFx)). by apply (handler_made cmd). }
  split_and!.
  - intros Hcmd. destruct (complete_supplied _ _ (KType "distributedlock.Factory") (Hh Hcmd)) as (p & Hp & _); [cbn; set_solver|done|].
    destruct (framework_keys _ _ _ _ Hp) as [?|Hk]; [done|]. set_solver.
  - intros Hcmd Hw. destruct (decide_gives (GetFXOpts cmd) (KType "redis.Redis")) as [?|Hno]; [done|]. exfalso.
    assert (~ complete (app_of cmd) NewRedisFactory) as Hf.
    { apply (never_made cmd tr _ (KType "redis.Redis")); [done|left|done|done|set_solver]. }
    refine (as_incomplete cmd tr "distributedlock.Factory" NewRedisFactory _ _ NewLongRunningWorkerHandlerFx Hrun eq_refl Hw Hf _ eq_refl (Hh Hcmd)).
    cbn. set_solver.
  - intros Hw Hc. destruct (decide_gives (GetFXOpts cmd) (KType "*aws.Config")) as [?|Hno]; [done|]. exfalso.
    assert (~ complete (app_of cmd) NewAWSSecretsManager) as Hf.
    { apply (never_made cmd tr _ (KType "*aws.Config")); [done|cbn; set_solver|done|done|set_solver]. }
    refine (as_incomplete cmd tr "secrets.SecretsManager" NewAWSSecretsManager _ _ secrets_convert Hrun eq_refl _ Hf _ eq_refl (run_complete _ _ Hrun (Call secrets_convert) Hc)).
    + eapply within_trans; [|exact Hw]. eapply within_Options; [apply within_self|]. right. left.
    + left.
  - intros (n & Hn & Hk). cbn in Hn. set_unfold in Hn. destruct_or?; subst; cbn in Hk; set_solver.
  - intros (n & Hn & Hk). cbn in Hn. set_unfold in Hn. destruct_or?; subst; cbn in Hk; set_solver.
Qed.

(** ** Witnesses: a service with a database, a store of its own behind a resource, and a worker *)
Definition NewStock : node := MkNode "NewStock" [Required (KType "config.Config")] [KType "*Stock"] false.
Definition NewOrders : node := MkNode "NewOrders" [Required (KType "*Stock"); Required (KType "database.DB")] [KType "*Orders"] false.
Definition shop : fx_option :=
  Options [database_Module; RequestLoggerModule; DatabaseTrxModule; Provide (Annotate NewStock [OnStop [KType "*Stock"]]);
           provided_as (ProvideAsResource Func NewOrders []); RegisterErrorCodeMapper "outOfStock"].
Definition NewMailer : node := MkNode "NewMailer" [Required (KType "database.DB")] [KType "*Mailer"] false.
Definition mailer : fx_option :=
  Options [database_Module; ModulePostgres; provided_as (ProvideAsLongRunningWorker Func NewMailer [])].

Definition shop_run : list event := start_run (serve_app shop) 20.
Lemma shop_runs : fx_run (serve_app shop) shop_run.
Proof. apply (check_run_sound _ 20). vm_compute. reflexivity. Qed.
Definition mailer_run : list event := start_run (work_app mailer) 20.
Lemma mailer_runs : fx_run (work_app mailer) mailer_run.
Proof. apply (check_run_sound _ 20). vm_compute. reflexivity. Qed.

Lemma registered_in_time_witness :
  before (Call NewDatabaseTrx) (Root invoke_NewMiddlewares) shop_run /\ before (Call NewOrders) (Root invoke_NewResources) shop_run /\
  before (Call (AsErrorMapper "outOfStock")) (Call NewErrorHandlerFx) shop_run.
Proof.
  destruct (registered_in_time shop shop_run shop_runs) as (Hm & Hr & _ & He & _). split_and!.
  - apply (Hm Func NewDatabaseTrx [] DatabaseTrxModule eq_refl); [left; eapply within_Options; [apply within_self|cbn; set_solver]|left].
  - apply (Hr Func NewOrders (provided_as (ProvideAsResource Func NewOrders [])) eq_refl). left. eapply within_Options; [apply within_self|cbn; set_solver].
  - apply He. left. eapply within_Options; [apply within_self|cbn; set_solver].
Defined.

Lemma worker_lifecycle_witness :
  before (Annotate NewDB [OnStop [KType "database.DB"]]) NewLongRunningWorkerHandlerFx (starts mailer_run) /\
  before NewLongRunningWorkerHandlerFx (Annotate NewDB [OnStop [KType "database.DB"]]) (stops mailer_run).
Proof.
  destruct (worker_lifecycle (NewWorkCommand mailer) mailer_run) as (_ & _ & _ & Hu); [left; by eexists|exact mailer_runs|].
  apply Hu; [|reflexivity]. apply tc_once. split.
  - exists (Optional (KType "database.DB")). split; [cbn; set_solver|]. apply (bool_decide_eq_true_1 _). vm_compute. reflexivity.
  - apply (completes_sound _ 20). vm_compute. reflexivity.
Defined.

(** What the logger and the middleware need. *)
Definition shop_middleware : list node :=
  [CreateLogger; invoke_NewMiddlewares] ++
  filter (fun p => reaches (serve_app shop) 20 CreateLogger p || reaches (serve_app shop) 20 invoke_NewMiddlewares p = true) (c_nodes (serve_app shop)).

Lemma server_first_witness : let stock := Annotate NewStock [OnStop [KType "*Stock"]] in
  before NewHTTPHandler stock (starts shop_run) /\ before stock NewHTTPHandler (stops shop_run).
Proof.
  destruct (server_first shop shop_run shop_middleware (Annotate NewStock [OnStop [KType "*Stock"]])) as (_ & Hs).
  - exact shop_runs.
  - apply check_closed_sound. vm_compute. reflexivity.
  - apply (bool_decide_eq_true_1 _). vm_compute. reflexivity.
  - apply (bool_decide_eq_true_1 _). vm_compute. reflexivity.
  - apply (bool_decide_eq_true_1 _). vm_compute. reflexivity.
  - reflexivity.
  - exact Hs.
Defined.

Lemma missing_parts_witness :
  gives (GetFXOpts (NewWorkCommand mailer)) (KType "distributedlock.Factory") /\
  ~ gives (Options [redis_Module; ModuleRedis]) (KType "redis.Redis").
Proof.
  destruct (missing_parts (NewWorkCommand mailer) mailer_run mailer_runs) as (Hf & _ & _ & Hr & _).
  split; [apply Hf; left; by eexists|exact Hr].
Defined.
