(* ===== verification/Examples.v ===== *)
(** * The example services

    Models [examples/gin] and [examples/gin-plus-worker]: what their functions [main] give to the
    framework, the routes and handlers of their resources over file Router, and the worker's loop over file
    GoContext. *)

From S2P Require Import Prelude.
From S2P Require Import GoReflect.
From S2P Require Import GoContext.
From S2P Require Import Router.
From S2P Require Import DI.
From S2P Require Import Modules.
From S2P Require Import Commands.
From S2P Require Import Wiring.

Open Scope string_scope.
Open Scope list_scope.

(** ** [examples/gin] *)
Definition main_NewConfig : node := MkNode "main.NewConfig" [Required (KType "config.RootConfig")] [KType "main.Config"] false.
Definition NewMyResource : node := MkNode "main.NewMyResource" [Required (KType "main.Config")] [KType "main.MyResource"] false.
Definition gin_deps : fx_option :=
  Options [Provide main_NewConfig; RequestLoggerModule; provided_as (ProvideAsResource Func NewMyResource [])].
Definition gin_main : list cobra := NewAppWithServe [] gin_deps.

Section resource.
Context (joinPaths : string -> string -> string) (refused : list (string * string) -> string * string -> bool).
#[local] Notation Group := (Router.Group joinPaths).
#[local] Notation GroupWithMeta := (GroupWithMeta joinPaths).
#[local] Notation GET := (GET joinPaths refused).
#[local] Notation POST := (POST joinPaths refused).
#[local] Notation PATCH := (PATCH joinPaths refused).

(** [MyResource.Setup] on the root group; [None]: gin refuses a route. *)
Definition MyResource_Setup (router : GinRouterGroup string) (r : Router string) : option (Router string) :=
  r ← GET (Group router "orgs") "-/projects" r;
  r ← GETWithMeta joinPaths refused (Group router "orgs") "" (Some "root_domain") r;
  let orgs := GroupWithMeta router "orgs" (Some "org_domain") in
  r ← GET orgs ":id" r;
  r ← POST orgs ":id" r;
  r ← PATCH orgs ":id" r;
  r ← GET orgs ":id/users" r;
  r ← GET orgs ":id/projects" r;
  let users := GroupWithMeta router "users" (Some "user_domain") in
  r ← GET users ":id" r;
  r ← PATCH users ":id" r;
  r ← GET users ":id/roles" r;
  let resources := GroupWithMeta router "resources" (Some "first_level") in
  r ← GET resources ":id" r;
  let sub := GroupWithMeta resources "sub-resources" (Some "second_level") in
  r ← GETWithMeta joinPaths refused sub "" (Some "list") r;
  r ← GET sub ":id" r;
  let lowest := GroupWithMeta sub ":id/lowest-resources" (Some "third_level") in
  r ← POSTWithMeta joinPaths refused lowest ":id" (Some "create") r;
  let plain := Group router "resources" in
  r ← POST plain ":id" r;
  PATCHWithMeta joinPaths refused (GroupWithMeta plain "" (Some "first_level")) ":id" (Some "update") r.
End resource.

(** [Get], [Post] and [Patch]: the status, and the metadata that the middleware of the root group has put
    into the context of the request. *)
Definition answer (meta : list string) : Z * list string := (200, meta).
Definition MyResource_Get (route : string * string) (r : Router string) : Z * list string := answer (GetPathMetaFromCtx (Some (middleware route r))).
Definition MyResource_Post (route : string * string) (r : Router string) : Z * list string := answer (GetPathMetaFromCtx (Some (middleware route r))).
Definition MyResource_Patch (route : string * string) (r : Router string) : Z * list string := answer (GetPathMetaFromCtx (Some (middleware route r))).

(** ** [examples/gin-plus-worker] *)
Definition NewSimpleResource : node := MkNode "main.NewSimpleResource" [] [KType "*main.SimpleResource"] false.
Definition NewSimpleWorker : node := MkNode "main.NewSimpleWorker" [Required (KType "*log.LoggerFactory")] [KType "*main.SimpleWorker"] false.
Definition commonDeps : fx_option := Options [RequestLoggerModule].
Definition serverDeps : fx_option := Options [provided_as (ProvideAsResource Func NewSimpleResource [])].
Definition workerDeps : fx_option := Options [ModuleLocal; provided_as (ProvideAsLongRunningWorker Func NewSimpleWorker [])].
Definition gin_plus_worker_main : list cobra := NewAppWithServeAndWork [] commonDeps serverDeps workerDeps.

Definition SimpleResource_Setup (joinPaths : string -> string -> string) (refused : list (string * string) -> string * string -> bool)
    (router : GinRouterGroup string) (r : Router string) : option (Router string) :=
  GET joinPaths refused (Router.Group joinPaths router "simples") "hello" r.
Definition SimpleResource_Get : Z * string := (200, "Hello World!").

Section worker.
Context {Obj : Type}.
(** [SimpleWorker.Run]: [turns] are what each turn of the loop finds; the messages that it
    logs and, when it has ended, its error. *)
Fixpoint SimpleWorker_Run (turns : list (Ctxs Obj)) (c : ctx) : list string * option (option cerr) :=
  match turns with
  | [] => ([], None)
  | st :: turns =>
      match Err st c with
      | Some _ => (["context done"], Some (Cause st c))
      | None => let r := SimpleWorker_Run turns c in ("doing work" :: r.1, r.2)
      end
  end.

(** It works until the first turn that finds its context done, and returns why. *)
Theorem simple_worker (before after : list (Ctxs Obj)) (st : Ctxs Obj) (c : ctx) :
  Forall (fun st => Err st c = None) before -> is_Some (Err st c) ->
  SimpleWorker_Run (before ++ st :: after) c = (replicate (length before) "doing work" ++ ["context done"], Some (Cause st c)).
Proof.
  intros Hb [e He]. induction Hb as [|st0 before H0 _ IH]; cbn [app SimpleWorker_Run length replicate]; [by rewrite He|].
  by rewrite H0, IH.
Qed.
End worker.

(** ** What the examples show *)

(** The metadata that the comments of the example promise, under two base paths. *)
Definition documented : list (string * string * list string) :=
  [("GET", "orgs/-/projects", []); ("GET", "orgs", ["root_domain"]); ("GET", "orgs/:id", ["org_domain"]);
   ("POST", "orgs/:id", ["org_domain"]); ("PATCH", "orgs/:id", ["org_domain"]); ("GET", "orgs/:id/users", ["org_domain"]);
   ("GET", "orgs/:id/projects", ["org_domain"]); ("GET", "users/:id", ["user_domain"]); ("PATCH", "users/:id", ["user_domain"]);
   ("GET", "users/:id/roles", ["user_domain"]); ("GET", "resources/:id", ["first_level"]);
   ("GET", "resources/sub-resources", ["first_level"; "second_level"; "list"]);
   ("GET", "resources/sub-resources/:id", ["first_level"; "second_level"]);
   ("POST", "resources/sub-resources/:id/lowest-resources/:id", ["first_level"; "second_level"; "third_level"; "create"]);
   ("POST", "resources/:id", []); ("PATCH", "resources/:id", ["first_level"; "update"])].

Theorem example_routes : Forall (fun base : string =>
  exists r, MyResource_Setup gin_joinPaths gin_refuses (NewGinRouterGroup base) (MkRouter ∅ []) = Some r /\
    length (routes r) = length documented /\
    Forall (fun d : string * string * list string =>
      (d.1.1, gin_joinPaths base d.1.2) ∈ routes r /\ MyResource_Get (d.1.1, gin_joinPaths base d.1.2) r = (200, d.2)) documented) ["/"; "/api/v1"].
Proof.
  apply Forall_cons_2; [|apply Forall_cons_2; [|apply Forall_nil_2]];
    (eexists; split; [vm_compute; reflexivity|]; split; [vm_compute; reflexivity|]); apply (bool_decide_eq_true_1 (Forall _ _)); vm_compute; reflexivity.
Qed.

(** Every command of the examples starts: what its parts take is there. *)
Theorem examples_start : Forall (fun app : cobra => exists tr, fx_run (container_of (application app)) tr) (gin_main ++ gin_plus_worker_main).
Proof.
  cbn [app gin_main gin_plus_worker_main NewAppWithServe NewAppWithServeAndWork NewApp WrapSubCommands fmap list_fmap].
  do 4 (apply Forall_cons_2;
    [match goal with |- exists tr, fx_run ?c tr => exists (start_run c 20) end; apply (check_run_sound _ 20); vm_compute; reflexivity|]).
  by apply Forall_nil_2.
Qed.
