(* ===== verification/Binding.v ===== *)
(** * rest: binding of requests

    Models [rest/gin.go]: the body and the query of a request, what is added to
    its errors and how it is aborted. The decoders and the validation of a value
    are parameters: what they return. *)

From S2P Require Import Prelude.
From S2P Require Import GoStrings.
From S2P Require Import Errors.
From S2P Require Import ErrorHandler.
From Stdlib Require Import Ascii.

Open Scope string_scope.
Open Scope list_scope.
Open Scope Z_scope.

(** ** The query *)

(** The values of [ParseQueryDeepObject]. *)
Inductive query_value := QMap (m : gmap string string) | QMany (vs : list string) | QOne (v : string).

Fixpoint IndexByte (s : string) (c : ascii) : option nat :=
  match s with
  | EmptyString => None
  | String a s => if bool_decide (a = c) then Some 0%nat else S <$> IndexByte s c
  end.

(** The name under which a parameter is stored, and its value; [QueryMap] is gin's; [None]:
    the index out of range. *)
Definition parse_param (QueryMap : string -> gmap string string) (key : string) (values : list string)
    : option (string * query_value) :=
  match IndexByte key "["%char with
  | Some (S i) => let mapKey := take_bytes (S i) key in Some (mapKey, QMap (QueryMap mapKey))
  | _ => if bool_decide (1 < length values)%nat then Some (key, QMany values) else v ← values !! 0%nat; Some (key, QOne v)
  end.
(** [query]: the parameters in the order in which Go iterates. *)
Fixpoint query_loop (QueryMap : string -> gmap string string) (query : list (string * list string)) (resp : gmap string query_value)
    : option (gmap string query_value) :=
  match query with
  | [] => Some resp
  | (key, values) :: query => e ← parse_param QueryMap key values; query_loop QueryMap query (<[e.1 := e.2]> resp)
  end.
Definition ParseQueryDeepObject (QueryMap : string -> gmap string string) (query : list (string * list string))
    : option (gmap string query_value) :=
  query_loop QueryMap query ∅.

(** ** Binding *)
Section binding.
Context {W B : Type} `{Gin W B}.
Context (defaults : Defaults) (callers : list Frame) (show : error -> string).

(** A request: its errors, whether it is aborted, and its writer. *)
Record Request := MkRequest { errs : list (option GinError); request_aborted : bool; writer : W }.

(** The framework's error for one that it wraps, with its message. *)
Definition wrapped (code : string) (text : string) (err : error) : error :=
  let msg := text +:+ show err in Newf defaults code (WrapOne "*fmt.wrapError" msg err) msg callers.

Definition add_error (e : GinError) (r : Request) : Request := MkRequest (errs r ++ [Some e]) (request_aborted r) (writer r).
Definition abort (r : Request) : Request := MkRequest (errs r) true (writer r).
(** gin's [AbortWithError] writes the header. *)
Definition AbortWithError (code : Z) (e : GinError) (r : Request) : Request :=
  add_error e (MkRequest (errs r) true (WriteHeaderNow (Status code (writer r)))).

(** [parse]: what [ShouldBindJSON] returned; [validate]: what [Validate] returns, when there is
    such a method; [type_name]: of the destination. *)
Definition BindJSONBody (type_name : string) (parse : error) (validate : option error) (r : Request) : error * Request :=
  match parse with
  | NilErr =>
      match validate with
      | None | Some NilErr => (NilErr, r)
      | Some err =>
          (err, abort (add_error (MkGinError (wrapped ErrCodeBadArgument ("could not parse body into: " +:+ type_name +:+ ", validation error: ") err) true) r))
      end
  | err =>
      (err, abort (add_error (MkGinError (wrapped ErrCodeBadArgument ("could not parse body in to: " +:+ type_name +:+ ", binding error: ") err) true) r))
  end.

(** [decode]: what [WeakDecode] returned for the query. *)
Definition BindDeepObjectQuery (type_name : string) (decode : error) (validate : option error) (r : Request) : error * Request :=
  match decode with
  | NilErr =>
      match validate with
      | None | Some NilErr => (NilErr, r)
      | Some err =>
          (err, abort (add_error (MkGinError
             (wrapped ErrCodeBadArgument ("could not validate query parameters for: " +:+ type_name +:+ ", validation error: ") err) true) r))
      end
  | err =>
      (err, AbortWithError 400 (MkGinError
         (wrapped ErrCodeBadArgument ("could not parse query parameters into: " +:+ type_name +:+ ", validation error: ") err) false) r)
  end.

(** [text]: the formatted arguments. *)
Definition HandleError (text : string) (err : error) (r : Request) : Request :=
  abort (add_error (MkGinError (match AsError err with Some _ => err | None => wrapped ErrCodeUnknown (text +:+ ": ") err end) false) r).
End binding.
Arguments Request : clear implicits.

(** *** With the error handler

    The answer to a request whose first error comes from these functions, by the error handler
    without mappers: the comment on [BindJSONBody] promises 400 for a body that is no JSON; the
    answer is 422. *)
Theorem binding_answers {W B} `{GinLaws W B} defaults callers show (prod : bool) (type_name : string) (err : error) (w : W) :
  err <> NilErr -> Written w = false ->
  let r0 := MkRequest [] false w in
  let answer := fun r : Request W => handleErrors (B:=B) prod [] (errs r) false (writer r) in
  (forall r, (r = (BindJSONBody defaults callers show type_name err None r0).2 \/
              r = (BindJSONBody defaults callers show type_name NilErr (Some err) r0).2 \/
              r = (BindDeepObjectQuery defaults callers show type_name NilErr (Some err) r0).2) ->
    request_aborted r = true /\ exists l w', answer r = Some (Some l, w') /\ status_of w' = 422 /\ Written w' = false) /\
  (let r := (BindDeepObjectQuery defaults callers show type_name err None r0).2 in
   request_aborted r = true /\ exists l w', answer r = Some (Some l, w') /\ status_of w' = 400 /\ Written w' = true) /\
  (let r := HandleError defaults callers show "failed" err r0 in
   request_aborted r = true /\ (AsError err = None -> exists l w', answer r = Some (Some l, w') /\ status_of w' = 500 /\ Written w' = true)).
Proof.
  cbv zeta. intros Hne Hw.
  assert (forall e, exists l w', handleErrors (B:=B) prod [] [Some (MkGinError e true)] false w = Some (Some l, w') /\
    status_of w' = 422 /\ Written w' = false) as Hb.
  { intros e. unfold handleErrors. rewrite Hw. cbn [negb andb error_loop run_mappers fst snd app]. unfold defaultHandler. cbn.
    destruct e; cbn; eexists _, _; (split; [reflexivity|]); destruct (Status_status 422 w Hw) as [-> ->]; done. }
  split; [|split].
  - intros r [->|[->| ->]]; destruct err; try done; (split; [done|apply Hb]).
  - destruct (Status_status 400 w Hw) as [Hs Hu]. destruct (now_written (Status 400 w)) as [Hn1 Hn2].
    assert (forall e, e <> NilErr -> exists l w', handleErrors (B:=B) prod [] [Some (MkGinError e false)] false (WriteHeaderNow (Status 400 w)) = Some (Some l, w') /\
      status_of w' = 400 /\ Written w' = true) as Hq.
    { intros e He. unfold handleErrors. rewrite Hn1. cbn [negb andb error_loop run_mappers fst snd app]. unfold defaultHandler.
      destruct e; try done; cbn; eexists _, _; (split; [reflexivity|]); by rewrite Hn2, Hs. }
    destruct err; try done; (split; [done|by apply Hq]).
  - split; [done|]. intros Ha. unfold HandleError. rewrite Ha. cbn [errs writer abort add_error app].
    unfold handleErrors. rewrite Hw. cbn [negb andb error_loop run_mappers fst snd app]. unfold defaultHandler, wrapped, Newf.
    eexists _, _. split; [reflexivity|]. cbn. destruct prod; cbn; by apply (JSON_status (B:=B)).
Qed.

(** A query like the one of the specification: every name of a parameter has its value. *)
Example deep_object :
  let q := fun k => if bool_decide (k = "filter") then {[ "color" := "red"; "size" := "s" ]} else ∅ in
  ParseQueryDeepObject q [("filter[color]", ["red"]); ("filter[size]", ["s"]); ("ids", ["1"; "2"]); ("q", ["x"])] =
  Some {[ "filter" := QMap {[ "color" := "red"; "size" := "s" ]}; "ids" := QMany ["1"; "2"]; "q" := QOne "x" ]}.
Proof. vm_compute. reflexivity. Qed.

(** The order of iteration matters only for a name given both with and without brackets. *)
Lemma ParseQueryDeepObject_total QueryMap (query : list (string * list string)) :
  Forall (fun e => e.2 <> []) query -> is_Some (ParseQueryDeepObject QueryMap query).
Proof.
  unfold ParseQueryDeepObject. generalize (∅ : gmap string query_value). induction query as [|[key values] query IH]; intros resp Hq; [by eexists|].
  apply Forall_cons in Hq as [Hv Hq]. cbn [query_loop].
  assert (is_Some (parse_param QueryMap key values)) as [e ->].
  { unfold parse_param. cbn in Hv. destruct values as [|v values]; [done|]. destruct (IndexByte key "["%char) as [[|i]|];
      try case_bool_decide; by eexists. }
  by apply IH.
Qed.
