(* ===== verification/Slack.v ===== *)
(** * slack: messages to webhooks

    Models [slack/slack_client.go]: which webhook a message goes to, what sending
    returns, and the text of a message in the body. The HTTP client is a parameter: what it
    answers. *)

From S2P Require Import Prelude.
From S2P Require Import GoStrings.
From Stdlib Require Import Ascii.

Open Scope string_scope.
Open Scope list_scope.
Open Scope Z_scope.

(** ** Webhooks *)
Record WebhookURLs := MkURLs { url_Info : string; url_Warn : string; url_Error : string }.
Inductive WebhookChannelType := ChannelInfo | ChannelWarn | ChannelError | OtherChannel (name : string).

(** [None]: it panics; the client is nil when Slack is disabled. *)
Definition NewSlackClient (enabled : bool) (urls : WebhookURLs) : option (option WebhookURLs) :=
  if negb enabled then Some None
  else if bool_decide (url_Error urls = "") && bool_decide (url_Warn urls = "") && bool_decide (url_Info urls = "") then None
  else Some (Some urls).

Fixpoint firstNonEmpty (s : list string) : string :=
  match s with [] => "" | v :: s => if bool_decide (v <> "") then v else firstNonEmpty s end.

Definition getWebhookURL (urls : WebhookURLs) (channelType : WebhookChannelType) : option string :=
  match channelType with
  | ChannelInfo => Some (url_Info urls)
  | ChannelWarn => Some (firstNonEmpty [url_Warn urls; url_Info urls])
  | ChannelError => Some (firstNonEmpty [url_Error urls; url_Warn urls; url_Info urls])
  | OtherChannel _ => None
  end.

(** What the HTTP client answers: an error, or a status and the body, if it could be read. *)
Inductive http_answer := Failed (err : string) | Answered (status : Z) (body : option string).
Inductive send_error := RequestFailed (url_prefix : string) (err : string) | NotSuccessful (status : Z) (body : string).

(** The result and the URL that was posted to. *)
Definition sendRaw (urls : WebhookURLs) (post : string -> http_answer) (channelType : WebhookChannelType)
    : option (option send_error * option string) :=
  webhookURL ← getWebhookURL urls channelType;
  if bool_decide (webhookURL = "") then Some (None, None)
  else
    Some
      (match post webhookURL with
       | Failed err => Some (RequestFailed (take_bytes (String.length webhookURL / 2) webhookURL +:+ "...") err)
       | Answered status body =>
           if bool_decide (Z.quot status 100 <> 2) then Some (NotSuccessful status (default "<error reading body>" body)) else None
       end, Some webhookURL).

(** ** The text of a message

    [template.JSEscapeString], which the template applies to the message, on ASCII. *)
Definition hex_digit (n : N) : ascii :=
  ascii_of_N (if (n <? 10)%N then 48 + n else 55 + n).
Definition js_char (c : ascii) : string :=
  let n := N_of_ascii c in
  if bool_decide (c = "\"%char) then "\\"
  else if bool_decide (n = 39%N) then String "\" (String c "")
  else if bool_decide (n = 34%N) then String "\" (String c "")
  else if bool_decide (c = "<"%char) then "\u003C"
  else if bool_decide (c = ">"%char) then "\u003E"
  else if bool_decide (c = "&"%char) then "\u0026"
  else if bool_decide (c = "="%char) then "\u003D"
  else if (n <? 32)%N then "\u00" +:+ String (hex_digit (n / 16)) (String (hex_digit (n mod 16)) "")
  else String c "".
Fixpoint JSEscapeString (s : string) : string :=
  match s with EmptyString => EmptyString | String c s => js_char c +:+ JSEscapeString s end.

(** *** The grammar of a JSON string, between its quotes, with escapes of ASCII *)
Definition hex_value (c : ascii) : option N :=
  let n := N_of_ascii c in
  if (48 <=? n)%N && (n <=? 57)%N then Some (n - 48)%N
  else if (65 <=? n)%N && (n <=? 70)%N then Some (n - 55)%N
  else if (97 <=? n)%N && (n <=? 102)%N then Some (n - 87)%N
  else None.
(** The letter of a short escape. *)
Definition short_escape (c : ascii) : option ascii :=
  let n := N_of_ascii c in
  if (n =? 34)%N || (n =? 92)%N || (n =? 47)%N then Some c
  else if (n =? 98)%N then Some (ascii_of_N 8)
  else if (n =? 102)%N then Some (ascii_of_N 12)
  else if (n =? 110)%N then Some (ascii_of_N 10)
  else if (n =? 114)%N then Some (ascii_of_N 13)
  else if (n =? 116)%N then Some (ascii_of_N 9)
  else None.
Fixpoint json_chars (s : string) : option string :=
  match s with
  | EmptyString => Some EmptyString
  | String c s =>
      if bool_decide (c = "\"%char) then
        match s with
        | EmptyString => None
        | String e s =>
            if bool_decide (e = "u"%char) then
              match s with
              | String h1 (String h2 (String h3 (String h4 s))) =>
                  n1 ← hex_value h1; n2 ← hex_value h2; n3 ← hex_value h3; n4 ← hex_value h4;
                  let n := (((n1 * 16 + n2) * 16 + n3) * 16 + n4)%N in
                  if (n <? 128)%N then String (ascii_of_N n) <$> json_chars s else None
              | _ => None
              end
            else d ← short_escape e; String d <$> json_chars s
        end
      else if (N_of_ascii c <? 32)%N || (N_of_ascii c =? 34)%N then None
      else String c <$> json_chars s
  end.

Definition is_ascii (c : ascii) : bool := (N_of_ascii c <? 128)%N.
Definition apostrophe : ascii := ascii_of_N 39.
Fixpoint every (f : ascii -> bool) (s : string) : bool :=
  match s with EmptyString => true | String c s => f c && every f s end.

(** Reading goes on after the text of one byte. *)
Lemma js_char_app c rest : is_ascii c = true ->
  json_chars (js_char c +:+ rest) = if bool_decide (c = apostrophe) then None else String c <$> json_chars rest.
Proof.
  destruct c as [[] [] [] [] [] [] [] []]; intros Ha; try discriminate Ha; reflexivity.
Qed.

(** A message of ASCII is read back from the body as it was sent, unless it has an apostrophe:
    its escape is none of JSON's, so that the body is no JSON. *)
Theorem message_text (msg : string) : every is_ascii msg = true ->
  json_chars (JSEscapeString msg) =
    if every (fun c => negb (bool_decide (c = apostrophe))) msg then Some msg else None.
Proof.
  induction msg as [|c msg IH]; [done|]. cbn [every JSEscapeString]. intros [Hc Hm]%andb_true_iff. rewrite js_char_app by done.
  rewrite IH by done. case_bool_decide; [done|]. cbn [negb andb]. clear Hm IH. by destruct (every _ msg).
Qed.

(** Where a message goes: the webhook of its level or the next lower one that is
    configured; without one nothing is sent and there is no error; there is none exactly when a
    request was answered with a status of the two hundreds. *)
Theorem message_sent (urls : WebhookURLs) post channelType :
  (sendRaw urls post channelType = None <-> exists name, channelType = OtherChannel name) /\
  (forall err url, sendRaw urls post channelType = Some (err, url) ->
    let levels := match channelType with
                  | ChannelInfo => [url_Info urls]
                  | ChannelWarn => [url_Warn urls; url_Info urls]
                  | _ => [url_Error urls; url_Warn urls; url_Info urls]
                  end in
    url = head (filter (fun u => u <> "") levels) /\
    (err = None <-> url = None \/ exists u st body, url = Some u /\ post u = Answered st body /\ 200 <= st < 300)) /\
  (channelType = ChannelError -> NewSlackClient true urls = Some (Some urls) -> exists err u, sendRaw urls post channelType = Some (err, Some u)).
Proof.
  assert (forall l, firstNonEmpty l = default "" (head (filter (fun u => u <> "") l))) as Hfirst.
  { induction l as [|u l IH]; [done|]. cbn [firstNonEmpty]. rewrite filter_cons. case_bool_decide; case_decide; done. }
  assert (forall l, match head (filter (fun u : string => u <> "") l) with Some u => u <> "" | None => True end) as Hne.
  { intros l. destruct (filter _ l) as [|u l'] eqn:E; [done|]. cbn. assert (u ∈ filter (fun u : string => u <> "") l) as Hin by (rewrite E; left).
    by apply list_elem_of_filter in Hin as []. }
  assert (forall st, Z.quot st 100 = 2 <-> 200 <= st < 300) as Hq.
  { intros st. destruct (Z.le_gt_cases 0 st) as [H0|H0].
    - rewrite Z.quot_div_nonneg by lia. split; [intros; pose proof (Z.div_mod st 100); pose proof (Z.mod_pos_bound st 100); lia|].
      intros. symmetry. apply (Z.div_unique st 100 2 (st - 200)); lia.
    - split; [|lia]. intros E. pose proof (Z.quot_le_mono st 0 100). rewrite Z.quot_0_l in H by lia. lia. }
  set (levels := match channelType with ChannelInfo => _ | _ => _ end).
  assert (match channelType with OtherChannel _ => True | _ => getWebhookURL urls channelType = Some (default "" (head (filter (fun u => u <> "") levels))) end) as Hu.
  { destruct channelType; unfold levels; cbn [getWebhookURL]; try rewrite <- Hfirst; try done. cbn. by case_bool_decide as Hb; [|rewrite Hb]. }
  split; [|split].
  - unfold sendRaw. destruct channelType; cbn [getWebhookURL mbind option_bind]; try (case_bool_decide; (split; [done|by intros [? ?]])).
    split; [by eexists|done].
  - intros err url Hs. cbv zeta. specialize (Hne levels). unfold sendRaw in Hs.
    destruct channelType as [| | |name]; [..|done]; rewrite Hu in Hs; cbn [mbind option_bind] in Hs; fold levels;
      destruct (head (filter (fun u : string => u <> "") levels)) as [u|]; cbn [default from_option id] in Hs;
      [rewrite (bool_decide_eq_false_2 _ Hne) in Hs|rewrite bool_decide_eq_true_2 in Hs by done|
       rewrite (bool_decide_eq_false_2 _ Hne) in Hs|rewrite bool_decide_eq_true_2 in Hs by done|
       rewrite (bool_decide_eq_false_2 _ Hne) in Hs|rewrite bool_decide_eq_true_2 in Hs by done];
      injection Hs as <- <-; (split; [done|]); try (split; [by left|done]);
      (destruct (post u) as [e|st body] eqn:Ep; [split; [done|]; intros [?|(?&?&?&[= <-]&?&?)]; [done|congruence]|];
       case_bool_decide as Hst; [split; [done|]; intros [?|(?&?&?&[= <-]&?&?)]; [done|]; rewrite Ep in *; simplify_eq; exfalso; by apply Hst, Hq|];
       split; [intros _; right; exists u, st, body; split; [done|]; split; [done|]; apply Hq; (exact Hst || by apply dec_stable)|done]).
  - intros -> Hn. unfold sendRaw. rewrite Hu. cbn [mbind option_bind]. unfold levels.
    unfold NewSlackClient in Hn. cbn [negb] in Hn. rewrite !filter_cons, filter_nil.
    repeat case_decide; repeat case_bool_decide; cbn in *; simplify_eq; eauto; naive_solver.
Qed.

Lemma message_text_witness :
  json_chars (JSEscapeString "a < b & c") = Some "a < b & c" /\ json_chars (JSEscapeString (String apostrophe "")) = None.
Proof. split; [by rewrite message_text|by rewrite message_text]. Defined.
