(* ===== verification/SlackMessage.v ===== *)
(** * slack: the body of a message

    Models the messages of [slack/slack_client.go]: the templates of the package,
    how a client fills them, and what [Send] posts; and [slack/fx_logger.go], which sends
    the container's start and end.  Of the engine [text/template] it models the actions that
    the templates have: a field, and a field piped to [js].  An automaton for the
    grammar of JSON reads the bodies. *)

From S2P Require Import Prelude.
From S2P Require Import GoStrings.
From S2P Require Import Slack.
From S2P Require Import Log.
From S2P Require Import Loggers.
From Stdlib Require Import Ascii.
From stdpp Require Import pretty.

Open Scope string_scope.
Open Scope list_scope.
Open Scope Z_scope.

(** ** Templates *)

(** The texts below are written with single quotes for double ones. *)
Definition double_quote : ascii := ascii_of_N 34.
Fixpoint quotes (s : string) : string :=
  match s with
  | EmptyString => ""
  | String c s => String (if bool_decide (c = apostrophe) then double_quote else c) (quotes s)
  end.

Definition fullMsgTemplateSrc : string := quotes "{
	'blocks': [
		{
			'type': 'header',
			'text': {
				'type': 'plain_text',
				'text': '{{.level_msg}}: {{.service_name}}',
				'emoji': true
			}
		},
		{
			'type': 'section',
			'text': {
				'type': 'mrkdwn',
				'text': '{{.main_msg | js}}'
			}
		},
		${context_section}
	]
}".
Definition contextSectionTemplateSrc : string := quotes "{
			'type': 'divider'
		},
		{
			'type': 'context',
			'elements': [
				{
					'type': 'mrkdwn',
					'text': '*EnvType*\t\n{{.env_type}}'
				},
				{
					'type': 'mrkdwn',
					'text': '*EnvName*\t\n{{.env_name}}'
				},
				{
					'type': 'mrkdwn',
					'text': '*Host*\t\n{{.host}}'
				},
				{
					'type': 'mrkdwn',
					'text': '*Release*\t\n{{.release}}'
				},
				{
					'type': 'mrkdwn',
					'text': '*Commit*\t\n{{.commit}}'
				},
				{
					'type': 'mrkdwn',
					'text': '*BuildTime*\t\n{{.build_time}}'
				}
			]
		},
		{
			'type': 'divider'
		}".

Inductive piece := Text (s : string) | Field (name : string) | FieldJs (name : string).
#[global] Instance piece_eq_dec : EqDecision piece.
Proof. solve_decision. Defined.

Definition is_name_char (c : ascii) : bool :=
  let n := N_of_ascii c in (97 <=? n)%N && (n <=? 122)%N || (n =? 95)%N.

(** The inside of an action. *)
Definition parse_action (a : string) : option piece :=
  match a with
  | String c name =>
      if negb (bool_decide (c = "."%char)) then None
      else
        let js := HasSuffix name " | js" in
        let name := TrimSuffix name " | js" in
        if bool_decide (name <> "") && every is_name_char name
        then Some (if js then FieldJs name else Field name) else None
  | EmptyString => None
  end.

(** [template.Parse]; as many actions as bytes are enough.  [None]: an error, or an action of
    another form. *)
Fixpoint parse_pieces (fuel : nat) (s : string) : option (list piece) :=
  match Cut s "{{" with
  | (text, _, false) => Some [Text text]
  | (text, s, true) =>
      match fuel with
      | O => None
      | S fuel =>
          match Cut s "}}" with
          | (_, _, false) => None
          | (action, s, true) =>
              p ← parse_action action;
              ps ← parse_pieces fuel s;
              Some (Text text :: p :: ps)
          end
      end
  end.
Definition Parse (s : string) : option (list piece) := parse_pieces (String.length s) s.

(** [template.Execute] over a map; an absent key gives a text of its own. *)
Definition field_of (fields : list (string * string)) (name : string) : string :=
  match head (filter (fun f => f.1 = name) fields) with Some f => f.2 | None => "<no value>" end.
Fixpoint Execute (ps : list piece) (fields : list (string * string)) : string :=
  match ps with
  | [] => ""
  | Text s :: ps => s +:+ Execute ps fields
  | Field name :: ps => field_of fields name +:+ Execute ps fields
  | FieldJs name :: ps => JSEscapeString (field_of fields name) +:+ Execute ps fields
  end.

(** ** The client *)
Record SlackConf := MkSlackConf {
  sl_enabled : bool; sl_urls : WebhookURLs;
  sl_name : string; sl_env_type : string; sl_env_name : string; sl_host : string;
}.
(** The variables of the package version. *)
Record Build := MkBuild { Release : string; Commit : string; BuildTime : string }.

Record Client := MkClient { cl_conf : SlackConf; fullMsgTemplate : list piece }.

Section client.
Context (ToCamel : string -> string).  (** [strcase.ToCamel] *)
Context (sprintf : string -> list string -> string).  (** [fmt.Sprintf] *)
Context (build : Build).

Definition build_fields : list (string * string) :=
  [("release", Release build); ("commit", Commit build); ("build_time", BuildTime build)].

(** [None]: it panics; the inner one: disabled. *)
Definition NewClient (conf : SlackConf) : option (option Client) :=
  urls ← NewSlackClient (sl_enabled conf) (sl_urls conf);
  match urls with
  | None => Some None
  | Some _ =>
      contextSectionTemplate ← Parse contextSectionTemplateSrc;
      let buf := Execute contextSectionTemplate
        ([("env_type", ToCamel (sl_env_type conf)); ("env_name", ToCamel (sl_env_name conf)); ("host", sl_host conf)]
         ++ build_fields) in
      fullMsgTemplate ← Parse (ReplaceAll fullMsgTemplateSrc "${context_section}" buf);
      Some (Some (MkClient conf fullMsgTemplate))
  end.

Definition channel_text (channelType : WebhookChannelType) : string :=
  match channelType with
  | ChannelInfo => "ℹ️ Info"
  | ChannelWarn => "⚠️ Warn"
  | ChannelError => "❗️Error"
  | OtherChannel name => name
  end.

Definition message_body (s : Client) (channelType : WebhookChannelType) (main_msg : string) : string :=
  Execute (fullMsgTemplate s)
    ([("service_name", sl_name (cl_conf s)); ("level_msg", channel_text channelType); ("main_msg", main_msg);
      ("env_type", sl_env_type (cl_conf s)); ("env_name", sl_env_name (cl_conf s)); ("host", sl_host (cl_conf s))]
     ++ build_fields).

(** [post url body]: the answer of the HTTP client.  The result and the URL posted to;
    [None]: it panics. *)
Definition Send (s : Client) (post : string -> string -> http_answer) (channelType : WebhookChannelType)
    (message : string) (args : list string) : option (option send_error * option string) :=
  let buf := message_body s channelType (sprintf message args) in
  sendRaw (sl_urls (cl_conf s)) (fun url => post url buf) channelType.

Definition Slack_Infof s post message args := Send s post ChannelInfo message args.
Definition Slack_Warnf s post message args := Send s post ChannelWarn message args.
Definition Slack_Errorf s post message args := Send s post ChannelError message args.

(** Blocks: [marshal] is [json.Marshal]; [inl]: its error. *)
Definition send {B} (marshal : B -> string + string) (s : Client) (post : string -> string -> http_answer)
    (channelType : WebhookChannelType) (payload : B) : option ((string + option send_error) * option string) :=
  match marshal payload with
  | inl err => Some (inl err, None)
  | inr bodyBytes =>
      '(err, url) ← sendRaw (sl_urls (cl_conf s)) (fun url => post url bodyBytes) channelType;
      Some (inr err, url)
  end.
Definition SendWithBlocks {B P} (marshal : P -> string + string) (blocks_of : B -> P) (s : Client) post channelType (blocks : B) :=
  send marshal s post channelType (blocks_of blocks).
Definition Slack_Infob {B P} (marshal : P -> string + string) (blocks_of : B -> P) s post blocks :=
  SendWithBlocks marshal blocks_of s post ChannelInfo blocks.
Definition Slack_Warnb {B P} (marshal : P -> string + string) (blocks_of : B -> P) s post blocks :=
  SendWithBlocks marshal blocks_of s post ChannelWarn blocks.
Definition Slack_Errorb {B P} (marshal : P -> string + string) (blocks_of : B -> P) s post blocks :=
  SendWithBlocks marshal blocks_of s post ChannelError blocks.
End client.

(** ** The grammar of JSON, as an automaton *)
Inductive jframe := FObj | FArr.
Inductive jnum := NMinus | NZero | NInt | NDot | NFrac | NExp | NSign | NDigits.
Inductive jmode :=
| JValue | JValueOrClose          (** a value; or the end of an array *)
| JKeyOrClose | JKey | JColon     (** in an object *)
| JAfter                          (** after a value *)
| JStr (key : bool) | JEsc (key : bool) | JHex (key : bool) (n : nat)
| JLit (rest : string) | JNum (n : jnum).
(** The objects and arrays around, and what comes next. *)
Definition jstate : Type := jmode * list jframe.

Definition is_ws (c : ascii) : bool :=
  let n := N_of_ascii c in (n =? 32)%N || (n =? 9)%N || (n =? 10)%N || (n =? 13)%N.
Definition is_digit (c : ascii) : bool := let n := N_of_ascii c in (48 <=? n)%N && (n <=? 57)%N.

Definition json_start (c : ascii) (st : list jframe) : option jstate :=
  if Ascii.eqb c "{" then Some (JKeyOrClose, FObj :: st)
  else if Ascii.eqb c "[" then Some (JValueOrClose, FArr :: st)
  else if Ascii.eqb c double_quote then Some (JStr false, st)
  else if Ascii.eqb c "t" then Some (JLit "rue", st)
  else if Ascii.eqb c "f" then Some (JLit "alse", st)
  else if Ascii.eqb c "n" then Some (JLit "ull", st)
  else if Ascii.eqb c "-" then Some (JNum NMinus, st)
  else if Ascii.eqb c "0" then Some (JNum NZero, st)
  else if is_digit c then Some (JNum NInt, st)
  else None.
Definition json_after (c : ascii) (st : list jframe) : option jstate :=
  if is_ws c then Some (JAfter, st)
  else
    match st with
    | FObj :: st' => if Ascii.eqb c "," then Some (JKey, st) else if Ascii.eqb c "}" then Some (JAfter, st') else None
    | FArr :: st' => if Ascii.eqb c "," then Some (JValue, st) else if Ascii.eqb c "]" then Some (JAfter, st') else None
    | [] => None
    end.
Definition num_ends (n : jnum) : bool := match n with NZero | NInt | NFrac | NDigits => true | _ => false end.
Definition num_step (n : jnum) (c : ascii) : option jnum :=
  let exponent := Ascii.eqb c "e" || Ascii.eqb c "E" in
  match n with
  | NMinus => if Ascii.eqb c "0" then Some NZero else if is_digit c then Some NInt else None
  | NZero => if Ascii.eqb c "." then Some NDot else if exponent then Some NExp else None
  | NInt => if is_digit c then Some NInt else if Ascii.eqb c "." then Some NDot else if exponent then Some NExp else None
  | NDot => if is_digit c then Some NFrac else None
  | NFrac => if is_digit c then Some NFrac else if exponent then Some NExp else None
  | NExp => if is_digit c then Some NDigits else if Ascii.eqb c "+" || Ascii.eqb c "-" then Some NSign else None
  | NSign | NDigits => if is_digit c then Some NDigits else None
  end.

Definition json_step (x : jstate) (c : ascii) : option jstate :=
  let '(m, st) := x in
  match m with
  | JValue => if is_ws c then Some x else json_start c st
  | JValueOrClose =>
      if is_ws c then Some x else if Ascii.eqb c "]" then json_after c st else json_start c st
  | JKeyOrClose =>
      if is_ws c then Some x else if Ascii.eqb c "}" then json_after c st
      else if Ascii.eqb c double_quote then Some (JStr true, st) else None
  | JKey => if is_ws c then Some x else if Ascii.eqb c double_quote then Some (JStr true, st) else None
  | JColon => if is_ws c then Some x else if Ascii.eqb c ":" then Some (JValue, st) else None
  | JAfter => json_after c st
  | JStr key =>
      if Ascii.eqb c double_quote then Some (if key then JColon else JAfter, st)
      else if Ascii.eqb c "\" then Some (JEsc key, st)
      else if (N_of_ascii c <? 32)%N then None
      else Some x
  | JEsc key =>
      if Ascii.eqb c "u" then Some (JHex key 4, st)
      else match short_escape c with Some _ => Some (JStr key, st) | None => None end
  | JHex key n =>
      match hex_value c with
      | None => None
      | Some _ => Some (match n with S (S n) => JHex key (S n) | _ => JStr key end, st)
      end
  | JLit (String d rest) =>
      if Ascii.eqb c d then Some (if bool_decide (rest = "") then JAfter else JLit rest, st) else None
  | JLit EmptyString => None
  | JNum n =>
      match num_step n c with
      | Some n => Some (JNum n, st)
      | None => if num_ends n then json_after c st else None
      end
  end.

Fixpoint json_run (x : jstate) (s : string) : option jstate :=
  match s with
  | EmptyString => Some x
  | String c s => x ← json_step x c; json_run x s
  end.
Definition json_ok (s : string) : bool :=
  match json_run (JValue, []) s with
  | Some (JAfter, []) => true
  | Some (JNum n, []) => num_ends n
  | _ => false
  end.

Example json_examples :
  map json_ok ["[1, -2.5e+3, true]"; "{}"; "01"; "[1,]"; quotes "{'k': ['\u00e9', null]}"; quotes "'\x'"; "7"; "{"; ""] =
  [true; true; false; false; true; false; true; false; false].
Proof. vm_compute. reflexivity. Qed.

(** *** Reading text in parts *)
Lemma json_run_app x a b : json_run x (a +:+ b) = (x ← json_run x a; json_run x b).
Proof.
  revert x. induction a as [|c a IH]; intros x; [done|]. change (String c a +:+ b) with (String c (a +:+ b)). cbn [json_run].
  destruct (json_step x c) as [y|]; cbn [mbind option_bind]; [apply IH|done].
Qed.

(** Values that JSON strings and templates hold as they are. *)
Definition clean_char (c : ascii) : bool :=
  negb (N_of_ascii c <? 32)%N && negb (Ascii.eqb c double_quote) && negb (Ascii.eqb c "\") && negb (Ascii.eqb c "{").
Definition clean (s : string) : bool := every clean_char s.

Lemma json_run_clean key st v : clean v = true -> json_run (JStr key, st) v = Some (JStr key, st).
Proof.
  induction v as [|c v IH]; [done|]. unfold clean. cbn [every]. intros [Hc Hv]%andb_true_iff.
  unfold clean_char in Hc. repeat rewrite andb_true_iff in Hc. destruct Hc as (((H1 & H2) & H3) & _).
  rewrite negb_true_iff in *. cbn [json_run json_step]. rewrite H1, H2, H3. cbn [mbind option_bind]. by apply IH.
Qed.

Lemma json_run_js_char key st c : is_ascii c = true ->
  json_run (JStr key, st) (js_char c) = if bool_decide (c = apostrophe) then None else Some (JStr key, st).
Proof. destruct c as [[] [] [] [] [] [] [] []]; intros Ha; try discriminate Ha; reflexivity. Qed.

Lemma json_run_js key st msg : every is_ascii msg = true ->
  json_run (JStr key, st) (JSEscapeString msg) =
  if every (fun c => negb (bool_decide (c = apostrophe))) msg then Some (JStr key, st) else None.
Proof.
  induction msg as [|c msg IH]; [done|]. cbn [every JSEscapeString]. intros [Hc Hm]%andb_true_iff.
  rewrite json_run_app, json_run_js_char by done. case_bool_decide; [done|]. cbn [mbind option_bind negb andb]. by apply IH.
Qed.

(** *** Templates whose fields are clean, within strings *)
Fixpoint run_pieces (x : jstate) (ps : list piece) : option jstate :=
  match ps with
  | [] => Some x
  | Text s :: ps => x ← json_run x s; run_pieces x ps
  | Field _ :: ps => match x with (JStr _, _) => run_pieces x ps | _ => None end
  | FieldJs _ :: ps => None
  end.

Lemma json_run_execute fields x ps y : Forall (fun p => match p with Field n => clean (field_of fields n) = true | _ => True end) ps ->
  run_pieces x ps = Some y -> json_run x (Execute ps fields) = Some y.
Proof.
  revert x. induction ps as [|p ps IH]; intros x Hf Hr; [done|]. apply Forall_cons in Hf as [Hp Hf].
  destruct p as [s|n|n]; cbn [run_pieces Execute] in *; [..|done].
  - rewrite json_run_app. destruct (json_run x s); cbn [mbind option_bind] in *; [by apply IH|done].
  - destruct x as [[] st]; try done. rewrite json_run_app, json_run_clean by done. by apply IH.
Qed.

Lemma prefix_two a b x y :
  String.prefix "{{" (String a (String b x)) = String.prefix "{{" (String a (String b y)).
Proof. cbn. destruct (ascii_dec "{" a), (ascii_dec "{" b), x, y; done. Qed.

Lemma prefix_other c s : c <> "{"%char -> String.prefix "{{" (String c s) = false.
Proof. intros Hc. destruct c as [[] [] [] [] [] [] [] []]; try reflexivity. by destruct Hc. Qed.

(** No action begins in the text. *)
Lemma Index_braces_lit lit x : Index lit "{{" = None ->
  (match String.get (String.length lit - 1) lit with Some c => c <> "{"%char | None => True end) ->
  Index x "{{" = None -> Index (lit +:+ x) "{{" = None.
Proof.
  induction lit as [|c lit IH]; [done|]. intros Hi Hl Hx. change (String c lit +:+ x) with (String c (lit +:+ x)).
  cbn [Index] in *. destruct (String.prefix "{{" (String c lit)) eqn:Ep; [done|].
  assert (Index lit "{{" = None) as Hi' by (by destruct (Index lit "{{")).
  assert (String.prefix "{{" (String c (lit +:+ x)) = false) as ->.
  { destruct lit as [|d lit]; [|by rewrite string_app_String, (prefix_two _ _ _ lit)]. cbn in Hl. by apply prefix_other. }
  rewrite IH; [done|done| |done]. destruct lit as [|d lit]; [done|].
  cbn [String.length] in *. replace (S (S (String.length lit)) - 1)%nat with (S (String.length lit)) in Hl by lia.
  cbn [String.get] in Hl. by replace (S (String.length lit) - 1)%nat with (String.length lit) by lia.
Qed.

Lemma get_every f s i c : every f s = true -> String.get i s = Some c -> f c = true.
Proof.
  revert i. induction s as [|d s IH]; intros i; [by destruct i|]. cbn [every]. intros [Hd Hs]%andb_true_iff.
  destruct i as [|i]; cbn [String.get]; [by intros [= ->]|by apply IH].
Qed.

Lemma clean_not_brace c : clean_char c = true -> c <> "{"%char.
Proof. intros Hc ->. discriminate Hc. Qed.

Lemma clean_lit v : clean v = true -> Index v "{{" = None /\
  (match String.get (String.length v - 1) v with Some c => c <> "{"%char | None => True end).
Proof.
  intros Hv. split.
  - induction v as [|c v IH]; [done|]. unfold clean in *. cbn [every] in Hv. apply andb_true_iff in Hv as [Hc Hv].
    cbn [Index]. rewrite prefix_other by by apply clean_not_brace. by rewrite IH.
  - destruct (String.get _ v) as [c|] eqn:E; [|done]. eapply clean_not_brace, get_every; [exact Hv|exact E].
Qed.

(** Texts that neither hold nor end like the begin of an action. *)
Definition inert_text (s : string) : bool :=
  bool_decide (Index s "{{" = None) &&
  match String.get (String.length s - 1) s with Some c => negb (Ascii.eqb c "{") | None => true end.
Lemma Index_execute fields ps :
  Forall (fun p => match p with Text s => inert_text s = true | Field n => clean (field_of fields n) = true | _ => False end) ps ->
  forall x, Index x "{{" = None -> Index (Execute ps fields +:+ x) "{{" = None.
Proof.
  induction 1 as [|p ps Hp _ IH]; intros x Hx; [exact Hx|]. destruct p as [s|n|n]; cbn [Execute]; [..|done];
    rewrite app_assoc_string; apply Index_braces_lit; auto.
  - apply andb_true_iff in Hp as [Hp _]. by apply bool_decide_eq_true in Hp.
  - apply andb_true_iff in Hp as [_ Hp]. destruct (String.get _ s) as [c|]; [|done]. intros ->. discriminate Hp.
  - by apply clean_lit.
  - by apply clean_lit.
Qed.

(** ** The templates of the package, parsed *)
Definition context_pieces : list piece := Eval vm_compute in default [] (Parse contextSectionTemplateSrc).
Definition full_pieces : list piece := Eval vm_compute in default [] (Parse fullMsgTemplateSrc).
Definition before_section : string := Eval vm_compute in (Cut fullMsgTemplateSrc "${context_section}").1.1.
Definition after_section : string := Eval vm_compute in (Cut fullMsgTemplateSrc "${context_section}").1.2.
Definition text_of (p : option piece) : string := match p with Some (Text s) => s | _ => "" end.
(** The text between the message and the section. *)
Definition message_to_section : string :=
  Eval vm_compute in (Cut (text_of (full_pieces !! 6%nat)) "${context_section}").1.1.

Lemma context_parsed : Parse contextSectionTemplateSrc = Some context_pieces.
Proof. vm_compute. reflexivity. Qed.

Lemma section_replaced x : ReplaceAll fullMsgTemplateSrc "${context_section}" x = before_section +:+ (x +:+ after_section).
Proof. vm_compute. reflexivity. Qed.

Lemma parse_step fuel s text s1 action s2 p : Cut s "{{" = (text, s1, true) -> Cut s1 "}}" = (action, s2, true) ->
  parse_action action = Some p ->
  parse_pieces (S fuel) s = (ps ← parse_pieces fuel s2; Some (Text text :: p :: ps)).
Proof. intros E1 E2 Ep. cbn [parse_pieces]. by rewrite E1, E2, Ep. Qed.

Lemma parse_end fuel s : Index s "{{" = None -> parse_pieces fuel s = Some [Text s].
Proof. intros E. destruct fuel; cbn [parse_pieces]; unfold Cut; by rewrite E. Qed.

(** The text after the [n]-th piece of the template. *)
Lemma message_parsed x : Index (message_to_section +:+ x) "{{" = None ->
  Parse (before_section +:+ x) = Some (take 6 full_pieces ++ [Text (message_to_section +:+ x)]).
Proof.
  intros Hx. unfold Parse.
  assert (exists n, String.length (before_section +:+ x) = S (S (S n))) as [n ->] by (eexists; vm_compute; reflexivity).
  erewrite parse_step; [|vm_compute; reflexivity|vm_compute; reflexivity|vm_compute; reflexivity].
  erewrite parse_step; [|vm_compute; reflexivity|vm_compute; reflexivity|vm_compute; reflexivity].
  erewrite parse_step; [|vm_compute; reflexivity|vm_compute; reflexivity|vm_compute; reflexivity].
  match goal with |- context [parse_pieces n ?s] => change s with (message_to_section +:+ x) end.
  rewrite parse_end by done. reflexivity.
Qed.

(** ** The body *)
Section body.
Context (ToCamel : string -> string) (build : Build).

Definition context_fields (conf : SlackConf) : list (string * string) :=
  [("env_type", ToCamel (sl_env_type conf)); ("env_name", ToCamel (sl_env_name conf)); ("host", sl_host conf)] ++
  build_fields build.
Definition clean_conf (conf : SlackConf) : Prop :=
  clean (sl_name conf) = true /\ Forall (fun f => clean f.2 = true) (context_fields conf).

Definition context_section (conf : SlackConf) : string := Execute context_pieces (context_fields conf).

(** The states of the automaton at the message and behind it. *)
Definition at_message : jstate := (JStr false, [FObj; FObj; FArr; FObj]).

Lemma context_clean conf : clean_conf conf ->
  Forall (fun p => match p with Text s => inert_text s = true | Field n => clean (field_of (context_fields conf) n) = true | FieldJs _ => False end)
    context_pieces.
Proof using Type.
  intros (_ & Hf). unfold context_fields, build_fields in Hf. cbn [app] in Hf.
  repeat (apply Forall_cons in Hf as [? Hf]). cbn [snd] in *.
  repeat (apply Forall_cons; split; [first [assumption | vm_compute; reflexivity]|]). by apply Forall_nil.
Qed.

Lemma section_inert conf x : clean_conf conf -> Index x "{{" = None ->
  Index (context_section conf +:+ x) "{{" = None.
Proof using Type. intros Hc. apply Index_execute, context_clean, Hc. Qed.


Lemma rest_inert conf : clean_conf conf ->
  Index (message_to_section +:+ (context_section conf +:+ after_section)) "{{" = None.
Proof using Type.
  intros Hc. apply Index_braces_lit; [vm_compute; reflexivity|vm_compute; discriminate|].
  apply section_inert; [done|]. vm_compute. reflexivity.
Qed.

Lemma NewClient_unfold conf urls : NewSlackClient (sl_enabled conf) (sl_urls conf) = Some (Some urls) ->
  NewClient ToCamel build conf =
    (ps ← Parse (ReplaceAll fullMsgTemplateSrc "${context_section}" (context_section conf)); Some (Some (MkClient conf ps))).
Proof using Type. 
  intros Hn. unfold NewClient. rewrite Hn. pose proof context_parsed as Hp. revert Hp.
  generalize Parse as P. intros P Hp. cbn [mbind option_bind]. rewrite Hp. reflexivity.
Qed.

Lemma NewClient_clean conf urls : NewSlackClient (sl_enabled conf) (sl_urls conf) = Some (Some urls) -> clean_conf conf ->
  exists c, NewClient ToCamel build conf = Some (Some c) /\ cl_conf c = conf /\
    fullMsgTemplate c = take 6 full_pieces ++ [Text (message_to_section +:+ (context_section conf +:+ after_section))].
Proof using Type.
  intros Hn Hc. rewrite (NewClient_unfold _ _ Hn), section_replaced, message_parsed by by apply rest_inert.
  eexists. split; [reflexivity|]. split; reflexivity.
Qed.

(** The texts before and after the message. *)
Definition body_before (conf : SlackConf) (channelType : WebhookChannelType) : string :=
  text_of (full_pieces !! 0%nat) +:+ (channel_text channelType +:+ (": " +:+ (sl_name conf +:+ text_of (full_pieces !! 4%nat)))).
Definition body_after (conf : SlackConf) : string := message_to_section +:+ (context_section conf +:+ after_section).

Lemma message_body_parts conf c channelType msg : cl_conf c = conf ->
  fullMsgTemplate c = take 6 full_pieces ++ [Text (body_after conf)] ->
  message_body build c channelType msg = body_before conf channelType +:+ (JSEscapeString msg +:+ body_after conf).
Proof using Type.
  intros <- Ht. unfold message_body. rewrite Ht. unfold body_before. rewrite !app_assoc_string.
  generalize (body_after (cl_conf c)) as rest. intros rest. cbn [take full_pieces app Execute].
  rewrite app_empty_r. reflexivity.
Qed.

Lemma before_run conf channelType : clean_conf conf -> clean (channel_text channelType) = true ->
  json_run (JValue, []) (body_before conf channelType) = Some at_message.
Proof using Type.
  intros [Hn _] Hc. unfold body_before, at_message. rewrite json_run_app.
  assert (json_run (JValue, []) (text_of (full_pieces !! 0%nat)) = Some (JStr false, [FObj; FObj; FArr; FObj])) as -> by (vm_compute; reflexivity).
  cbn [mbind option_bind]. rewrite json_run_app, json_run_clean by done. cbn [mbind option_bind].
  rewrite json_run_app. change (json_run (JStr false, [FObj; FObj; FArr; FObj]) ": ") with (Some (JStr false, [FObj; FObj; FArr; FObj])). cbn [mbind option_bind].
  rewrite json_run_app, json_run_clean by done. cbn [mbind option_bind]. vm_compute. reflexivity.
Qed.

Lemma after_run conf : clean_conf conf -> json_run at_message (body_after conf) = Some (JAfter, []).
Proof using Type.
  intros Hc. unfold body_after. rewrite json_run_app.
  assert (json_run at_message message_to_section = Some (JValue, [FArr; FObj])) as -> by (vm_compute; reflexivity).
  cbn [mbind option_bind]. rewrite json_run_app.
  assert (json_run (JValue, [FArr; FObj]) (context_section conf) = Some (JAfter, [FArr; FObj])) as ->.
  { apply json_run_execute; [|vm_compute; reflexivity]. eapply Forall_impl; [by apply context_clean|]. by intros []. }
  cbn [mbind option_bind]. vm_compute. reflexivity.
Qed.
End body.

(** C36: what is posted for a message: with a configuration whose values are plain text, the body
    holds the message, escaped, between texts that do not depend on it, and it is a
    JSON document exactly when the message has no apostrophe. *)
Theorem slack_body_json ToCamel build (conf : SlackConf) (urls : WebhookURLs) (channelType : WebhookChannelType) (msg : string) :
  NewSlackClient (sl_enabled conf) (sl_urls conf) = Some (Some urls) -> clean_conf ToCamel build conf ->
  clean (channel_text channelType) = true -> every is_ascii msg = true ->
  exists c, NewClient ToCamel build conf = Some (Some c) /\
    let body := message_body build c channelType msg in
    body = body_before conf channelType +:+ (JSEscapeString msg +:+ body_after ToCamel build conf) /\
    json_ok body = every (fun c => negb (bool_decide (c = apostrophe))) msg.
Proof.
  intros Hn Hc Hch Hm. destruct (NewClient_clean ToCamel build conf urls Hn Hc) as (c & Hnew & Hconf & Ht).
  exists c. split; [done|]. cbv zeta. rewrite (message_body_parts ToCamel build conf c channelType msg Hconf Ht).
  split; [done|]. unfold json_ok. rewrite json_run_app, (before_run ToCamel build) by done. cbn [mbind option_bind].
  rewrite json_run_app. unfold at_message. rewrite json_run_js by done.
  destruct (every (fun c => negb (bool_decide (c = apostrophe))) msg); cbn [mbind option_bind]; [|done].
  pose proof (after_run ToCamel build conf Hc) as Ha. unfold at_message in Ha. by rewrite Ha.
Qed.

(** ** The container's events

    [fxLogger], the logger that every event goes to first, and [warnf], the client's own
    logger, are parameters: they change the state [S] of the log or panic.  [show]: [%#v] of
    the event, [err_text]: of the client's error. *)
Section fx_logger.
Context {V S : Type}.
Context (ToCamel : string -> string) (sprintf : string -> list string -> string) (build : Build).
Context (fxLogger : fx_event V -> S -> option S) (warnf : string -> list string -> S -> option S).
Context (show : fx_event V -> string) (text : V -> string) (err_text : send_error -> string).

(** What is posted with an event: level, format and arguments. *)
Definition slack_message (event : fx_event V) : option (WebhookChannelType * string * list string) :=
  match event with
  | Started (Some err) => Some (ChannelError, "Application *failed* to start: ```%s```", [text err])
  | Started None => Some (ChannelInfo, "Application *successfully* started 🟢", [])
  | Stopped (Some err) => Some (ChannelError, "Application *failed* to stop cleanly: ```%s```", [text err])
  | Stopped None => Some (ChannelInfo, "Application *successfully* stopped 🔴", [])
  | _ => None
  end.

(** The URL posted to, if any, and the log; [None]: it panics. *)
Definition FxLogger_LogEvent (slackClient : Client) (post : string -> string -> http_answer) (event : fx_event V) (s : S)
    : option (option string * S) :=
  s ← fxLogger event s;
  match slack_message event with
  | None => Some (None, s)
  | Some (channelType, format, args) =>
      '(err, url) ← Send sprintf build slackClient post channelType format args;
      match err with
      | None => Some (url, s)
      | Some err => s ← warnf "Failed to send slack message for event: %#v, error: %s" [show event; err_text err] s; Some (url, s)
      end
  end.

(** The factory: without a client the other factory stays. *)
Definition NewFxLoggerFactory {F} (fxLF : F) (make : Client -> F) (slackClient : option Client) : F :=
  match slackClient with None => fxLF | Some client => make client end.
End fx_logger.

(** An event is always logged, and with a client that was accepted its message never
    panics: a failed request is a warning. *)
Theorem slack_events {V S} sprintf build (fxLogger : fx_event V -> S -> option S) warnf show text err_text
    (c : Client) post (event : fx_event V) (s s1 : S) :
  fxLogger event s = Some s1 -> (forall f args s, is_Some (warnf f args s)) ->
  exists url s2, FxLogger_LogEvent sprintf build fxLogger warnf show text err_text c post event s = Some (url, s2) /\
    (slack_message text event = None -> url = None /\ s2 = s1).
Proof.
  intros Hl Hw. unfold FxLogger_LogEvent. rewrite Hl. cbn [mbind option_bind].
  destruct (slack_message text event) as [[[ch f] args]|] eqn:Em; [|by eexists _, _].
  assert (is_Some (Send sprintf build c post ch f args)) as [[err url] ->].
  { assert (forall name, ch <> OtherChannel name) as Hch.
    { intros name ->. destruct event as [| | | | | | | | | | | | |[]| | |[]| |]; discriminate Em. }
    unfold Send, sendRaw. destruct ch as [| | |name]; [..|by destruct (Hch name)];
      cbn [getWebhookURL mbind option_bind]; case_bool_decide; by eexists. }
  cbn [mbind option_bind]. destruct err as [err|]; [|by eexists _, _].
  destruct (Hw "Failed to send slack message for event: %#v, error: %s" [show event; err_text err] s1) as [s2 ->].
  by eexists _, _.
Qed.

(** *** Witness *)
Definition demo_conf : SlackConf :=
  MkSlackConf true (MkURLs "https://hooks/1" "" "") "orders" "prod" "eu" "host-1".
Definition demo_build : Build := MkBuild "v1.2.0" "abc123" "now".
Definition with_apostrophe : string := "It" +:+ String apostrophe "s down".

Lemma slack_body_json_witness : exists c,
  NewClient (fun s => s) demo_build demo_conf = Some (Some c) /\
  json_ok (message_body demo_build c ChannelError with_apostrophe) = false.
Proof.
  destruct (slack_body_json (fun s => s) demo_build demo_conf (sl_urls demo_conf) ChannelError with_apostrophe)
    as (c & Hc & _ & Hb).
  - reflexivity.
  - split; [reflexivity|]. repeat constructor.
  - vm_compute. reflexivity.
  - vm_compute. reflexivity.
  - exists c. split; [exact Hc|]. rewrite Hb. vm_compute. reflexivity.
Defined.
