(* ===== verification/Version.v ===== *)
(** * version: the semantic version

    Models [version/version.go]: the text of the version from the variables that the build
    sets. *)

From S2P Require Import Prelude.
From S2P Require Import GoStrings.
From Stdlib Require Import Ascii.

Open Scope string_scope.
Open Scope list_scope.

Definition in_range (lo c hi : ascii) : bool := (N_of_ascii lo <=? N_of_ascii c)%N && (N_of_ascii c <=? N_of_ascii hi)%N.
Definition isIdentChar (c : ascii) : bool :=
  in_range "A" c "Z" || in_range "a" c "z" || in_range "0" c "9" || bool_decide (c = "-"%char).

(** The loop of [cleanMeta]: [todo] are the indices left. *)
Fixpoint clean_loop (str : string) (todo : list nat) (res : string) : string :=
  match todo with
  | [] => res
  | i :: todo =>
      match String.get i str with
      | Some c => clean_loop str todo (if isIdentChar c then res else take_bytes i res +:+ "-" +:+ drop_bytes (S i) res)
      | None => res
      end
  end.
Definition cleanMeta (str : string) : string := clean_loop str (seq 0 (String.length str)) str.

(** [init]; [None]: the index out of range for an empty release. *)
Definition SemVer (Release Prerelease Commit BuildTime : string) : option string :=
  c ← String.get 0 Release;
  let v := if bool_decide (c = "v"%char) then Release else "v" +:+ Release in
  let v := if bool_decide (Prerelease = "") then v else v +:+ "-" +:+ Prerelease in
  Some
    (if bool_decide (Commit = "") && bool_decide (BuildTime = "") then v
     else
       let v := if bool_decide (Commit = "") then v +:+ "+unset" else v +:+ "+" +:+ cleanMeta Commit in
       if bool_decide (BuildTime = "") then v else v +:+ "." +:+ cleanMeta BuildTime).

(** ** [cleanMeta] replaces every byte that an identifier cannot have *)
Definition clean_char (c : ascii) : ascii := if isIdentChar c then c else "-"%char.
Fixpoint map_string (f : ascii -> ascii) (s : string) : string :=
  match s with EmptyString => EmptyString | String c s => String (f c) (map_string f s) end.

Lemma length_map_string f s : String.length (map_string f s) = String.length s.
Proof. induction s as [|c s IH]; cbn; by f_equal. Qed.

Lemma get_app pre c s : String.get (String.length pre) (pre +:+ String c s) = Some c.
Proof. by induction pre as [|a pre IH]. Qed.

Lemma clean_loop_spec pre s :
  clean_loop (pre +:+ s) (seq (String.length pre) (String.length s)) (map_string clean_char pre +:+ s) =
  map_string clean_char (pre +:+ s).
Proof.
  revert pre. induction s as [|c s IH]; intros pre; [by rewrite !app_empty_r|]. cbn [String.length seq clean_loop]. rewrite get_app.
  set (pre1 := pre +:+ String c "").
  assert (String.length pre1 = S (String.length pre)) as Hlen by (unfold pre1; rewrite length_app_string; cbn; lia).
  assert (pre +:+ String c s = pre1 +:+ s) as Ep by (unfold pre1; by rewrite app_assoc_string).
  assert (forall q, map_string clean_char (q +:+ String c "") = map_string clean_char q +:+ String (clean_char c) "") as Em.
  { intros q. induction q as [|a q IHq]; [done|]. rewrite string_app_String. cbn. by rewrite string_app_String, IHq. }
  specialize (IH pre1). rewrite Hlen in IH. rewrite Ep, <- IH. f_equal. unfold pre1. rewrite Em, app_assoc_string.
  change (clean_char c) with (if isIdentChar c then c else "-"%char). destruct (isIdentChar c); [reflexivity|].
  rewrite <- (length_map_string clean_char pre). rewrite take_bytes_app. f_equal.
  change (String c s) with (String c "" +:+ s). rewrite <- app_assoc_string.
  assert (String.length (map_string clean_char pre +:+ String c "") = S (String.length (map_string clean_char pre))) as <-
    by (rewrite length_app_string; cbn; lia).
  by rewrite drop_bytes_app.
Qed.

Lemma cleanMeta_spec s : cleanMeta s = map_string clean_char s.
Proof. exact (clean_loop_spec "" s). Qed.

(** All bytes of a string. *)
Fixpoint all_chars (f : ascii -> bool) (s : string) : bool :=
  match s with EmptyString => true | String c s => f c && all_chars f s end.

Lemma clean_chars s : all_chars isIdentChar (map_string clean_char s) = true.
Proof.
  induction s as [|c s IH]; [done|]. cbn. rewrite IH, andb_true_r. unfold clean_char. destruct (isIdentChar c) eqn:E; [exact E|reflexivity].
Qed.

(** The version begins with "v", and what the commit and the time of the build add are
    identifiers of their length, with the same bytes where an identifier may have them; it
    is defined for every release that is not empty. *)
Theorem semver_text (Release Prerelease Commit BuildTime : string) :
  (SemVer Release Prerelease Commit BuildTime = None <-> Release = "") /\
  (forall v, SemVer Release Prerelease Commit BuildTime = Some v ->
    exists release meta, v = "v" +:+ release +:+ (if bool_decide (Prerelease = "") then "" else "-" +:+ Prerelease) +:+ meta /\
      (Release = release \/ Release = "v" +:+ release) /\
      meta = match bool_decide (Commit = ""), bool_decide (BuildTime = "") with
             | true, true => ""
             | true, false => "+unset." +:+ map_string clean_char BuildTime
             | false, true => "+" +:+ map_string clean_char Commit
             | false, false => "+" +:+ map_string clean_char Commit +:+ "." +:+ map_string clean_char BuildTime
             end) /\
  all_chars isIdentChar (map_string clean_char Commit) = true /\ String.length (map_string clean_char Commit) = String.length Commit.
Proof.
  split; [|split; [|split; [apply clean_chars|apply length_map_string]]].
  - unfold SemVer. destruct Release; cbn; [done|]. by split.
  - unfold SemVer. destruct Release as [|c release]; [done|]. cbn [String.get mbind option_bind]. intros v [= <-]. rewrite !cleanMeta_spec.
    exists (if bool_decide (c = "v"%char) then release else String c release).
    destruct (decide (c = "v"%char)) as [->|Hc]; [rewrite (bool_decide_eq_true_2 _ eq_refl)|rewrite (bool_decide_eq_false_2 _ Hc)]; (eexists; split; [|split; [|reflexivity]]; [|by auto]);
      destruct (bool_decide (Prerelease = "")), (bool_decide (Commit = "")), (bool_decide (BuildTime = "")); cbn [andb];
      rewrite ?app_assoc_string; cbn; rewrite ?app_empty_r, ?app_assoc_string; done.
Qed.

Example default_version : SemVer "v0.1.0" "" "dirty" "" = Some "v0.1.0+dirty" /\
  SemVer "1.2.0" "rc.1" "3f2a_9" "2024-01-01T10:00" = Some "v1.2.0-rc.1+3f2a-9.2024-01-01T10-00".
Proof. split; vm_compute; reflexivity. Qed.
