(* ===== verification/Tag.v ===== *)
(** * tag: names of fields

    Models [tag/tag.go]: from the tags of a struct type to its fields, through embedded
    structs, with a cache by the text of the type and the names of the tags. *)

From S2P Require Import Prelude.
From S2P Require Import GoStrings.
From S2P Require Import GoReflect.

Open Scope string_scope.
Open Scope list_scope.

(** A type as package reflect shows it: its text and, of a struct, the fields with their
    types. *)
Inductive rtype := StructType (text : string) (fields : list (StructField * rtype)) | OtherType (text : string).
Definition type_text (t : rtype) : string := match t with StructType s _ | OtherType s => s end.

(** The first tag that the field has; its name ends before a comma. *)
Fixpoint FieldName (field : StructField) (tagNames : list string) : option string :=
  match tagNames with
  | [] => None
  | tagName :: tagNames =>
      match tag_lookup (sf_Tag field) tagName with
      | Some fieldTag => Some (Cut fieldTag ",").1.1
      | None => FieldName field tagNames
      end
  end.

(** [resp] gets an entry when it has none of the name. *)
Definition if_new (name value : string) (resp : gmap string string) : gmap string string :=
  match resp !! name with Some _ => resp | None => <[name := value]> resp end.

(** [fieldNames]; [None]: it panics, for an embedded field that is no struct. *)
Fixpoint fieldNames (structType : rtype) (tagNames : list string) : option (gmap string string) :=
  match structType with
  | OtherType _ => None
  | StructType _ fields =>
      (fix loop (fields : list (StructField * rtype)) (resp : gmap string string) : option (gmap string string) :=
         match fields with
         | [] => Some resp
         | (field, t) :: fields =>
             if sf_Anonymous field then
               embeddedFieldMap ← fieldNames t tagNames;
               loop fields (resp ∪ embeddedFieldMap)
             else
               match FieldName field tagNames with
               | None => loop fields resp
               | Some name => loop fields (if_new name (sf_Name field) resp)
               end
         end) fields ∅
  end.

(** The errors of [FieldNames]. *)
Inductive names_error := NotStruct (text : string) | NoTagNames.

(** The cache, by key; [None]: it panics. *)
#[local] Notation Cache := (gmap string (gmap string string)).
Definition cache_key (structType : rtype) (tagNames : list string) : string :=
  type_text structType +:+ ":" +:+ GoStrings.Join tagNames ",".
Definition FieldNames (structType : rtype) (tagNames : list string) (fieldNamesCache : Cache)
    : option (result names_error (gmap string string) * Cache) :=
  match structType, tagNames with
  | OtherType text, _ => Some (Err (NotStruct text), fieldNamesCache)
  | _, [] => Some (Err NoTagNames, fieldNamesCache)
  | _, _ =>
      let key := cache_key structType tagNames in
      match fieldNamesCache !! key with
      | Some value => Some (Ok value, fieldNamesCache)
      | None => value ← fieldNames structType tagNames; Some (Ok value, <[key := value]> fieldNamesCache)
      end
  end.

(** ** The specification: the fields of a struct in order, those of embedded structs
    in place, of which the first with a name counts *)
Fixpoint named_fields (t : rtype) (tagNames : list string) : list (string * string) :=
  match t with
  | OtherType _ => []
  | StructType _ fields =>
      (fix go (fields : list (StructField * rtype)) : list (string * string) :=
         match fields with
         | [] => []
         | (field, t) :: fields =>
             (if sf_Anonymous field then named_fields t tagNames
              else match FieldName field tagNames with Some name => [(name, sf_Name field)] | None => [] end) ++ go fields
         end) fields
  end.

(** Embedded fields are structs, at every depth. *)
Fixpoint embeds_structs (t : rtype) : bool :=
  match t with
  | OtherType _ => false
  | StructType _ fields =>
      (fix go (fields : list (StructField * rtype)) : bool :=
         match fields with
         | [] => true
         | (field, t) :: fields => (if sf_Anonymous field then embeds_structs t else true) && go fields
         end) fields
  end.

Definition first_of (n : string) (l : list (string * string)) : option string :=
  snd <$> head (filter (fun e => e.1 = n) l).

Lemma first_of_app n l l' : first_of n (l ++ l') = match first_of n l with Some v => Some v | None => first_of n l' end.
Proof. unfold first_of. rewrite filter_app. by destruct (filter _ l). Qed.

Lemma if_new_lookup name v (m : gmap string string) n :
  if_new name v m !! n = match m !! n with Some x => Some x | None => first_of n [(name, v)] end.
Proof.
  unfold if_new, first_of. rewrite filter_cons, filter_nil. cbn. destruct (m !! name) eqn:En; case_decide as Hc; subst; cbn.
  - by rewrite En.
  - by destruct (m !! n).
  - by rewrite lookup_insert_eq, En.
  - rewrite lookup_insert_ne by done. by destruct (m !! n).
Qed.

Theorem fieldNames_first tagNames : forall t,
  (embeds_structs t = false -> fieldNames t tagNames = None) /\
  (embeds_structs t = true -> exists m, fieldNames t tagNames = Some m /\ forall n, m !! n = first_of n (named_fields t tagNames)).
Proof.
  fix IH 1. intros [text fields|text]; [|by split].
  cbn [embeds_structs fieldNames named_fields].
  assert (forall resp : gmap string string,
    let ok := (fix go (fields : list (StructField * rtype)) : bool :=
       match fields with [] => true | (field, t) :: fields => (if sf_Anonymous field then embeds_structs t else true) && go fields end) fields in
    let run := (fix loop (fields : list (StructField * rtype)) (resp : gmap string string) : option (gmap string string) :=
         match fields with
         | [] => Some resp
         | (field, t) :: fields =>
             if sf_Anonymous field then embeddedFieldMap ← fieldNames t tagNames; loop fields (resp ∪ embeddedFieldMap)
             else match FieldName field tagNames with None => loop fields resp | Some name => loop fields (if_new name (sf_Name field) resp) end
         end) fields resp in
    let names := (fix go (fields : list (StructField * rtype)) : list (string * string) :=
         match fields with
         | [] => []
         | (field, t) :: fields =>
             (if sf_Anonymous field then named_fields t tagNames
              else match FieldName field tagNames with Some name => [(name, sf_Name field)] | None => [] end) ++ go fields
         end) fields in
    (ok = false -> run = None) /\
    (ok = true -> exists m, run = Some m /\ forall n, m !! n = match resp !! n with Some v => Some v | None => first_of n names end)) as Hl.
  { induction fields as [|[field t] fields IHf]; intros resp; cbv zeta.
    - split; [done|]. intros _. exists resp. split; [done|]. intros n. by destruct (resp !! n).
    - destruct (sf_Anonymous field).
      + destruct (IH t) as [Hno Hyes]. destruct (embeds_structs t); cbn [andb].
        * destruct (Hyes eq_refl) as (em & -> & Hem). cbn [mbind option_bind].
          destruct (IHf (resp ∪ em)) as [Hf Ht]. split; [exact Hf|]. intros Ho. destruct (Ht Ho) as (m & Hm & Hn). exists m. split; [exact Hm|].
          intros n. rewrite Hn, first_of_app, <- Hem, lookup_union. destruct (resp !! n), (em !! n); done.
        * split; [by rewrite Hno|done].
      + cbn [andb]. destruct (FieldName field tagNames) as [name|].
        * destruct (IHf (if_new name (sf_Name field) resp)) as [Hf Ht]. split; [exact Hf|]. intros Ho. destruct (Ht Ho) as (m & Hm & Hn).
          exists m. split; [exact Hm|]. intros n. rewrite Hn, first_of_app, if_new_lookup. by destruct (resp !! n).
        * apply IHf. }
  destruct (Hl ∅) as [Hf Ht]. split; [exact Hf|]. intros Ho. destruct (Ht Ho) as (m & Hm & Hn). exists m. split; [exact Hm|].
  intros n. by rewrite Hn, lookup_empty.
Qed.

(** The cache holds what [fieldNames] gives for a type of each key. *)
Definition cache_ok (c : Cache) : Prop := map_Forall (fun k m => exists t tagNames, cache_key t tagNames = k /\ fieldNames t tagNames = Some m) c.

(** As long as types with one text are one type, and lists of tag names with one text one
    list, [FieldNames] answers as if there were no cache. *)
Theorem FieldNames_cached t tagNames c :
  cache_ok c -> tagNames <> [] -> embeds_structs t = true ->
  (forall t' tags', cache_key t' tags' = cache_key t tagNames -> t' = t /\ tags' = tagNames) ->
  exists m c', FieldNames t tagNames c = Some (Ok m, c') /\ fieldNames t tagNames = Some m /\ cache_ok c' /\
    FieldNames t tagNames c' = Some (Ok m, c').
Proof.
  intros Hc Hne He Hk. destruct (fieldNames_first tagNames t) as [_ Hy]. destruct (Hy He) as (m & Hm & _).
  destruct t as [text fields|]; [|done]. destruct tagNames as [|tag tags]; [done|]. unfold FieldNames.
  destruct (c !! _) as [v|] eqn:Ev.
  - destruct (Hc _ _ Ev) as (t' & tags' & Hk' & Hv). apply Hk in Hk' as [-> ->]. rewrite Hm in Hv. injection Hv as <-.
    exists m, c. by rewrite Ev.
  - rewrite Hm. cbn [mbind option_bind]. eexists m, _. split; [reflexivity|]. split; [done|]. split.
    + apply map_Forall_insert_2; [by eauto|exact Hc].
    + by rewrite lookup_insert_eq.
Qed.

(** Two types of one text: the second gets the names of the first. *)
Example one_text_two_types :
  let field := fun name tag => (MkField name true false [("json", tag)], OtherType "string") in
  let a := StructType "model.User" [field "ID" "id,omitempty"] in
  let b := StructType "model.User" [field "Mail" "mail"] in
  (r ← FieldNames a ["json"] ∅; FieldNames b ["json"] r.2) = Some (Ok {[ "id" := "ID" ]}, {[ "model.User:json" := {[ "id" := "ID" ]} ]}).
Proof. vm_compute. reflexivity. Qed.

(** An embedded pointer: it panics. *)
Example embedded_pointer_panics :
  FieldNames (StructType "model.Admin" [(MkField "User" true true [], OtherType "*model.User")]) ["json"] ∅ = None.
Proof. vm_compute. reflexivity. Qed.
