(* ===== verification/Task.v ===== *)
(** * executors: one task

    Models [executors/task.go]: the fields of [_Task] and its methods.  The
    methods are written over a task value, one atomic operation after the other;
    [Cancel] and [setDone] are also given as the pieces between which other
    goroutines may run, which file Executor interleaves.  Section [waiters]
    interleaves [Await], [setDone] and [Cancel] at every atomic operation. *)

From S2P Require Import Prelude.

(** [_TaskStatusNew], ..., [_TaskStatusDone] and their order. *)
Inductive TaskStatus := TaskNew | TaskRunning | TaskCancelling | TaskDone.
#[global] Instance TaskStatus_eq_dec : EqDecision TaskStatus.
Proof. solve_decision. Defined.

Definition task_status_code (s : TaskStatus) : Z :=
  match s with TaskNew => 0 | TaskRunning => 1 | TaskCancelling => 2 | TaskDone => 3 end.

Inductive TaskType := TaskTypeOnce | TaskTypeFixedDelay | TaskTypeFixedRate.
#[global] Instance TaskType_eq_dec : EqDecision TaskType.
Proof. solve_decision. Defined.

(** [_TaskType.String]: the generated stringer. *)
Definition TaskType_code (t : TaskType) : Z :=
  match t with TaskTypeOnce => 0 | TaskTypeFixedDelay => 1 | TaskTypeFixedRate => 2 end.

(** The errors a task ends with: [context.Canceled], a recovered panic, or the
    error of the user's function. *)
Inductive TaskErr := ErrCanceled | ErrTaskPanic | ErrUser (n : nat).
#[global] Instance TaskErr_eq_dec : EqDecision TaskErr.
Proof. solve_decision. Defined.

(** The channel stored in [done]: the shared [closedChn], or one that [Await]
    made, with whether it is closed. *)
Inductive DoneChn := ClosedChn | MadeChn (closed : bool).
#[global] Instance DoneChn_eq_dec : EqDecision DoneChn.
Proof. solve_decision. Defined.

Definition chn_closed (c : DoneChn) : bool :=
  match c with ClosedChn => true | MadeChn b => b end.

(** [if doneChn != nil && doneChn != closedChn { close(doneChn) }]; closing a
    closed channel panics. *)
Definition close_chn (c : option DoneChn) : option (option DoneChn) :=
  match c with
  | Some (MadeChn false) => Some (Some (MadeChn true))
  | Some (MadeChn true) => None
  | c => Some c
  end.

Section task.
(** [Ptr]: pointers to elements of the scheduled queue. *)
Context {Ptr : Type}.

Record Task := MkTask {
  task_id : Z;
  task_type : TaskType;
  task_status : TaskStatus;
  nextRun : Z;                  (** nanoseconds *)
  delay : Z;
  doneChn : option DoneChn;
  canceled : bool;
  err : option TaskErr;
  value : option nat;
  ctxCancelled : option bool;   (** [ctxCancel]: nil, or whether it was called *)
  queueElement : option nat;
  sQueueElement : option Ptr;
}.
Implicit Types (t : Task) (now : Z).

Definition with_status (s : TaskStatus) t : Task :=
  MkTask (task_id t) (task_type t) s (nextRun t) (delay t) (doneChn t) (canceled t) (err t)
    (value t) (ctxCancelled t) (queueElement t) (sQueueElement t).
Definition with_nextRun (n : Z) t : Task :=
  MkTask (task_id t) (task_type t) (task_status t) n (delay t) (doneChn t) (canceled t) (err t)
    (value t) (ctxCancelled t) (queueElement t) (sQueueElement t).
Definition with_doneChn (c : option DoneChn) t : Task :=
  MkTask (task_id t) (task_type t) (task_status t) (nextRun t) (delay t) c (canceled t) (err t)
    (value t) (ctxCancelled t) (queueElement t) (sQueueElement t).
Definition with_canceled (b : bool) t : Task :=
  MkTask (task_id t) (task_type t) (task_status t) (nextRun t) (delay t) (doneChn t) b (err t)
    (value t) (ctxCancelled t) (queueElement t) (sQueueElement t).
Definition with_result (v : option nat) (e : option TaskErr) t : Task :=
  MkTask (task_id t) (task_type t) (task_status t) (nextRun t) (delay t) (doneChn t) (canceled t) e
    v (ctxCancelled t) (queueElement t) (sQueueElement t).
Definition with_ctx (c : option bool) t : Task :=
  MkTask (task_id t) (task_type t) (task_status t) (nextRun t) (delay t) (doneChn t) (canceled t)
    (err t) (value t) c (queueElement t) (sQueueElement t).
Definition with_queueElement (q : option nat) t : Task :=
  MkTask (task_id t) (task_type t) (task_status t) (nextRun t) (delay t) (doneChn t) (canceled t)
    (err t) (value t) (ctxCancelled t) q (sQueueElement t).
Definition with_sQueueElement (q : option Ptr) t : Task :=
  MkTask (task_id t) (task_type t) (task_status t) (nextRun t) (delay t) (doneChn t) (canceled t)
    (err t) (value t) (ctxCancelled t) (queueElement t) q.

(** [newTask], which reads the clock. *)
Definition newTask (id : Z) (ty : TaskType) (initialDelay dl : Z) now : Task :=
  MkTask id ty TaskNew (now + initialDelay) dl None false None None None None None.

Definition Runnable t : bool := bool_decide (task_status t = TaskNew).

(** [time.Until]: durations saturate. *)
Definition Delay now t : Z := Z.max (- two63) (Z.min (two63 - 1) (nextRun t - now)).

Definition setRunning now t : bool * Task :=
  if negb (Runnable t) || bool_decide (Delay now t > 0) then (false, t)
  else (true, with_status TaskRunning t).

Definition Periodic t : bool :=
  bool_decide (task_type t = TaskTypeFixedRate) || bool_decide (task_type t = TaskTypeFixedDelay).

(** [if t.ctxCancel != nil { t.ctxCancel() }] *)
Definition call_ctxCancel t : Task :=
  match ctxCancelled t with Some _ => with_ctx (Some true) t | None => t end.

(** [Cancel] of a new task: after its compare-and-swap to Done.  The event for
    the executor is sent afterwards. *)
Definition cancel_new t : option Task :=
  let t1 := call_ctxCancel (with_canceled true
    (with_result (value t) (Some ErrCanceled) (with_status TaskDone t))) in
  c ← close_chn (doneChn t1);
  Some (with_doneChn c t1).

(** [Cancel] of a running task: the compare-and-swap, and what follows it. *)
Definition cancel_running_cas t : Task := with_status TaskCancelling t.
Definition cancel_running_mark t : Task := call_ctxCancel (with_canceled true t).

(** [Cancel], run without interference: the result, and whether it sends the
    event. *)
Definition Cancel t : option (bool * Task) :=
  if bool_decide (task_status_code (task_status t) >= task_status_code TaskCancelling)
  then Some (false, t)
  else if bool_decide (task_status t = TaskNew) then
    t' ← cancel_new t; Some (true, t')
  else if bool_decide (task_status t = TaskRunning) then
    Some (true, cancel_running_mark (cancel_running_cas t))
  else Some (false, t).

Definition Canceled t : bool := canceled t.

(** [Await], run without interference. *)
Definition Await t : DoneChn * Task :=
  match doneChn t with
  | Some c => (c, t)
  | None =>
      let c := if bool_decide (task_status t = TaskDone) then ClosedChn else MadeChn false in
      (c, with_doneChn (Some c) t)
  end.

Definition Done t : bool := bool_decide (task_status t = TaskDone).
Definition Err t : option TaskErr := err t.
Definition Value t : option nat := value t.

Definition configureContext t : Task := with_ctx (Some false) t.

(** [configureNextRun] in pieces: the check of the status, the compare-and-swap
    back to New, and the switch on the type. *)
Definition next_check t : bool :=
  bool_decide (task_status_code (task_status t) >= task_status_code TaskCancelling).
Definition next_cas t : option Task :=
  if bool_decide (task_status t <> TaskRunning) then None else Some (with_status TaskNew t).
Definition next_set now t : option Task :=
  match task_type t with
  | TaskTypeFixedDelay => Some (with_nextRun (now + delay t) t)
  | TaskTypeFixedRate => Some (with_nextRun (nextRun t + delay t) t)
  | _ => None
  end.

(** [configureNextRun], run without interference; [None]: it panics. *)
Definition configureNextRun now t : option Task :=
  if negb (Periodic t) then None
  else if next_check t then None
  else t1 ← next_cas t; next_set now t1.

(** [setDone] from its compare-and-swap on, [loaded] being the status it read:
    the swap fails when the status has changed meanwhile. *)
Definition setDone_cas (loaded : TaskStatus) (v : option nat) (e : option TaskErr) t
  : option (bool * Task) :=
  if bool_decide (task_status t <> loaded) then Some (false, t)
  else
    let t1 := call_ctxCancel (with_result v e (with_status TaskDone t)) in
    match doneChn t1 with
    | Some c => c' ← close_chn (Some c); Some (true, with_doneChn c' t1)
    | None => Some (true, with_doneChn (Some ClosedChn) t1)
    end.

Definition setDone (v : option nat) (e : option TaskErr) t : option (bool * Task) :=
  if bool_decide (task_status t = TaskDone) then Some (false, t)
  else setDone_cas (task_status t) v e t.
End task.
Arguments Task : clear implicits.

(** ** [Await], [setDone] and [Cancel] at every atomic operation

    A thread is one call; its program counter says what it does next.  [chans]
    holds the channels made so far and whether each is closed; [winner] is
    bookkeeping of the proof: the call whose compare-and-swap made the task
    Done. *)
Inductive DoneRef := RClosed | RMade (k : nat).
#[global] Instance DoneRef_eq_dec : EqDecision DoneRef.
Proof. solve_decision. Defined.

Inductive Pc :=
| AwLoad | AwLock | AwLoad2 | AwStatus | AwStore (r : DoneRef) | AwEnd (r : DoneRef)
| SdLoad | SdCas (s : TaskStatus) | SdChn | SdClose (k : nat) | SdCasChn | SdLock | SdLoad2
| SdCloseLocked (k : nat) | SdEnd (b : bool)
| CaLoad | CaCasNew | CaChn | CaClose (k : nat) | CaCasRun | CaEnd (b : bool)
| Crashed.
#[global] Instance Pc_eq_dec : EqDecision Pc.
Proof. solve_decision. Defined.

Record Cell := MkCell {
  c_status : TaskStatus;
  c_done : option DoneRef;
  c_mu : bool;
  c_chans : list bool;
  c_winner : option nat;
  c_threads : list Pc;
}.

Definition goto (i : nat) (pc : Pc) (c : Cell) : Cell :=
  MkCell (c_status c) (c_done c) (c_mu c) (c_chans c) (c_winner c) (<[i := pc]> (c_threads c)).
Definition cell_done (r : DoneRef) (c : Cell) : Cell :=
  MkCell (c_status c) (Some r) (c_mu c) (c_chans c) (c_winner c) (c_threads c).
Definition cell_mu (b : bool) (c : Cell) : Cell :=
  MkCell (c_status c) (c_done c) b (c_chans c) (c_winner c) (c_threads c).
Definition cell_status (s : TaskStatus) (c : Cell) : Cell :=
  MkCell s (c_done c) (c_mu c) (c_chans c) (c_winner c) (c_threads c).
Definition cell_finish (i : nat) (c : Cell) : Cell :=
  MkCell TaskDone (c_done c) (c_mu c) (c_chans c) (Some i) (c_threads c).
Definition cell_make (c : Cell) : Cell :=
  MkCell (c_status c) (c_done c) (c_mu c) (c_chans c ++ [false]) (c_winner c) (c_threads c).
Definition cell_close (k : nat) (c : Cell) : Cell :=
  MkCell (c_status c) (c_done c) (c_mu c) (<[k := true]> (c_chans c)) (c_winner c) (c_threads c).

(** [close(ch)], then go to [pc]. *)
Definition close_goto (i k : nat) (pc : Pc) (c : Cell) : Cell :=
  if decide (c_chans c !! k = Some true) then goto i Crashed c
  else goto i pc (cell_close k c).

(** One atomic operation of the call [i] at [pc]; [None] when it is blocked or
    has returned. *)
Definition pc_step (i : nat) (pc : Pc) (c : Cell) : option Cell :=
  match pc with
  | AwLoad => Some (goto i (match c_done c with Some r => AwEnd r | None => AwLock end) c)
  | AwLock => if c_mu c then None else Some (goto i AwLoad2 (cell_mu true c))
  | AwLoad2 =>
      match c_done c with
      | Some r => Some (goto i (AwEnd r) (cell_mu false c))
      | None => Some (goto i AwStatus c)
      end
  | AwStatus =>
      if decide (c_status c = TaskDone) then Some (goto i (AwStore RClosed) c)
      else Some (goto i (AwStore (RMade (length (c_chans c)))) (cell_make c))
  | AwStore r => Some (goto i (AwEnd r) (cell_mu false (cell_done r c)))
  | SdLoad =>
      if decide (c_status c = TaskDone) then Some (goto i (SdEnd false) c)
      else Some (goto i (SdCas (c_status c)) c)
  | SdCas s =>
      if decide (c_status c = s) then Some (goto i SdChn (cell_finish i c))
      else Some (goto i (SdEnd false) c)
  | SdChn =>
      match c_done c with
      | Some RClosed => Some (goto i (SdEnd true) c)
      | Some (RMade k) => Some (goto i (SdClose k) c)
      | None => Some (goto i SdCasChn c)
      end
  | SdClose k => Some (close_goto i k (SdEnd true) c)
  | SdCasChn =>
      match c_done c with
      | None => Some (goto i (SdEnd true) (cell_done RClosed c))
      | Some _ => Some (goto i SdLock c)
      end
  | SdLock => if c_mu c then None else Some (goto i SdLoad2 (cell_mu true c))
  | SdLoad2 =>
      match c_done c with
      | Some (RMade k) => Some (goto i (SdCloseLocked k) c)
      | _ => Some (goto i (SdEnd true) (cell_mu false c))
      end
  | SdCloseLocked k => Some (close_goto i k (SdEnd true) (cell_mu false c))
  | CaLoad =>
      if decide (task_status_code (c_status c) >= 2) then Some (goto i (CaEnd false) c)
      else Some (goto i CaCasNew c)
  | CaCasNew =>
      if decide (c_status c = TaskNew) then Some (goto i CaChn (cell_finish i c))
      else Some (goto i CaCasRun c)
  | CaChn =>
      match c_done c with
      | Some (RMade k) => Some (goto i (CaClose k) c)
      | _ => Some (goto i (CaEnd true) c)
      end
  | CaClose k => Some (close_goto i k (CaEnd true) c)
  | CaCasRun =>
      if decide (c_status c = TaskRunning) then Some (goto i (CaEnd true) (cell_status TaskCancelling c))
      else Some (goto i (CaEnd false) c)
  | AwEnd _ | SdEnd _ | CaEnd _ | Crashed => None
  end.

Definition cell_step (c : Cell) (i : nat) : option Cell :=
  pc ← c_threads c !! i; pc_step i pc c.

(** The calls run under the scheduler [sched]. *)
Fixpoint cell_run (sched : list nat) (c : Cell) : option Cell :=
  match sched with
  | [] => Some c
  | i :: sched => c' ← cell_step c i; cell_run sched c'
  end.

(** Calls about to start on a task that is not done and nobody awaited. *)
Definition is_call (pc : Pc) : Prop := pc = AwLoad \/ pc = SdLoad \/ pc = CaLoad.
Definition cell_start (s : TaskStatus) (calls : list Pc) : Cell :=
  MkCell s None false [] None calls.
Definition cell_reachable (s : TaskStatus) (calls : list Pc) (c : Cell) : Prop :=
  exists sched, cell_run sched (cell_start s calls) = Some c.

(** ** Sequential lemmas *)
Section lemmas.
Context {Ptr : Type}.
Implicit Types (t : Task Ptr) (now : Z).

(** The channel a waiter holds is closed exactly when the task is Done. *)
Definition wf_task t : Prop :=
  match doneChn t with
  | None => True
  | Some c => chn_closed c = true <-> task_status t = TaskDone
  end.

Lemma wf_newTask id ty i d now : wf_task (newTask id ty i d now).
Proof. done. Qed.

Lemma call_ctxCancel_fields t :
  task_status (call_ctxCancel t) = task_status t /\ doneChn (call_ctxCancel t) = doneChn t /\
  canceled (call_ctxCancel t) = canceled t /\ err (call_ctxCancel t) = err t /\
  value (call_ctxCancel t) = value t /\ task_type (call_ctxCancel t) = task_type t.
Proof. unfold call_ctxCancel. by destruct (ctxCancelled t). Qed.

(** Closing the channel of a task that was not Done. *)
Lemma close_chn_wf t : wf_task t -> task_status t <> TaskDone ->
  exists c, close_chn (doneChn t) = Some c /\
    match c with None => doneChn t = None | Some c => chn_closed c = true end.
Proof.
  unfold wf_task. intros Hwf Hs. destruct (doneChn t) as [[|[]]|]; cbn in *; try (eexists; by split).
  exfalso. by apply Hs, Hwf.
Qed.

Lemma cancel_new_spec t : wf_task t -> task_status t = TaskNew ->
  exists t', cancel_new t = Some t' /\ wf_task t' /\ task_status t' = TaskDone /\
    canceled t' = true /\ err t' = Some ErrCanceled.
Proof.
  intros Hwf Hs. unfold cancel_new.
  set (t1 := with_canceled true _). destruct (call_ctxCancel_fields t1) as (? & Hd & ? & ? & _).
  rewrite Hd. destruct (close_chn_wf t) as (c & Hc & Hcl); [done|congruence|].
  change (doneChn t1) with (doneChn t). rewrite Hc. cbn [mbind option_bind].
  eexists. split; [done|]. unfold wf_task. cbn. split_and!; try done.
  destruct c; [|done]. by rewrite Hcl; split.
Qed.

Lemma setDone_cas_spec v e t : wf_task t -> task_status t <> TaskDone ->
  exists t', setDone_cas (task_status t) v e t = Some (true, t') /\ wf_task t' /\
    task_status t' = TaskDone /\ canceled t' = canceled t /\ err t' = e /\ value t' = v.
Proof.
  intros Hwf Hs. unfold setDone_cas. rewrite bool_decide_eq_false_2 by tauto.
  set (t1 := with_result v e _). destruct (call_ctxCancel_fields t1) as (? & Hd & ? & ? & ? & _).
  rewrite Hd. change (doneChn t1) with (doneChn t).
  destruct (close_chn_wf t) as (c & Hc & Hcl); [done|done|].
  destruct (doneChn t) as [c0|] eqn:E.
  - rewrite Hc. cbn [mbind option_bind]. eexists. split; [done|].
    destruct c as [c|]; [|done]. unfold wf_task. cbn. by split_and!; rewrite ?Hcl.
  - eexists. split; [done|]. unfold wf_task. cbn. by split_and!.
Qed.

(** Whatever status was loaded, the compare-and-swap does not panic. *)
Lemma setDone_cas_total ld v e t : wf_task t -> ld <> TaskDone ->
  exists b t', setDone_cas ld v e t = Some (b, t') /\ wf_task t' /\
    (t' = t \/ task_status t' = TaskDone).
Proof.
  intros Hwf Hld. destruct (decide (task_status t = ld)) as [<-|Hne].
  - destruct (setDone_cas_spec v e t Hwf Hld) as (t' & E & ? & ? & _). eauto 10.
  - unfold setDone_cas. rewrite bool_decide_eq_true_2 by done. eexists _, t. auto.
Qed.

Lemma setRunning_spec now t : wf_task t ->
  wf_task (setRunning now t).2 /\
  ((setRunning now t).1 = true <-> task_status t = TaskNew /\ Delay now t <= 0) /\
  ((setRunning now t).1 = false -> (setRunning now t).2 = t) /\
  ((setRunning now t).1 = true -> task_status (setRunning now t).2 = TaskRunning).
Proof.
  unfold setRunning, Runnable, wf_task. intros Hwf. repeat case_bool_decide; cbn.
  all: split_and!; try done; try (destruct (doneChn t) as [[]|]; try done; cbn in *).
  all: try (split; [intros|]; intuition (congruence || lia)).
Qed.

Lemma next_cas_spec t t' : next_cas t = Some t' <-> task_status t = TaskRunning /\ t' = with_status TaskNew t.
Proof.
  unfold next_cas. case_bool_decide as Hs; naive_solver.
Qed.

Lemma next_check_running t : task_status t = TaskRunning -> next_check t = false.
Proof. unfold next_check. by intros ->. Qed.

Lemma next_set_periodic now t : is_Some (next_set now t) <-> Periodic t = true.
Proof. unfold next_set, Periodic, is_Some. destruct (task_type t); cbn; naive_solver. Qed.

Lemma configureNextRun_inv now t t' : configureNextRun now t = Some t' <->
  Periodic t = true /\ task_status t = TaskRunning /\ next_set now (with_status TaskNew t) = Some t'.
Proof.
  unfold configureNextRun. split.
  - destruct (Periodic t); cbn; [|done]. destruct (next_check t); [done|].
    destruct (next_cas t) as [t1|] eqn:E; cbn; [|done]. apply next_cas_spec in E as [? ->]. done.
  - intros (-> & Hs & E). rewrite next_check_running by done. cbn.
    rewrite (proj2 (next_cas_spec t _) (conj Hs eq_refl)). exact E.
Qed.

Lemma configureNextRun_spec now t :
  is_Some (configureNextRun now t) <-> Periodic t = true /\ task_status t = TaskRunning.
Proof.
  split.
  - intros [t' Ht]. apply configureNextRun_inv in Ht. tauto.
  - intros [Hp Hs]. destruct (proj2 (next_set_periodic now (with_status TaskNew t))) as [t' E]; [done|].
    exists t'. by apply configureNextRun_inv.
Qed.

(** The fields that the switch on the type leaves alone. *)
Lemma next_set_fields now t t' : next_set now t = Some t' ->
  task_status t' = task_status t /\ doneChn t' = doneChn t /\ err t' = err t /\ value t' = value t /\
  canceled t' = canceled t /\ task_type t' = task_type t /\
  queueElement t' = queueElement t /\ sQueueElement t' = sQueueElement t /\
  nextRun t' = match task_type t with TaskTypeFixedDelay => now | _ => nextRun t end + delay t.
Proof. unfold next_set. destruct (task_type t) eqn:E; intros [= <-]; by split_and!. Qed.

(** A task that is not Done, in another status. *)
Lemma with_status_wf s t : wf_task t -> task_status t <> TaskDone -> s <> TaskDone ->
  wf_task (with_status s t).
Proof.
  unfold wf_task. cbn. destruct (doneChn t); [|done]. intros [Hwf _] ? ?.
  split; [intros Hc; by specialize (Hwf Hc)|done].
Qed.

Lemma configureNextRun_wf now t t' : wf_task t -> configureNextRun now t = Some t' ->
  wf_task t' /\ task_status t' = TaskNew /\ err t' = err t /\
  nextRun t' = match task_type t with TaskTypeFixedDelay => now | _ => nextRun t end + delay t.
Proof.
  intros Hwf (Hp & Hs & E)%configureNextRun_inv.
  destruct (next_set_fields _ _ _ E) as (Es & Ed & ? & _ & _ & _ & _ & _ & ?).
  split_and!; [|done..].
  assert (wf_task (with_status TaskNew t)) as Hw by (apply with_status_wf; congruence).
  unfold wf_task in *. by rewrite Es, Ed.
Qed.
End lemmas.

(** *** The methods leave the queue elements alone *)
Section same_elements.
Context {Ptr : Type}.
Implicit Types (t : Task Ptr).

Definition same_elements t t' : Prop :=
  queueElement t' = queueElement t /\ sQueueElement t' = sQueueElement t.

Lemma call_ctxCancel_elements t : same_elements t (call_ctxCancel t).
Proof. unfold call_ctxCancel. by destruct (ctxCancelled t). Qed.

Lemma setDone_cas_elements ld v e t b t' : setDone_cas ld v e t = Some (b, t') -> same_elements t t'.
Proof.
  unfold setDone_cas. case_bool_decide; [by intros [= _ <-]|].
  set (t1 := with_result v e _). pose proof (call_ctxCancel_elements t1) as Hc.
  destruct (doneChn _) as [c|]; [|by intros [= _ <-]].
  destruct (close_chn _); cbn; [by intros [= _ <-]|done].
Qed.

Lemma setDone_elements v e t b t' : setDone v e t = Some (b, t') -> same_elements t t'.
Proof. unfold setDone. case_bool_decide; [by intros [= _ <-]|apply setDone_cas_elements]. Qed.

Lemma cancel_new_elements t t' : cancel_new t = Some t' -> same_elements t t'.
Proof.
  unfold cancel_new. set (t1 := with_canceled true _). pose proof (call_ctxCancel_elements t1) as Hc.
  destruct (close_chn _); cbn; [by intros [= <-]|done].
Qed.

(** Nor do they change the type. *)
Lemma setDone_cas_type ld v e t b t' : setDone_cas ld v e t = Some (b, t') -> task_type t' = task_type t.
Proof.
  unfold setDone_cas. case_bool_decide; [by intros [= _ <-]|]. set (t1 := with_result v e _).
  destruct (call_ctxCancel_fields t1) as (_ & _ & _ & _ & _ & Hty).
  destruct (doneChn _) as [c|]; [|by intros [= _ <-]].
  destruct (close_chn _); cbn; [by intros [= _ <-]|done].
Qed.

Lemma cancel_new_type t t' : cancel_new t = Some t' -> task_type t' = task_type t.
Proof.
  unfold cancel_new. set (t1 := with_canceled true _).
  destruct (call_ctxCancel_fields t1) as (_ & _ & _ & _ & _ & Hty).
  destruct (close_chn _); cbn; [by intros [= <-]|done].
Qed.

Lemma next_set_elements now t t' : next_set now t = Some t' -> same_elements t t'.
Proof. intros (_ & _ & _ & _ & _ & _ & ? & ? & _)%next_set_fields. by split. Qed.
End same_elements.

(** *** Any sequence of calls on one task *)
Section calls.
Context {Ptr : Type}.
Implicit Types (t : Task Ptr) (now : Z).

Inductive task_call : Task Ptr -> Task Ptr -> Prop :=
| call_setRunning now t : task_call t (setRunning now t).2
| call_Cancel t t' b : Cancel t = Some (b, t') -> task_call t t'
| call_setDone v e t t' b : setDone v e t = Some (b, t') -> task_call t t'
| call_Await t : task_call t (Await t).2
| call_configureNextRun now t t' : configureNextRun now t = Some t' -> task_call t t'
| call_configureNextRun_panics now t : configureNextRun now t = None -> task_call t t
| call_configureContext t : task_call t (configureContext t).

Lemma Cancel_spec t : wf_task t ->
  exists b t', Cancel t = Some (b, t') /\ wf_task t' /\
    match task_status t with
    | TaskNew => b = true /\ task_status t' = TaskDone /\ canceled t' = true /\ err t' = Some ErrCanceled
    | TaskRunning => b = true /\ task_status t' = TaskCancelling /\ canceled t' = true /\ err t' = err t
    | _ => b = false /\ t' = t
    end.
Proof.
  intros Hwf. unfold Cancel. destruct (task_status t) eqn:Hs; cbn.
  - destruct (cancel_new_spec t Hwf Hs) as (t' & -> & ? & ? & ? & ?). cbn. eauto 10.
  - eexists _, _. split; [done|].
    destruct (call_ctxCancel_fields (with_canceled true (cancel_running_cas t))) as (Hst & Hd & Hc & He & _).
    unfold cancel_running_mark, wf_task in *. rewrite Hst, Hd, Hc, He. cbn in *. split_and!; try done.
    rewrite Hs in Hwf. destruct (doneChn t); [|done]. split; [by intros ?%Hwf|done].
  - eauto 10.
  - eauto 10.
Qed.

Lemma setDone_spec v e t : wf_task t ->
  exists b t', setDone v e t = Some (b, t') /\ wf_task t' /\ task_status t' = TaskDone /\
    (b = bool_decide (task_status t <> TaskDone)) /\
    (if b then err t' = e /\ value t' = v /\ canceled t' = canceled t else t' = t).
Proof.
  intros Hwf. unfold setDone. case_bool_decide as Hs.
  - eexists _, _. split_and!; [done..|by rewrite bool_decide_eq_false_2 by tauto|done].
  - destruct (setDone_cas_spec v e t Hwf Hs) as (t' & -> & ? & ? & ? & ? & ?).
    eexists _, _. rewrite bool_decide_eq_true_2 by done. by split_and!.
Qed.

Lemma task_call_wf t t' : wf_task t -> task_call t t' -> wf_task t'.
Proof.
  intros Hwf Hcall. revert Hwf.
  destruct Hcall as [|t t' b Hc|v e t t' b Hc|t|now t t' Hc|now t Hc|t]; intros Hwf.
  - by apply setRunning_spec.
  - destruct (Cancel_spec _ Hwf) as (? & ? & ? & ? & _). congruence.
  - destruct (setDone_spec v e _ Hwf) as (? & ? & ? & ? & _). congruence.
  - unfold Await. destruct (doneChn t) eqn:E; [done|].
    unfold wf_task. cbn. case_bool_decide; cbn; split; done.
  - by eapply configureNextRun_wf.
  - done.
  - done.
Qed.

Lemma task_call_done t t' : task_status t = TaskDone -> task_call t t' ->
  task_status t' = TaskDone /\ err t' = err t /\ value t' = value t /\ canceled t' = canceled t.
Proof.
  intros Hs Hcall. revert Hs.
  destruct Hcall as [|t t' b Hc|v e t t' b Hc|t|now t t' Hc|now t Hc|t]; intros Hs.
  - unfold setRunning, Runnable. by rewrite Hs.
  - unfold Cancel in Hc. rewrite Hs in Hc. by simplify_eq/=.
  - unfold setDone in Hc. rewrite Hs in Hc. by simplify_eq/=.
  - unfold Await. by destruct (doneChn t).
  - destruct (proj1 (configureNextRun_spec now t)); [eauto|congruence].
  - done.
  - done.
Qed.

Lemma task_calls_done t t' : rtc task_call t t' -> task_status t = TaskDone ->
  task_status t' = TaskDone /\ err t' = err t /\ value t' = value t /\ canceled t' = canceled t.
Proof.
  induction 1 as [|t1 t2 t3 Hc _ IH]; intros Hd; [done|].
  destruct (task_call_done _ _ Hd Hc) as (Hd2 & ? & ? & ?).
  destruct (IH Hd2) as (? & ? & ? & ?). split_and!; congruence.
Qed.

(** C12: the future's contract, for calls that do not overlap, in any order and
    with any arguments: [setRunning], [Await], [configureContext], [Cancel] and
    [setDone] never panic; [configureNextRun] panics exactly on a task that is not
    periodic or not Running, without having written to it, and otherwise makes
    the task New again; the channel [Await] returns is closed exactly when the
    task is Done; and once Done the status, the error, the value and the canceled
    flag are final. *)
Theorem future_contract id ty initialDelay dl now t :
  rtc task_call (newTask id ty initialDelay dl now) t ->
  is_Some (Cancel t) /\ (forall v e, is_Some (setDone v e t)) /\
  (forall now', configureNextRun now' t = None <-> Periodic t = false \/ task_status t <> TaskRunning) /\
  (forall now' t', configureNextRun now' t = Some t' ->
     task_status t' = TaskNew /\ Err t' = Err t /\
     nextRun t' = match task_type t with TaskTypeFixedDelay => now' | _ => nextRun t end + delay t) /\
  (chn_closed (Await t).1 = true <-> Done t = true) /\
  (Done t = true -> forall t', rtc task_call t t' ->
     Done t' = true /\ Err t' = Err t /\ Value t' = Value t /\ Canceled t' = Canceled t).
Proof.
  intros Hr. assert (wf_task t) as Hwf.
  { eapply rtc_invariant; [apply task_call_wf|apply wf_newTask|done]. }
  split_and!.
  - destruct (Cancel_spec t Hwf) as (? & ? & ? & _). eauto.
  - intros v e. destruct (setDone_spec v e t Hwf) as (? & ? & ? & _). eauto.
  - intros now'. rewrite eq_None_not_Some, configureNextRun_spec, <- not_true_iff_false.
    destruct (decide (task_status t = TaskRunning)), (Periodic t); naive_solver.
  - intros now' t' Hn. by destruct (configureNextRun_wf _ _ _ Hwf Hn) as (_ & ? & ? & ?).
  - unfold Await, Done, wf_task in *. destruct (doneChn t) as [c|]; cbn.
    + rewrite bool_decide_eq_true. done.
    + by case_bool_decide; cbn; split.
  - unfold Done, Err, Value, Canceled. rewrite bool_decide_eq_true. intros Hd t' Hr'.
    destruct (task_calls_done _ _ Hr' Hd) as (-> & ? & ? & ?). by split_and!.
Qed.
End calls.

(** A once task that ran, was awaited and completed with the value 5. *)
Lemma future_contract_witness :
  let t0 : Task nat := newTask 1 TaskTypeOnce 0 0 100 in
  let t1 := (Await (setRunning 100 t0).2).2 in
  exists t2, setDone (Some 5%nat) None t1 = Some (true, t2) /\
    chn_closed (Await t2).1 = true /\ Value t2 = Some 5%nat /\
    forall t', rtc task_call t2 t' -> Value t' = Some 5%nat.
Proof.
  intros t0 t1. eexists. split; [reflexivity|].
  match goal with |- context [Await ?t2] =>
    destruct (future_contract (Ptr := nat) 1 TaskTypeOnce 0 0 100 t2) as (_ & _ & _ & _ & Hc & Hd) end.
  - eapply rtc_l; [apply (call_setRunning 100)|]. eapply rtc_l; [apply call_Await|].
    eapply rtc_l; [eapply (call_setDone (Some 5%nat) None)|apply rtc_refl]. reflexivity.
  - split_and!; [by apply Hc|done|]. intros t' Hr. by apply (Hd eq_refl).
Defined.

(** ** Interleaved calls: lemmas *)
Section waiters.
Implicit Types (c : Cell) (i k : nat) (pc : Pc).

(** The calls that make the task Done go through these counters afterwards. *)
Definition finishing pc : bool :=
  match pc with
  | SdChn | SdClose _ | SdCasChn | SdLock | SdLoad2 | SdCloseLocked _ | CaChn | CaClose _ => true
  | _ => false
  end.
Definition returned pc : bool :=
  match pc with AwEnd _ | SdEnd _ | CaEnd _ => true | _ => false end.

Record cell_inv c : Prop := {
  ci_winner : c_status c <> TaskDone -> c_winner c = None;
  ci_finishing : forall i pc, c_threads c !! i = Some pc -> finishing pc = true -> c_winner c = Some i;
  ci_closed : forall k, c_chans c !! k = Some true ->
    exists w pc, c_winner c = Some w /\ c_threads c !! w = Some pc /\ returned pc = true;
  ci_alive : forall i pc, c_threads c !! i = Some pc -> pc <> Crashed /\ pc <> SdCas TaskDone;
}.

(** A move of thread [i] that neither finishes the task nor closes a channel. *)
Lemma cell_inv_move c c' i pc pc' :
  cell_inv c -> c_threads c !! i = Some pc -> returned pc = false ->
  c_threads c' = <[i := pc']> (c_threads c) -> c_winner c' = c_winner c ->
  (c_status c' <> TaskDone -> c_status c <> TaskDone) ->
  (forall k, c_chans c' !! k = Some true -> c_chans c !! k = Some true) ->
  (finishing pc' = true -> finishing pc = true) -> pc' <> Crashed /\ pc' <> SdCas TaskDone ->
  cell_inv c'.
Proof.
  intros [Hw Hf Hc Ha] Hi Hret Ht Hw' Hs Hch Hfin Hcr. split.
  - rewrite Hw'. auto.
  - intros j pj. rewrite Ht, Hw'. intros [(<- & <- & _)|[Hne Hj]]%list_lookup_insert_Some ?; eauto.
  - intros k Hk. destruct (Hc k (Hch k Hk)) as (w & pw & ? & Hwt & ?). exists w, pw.
    rewrite Hw', Ht. split_and!; [done| |done]. rewrite list_lookup_insert_ne; [done|]. congruence.
  - rewrite Ht. intros j pj [(_ & <- & _)|[_ Hj]]%list_lookup_insert_Some; eauto.
Qed.

(** The compare-and-swap that makes the task Done. *)
Lemma cell_inv_finish c i pc pc' :
  cell_inv c -> c_threads c !! i = Some pc -> returned pc = false -> c_status c <> TaskDone ->
  finishing pc' = true -> cell_inv (goto i pc' (cell_finish i c)).
Proof.
  intros [Hw Hf Hc Ha] Hi Hret Hs Hcr. specialize (Hw Hs). split; cbn.
  - done.
  - intros j pj [(<- & _)|[Hne Hj]]%list_lookup_insert_Some Hpj; [done|].
    specialize (Hf _ _ Hj Hpj). congruence.
  - intros k Hk. destruct (Hc k Hk) as (w & ? & ? & _). congruence.
  - intros j pj [(_ & <- & _)|[_ Hj]]%list_lookup_insert_Some; [by destruct pc'|eauto].
Qed.

(** Nothing was closed before the winner closes a channel. *)
Lemma cell_inv_close c i k pc pc' :
  cell_inv c -> c_threads c !! i = Some pc -> finishing pc = true -> returned pc' = true ->
  close_goto i k pc' c = goto i pc' (cell_close k c) /\ cell_inv (goto i pc' (cell_close k c)).
Proof.
  intros Hinv Hi Hfin Hret. pose proof Hinv as [Hw Hf Hc Ha]. pose proof (Hf _ _ Hi Hfin) as Hwin.
  assert (returned pc = false) as Hpc by by destruct pc.
  assert (forall k, c_chans c !! k <> Some true) as Hopen.
  { intros j Hj. destruct (Hc _ Hj) as (w & pw & ? & ? & ?). congruence. }
  split.
  { unfold close_goto. by rewrite decide_False by apply Hopen. }
  split; cbn.
  - done.
  - intros j pj [(<- & <- & _)|[Hne Hj]]%list_lookup_insert_Some ?; eauto.
  - intros j Hj. exists i, pc'. rewrite list_lookup_insert_eq by by eapply lookup_lt_Some. done.
  - intros j pj [(_ & <- & _)|[_ Hj]]%list_lookup_insert_Some; [by destruct pc'|eauto].
Qed.

Lemma cell_step_inv c i c' : cell_inv c -> cell_step c i = Some c' -> cell_inv c'.
Proof.
  intros Hinv Hstep. unfold cell_step in Hstep. destruct (c_threads c !! i) as [pc|] eqn:Hi; [|done].
  cbn [mbind option_bind] in Hstep.
  destruct (ci_alive _ Hinv _ _ Hi) as [_ Hcas].
  destruct pc; cbn in Hstep; repeat case_match; simplify_eq.
  all: try (eapply cell_inv_move; [done|done|done|reflexivity|reflexivity|done|done|done|done]).
  - eapply cell_inv_move; [done|done|done|reflexivity|reflexivity|done| |done|done].
    cbn. intros k Hk. apply lookup_app_Some in Hk as [?|[_ Hk]]; [done|].
    by destruct (_ - _)%nat as [|[]].
  - eapply cell_inv_move; [done|done|done|reflexivity|reflexivity|done|done|done|].
    split; [done|congruence].
  - eapply cell_inv_finish; [done|done|done|congruence|done].
  - edestruct cell_inv_close as [-> ?]; done.
  - edestruct (cell_inv_close (cell_mu false c)) as [-> ?]; [|done..]. by destruct Hinv.
  - eapply cell_inv_finish; [done|done|done|congruence|done].
  - edestruct cell_inv_close as [-> ?]; done.
  - eapply cell_inv_move; [done|done|done|reflexivity|reflexivity| |done|done|done]. congruence.
Qed.

Lemma cell_run_inv sched c c' : cell_inv c -> cell_run sched c = Some c' -> cell_inv c'.
Proof.
  revert c. induction sched as [|i sched IH]; intros c Hinv Hr; cbn in Hr; [by simplify_eq|].
  destruct (cell_step c i) as [c1|] eqn:Hs; [|done]. eauto using cell_step_inv.
Qed.

Lemma cell_start_inv s calls : s <> TaskDone -> Forall is_call calls -> cell_inv (cell_start s calls).
Proof.
  intros Hs Hcalls. split; cbn.
  - done.
  - intros i pc Hi. by destruct (Forall_lookup_1 _ _ _ _ Hcalls Hi) as [->|[->| ->]].
  - intros k Hk. by rewrite lookup_nil in Hk.
  - intros i pc Hi. by destruct (Forall_lookup_1 _ _ _ _ Hcalls Hi) as [->|[->| ->]].
Qed.

(** C13: however many [Await], [setDone] and [Cancel] calls overlap on one task,
    and however their atomic operations interleave, no channel is closed twice:
    no call panics; and at most one call makes the task Done. *)
Theorem no_double_close s calls c : s <> TaskDone -> Forall is_call calls ->
  cell_reachable s calls c ->
  Crashed ∉ c_threads c /\
  (forall i j p q, c_threads c !! i = Some p -> c_threads c !! j = Some q ->
     finishing p = true -> finishing q = true -> i = j).
Proof.
  intros Hs Hcalls [sched Hr]. pose proof (cell_run_inv _ _ _ (cell_start_inv _ _ Hs Hcalls) Hr) as Hinv.
  split.
  - intros [i Hi]%list_elem_of_lookup_1. by destruct (ci_alive _ Hinv _ _ Hi).
  - intros i j p q Hi Hj Hp Hq.
    pose proof (ci_finishing _ Hinv _ _ Hi Hp). pose proof (ci_finishing _ Hinv _ _ Hj Hq). congruence.
Qed.

(** [Await] and [setDone] can miss each other: [Await] reads that the task is
    not done, [setDone] finishes it and installs [closedChn], and then [Await]
    stores the channel it made over it.  The task is Done, every call has
    returned, and the channel that this and every later [Await] returns is never
    closed.  The same happens with [Cancel]. *)
Theorem await_lost_wakeup call : call = SdLoad \/ call = CaLoad ->
  exists c, cell_reachable (if decide (call = SdLoad) then TaskRunning else TaskNew) [AwLoad; call] c /\
    c_status c = TaskDone /\ c_done c = Some (RMade 0) /\ c_chans c = [false] /\
    Forall (fun pc => returned pc = true) (c_threads c) /\
    c_threads c !! 0%nat = Some (AwEnd (RMade 0)).
Proof.
  intros [-> | ->]; eexists; split.
  1: exists [0; 0; 0; 0; 1; 1; 1; 1; 0]%nat; vm_compute; reflexivity.
  2: exists [0; 0; 0; 0; 1; 1; 1; 0]%nat; vm_compute; reflexivity.
  all: split_and!; try done; repeat constructor.
Qed.

Lemma no_double_close_witness :
  let c := cell_start TaskRunning [AwLoad; SdLoad; CaLoad; SdLoad] in
  exists c', cell_run [0; 0; 0; 0; 0; 2; 2; 2; 1; 3; 3; 3; 3; 1]%nat c = Some c' /\
    c_threads c' = [AwEnd (RMade 0); SdEnd false; CaEnd true; SdEnd true] /\
    c_chans c' = [true] /\ Crashed ∉ c_threads c'.
Proof.
  intros c. eexists. split; [vm_compute; reflexivity|]. split; [done|]. split; [done|].
  apply (no_double_close TaskRunning [AwLoad; SdLoad; CaLoad; SdLoad]); [done| |].
  - unfold is_call. repeat constructor; unfold is_call; tauto.
  - exists [0; 0; 0; 0; 0; 2; 2; 2; 1; 3; 3; 3; 3; 1]%nat. vm_compute. reflexivity.
Defined.

Lemma await_lost_wakeup_witness : exists c,
  cell_reachable TaskRunning [AwLoad; SdLoad] c /\ c_status c = TaskDone /\ c_chans c = [false].
Proof.
  destruct (await_lost_wakeup SdLoad) as (c & ? & ? & _ & ? & _); [by left|]. exists c. by split_and!.
Defined.
End waiters.
