(* ===== verification/Executor.v ===== *)
(** * executors: the event loop

    Models [executors/executors_default.go].  The executor's fields and the task
    objects are one state; each case of the event loop's [select] is one
    computation of the state-and-panic monad, so a handler runs without
    interleaving, while the calls of clients and the goroutines of the tasks are
    steps of their own (file ExecutorSystem).  The clock is a stream of
    readings: [clk n] is what the [n]-th reading of the clock returns. *)

From S2P Require Import Prelude.
From S2P Require Import ContainerList.
From S2P Require Import QueueInterface.
From S2P Require Import Task.

Inductive ExecutorStatus := ExecRunning | ShuttingDown | WaitingTermination | Terminated.
#[global] Instance ExecutorStatus_eq_dec : EqDecision ExecutorStatus.
Proof. solve_decision. Defined.

Definition exec_status_code (s : ExecutorStatus) : Z :=
  match s with ExecRunning => 0 | ShuttingDown => 1 | WaitingTermination => 2 | Terminated => 3 end.

(** [errors.Newf("EXECUTOR_QUEUE_FULL")], [errors.Newf("EXECUTOR_CANCELED")] *)
Inductive ScheduleErr := ErrExecutorQueueFull | ErrExecutorCanceled.

(** The goroutine that runs a task: the user's function; [setDone] between its
    load, which read [loaded], and its compare-and-swap; the deferred send of
    the completed event. *)
Inductive GoPhase :=
| GoRun
| GoSetDone (loaded : TaskStatus) (v : option nat) (e : option TaskErr)
| GoSend.

#[global] Instance GoPhase_eq_dec : EqDecision GoPhase.
Proof. solve_decision. Defined.

(** Where the event loop is: at its [select]; inside the case of the completed
    event of a task, before the atomic operation or the read that comes next
    there.  The other cases run in one step (see file ExecutorSystem). *)
Inductive LoopPc :=
| AtSelect
| AtDone (t : nat)                        (** [if !task.Done()] *)
| AtCanceled (t : nat)                    (** [if task.Canceled()] and [task.Periodic()] *)
| AtSetDoneLoad (t : nat)                 (** [setDone]: the load of the status *)
| AtSetDoneCas (t : nat) (loaded : TaskStatus)
| AtNextCheck (t : nat)                   (** [configureNextRun]: the check of the status *)
| AtNextCas (t : nat)                     (** its compare-and-swap *)
| AtRequeue (t : nat)                     (** the rest of it, the new context and the new queueing *)
| AtRunNext.                              (** [if !e.tryRunNextTask() { return }] *)

#[global] Instance LoopPc_eq_dec : EqDecision LoopPc.
Proof. solve_decision. Defined.

(** The task whose execution the loop is about to end. *)
Definition loop_task (pc : LoopPc) : list nat :=
  match pc with
  | AtDone t | AtCanceled t | AtSetDoneLoad t | AtSetDoneCas t _ | AtNextCheck t | AtNextCas t => [t]
  | AtSelect | AtRequeue _ | AtRunNext => []
  end.

(** The goroutine of the task ends when its event is received. *)
Definition drop_live (t : nat) (l : list (nat * GoPhase)) : list (nat * GoPhase) :=
  filter (fun g => g <> (t, GoSend)) l.

Section executor.
Context {Q H : Type} `{TaskQueue Q H} (clk : nat -> Z).

Record Exec := MkExec {
  ex_status : ExecutorStatus;
  ex_queue : LList;
  ex_sched : Q;
  ex_timer : option Z;        (** when the timer fires; [None]: it did or was stopped *)
  ex_target : Z;              (** [schedulerTimerTarget] *)
  ex_capacity : Z;
  ex_concurrency : Z;
  ex_running : Z;
  ex_taskCount : Z;
  ex_terminationChn : bool;   (** closed *)
  ex_stopped : bool;          (** the event loop has returned *)
  ex_tasks : gmap nat (Task H);
  ex_live : list (nat * GoPhase);
  ex_ticks : nat;
  ex_loop : LoopPc;
}.

Definition set_status (s : ExecutorStatus) (e : Exec) : Exec :=
  MkExec s (ex_queue e) (ex_sched e) (ex_timer e) (ex_target e) (ex_capacity e) (ex_concurrency e)
    (ex_running e) (ex_taskCount e) (ex_terminationChn e) (ex_stopped e) (ex_tasks e) (ex_live e) (ex_ticks e) (ex_loop e).
Definition set_queue (q : LList) (e : Exec) : Exec :=
  MkExec (ex_status e) q (ex_sched e) (ex_timer e) (ex_target e) (ex_capacity e) (ex_concurrency e)
    (ex_running e) (ex_taskCount e) (ex_terminationChn e) (ex_stopped e) (ex_tasks e) (ex_live e) (ex_ticks e) (ex_loop e).
Definition set_sched (q : Q) (e : Exec) : Exec :=
  MkExec (ex_status e) (ex_queue e) q (ex_timer e) (ex_target e) (ex_capacity e) (ex_concurrency e)
    (ex_running e) (ex_taskCount e) (ex_terminationChn e) (ex_stopped e) (ex_tasks e) (ex_live e) (ex_ticks e) (ex_loop e).
Definition set_timer (d : option Z) (e : Exec) : Exec :=
  MkExec (ex_status e) (ex_queue e) (ex_sched e) d (ex_target e) (ex_capacity e) (ex_concurrency e)
    (ex_running e) (ex_taskCount e) (ex_terminationChn e) (ex_stopped e) (ex_tasks e) (ex_live e) (ex_ticks e) (ex_loop e).
Definition set_target (d : Z) (e : Exec) : Exec :=
  MkExec (ex_status e) (ex_queue e) (ex_sched e) (ex_timer e) d (ex_capacity e) (ex_concurrency e)
    (ex_running e) (ex_taskCount e) (ex_terminationChn e) (ex_stopped e) (ex_tasks e) (ex_live e) (ex_ticks e) (ex_loop e).
Definition set_capacity (n : Z) (e : Exec) : Exec :=
  MkExec (ex_status e) (ex_queue e) (ex_sched e) (ex_timer e) (ex_target e) n (ex_concurrency e)
    (ex_running e) (ex_taskCount e) (ex_terminationChn e) (ex_stopped e) (ex_tasks e) (ex_live e) (ex_ticks e) (ex_loop e).
Definition set_concurrency (n : Z) (e : Exec) : Exec :=
  MkExec (ex_status e) (ex_queue e) (ex_sched e) (ex_timer e) (ex_target e) (ex_capacity e) n
    (ex_running e) (ex_taskCount e) (ex_terminationChn e) (ex_stopped e) (ex_tasks e) (ex_live e) (ex_ticks e) (ex_loop e).
Definition set_taskCount (n : Z) (e : Exec) : Exec :=
  MkExec (ex_status e) (ex_queue e) (ex_sched e) (ex_timer e) (ex_target e) (ex_capacity e) (ex_concurrency e)
    (ex_running e) n (ex_terminationChn e) (ex_stopped e) (ex_tasks e) (ex_live e) (ex_ticks e) (ex_loop e).
Definition set_terminationChn (b : bool) (e : Exec) : Exec :=
  MkExec (ex_status e) (ex_queue e) (ex_sched e) (ex_timer e) (ex_target e) (ex_capacity e) (ex_concurrency e)
    (ex_running e) (ex_taskCount e) b (ex_stopped e) (ex_tasks e) (ex_live e) (ex_ticks e) (ex_loop e).
Definition set_stopped (b : bool) (e : Exec) : Exec :=
  MkExec (ex_status e) (ex_queue e) (ex_sched e) (ex_timer e) (ex_target e) (ex_capacity e) (ex_concurrency e)
    (ex_running e) (ex_taskCount e) (ex_terminationChn e) b (ex_tasks e) (ex_live e) (ex_ticks e) (ex_loop e).
Definition set_tasks (ts : gmap nat (Task H)) (e : Exec) : Exec :=
  MkExec (ex_status e) (ex_queue e) (ex_sched e) (ex_timer e) (ex_target e) (ex_capacity e) (ex_concurrency e)
    (ex_running e) (ex_taskCount e) (ex_terminationChn e) (ex_stopped e) ts (ex_live e) (ex_ticks e) (ex_loop e).
(** [running] and the goroutines it counts. *)
Definition set_live (n : Z) (l : list (nat * GoPhase)) (e : Exec) : Exec :=
  MkExec (ex_status e) (ex_queue e) (ex_sched e) (ex_timer e) (ex_target e) (ex_capacity e) (ex_concurrency e)
    n (ex_taskCount e) (ex_terminationChn e) (ex_stopped e) (ex_tasks e) l (ex_ticks e) (ex_loop e).
Definition set_ticks (n : nat) (e : Exec) : Exec :=
  MkExec (ex_status e) (ex_queue e) (ex_sched e) (ex_timer e) (ex_target e) (ex_capacity e) (ex_concurrency e)
    (ex_running e) (ex_taskCount e) (ex_terminationChn e) (ex_stopped e) (ex_tasks e) (ex_live e) n (ex_loop e).

Definition set_loop (pc : LoopPc) (e : Exec) : Exec :=
  MkExec (ex_status e) (ex_queue e) (ex_sched e) (ex_timer e) (ex_target e) (ex_capacity e) (ex_concurrency e)
    (ex_running e) (ex_taskCount e) (ex_terminationChn e) (ex_stopped e) (ex_tasks e) (ex_live e) (ex_ticks e) pc.

(** [time.Now()] *)
Definition time_now : M Exec Z := fun e => Some (clk (ex_ticks e), set_ticks (S (ex_ticks e)) e).

Definition get_task (t : nat) : M Exec (Task H) := fun e => tk ← ex_tasks e !! t; Some (tk, e).
Definition put_task (t : nat) (tk : Task H) : M Exec unit :=
  modify (fun e => set_tasks (<[t := tk]> (ex_tasks e)) e).

(** ** Reads *)
Definition QueueLength (e : Exec) : Z := list_Len (ex_queue e) + Z.of_nat (tq_len (ex_sched e)).
Definition IsTerminated (e : Exec) : bool :=
  bool_decide (exec_status_code (ex_status e) >= exec_status_code Terminated).
Definition IsCanceled (e : Exec) : bool :=
  bool_decide (exec_status_code (ex_status e) >= exec_status_code ShuttingDown).

(** [int] arithmetic wraps around. *)
Definition remainingTotalCapacity (e : Exec) : Z :=
  if bool_decide (ex_concurrency e < 0) || bool_decide (ex_capacity e < 0) then 2147483647
  else int64_wrap (int64_wrap (int64_wrap (ex_concurrency e - ex_running e) + ex_capacity e)
    - QueueLength e).

Definition canStartNewTask (e : Exec) : bool :=
  if bool_decide (ex_concurrency e < 0) then true
  else bool_decide (ex_running e < ex_concurrency e).

(** ** Operations of the event loop *)
Definition configureSchedulerTimer : M Exec unit :=
  e ← get_state;
  if bool_decide (tq_len (ex_sched e) = 0)%nat then mret tt
  else
    t ← lift_option (tq_peek (ex_sched e));
    tk ← get_task t;
    if bool_decide (nextRun tk = ex_target e) then mret tt
    else
      now ← time_now;
      modify (fun e => set_timer (Some (now + Delay now tk)) (set_target (nextRun tk) e)).

Definition executeTask (t : nat) : M Exec unit :=
  tk ← get_task t;
  now ← time_now;
  let r := setRunning now tk in
  if negb r.1 then mret tt
  else
    _ ← put_task t r.2;
    modify (fun e => set_live (ex_running e + 1) (ex_live e ++ [(t, GoRun)]) e).

(** [scheduledQueue.Push(task, task.nextRun.UnixNano())] *)
Definition sched_push (t : nat) (tk : Task H) : M Exec H := fun e =>
  r ← tq_push (ex_sched e) t (int64_wrap (nextRun tk));
  Some (r.2, set_sched r.1 e).

Definition queue_push (t : nat) : M Exec nat := fun e =>
  r ← list_PushBack t (ex_queue e);
  Some (r.2, set_queue r.1 e).

Definition tryExecuteTask (t : nat) : M Exec unit :=
  tk ← get_task t;
  if negb (Runnable tk) then mret tt
  else
    now ← time_now;
    if bool_decide (Delay now tk > 0) then
      h ← sched_push t tk;
      _ ← put_task t (with_sQueueElement (Some h) tk);
      configureSchedulerTimer
    else
      can ← gets canStartNewTask;
      if negb can then
        q ← queue_push t;
        put_task t (with_queueElement (Some q) tk)
      else executeTask t.

(** [e.queue.Remove(e.queue.Front()).( *_Task)]: nil dereferences and a nil value
    panic. *)
Definition queue_pop_front : M Exec nat := fun e =>
  f ← list_Front (ex_queue e);
  r ← list_Remove f (ex_queue e);
  t ← r.2;
  Some (t, set_queue r.1 e).

(** The result is [shouldContinue]; [close(e.terminationChn)] panics when it is
    closed already. *)
Definition tryRunNextTask : M Exec bool :=
  e ← get_state;
  if IsTerminated e then mret true
  else if bool_decide (QueueLength e = 0) then
    if IsCanceled e then
      if bool_decide (ex_running e > 0) then
        _ ← (if bool_decide (ex_status e = ShuttingDown) then modify (set_status WaitingTermination)
             else mret tt);
        mret true
      else if bool_decide (ex_status e = ShuttingDown) || bool_decide (ex_status e = WaitingTermination)
      then
        _ ← modify (set_status Terminated);
        if ex_terminationChn e then panic
        else _ ← modify (set_terminationChn true); mret false
      else mret true
    else mret true
  else if bool_decide (list_Len (ex_queue e) = 0) then mret true
  else if negb (canStartNewTask e) then mret true
  else
    t ← queue_pop_front;
    tk ← get_task t;
    _ ← put_task t (with_queueElement None tk);
    _ ← tryExecuteTask t;
    mret true.

(** [if !e.tryRunNextTask() { return }] *)
Definition run_next_or_return : M Exec unit :=
  b ← tryRunNextTask;
  if (b : bool) then mret tt else modify (set_stopped true).

(** ** The cases of the select statement *)
Definition onTimer : M Exec unit :=
  _ ← modify (set_timer None);
  e ← get_state;
  if bool_decide (tq_len (ex_sched e) = 0)%nat then mret tt
  else
    t ← lift_option (tq_peek (ex_sched e));
    tk ← get_task t;
    now ← time_now;
    _ ← (if bool_decide (nextRun tk <= now) then
           t ← (fun e => r ← tq_pop (ex_sched e); Some (r.2, set_sched r.1 e));
           tk ← get_task t;
           _ ← put_task t (with_sQueueElement None tk);
           tryExecuteTask t
         else mret tt);
    configureSchedulerTimer.

Definition onSubmitted (t : nat) : M Exec unit := tryExecuteTask t.

(** [configureNextRun] after its compare-and-swap, [configureContext] and the new
    queueing: neither queue's element is recorded in the task. *)
Definition requeue (t : nat) : M Exec unit :=
  tk ← get_task t;
  now ← time_now;
  tk1 ← lift_option (next_set now tk);
  let tk2 := configureContext tk1 in
  _ ← put_task t tk2;
  now2 ← time_now;
  if bool_decide (Delay now2 tk2 > 0) then
    _ ← sched_push t tk2;
    configureSchedulerTimer
  else
    _ ← queue_push t;
    mret tt.

Definition loop_goto (pc : LoopPc) : M Exec unit := modify (set_loop pc).

(** [case _TaskCompletedEvent]: the event is received and [running] counts down;
    the task's goroutine is over. *)
Definition receive_completed (t : nat) : M Exec unit :=
  _ ← modify (fun e => set_live (ex_running e - 1) (drop_live t (ex_live e)) e);
  loop_goto (AtDone t).

(** What the case does next.  Clients may change the task between two of these
    steps. *)
Definition completed_step (pc : LoopPc) : M Exec unit :=
  match pc with
  | AtSelect => mret tt
  | AtDone t =>
      tk ← get_task t; loop_goto (if Done tk then AtRunNext else AtCanceled t)
  | AtCanceled t =>
      tk ← get_task t;
      loop_goto (if Canceled tk then AtSetDoneLoad t else if Periodic tk then AtNextCheck t else AtRunNext)
  | AtSetDoneLoad t =>
      tk ← get_task t; loop_goto (if Done tk then AtRunNext else AtSetDoneCas t (task_status tk))
  | AtSetDoneCas t loaded =>
      tk ← get_task t;
      r ← lift_option (setDone_cas loaded None (Some ErrCanceled) tk);
      _ ← put_task t r.2;
      loop_goto AtRunNext
  | AtNextCheck t =>
      tk ← get_task t; if next_check tk then panic else loop_goto (AtNextCas t)
  | AtNextCas t =>
      tk ← get_task t;
      tk1 ← lift_option (next_cas tk);
      _ ← put_task t tk1;
      loop_goto (AtRequeue t)
  | AtRequeue t => _ ← requeue t; loop_goto AtRunNext
  | AtRunNext => _ ← loop_goto AtSelect; run_next_or_return
  end.

(** The case run to its end without interference: at most six steps. *)
Fixpoint complete (fuel : nat) : M Exec unit :=
  e ← get_state;
  match ex_loop e, fuel with
  | AtSelect, _ => mret tt
  | _, O => panic
  | pc, S fuel => _ ← completed_step pc; complete fuel
  end.
Definition onCompleted (t : nat) : M Exec unit := _ ← receive_completed t; complete 6.

Definition queue_remove (q : nat) : M Exec unit := fun e =>
  r ← list_Remove q (ex_queue e);
  Some (tt, set_queue r.1 e).
Definition sched_remove (h : H) : M Exec unit := fun e =>
  r ← tq_remove (ex_sched e) h;
  Some (tt, set_sched r.1 e).

Definition onCanceled (t : nat) : M Exec unit :=
  tk ← get_task t;
  _ ← (if bool_decide (err tk = None) then put_task t (with_result (value tk) (Some ErrCanceled) tk)
       else mret tt);
  e ← get_state;
  if bool_decide (list_Len (ex_queue e) = 0) then mret tt
  else
    _ ← (match queueElement tk with Some q => queue_remove q | None => mret tt end);
    match sQueueElement tk with Some h => sched_remove h | None => mret tt end.

(** [for e.canStartNewTask() && e.queue.Len() > 0 { if !e.tryRunNextTask() { return } }],
    with [fuel] iterations. *)
Fixpoint start_queued (fuel : nat) : M Exec unit :=
  e ← get_state;
  if negb (canStartNewTask e && bool_decide (list_Len (ex_queue e) > 0)) then mret tt
  else
    match fuel with
    | O => panic
    | S fuel =>
        b ← tryRunNextTask;
        if (b : bool) then start_queued fuel else modify (set_stopped true)
    end.

Definition onUpdateConcurrency (n : Z) : M Exec unit :=
  _ ← modify (set_concurrency n);
  fuel ← gets (fun e => Z.to_nat (list_Len (ex_queue e)));
  start_queued fuel.

Definition onUpdateQueueCapacity (n : Z) : M Exec unit := modify (set_capacity n).

(** The result is the reply sent on [event.Wait]. *)
Definition onCancel : M Exec bool :=
  e ← get_state;
  if IsCanceled e then mret false
  else
    let swapped := bool_decide (ex_status e = ExecRunning) in
    _ ← (if swapped then modify (set_status ShuttingDown) else mret tt);
    _ ← run_next_or_return;
    mret swapped.

(** [for e.scheduledQueue.Len() > 0 { append Pop().Value }] *)
Fixpoint drain (fuel : nat) (q : Q) : option (Q * list nat) :=
  if bool_decide (tq_len q = 0)%nat then Some (q, [])
  else
    match fuel with
    | O => None
    | S fuel =>
        r ← tq_pop q;
        r' ← drain fuel r.1;
        Some (r'.1, r.2 :: r'.2)
    end.

(** The reply is [None] when the channel is closed without a value. *)
Definition onCancelNow : M Exec (option (list nat)) :=
  e ← get_state;
  if bool_decide (exec_status_code (ex_status e) >= exec_status_code WaitingTermination)
  then mret None
  else
    ready ← lift_option (list_values (ex_queue e));
    r ← lift_option (drain (tq_len (ex_sched e)) (ex_sched e));
    _ ← modify (fun e => set_sched r.1 (set_queue (list_Init (ex_queue e)) e));
    _ ← (if bool_decide (ex_status e = ShuttingDown) then modify (set_status WaitingTermination)
         else mret tt);
    _ ← run_next_or_return;
    mret (Some (ready ++ r.2)).

(** ** Calls of clients *)

(** [schedule], up to the send of the submitted event; the new task is [inr]. *)
Definition schedule (ty : TaskType) (initialDelay dl : Z) : M Exec (ScheduleErr + nat) :=
  e ← get_state;
  if IsCanceled e then mret (inl ErrExecutorCanceled)
  else if bool_decide (remainingTotalCapacity e < 1) then mret (inl ErrExecutorQueueFull)
  else
    let id := uint64_wrap (ex_taskCount e + 1) in
    _ ← modify (set_taskCount id);
    now ← time_now;
    let t := fresh (dom (ex_tasks e)) in
    _ ← put_task t (configureContext (newTask id ty initialDelay dl now));
    mret (inr t).

Definition Submit : M Exec (ScheduleErr + nat) := schedule TaskTypeOnce 0 0.
Definition SubmitProducer : M Exec (ScheduleErr + nat) := schedule TaskTypeOnce 0 0.
Definition Schedule (dl : Z) : M Exec (ScheduleErr + nat) := schedule TaskTypeOnce dl 0.
Definition ScheduleWithFixedRate (initialDelay period : Z) : M Exec (ScheduleErr + nat) :=
  schedule TaskTypeFixedRate initialDelay period.
Definition ScheduleWithFixedDelay (initialDelay dl : Z) : M Exec (ScheduleErr + nat) :=
  schedule TaskTypeFixedDelay initialDelay dl.

(** [AwaitTermination]: what it returns when it looks at the state, or [None]
    while it waits; [elapsed] tells whether the timeout has passed. *)
Definition AwaitTermination (elapsed : bool) (e : Exec) : option bool :=
  if bool_decide (ex_status e = Terminated) then Some true
  else if ex_terminationChn e then Some true
  else if elapsed then Some false else None.

(** A fresh executor over an empty scheduled queue. *)
Definition NewDefaultExecutor (sched : Q) (concurrency queueCapacity : Z) : Exec :=
  MkExec ExecRunning list_New sched (Some (clk 0)) (clk 1) queueCapacity concurrency 0 0 false false ∅ [] 2 AtSelect.
End executor.
Arguments Exec : clear implicits.

(** ** What the operations leave alone *)
Section effects.
Context {Q H : Type} `{TaskQueue Q H} (clk : nat -> Z).
Implicit Types (e : Exec Q H) (t : nat) (tk : Task H).

(** A task but for the queue elements that point back to it. *)
Definition life (tk : Task H) : Task H := with_sQueueElement None (with_queueElement None tk).

(** Everything but the two queues, the timer and the clock. *)
Definition core e :=
  (ex_status e, ex_capacity e, ex_concurrency e, ex_running e, ex_taskCount e,
   ex_terminationChn e, ex_stopped e, life <$> ex_tasks e, ex_live e, ex_loop e).
Definition quiet e e' : Prop := core e = core e'.

Lemma quiet_trans e1 e2 e3 : quiet e1 e2 -> quiet e2 e3 -> quiet e1 e3.
Proof. unfold quiet. congruence. Qed.

Lemma quiet_tasks e e' : quiet e e' -> life <$> ex_tasks e = life <$> ex_tasks e'.
Proof. unfold quiet, core. by intros [=]. Qed.

Lemma quiet_task e e' t tk : quiet e e' -> ex_tasks e !! t = Some tk ->
  exists tk', ex_tasks e' !! t = Some tk' /\ life tk = life tk'.
Proof.
  intros Hq Ht. assert ((life <$> ex_tasks e) !! t = (life <$> ex_tasks e') !! t) as Hl.
  { unfold quiet, core in Hq. congruence. }
  rewrite !lookup_fmap, Ht in Hl. destruct (ex_tasks e' !! t) as [tk'|]; [|done].
  exists tk'. split; [done|]. by apply (inj Some) in Hl.
Qed.

Lemma life_fields tk tk' : life tk = life tk' ->
  task_status tk = task_status tk' /\ nextRun tk = nextRun tk' /\ task_type tk = task_type tk' /\
  doneChn tk = doneChn tk' /\ canceled tk = canceled tk' /\ err tk = err tk' /\ value tk = value tk'.
Proof. unfold life. cbn. by intros [=]. Qed.

Lemma quiet_fields e e' : quiet e e' ->
  ex_status e' = ex_status e /\ ex_capacity e' = ex_capacity e /\ ex_concurrency e' = ex_concurrency e /\
  ex_running e' = ex_running e /\ ex_taskCount e' = ex_taskCount e /\
  ex_terminationChn e' = ex_terminationChn e /\ ex_stopped e' = ex_stopped e /\ ex_live e' = ex_live e.
Proof. unfold quiet, core. intros [=]. by split_and!. Qed.

Lemma quiet_loop e e' : quiet e e' -> ex_loop e' = ex_loop e.
Proof. unfold quiet, core. by intros [=]. Qed.

(** Writing back a task with other queue elements. *)
Lemma put_quiet e t tk tk' : ex_tasks e !! t = Some tk -> life tk = life tk' ->
  quiet e (set_tasks (<[t := tk']> (ex_tasks e)) e).
Proof.
  intros Ht Hl. assert (life <$> <[t := tk']> (ex_tasks e) = life <$> ex_tasks e) as Hm.
  { rewrite fmap_insert, insert_id; [done|]. by rewrite lookup_fmap, Ht, <- Hl. }
  unfold quiet, core. cbn [ex_tasks set_tasks]. by rewrite Hm.
Qed.

Lemma put_quiet_after e e1 t tk tk' : quiet e e1 -> ex_tasks e !! t = Some tk -> life tk = life tk' ->
  quiet e (set_tasks (<[t := tk']> (ex_tasks e1)) e1).
Proof.
  intros Hq Ht Hl. destruct (quiet_task _ _ _ _ Hq Ht) as (tk1 & Ht1 & Hl1).
  eapply quiet_trans; [exact Hq|]. eapply put_quiet; [done|congruence].
Qed.

Lemma get_task_inv e e' t tk : get_task t e = Some (tk, e') -> ex_tasks e !! t = Some tk /\ e' = e.
Proof. unfold get_task. destruct (ex_tasks e !! t); cbn; [by intros [= -> ->]|done]. Qed.

Lemma time_now_inv e e' now : time_now clk e = Some (now, e') ->
  now = clk (ex_ticks e) /\ e' = set_ticks (S (ex_ticks e)) e.
Proof. unfold time_now. by intros [= -> ->]. Qed.

Lemma put_task_inv e e' t tk u : put_task t tk e = Some (u, e') ->
  e' = set_tasks (<[t := tk]> (ex_tasks e)) e.
Proof. unfold put_task. intros Hm. by apply M_modify_inv in Hm. Qed.

Lemma sched_push_quiet e e' t tk h : sched_push t tk e = Some (h, e') -> quiet e e'.
Proof. unfold sched_push. destruct (tq_push _ _ _); cbn; [by intros [= _ <-]|done]. Qed.
Lemma queue_push_quiet e e' t q : queue_push t e = Some (q, e') -> quiet e e'.
Proof. unfold queue_push. destruct (list_PushBack _ _); cbn; [by intros [= _ <-]|done]. Qed.
Lemma queue_remove_quiet e e' q u : queue_remove q e = Some (u, e') -> quiet e e'.
Proof. unfold queue_remove. destruct (list_Remove _ _); cbn; [by intros [= _ <-]|done]. Qed.
Lemma sched_remove_quiet e e' h u : sched_remove h e = Some (u, e') -> quiet e e'.
Proof. unfold sched_remove. destruct (tq_remove _ _); cbn; [by intros [= _ <-]|done]. Qed.
Lemma queue_pop_front_quiet e e' t : queue_pop_front e = Some (t, e') -> quiet e e'.
Proof.
  unfold queue_pop_front. destruct (list_Front _); cbn; [|done].
  destruct (list_Remove _ _) as [[l [v|]]|]; cbn; [by intros [= _ <-]|done..].
Qed.
End effects.

Ltac einv := repeat (minv_step || match goal with
  | Hm : get_task _ _ = Some (_, _) |- _ => apply get_task_inv in Hm as [? ?]; subst
  | Hm : time_now _ _ = Some (_, _) |- _ => apply time_now_inv in Hm as [? ?]; subst
  | Hm : put_task _ _ _ = Some (_, _) |- _ => apply put_task_inv in Hm; subst
  end).

(** ** What the operations change *)
Section changes.
Context {Q H : Type} `{TaskQueue Q H} (clk : nat -> Z).
Implicit Types (e : Exec Q H) (t : nat) (tk : Task H).

(** A goroutine was started for the new task [t]. *)
Definition started t e e' : Prop := exists tk,
  ex_tasks e !! t = Some tk /\ task_status tk = TaskNew /\
  quiet (set_live (ex_running e + 1) (ex_live e ++ [(t, GoRun)])
    (set_tasks (<[t := with_status TaskRunning tk]> (ex_tasks e)) e)) e'.

Definition started_or_quiet e e' : Prop :=
  quiet e e' \/ (canStartNewTask e = true /\ exists t, started t e e').

Lemma quiet_canStart e e' : quiet e e' -> canStartNewTask e' = canStartNewTask e.
Proof.
  intros Hq. destruct (quiet_fields _ _ Hq) as (_ & _ & Hc & Hr & _).
  unfold canStartNewTask. by rewrite Hc, Hr.
Qed.

Lemma started_quiet_l e1 e2 t e3 : quiet e1 e2 -> started t e2 e3 -> started t e1 e3.
Proof.
  intros Hq (tk & Ht & Hs & Hq'). destruct (quiet_task e2 e1 t tk) as (tk1 & Ht1 & Hl); [done..|].
  exists tk1. split_and!; [done| |].
  { destruct (life_fields _ _ Hl) as (<- & _). done. }
  eapply quiet_trans; [|exact Hq'].
  destruct (quiet_fields _ _ Hq) as (? & ? & ? & ? & ? & ? & ? & ?).
  assert (life <$> <[t := with_status TaskRunning tk1]> (ex_tasks e1)
        = life <$> <[t := with_status TaskRunning tk]> (ex_tasks e2)) as Hm.
  { rewrite !fmap_insert, (quiet_tasks _ _ Hq).
    change (life (with_status TaskRunning ?x)) with (with_status TaskRunning (life x)).
    by rewrite Hl. }
  pose proof (quiet_loop _ _ Hq).
  unfold quiet, core. cbn [ex_status ex_capacity ex_concurrency ex_running ex_taskCount
    ex_terminationChn ex_stopped ex_tasks ex_live ex_loop set_live set_tasks].
  rewrite Hm. congruence.
Qed.

Lemma started_quiet_r e1 e2 t e3 : started t e1 e2 -> quiet e2 e3 -> started t e1 e3.
Proof. intros (tk & ? & ? & ?) ?. exists tk. split_and!; eauto using quiet_trans. Qed.

Lemma soq_quiet_l e1 e2 e3 : quiet e1 e2 -> started_or_quiet e2 e3 -> started_or_quiet e1 e3.
Proof.
  intros Hq [?|(Hc & t & ?)]; [left; by eapply quiet_trans|right].
  rewrite <- (quiet_canStart _ _ Hq). split; [done|]. eauto using started_quiet_l.
Qed.

Lemma soq_quiet_r e1 e2 e3 : started_or_quiet e1 e2 -> quiet e2 e3 -> started_or_quiet e1 e3.
Proof.
  intros [?|(Hc & t & ?)] Hq; [left; by eapply quiet_trans|right; eauto using started_quiet_r].
Qed.

Lemma configureSchedulerTimer_quiet e e' u : configureSchedulerTimer clk e = Some (u, e') -> quiet e e'.
Proof. unfold configureSchedulerTimer. intros Hm. einv; done. Qed.

Lemma executeTask_effect e e' t u : executeTask clk t e = Some (u, e') -> quiet e e' \/ started t e e'.
Proof.
  unfold executeTask. intros Hm. einv; [by left|right].
  match goal with Hc : negb _ = false |- _ => apply negb_false_iff in Hc; unfold setRunning in Hc end.
  eexists. split; [done|]. unfold setRunning, Runnable in *.
  repeat case_bool_decide; cbn in *; try done.
Qed.

Lemma tryExecuteTask_starts e e' t u : tryExecuteTask clk t e = Some (u, e') ->
  quiet e e' \/ (canStartNewTask e = true /\ started t e e').
Proof.
  unfold tryExecuteTask. intros Hm. einv; [by left|..].
  - left. apply (quiet_trans _ (set_ticks (S (ex_ticks e)) e)); [done|].
    eapply quiet_trans; [|by eapply configureSchedulerTimer_quiet].
    eapply put_quiet_after; [by eapply sched_push_quiet|done|done].
  - left. apply (quiet_trans _ (set_ticks (S (ex_ticks e)) e)); [done|].
    eapply put_quiet_after; [by eapply queue_push_quiet|done|done].
  - match goal with Hx : negb (canStartNewTask _) = false |- _ => apply negb_false_iff in Hx end.
    match goal with Hx : executeTask _ _ _ = _ |- _ => apply executeTask_effect in Hx as [?|?] end.
    + by left.
    + by right.
Qed.

Lemma tryExecuteTask_effect e e' t u :
  tryExecuteTask clk t e = Some (u, e') -> started_or_quiet e e'.
Proof. intros [?|[? ?]]%tryExecuteTask_starts; [by left|right; eauto]. Qed.

(** The outcomes of [tryRunNextTask]. *)
Inductive next_effect e : bool -> Exec Q H -> Prop :=
| next_started e' : started_or_quiet e e' -> next_effect e true e'
| next_waiting :
    ex_status e = ShuttingDown -> ex_running e > 0 -> QueueLength e = 0 ->
    next_effect e true (set_status WaitingTermination e)
| next_terminated :
    ex_status e = ShuttingDown \/ ex_status e = WaitingTermination ->
    ex_running e <= 0 -> QueueLength e = 0 -> ex_terminationChn e = false ->
    next_effect e false (set_terminationChn true (set_status Terminated e)).

Lemma tryRunNextTask_effect e b e' : tryRunNextTask clk e = Some (b, e') -> next_effect e b e'.
Proof.
  unfold tryRunNextTask. intros Hm. einv.
  all: try (by constructor; left).
  - constructor 2; [by eapply bool_decide_eq_true|by eapply bool_decide_eq_true|by eapply bool_decide_eq_true].
  - repeat match goal with
    | Hb : bool_decide _ = true |- _ => apply bool_decide_eq_true in Hb
    | Hb : bool_decide _ = false |- _ => apply bool_decide_eq_false in Hb
    | Hb : _ || _ = true |- _ => apply orb_true_iff in Hb as [Hb|Hb]
    end; (constructor 3; [tauto|lia|done|done]).
  - constructor.
    match goal with Hp : queue_pop_front _ = Some _ |- _ => pose proof (queue_pop_front_quiet _ _ _ Hp) as Hq end.
    eapply soq_quiet_l; [exact Hq|]. eapply soq_quiet_l; [|by eapply tryExecuteTask_effect].
    by eapply put_quiet.
Qed.
End changes.
