(* ===== verification/ExecutorInvariant.v ===== *)
(** * executors: what every handler preserves

    [exec_inv]: [running] counts the goroutines of the tasks; a task has at most
    one goroutine and is not New while it has one, or while the loop ends its
    execution; the loop returns, and the
    termination channel is closed, exactly in the status Terminated, with nothing
    running and nothing queued. *)

From S2P Require Import Prelude.
From S2P Require Import ContainerList.
From S2P Require Import QueueInterface.
From S2P Require Import Task.
From S2P Require Import Executor.

Section invariant.
Context {Q H : Type} `{TaskQueue Q H} (clk : nat -> Z).
Implicit Types (e : Exec Q H) (t : nat) (tk : Task H).

(** A goroutine in phase [p] of the task [t]. *)
Definition goroutine_ok e (t : nat) (p : GoPhase) : Prop :=
  (exists tk, ex_tasks e !! t = Some tk /\ task_status tk <> TaskNew) /\
  (forall ld v er, p = GoSetDone ld v er -> ld <> TaskDone).

(** The tasks that execute: those with a goroutine, and the one whose completed
    event the loop is working on. *)
Definition executing e : list nat := (fst <$> ex_live e) ++ loop_task (ex_loop e).

Record live_inv e : Prop := {
  li_running : ex_running e = Z.of_nat (length (ex_live e));
  li_unique : NoDup (executing e);
  li_ok : forall t p, (t, p) ∈ ex_live e -> goroutine_ok e t p;
  li_tasks : forall t tk, ex_tasks e !! t = Some tk -> wf_task tk;
  li_loop : forall t, t ∈ loop_task (ex_loop e) ->
    exists tk, ex_tasks e !! t = Some tk /\ task_status tk <> TaskNew;
  li_cas : forall t ld, ex_loop e = AtSetDoneCas t ld -> ld <> TaskDone;
}.

Lemma live_executing e t p : (t, p) ∈ ex_live e -> t ∈ executing e.
Proof. intros Hin. apply elem_of_app. left. by apply (list_elem_of_fmap_2 fst) in Hin. Qed.

(** A task that executes exists and is not New. *)
Lemma executing_task e t : live_inv e -> t ∈ executing e ->
  exists tk, ex_tasks e !! t = Some tk /\ task_status tk <> TaskNew.
Proof.
  intros Hl [Hin|Hin]%elem_of_app; [|by apply (li_loop _ Hl)].
  apply list_elem_of_fmap in Hin as ([t' p] & -> & Hin). by destruct (li_ok _ Hl _ _ Hin).
Qed.

Lemma executing_not_new e t tk : live_inv e -> ex_tasks e !! t = Some tk -> t ∈ executing e ->
  task_status tk <> TaskNew.
Proof. intros Hl Ht Hin. destruct (executing_task _ _ Hl Hin) as (? & ? & ?). congruence. Qed.

Lemma live_unique e : live_inv e -> NoDup (fst <$> ex_live e).
Proof. by intros [_ [? _]%NoDup_app _ _ _ _]. Qed.

Definition loop_inv e : Prop :=
  (ex_status e = Terminated /\ ex_terminationChn e = true /\ ex_stopped e = true /\
   ex_running e = 0 /\ QueueLength e = 0) \/
  (ex_status e <> Terminated /\ ex_terminationChn e = false /\ ex_stopped e = false).

Definition exec_inv e : Prop := live_inv e /\ loop_inv e.

(** A task with a goroutine is not the one that the loop works on. *)
Lemma live_not_loop e t p : live_inv e -> (t, p) ∈ ex_live e -> t ∉ loop_task (ex_loop e).
Proof.
  intros [_ (_ & Hd & _)%NoDup_app _ _ _ _] Hin Hin'.
  apply (list_elem_of_fmap_2 fst) in Hin. by apply (Hd _ Hin).
Qed.

(** The state in which the loop waits for its next event. *)
Definition looping e : Prop :=
  live_inv e /\ ex_status e <> Terminated /\ ex_terminationChn e = false /\ ex_stopped e = false /\
  ex_loop e = AtSelect.

Lemma looping_inv e : looping e -> exec_inv e.
Proof. intros (? & ? & ? & ? & _). split; [done|by right]. Qed.

Lemma inv_looping e : exec_inv e -> ex_stopped e = false -> ex_loop e = AtSelect -> looping e.
Proof. intros [? [(? & ? & ? & _)|(? & ? & ?)]] Hs ?; [congruence|]. by split_and!. Qed.

(** The loop works on, or waits for, an event. *)
Definition running_loop e : Prop :=
  live_inv e /\ ex_status e <> Terminated /\ ex_terminationChn e = false /\ ex_stopped e = false.

Lemma inv_running_loop e : exec_inv e -> ex_stopped e = false -> running_loop e.
Proof. intros [? [(? & ? & ? & _)|(? & ? & ?)]] Hs; [congruence|]. by split_and!. Qed.

Lemma running_loop_inv e : running_loop e -> exec_inv e.
Proof. intros (? & ? & ? & ?). split; [done|by right]. Qed.

Lemma wf_task_life tk tk' : life tk = life tk' -> wf_task tk -> wf_task tk'.
Proof.
  intros Hl. destruct (life_fields _ _ Hl) as (Hs & _ & _ & Hd & _).
  unfold wf_task. by rewrite Hs, Hd.
Qed.

Lemma live_inv_quiet e e' : quiet e e' -> live_inv e -> live_inv e'.
Proof.
  intros Hq [Hr Hu Ho Ht Hlp Hc]. pose proof (quiet_fields _ _ Hq) as (_ & _ & _ & Hr' & _ & _ & _ & Hl').
  pose proof (quiet_loop _ _ Hq) as Hpc.
  split.
  - by rewrite Hr', Hl'.
  - unfold executing. by rewrite Hl', Hpc.
  - rewrite Hl'. intros t p Hin. destruct (Ho _ _ Hin) as [(tk & Htk & Hs) Hp]. split; [|done].
    destruct (quiet_task _ _ _ _ Hq Htk) as (tk' & Htk' & Hl). exists tk'. split; [done|].
    by destruct (life_fields _ _ Hl) as (<- & _).
  - intros t tk Htk. destruct (quiet_task e' e t tk) as (tk0 & Htk0 & Hl); [done..|].
    eapply wf_task_life; [done|eauto].
  - rewrite Hpc. intros t Hin. destruct (Hlp _ Hin) as (tk & Htk & Hs).
    destruct (quiet_task _ _ _ _ Hq Htk) as (tk' & Htk' & Hl). exists tk'. split; [done|].
    by destruct (life_fields _ _ Hl) as (<- & _).
  - by rewrite Hpc.
Qed.

Lemma looping_quiet e e' : quiet e e' -> looping e -> looping e'.
Proof.
  intros Hq (Hl & Hs & Hc & Hst & Hpc). rewrite <- (quiet_loop _ _ Hq) in Hpc. pose proof (quiet_fields _ _ Hq) as (Hs' & _ & _ & _ & _ & Hc' & Hst' & _).
  split_and!; [by eapply live_inv_quiet|congruence..].
Qed.

(** Changing the task [t] of a state in which no goroutine needs it to be New. *)
Lemma live_inv_put e t tk : live_inv e -> wf_task tk ->
  (t ∈ executing e -> task_status tk <> TaskNew) ->
  live_inv (set_tasks (<[t := tk]> (ex_tasks e)) e).
Proof.
  intros Hl Hwf Hnew. pose proof Hl as [Hr Hu Ho Ht Hp Hc].
  assert (forall t', t' ∈ executing e -> exists tk', <[t := tk]> (ex_tasks e) !! t' = Some tk' /\
    task_status tk' <> TaskNew) as Hex.
  { intros t' Hin. destruct (decide (t = t')) as [<-|Hne].
    - exists tk. rewrite lookup_insert_eq. split; [done|]. by apply Hnew.
    - rewrite lookup_insert_ne by done. by apply executing_task. }
  split; cbn; [done|done| |..].
  - intros t' p Hin. destruct (Ho _ _ Hin) as [_ Hld]. split; [|done]. eauto using live_executing.
  - intros t' tk'. rewrite lookup_insert. case_decide; intros; simplify_eq; eauto.
  - intros t' Hin. apply Hex, elem_of_app. by right.
  - done.
Qed.

Lemma live_inv_start e t tk : live_inv e -> ex_tasks e !! t = Some tk -> task_status tk = TaskNew ->
  live_inv (set_live (ex_running e + 1) (ex_live e ++ [(t, GoRun)])
    (set_tasks (<[t := with_status TaskRunning tk]> (ex_tasks e)) e)).
Proof.
  intros Hinv Htk Hs.
  assert (t ∉ executing e) as Hnin by (intros Hin; by apply (executing_not_new _ _ _ Hinv Htk Hin)).
  assert (live_inv (set_tasks (<[t := with_status TaskRunning tk]> (ex_tasks e)) e)) as [Hr Hu Ho Ht Hp Hc].
  { apply live_inv_put; [done| |done]. apply with_status_wf; [|congruence|done].
    by eapply li_tasks. }
  split; cbn in *; [rewrite length_app; cbn; lia| |..|done|done].
  - unfold executing in *. cbn in *. rewrite fmap_app, <- app_assoc. cbn.
    rewrite <- Permutation_middle. by apply NoDup_cons.
  - intros t' p [Hin|Hin]%elem_of_app; [by apply Ho|].
    apply list_elem_of_singleton in Hin as [= -> ->].
    split; [|done]. exists (with_status TaskRunning tk). cbn. by rewrite lookup_insert_eq.
  - done.
Qed.

Lemma looping_soq e e' : started_or_quiet e e' -> looping e -> looping e'.
Proof.
  intros [Hq|(_ & t & tk & Htk & Hs & Hq)] Hl; [by eapply looping_quiet|].
  eapply looping_quiet; [exact Hq|]. destruct Hl as (Hl & ? & ? & ? & ?).
  split_and!; [by apply live_inv_start|done..].
Qed.

(** [tryRunNextTask] and what follows it. *)
Lemma next_effect_true e e' : next_effect e true e' -> looping e -> looping e'.
Proof.
  intros Hn Hl. inv Hn; [by eapply looping_soq|].
  destruct Hl as ([] & ? & ? & ? & ?). by split_and!.
Qed.

Lemma next_effect_false e e' : next_effect e false e' -> looping e -> exec_inv (set_stopped true e').
Proof.
  intros Hn Hl. inv Hn. destruct Hl as ([] & ? & ? & ? & _). split; [by split|].
  left. unfold QueueLength in *. cbn. split_and!; try done. lia.
Qed.

Lemma run_next_or_return_inv e e' u : run_next_or_return clk e = Some (u, e') -> looping e -> exec_inv e'.
Proof.
  unfold run_next_or_return. intros Hm Hl. einv.
  all: match goal with Hx : tryRunNextTask _ _ = _ |- _ => apply tryRunNextTask_effect in Hx end.
  - eauto using looping_inv, next_effect_true.
  - by eapply next_effect_false.
Qed.

Lemma start_queued_inv fuel e e' u : start_queued clk fuel e = Some (u, e') -> looping e -> exec_inv e'.
Proof.
  revert e. induction fuel as [|fuel IH]; intros e Hm Hl; cbn [start_queued] in Hm; einv.
  1, 2: by apply looping_inv.
  all: match goal with Hx : tryRunNextTask _ _ = _ |- _ => apply tryRunNextTask_effect in Hx end.
  - eauto using next_effect_true.
  - by eapply next_effect_false.
Qed.

(** ** The handlers *)
Lemma looping_put e t tk : looping e -> wf_task tk ->
  (t ∈ executing e -> task_status tk <> TaskNew) ->
  looping (set_tasks (<[t := tk]> (ex_tasks e)) e).
Proof. intros (? & ? & ? & ? & ?) ? ?. split_and!; [by apply live_inv_put|done..]. Qed.

(** Fields the invariant does not read. *)
Lemma live_inv_frame e e' : live_inv e ->
  ex_running e' = ex_running e -> ex_live e' = ex_live e -> ex_tasks e' = ex_tasks e ->
  ex_loop e' = ex_loop e -> live_inv e'.
Proof.
  intros [Hr Hu Ho Ht Hp Hc] Er El Et Ep.
  split; unfold executing in *; rewrite ?Er, ?El, ?Et, ?Ep; try done.
  intros t p Hin. destruct (Ho _ _ Hin) as [(tk & ? & ?) ?]. split; [|done]. exists tk. by rewrite Et.
Qed.

Lemma looping_frame e e' : looping e -> ex_loop e' = ex_loop e ->
  ex_running e' = ex_running e -> ex_live e' = ex_live e -> ex_tasks e' = ex_tasks e ->
  ex_status e' <> Terminated -> ex_terminationChn e' = ex_terminationChn e ->
  ex_stopped e' = ex_stopped e -> looping e'.
Proof.
  intros (? & ? & ? & ? & ?) ? ? ? ? ? ? ?. split_and!; [by eapply live_inv_frame|done|congruence..].
Qed.

Lemma onSubmitted_inv t e e' u : onSubmitted clk t e = Some (u, e') -> looping e -> looping e'.
Proof. intros Hm. apply looping_soq. by eapply tryExecuteTask_effect. Qed.

Lemma onTimer_effect e e' u : onTimer clk e = Some (u, e') -> started_or_quiet e e'.
Proof.
  unfold onTimer. intros Hm. einv; [by left|..].
  all: match goal with Hx : configureSchedulerTimer _ _ = _ |- _ =>
         apply configureSchedulerTimer_quiet in Hx; eapply soq_quiet_r; [|exact Hx] end.
  - destruct (tq_pop _) as [[q t']|]; [|done]. cbn in *. simplify_eq.
    eapply soq_quiet_l; [|by eapply tryExecuteTask_effect].
    eapply put_quiet_after; [|done|done]. done.
  - by left.
Qed.

Lemma onTimer_inv e e' u : onTimer clk e = Some (u, e') -> looping e -> looping e'.
Proof. intros Hm. apply looping_soq. by eapply onTimer_effect. Qed.

Lemma onUpdateConcurrency_inv n e e' u :
  onUpdateConcurrency clk n e = Some (u, e') -> looping e -> exec_inv e'.
Proof.
  unfold onUpdateConcurrency. intros Hm Hl. einv. eapply start_queued_inv; [done|].
  eapply looping_frame; [exact Hl|done..|apply Hl|done|done].
Qed.

Lemma onUpdateQueueCapacity_inv n e e' u :
  onUpdateQueueCapacity n e = Some (u, e') -> looping e -> looping e'.
Proof.
  unfold onUpdateQueueCapacity. intros Hm Hl. einv.
  eapply looping_frame; [exact Hl|done..|apply Hl|done|done].
Qed.

Lemma onCancel_inv e e' b : onCancel clk e = Some (b, e') -> looping e -> exec_inv e'.
Proof.
  unfold onCancel. intros Hm Hl. einv.
  - by apply looping_inv.
  - eapply run_next_or_return_inv; [done|]. by eapply looping_frame; [exact Hl|done..].
  - by eapply run_next_or_return_inv.
Qed.

Lemma onCancelNow_inv e e' r : onCancelNow clk e = Some (r, e') -> looping e -> exec_inv e'.
Proof.
  unfold onCancelNow. intros Hm Hl. einv.
  - by apply looping_inv.
  - eapply run_next_or_return_inv; [done|]. by eapply looping_frame; [exact Hl|done..].
  - eapply run_next_or_return_inv; [done|].
    eapply looping_frame; [exact Hl|done..|apply Hl|done|done].
Qed.

Lemma onCanceled_inv t e e' u : onCanceled t e = Some (u, e') -> looping e -> looping e'.
Proof.
  unfold onCanceled. intros Hm Hl. einv.
  all: match goal with Ht : ex_tasks ?s !! ?t = Some ?tk |- _ =>
         pose proof (li_tasks _ (proj1 Hl) _ _ Ht) as Hwf;
         pose proof (executing_not_new _ _ _ (proj1 Hl) Ht) as Hnew;
         pose proof (looping_put s t (with_result (value tk) (Some ErrCanceled) tk) Hl Hwf Hnew) as Hl'
       end; try done.
  all: repeat case_match; einv;
    repeat match goal with
    | Hx : queue_remove _ _ = _ |- _ => apply queue_remove_quiet in Hx
    | Hx : sched_remove _ _ = _ |- _ => apply sched_remove_quiet in Hx
    end; eauto using looping_quiet.
Qed.

(** *** The completed event *)
Lemma drop_live_split t (l : list (nat * GoPhase)) :
  NoDup (fst <$> l) -> (t, GoSend) ∈ l ->
  exists l1 l2, l = l1 ++ (t, GoSend) :: l2 /\ drop_live t l = l1 ++ l2 /\ t ∉ fst <$> l1 ++ l2.
Proof.
  intros Hu (l1 & l2 & ->)%list_elem_of_split. exists l1, l2. split; [done|].
  rewrite fmap_app, fmap_cons in Hu. cbn in Hu. apply NoDup_app in Hu as (_ & H1 & Hu).
  apply NoDup_cons in Hu as [H2 _].
  assert (forall l', (forall x, x ∈ l' -> x ∈ l1 ++ l2) -> t ∉ fst <$> l' -> drop_live t l' = l') as Hid.
  { intros l' _ Hnin. induction l' as [|[t' p] l' IH]; [done|]. unfold drop_live in *.
    rewrite fmap_cons in Hnin. rewrite filter_cons_True by (intros [= -> ->]; set_solver).
    f_equal. apply IH. set_solver. }
  assert (t ∉ fst <$> l1) by (intros Hin; apply (H1 _ Hin); set_solver).
  unfold drop_live in *. rewrite filter_app, filter_cons_False by naive_solver.
  rewrite !Hid by set_solver. split; [done|]. rewrite fmap_app. set_solver.
Qed.

(** The loop takes the place of the goroutine that has ended. *)
Lemma executing_receive t e : live_inv e -> (t, GoSend) ∈ ex_live e -> ex_loop e = AtSelect ->
  executing (set_loop (AtDone t) (set_live (ex_running e - 1) (drop_live t (ex_live e)) e)) ≡ₚ executing e.
Proof.
  intros Hl Hin Hp. destruct (drop_live_split t _ (live_unique _ Hl) Hin) as (l1 & l2 & E & Ed & _).
  unfold executing. cbn. rewrite Ed, E, Hp. cbn. rewrite !fmap_app, app_nil_r, fmap_cons.
  by rewrite (Permutation_app_comm _ [t]), <- Permutation_middle.
Qed.

Lemma receive_completed_inv t e e' u : receive_completed t e = Some (u, e') -> looping e ->
  (t, GoSend) ∈ ex_live e -> running_loop e'.
Proof.
  unfold receive_completed, loop_goto. intros Hm (Hl & ? & ? & ? & Hp) Hin. einv. split_and!; [|done..].
  destruct (drop_live_split t _ (live_unique _ Hl) Hin) as (l1 & l2 & E & Ed & Hnin).
  pose proof (executing_receive t e Hl Hin Hp) as Hex.
  assert (t ∈ executing e) as Hint by by eapply live_executing.
  destruct Hl as [Hr Hu Ho Ht Hlp Hc]. split; cbn.
  - rewrite Ed, Hr, E, !length_app. cbn. lia.
  - by rewrite Hex.
  - intros t' p. rewrite Ed. intros Hin'. apply (Ho t' p). rewrite E. set_solver.
  - done.
  - intros t' ->%list_elem_of_singleton. by apply executing_task.
  - done.
Qed.

(** The loop goes on, with the same task or none. *)
Lemma live_inv_loop e pc : live_inv e -> loop_task pc ⊆ loop_task (ex_loop e) ->
  (forall t ld, pc = AtSetDoneCas t ld -> ld <> TaskDone) -> live_inv (set_loop pc e).
Proof.
  intros [Hr Hu Ho Ht Hp Hc] Hsub Hcas. split; cbn; try done; [|by eauto].
  unfold executing in *. cbn. apply NoDup_app in Hu as (? & Hd & _). apply NoDup_app. split_and!; [done| |].
  - intros t Hin Hin'. by apply (Hd t Hin), Hsub.
  - destruct pc; cbn; first [apply NoDup_nil_2 | apply NoDup_singleton].
Qed.

Lemma running_loop_goto e pc : running_loop e -> loop_task pc ⊆ loop_task (ex_loop e) ->
  (forall t ld, pc = AtSetDoneCas t ld -> ld <> TaskDone) -> running_loop (set_loop pc e).
Proof. intros (? & ? & ? & ?) ? ?. split_and!; [by apply live_inv_loop|done..]. Qed.

Lemma running_loop_put e t tk : running_loop e -> wf_task tk ->
  (t ∈ executing e -> task_status tk <> TaskNew) ->
  running_loop (set_tasks (<[t := tk]> (ex_tasks e)) e).
Proof. intros (? & ? & ? & ?) ? ?. split_and!; [by apply live_inv_put|done..]. Qed.

Lemma running_loop_quiet e e' : quiet e e' -> running_loop e -> running_loop e'.
Proof.
  intros Hq (Hl & Hs & Hc & Hst). pose proof (quiet_fields _ _ Hq) as (Hs' & _ & _ & _ & _ & Hc' & Hst' & _).
  split_and!; [by eapply live_inv_quiet|congruence..].
Qed.

Lemma requeue_effect t e e' u : requeue clk t e = Some (u, e') ->
  exists now tk tk1, ex_tasks e !! t = Some tk /\ next_set now tk = Some tk1 /\
    quiet (set_tasks (<[t := configureContext tk1]> (ex_tasks e)) e) e'.
Proof.
  unfold requeue. intros Hm. einv.
  all: eexists _, _, _; (split_and!; [done|done|]).
  - match goal with Hx : sched_push _ _ _ = _ |- _ => apply sched_push_quiet in Hx end.
    match goal with Hx : configureSchedulerTimer _ _ = _ |- _ => apply configureSchedulerTimer_quiet in Hx end.
    eapply quiet_trans; [|done]. done.
  - match goal with Hx : queue_push _ _ = _ |- _ => apply queue_push_quiet in Hx end. done.
Qed.

Lemma requeue_inv t e e' u : requeue clk t e = Some (u, e') -> running_loop e -> running_loop e'.
Proof.
  intros (now & tk & tk1 & Ht & E & Hq)%requeue_effect Hl. eapply running_loop_quiet; [exact Hq|].
  destruct (next_set_fields _ _ _ E) as (Es & Ed & _).
  apply running_loop_put; [done| |].
  - pose proof (li_tasks _ (proj1 Hl) _ _ Ht) as Hw. unfold wf_task in *. cbn. by rewrite Es, Ed.
  - intros Hin. cbn. rewrite Es. exact (executing_not_new _ _ _ (proj1 Hl) Ht Hin).
Qed.

Lemma completed_step_inv pc e e' u : completed_step clk pc e = Some (u, e') -> running_loop e ->
  ex_loop e = pc -> exec_inv e'.
Proof.
  intros Hm Hl Hpc. pose proof (running_loop_inv _ Hl) as Hi. pose proof Hl as ([_ _ _ Hwf _ Hcas] & _).
  assert (forall pc', loop_task pc' ⊆ loop_task pc -> (forall t ld, pc' = AtSetDoneCas t ld -> ld <> TaskDone) ->
    running_loop (set_loop pc' e)) as Hgo by (intros ? ?; apply running_loop_goto; [done|by rewrite Hpc]).
  destruct pc; cbn [completed_step] in Hm; unfold loop_goto in *; einv; [done|..].
  8: { eapply run_next_or_return_inv; [done|]. destruct (Hgo AtSelect) as (? & ? & ? & ?);
         [set_solver|done|]. by split_and!. }
  all: apply running_loop_inv.
  - destruct (Done _); (apply Hgo; [set_solver|done]).
  - repeat case_match; (apply Hgo; [set_solver|done]).
  - unfold Done. case_bool_decide; (apply Hgo; [set_solver|]); [done|]. by intros ? ? [= <- <-].
  - apply (running_loop_put (set_loop AtRunNext e)); [apply Hgo; [set_solver|done]|..].
    all: match goal with Hx : setDone_cas _ _ _ ?tk = _ |- _ =>
           destruct (setDone_cas_total loaded None (Some ErrCanceled) tk) as (b & tk' & E & ? & Hst);
             [by eauto|by eapply Hcas|rewrite E in Hx; simplify_eq; cbn] end.
    { done. }
    intros Hin. destruct Hst as [-> | ->]; [|done]. eapply executing_not_new; [apply Hl|done|].
    apply elem_of_app in Hin as [?|?%elem_of_nil]; [|done]. by apply elem_of_app; left.
  - apply Hgo; [set_solver|done].
  - match goal with Hx : next_cas _ = _ |- _ => apply next_cas_spec in Hx as [Hr ->] end.
    apply (running_loop_put (set_loop (AtRequeue t) e)); [apply Hgo; [set_solver|done]| |].
    + apply with_status_wf; [by eauto|congruence|done].
    + unfold executing. cbn. rewrite app_nil_r. intros Hin. exfalso.
      destruct Hl as ([_ Hu _ _ _ _] & _). unfold executing in Hu. rewrite Hpc in Hu.
      apply NoDup_app in Hu as (_ & Hd & _). apply (Hd _ Hin). cbn. set_solver.
  - match goal with Hx : requeue _ _ _ = _ |- _ => apply requeue_inv in Hx; [|done] end.
    apply running_loop_goto; [done|set_solver|done].
Qed.
End invariant.

(** ** How a handler changes status, concurrency and the running count *)
Section evolution.
Context {Q H : Type} `{TaskQueue Q H} (clk : nat -> Z).
Implicit Types (e : Exec Q H) (t : nat) (tk : Task H).

(** The status only advances, the limit stays, and a new goroutine fits it. *)
Record evolves e e' : Prop := {
  ev_status : exec_status_code (ex_status e) <= exec_status_code (ex_status e');
  ev_limit : ex_concurrency e' = ex_concurrency e;
  ev_running : ex_running e' <= ex_running e \/ ex_concurrency e < 0 \/ ex_running e' <= ex_concurrency e;
}.

Lemma evolves_refl e : evolves e e.
Proof. split; [lia|done|lia]. Qed.

Lemma evolves_trans e1 e2 e3 : evolves e1 e2 -> evolves e2 e3 -> evolves e1 e3.
Proof. intros [? E1 ?] [? E2 ?]. rewrite E1 in *. split; [lia|congruence|lia]. Qed.

Lemma evolves_same e e' : exec_status_code (ex_status e) <= exec_status_code (ex_status e') ->
  ex_concurrency e' = ex_concurrency e -> ex_running e' <= ex_running e -> evolves e e'.
Proof. intros. split; [done|done|lia]. Qed.

Lemma evolves_quiet e e' : quiet e e' -> evolves e e'.
Proof.
  intros Hq. destruct (quiet_fields _ _ Hq) as (Hs & _ & Hc & Hr & _).
  apply evolves_same; [rewrite Hs; lia|done|lia].
Qed.

Lemma evolves_soq e e' : started_or_quiet e e' -> evolves e e'.
Proof.
  intros [Hq|(Hcan & t & tk & _ & _ & Hq)]; [by apply evolves_quiet|].
  destruct (quiet_fields _ _ Hq) as (Hs & _ & Hc & Hr & _). cbn in *.
  unfold canStartNewTask in Hcan. split; [rewrite Hs; lia|done|].
  rewrite Hr. repeat case_bool_decide; try done; lia.
Qed.

Lemma evolves_next e b e' : next_effect e b e' -> evolves e e'.
Proof.
  intros [e1 ?|Hs Hr ?|Hs ? ? ?]; [by apply evolves_soq|..]; apply evolves_same; cbn; try done; try lia.
  - rewrite Hs. cbn. lia.
  - destruct Hs as [-> | ->]; cbn; lia.
Qed.

Lemma evolves_run_next e e' u : run_next_or_return clk e = Some (u, e') -> evolves e e'.
Proof.
  unfold run_next_or_return. intros Hm. einv.
  all: match goal with Hx : tryRunNextTask _ _ = _ |- _ => apply tryRunNextTask_effect, evolves_next in Hx end.
  - done.
  - eapply evolves_trans; [done|]. by apply evolves_same.
Qed.

Lemma evolves_start_queued fuel e e' u : start_queued clk fuel e = Some (u, e') -> evolves e e'.
Proof.
  revert e. induction fuel as [|fuel IH]; intros e Hm; cbn [start_queued] in Hm; einv.
  1, 2: apply evolves_refl.
  all: match goal with Hx : tryRunNextTask _ _ = _ |- _ => apply tryRunNextTask_effect, evolves_next in Hx end.
  - eauto using evolves_trans.
  - eapply evolves_trans; [done|]. by apply evolves_same.
Qed.

Lemma evolves_receive_completed t e e' u : receive_completed t e = Some (u, e') -> evolves e e'.
Proof. unfold receive_completed, loop_goto. intros Hm. einv. apply evolves_same; cbn; lia. Qed.

Lemma evolves_completed_step pc e e' u : completed_step clk pc e = Some (u, e') -> evolves e e'.
Proof.
  intros Hm. destruct pc; cbn [completed_step] in Hm; unfold loop_goto in *; einv;
    try (by apply evolves_same).
  - match goal with Hx : requeue _ _ _ = _ |- _ =>
      apply requeue_effect in Hx as (? & ? & ? & _ & _ & Hq%evolves_quiet) end.
    eapply evolves_trans; [|eapply evolves_trans; [exact Hq|]]; by apply evolves_same.
  - eapply evolves_trans; [|by eapply evolves_run_next]. by apply evolves_same.
Qed.

Lemma evolves_onCanceled t e e' u : onCanceled t e = Some (u, e') -> evolves e e'.
Proof.
  unfold onCanceled. intros Hm. einv; repeat case_match; einv; try (by apply evolves_same).
  all: repeat match goal with
    | Hx : queue_remove _ _ = _ |- _ => apply queue_remove_quiet, evolves_quiet in Hx
    | Hx : sched_remove _ _ = _ |- _ => apply sched_remove_quiet, evolves_quiet in Hx
    end; eauto using evolves_trans.
  all: (eapply evolves_trans; [|done]); try (eapply evolves_trans; [|done]); by apply evolves_same.
Qed.

Lemma evolves_onCancel e e' b : onCancel clk e = Some (b, e') -> evolves e e'.
Proof.
  unfold onCancel. intros Hm. einv; [apply evolves_refl|..]; [|by eapply evolves_run_next].
  match goal with Hb : bool_decide (_ = ExecRunning) = true |- _ => apply bool_decide_eq_true in Hb end.
  eapply evolves_trans; [|by eapply evolves_run_next].
  apply evolves_same; cbn; [|lia..]. match goal with Hb : _ = ExecRunning |- _ => rewrite Hb end. cbn. lia.
Qed.

Lemma evolves_onCancelNow e e' r : onCancelNow clk e = Some (r, e') -> evolves e e'.
Proof.
  unfold onCancelNow. intros Hm. einv; [apply evolves_refl|..];
    (eapply evolves_trans; [|by eapply evolves_run_next]); apply evolves_same; cbn; try lia.
  match goal with Hb : bool_decide (_ = ShuttingDown) = true |- _ => apply bool_decide_eq_true in Hb; rewrite Hb end.
  cbn. lia.
Qed.
End evolution.

(** ** The loop cancels no task

    A task that is Cancelling after a handler was so before, with the same
    [canceled] flag. *)
Section kept.
Context {Q H : Type} `{TaskQueue Q H} (clk : nat -> Z).
Implicit Types (e : Exec Q H) (t : nat) (tk : Task H).

Definition kept e e' : Prop := forall t tk',
  ex_tasks e' !! t = Some tk' -> task_status tk' = TaskCancelling ->
  exists tk, ex_tasks e !! t = Some tk /\ task_status tk = TaskCancelling /\ canceled tk' = canceled tk.

Lemma kept_same e e' : ex_tasks e' = ex_tasks e -> kept e e'.
Proof. intros E t tk' Ht Hs. rewrite E in Ht. eauto. Qed.

Lemma kept_trans e1 e2 e3 : kept e1 e2 -> kept e2 e3 -> kept e1 e3.
Proof.
  intros H1 H2 t tk Ht Hs. destruct (H2 _ _ Ht Hs) as (tk2 & Ht2 & Hs2 & ->).
  destruct (H1 _ _ Ht2 Hs2) as (tk1 & ? & ? & ->). eauto.
Qed.

Lemma kept_quiet e e' : quiet e e' -> kept e e'.
Proof.
  intros Hq t tk' Ht Hs. destruct (quiet_task e' e t tk') as (tk & Htk & Hl); [done..|].
  destruct (life_fields _ _ Hl) as (E & _ & _ & _ & ? & _). exists tk. split_and!; congruence.
Qed.

Lemma kept_put e t tk : (task_status tk = TaskCancelling -> exists tk0, ex_tasks e !! t = Some tk0 /\
    task_status tk0 = TaskCancelling /\ canceled tk = canceled tk0) ->
  kept e (set_tasks (<[t := tk]> (ex_tasks e)) e).
Proof.
  intros Hk t' tk' Ht Hs. cbn in Ht. rewrite lookup_insert in Ht. case_decide; simplify_eq; eauto.
Qed.

Lemma kept_soq e e' : started_or_quiet e e' -> kept e e'.
Proof.
  intros [Hq|(_ & t & tk & _ & _ & Hq)]; [by apply kept_quiet|].
  eapply kept_trans; [|by apply kept_quiet].
  eapply kept_trans; [apply (kept_put e t (with_status TaskRunning tk)); done|]. by apply kept_same.
Qed.

Lemma kept_next e b e' : next_effect e b e' -> kept e e'.
Proof. intros [e1 ?| |]; [by apply kept_soq|by apply kept_same..]. Qed.

Lemma kept_run_next e e' u : run_next_or_return clk e = Some (u, e') -> kept e e'.
Proof.
  unfold run_next_or_return. intros Hm. einv.
  all: match goal with Hx : tryRunNextTask _ _ = _ |- _ => apply tryRunNextTask_effect, kept_next in Hx end.
  - done.
  - eapply kept_trans; [done|]. by apply kept_same.
Qed.

Lemma kept_start_queued fuel e e' u : start_queued clk fuel e = Some (u, e') -> kept e e'.
Proof.
  revert e. induction fuel as [|fuel IH]; intros e Hm; cbn [start_queued] in Hm; einv.
  1, 2: by apply kept_same.
  all: match goal with Hx : tryRunNextTask _ _ = _ |- _ => apply tryRunNextTask_effect, kept_next in Hx end.
  - eauto using kept_trans.
  - eapply kept_trans; [done|]. by apply kept_same.
Qed.

Lemma kept_onUpdateConcurrency n e e' u : onUpdateConcurrency clk n e = Some (u, e') -> kept e e'.
Proof.
  unfold onUpdateConcurrency. intros Hm. einv. eapply kept_trans; [|by eapply kept_start_queued].
  by apply kept_same.
Qed.

Lemma kept_receive_completed t e e' u : receive_completed t e = Some (u, e') -> kept e e'.
Proof. unfold receive_completed, loop_goto. intros Hm. einv. by apply kept_same. Qed.

Lemma kept_requeue t e e' u : requeue clk t e = Some (u, e') -> kept e e'.
Proof.
  intros (now & tk & tk1 & Ht & E & Hq%kept_quiet)%requeue_effect. eapply kept_trans; [|exact Hq].
  destruct (next_set_fields _ _ _ E) as (Es & _ & _ & _ & Ec & _).
  apply kept_put. cbn. rewrite Es, Ec. eauto.
Qed.

Lemma kept_completed_step pc e e' u : completed_step clk pc e = Some (u, e') ->
  running_loop e -> ex_loop e = pc -> kept e e'.
Proof.
  intros Hm ([_ _ _ Hwf _ Hcas] & _) Hpc.
  destruct pc; cbn [completed_step] in Hm; unfold loop_goto in *; einv; try (by apply kept_same).
  - match goal with Hx : setDone_cas _ _ _ ?tk = _ |- _ =>
      destruct (setDone_cas_total loaded None (Some ErrCanceled) tk) as (b & tk' & E & _ & Hst);
        [by eauto|by eapply Hcas|rewrite E in Hx; simplify_eq; cbn] end.
    eapply kept_trans; [apply kept_put|by apply kept_same].
    destruct Hst as [->|Hst]; [by eauto|]. cbn. congruence.
  - match goal with Hx : next_cas _ = _ |- _ => apply next_cas_spec in Hx as [Hr ->] end.
    eapply kept_trans; [apply kept_put|by apply kept_same]. done.
  - match goal with Hx : requeue _ _ _ = _ |- _ => apply kept_requeue in Hx end.
    eapply kept_trans; [done|by apply kept_same].
  - eapply kept_trans; [|by eapply kept_run_next]. by apply kept_same.
Qed.

Lemma kept_onCanceled t e e' u : onCanceled t e = Some (u, e') -> kept e e'.
Proof.
  unfold onCanceled. intros Hm. einv; repeat case_match; einv;
    repeat match goal with
    | Hx : queue_remove _ _ = _ |- _ => apply queue_remove_quiet, kept_quiet in Hx
    | Hx : sched_remove _ _ = _ |- _ => apply sched_remove_quiet, kept_quiet in Hx
    end;
    repeat (eapply kept_trans; [|eassumption]); first [by apply kept_same | apply kept_put; eauto].
Qed.

Lemma kept_onCancel e e' b : onCancel clk e = Some (b, e') -> kept e e'.
Proof.
  unfold onCancel. intros Hm. einv; [by apply kept_same|..];
    (eapply kept_trans; [|by eapply kept_run_next]); by apply kept_same.
Qed.

Lemma kept_onCancelNow e e' r : onCancelNow clk e = Some (r, e') -> kept e e'.
Proof.
  unfold onCancelNow. intros Hm. einv; [by apply kept_same|..];
    (eapply kept_trans; [|by eapply kept_run_next]); by apply kept_same.
Qed.

(** The cases that run in one step leave the loop where it is. *)
Definition stays e e' : Prop := ex_loop e' = ex_loop e.

Lemma stays_trans e1 e2 e3 : stays e1 e2 -> stays e2 e3 -> stays e1 e3.
Proof. unfold stays. congruence. Qed.

Lemma stays_soq e e' : started_or_quiet e e' -> stays e e'.
Proof. intros [Hq|(_ & t & tk & _ & _ & Hq)]; by apply quiet_loop in Hq. Qed.

Lemma stays_next e b e' : next_effect e b e' -> stays e e'.
Proof. intros [e1 ?| |]; [by apply stays_soq|done..]. Qed.

Lemma stays_run_next e e' u : run_next_or_return clk e = Some (u, e') -> stays e e'.
Proof.
  unfold run_next_or_return. intros Hm. einv;
    match goal with Hx : tryRunNextTask _ _ = _ |- _ => by apply tryRunNextTask_effect, stays_next in Hx end.
Qed.

Lemma stays_start_queued fuel e e' u : start_queued clk fuel e = Some (u, e') -> stays e e'.
Proof.
  revert e. induction fuel as [|fuel IH]; intros e Hm; cbn [start_queued] in Hm; einv; try done.
  all: match goal with Hx : tryRunNextTask _ _ = _ |- _ => apply tryRunNextTask_effect, stays_next in Hx end.
  - eauto using stays_trans.
  - done.
Qed.

Lemma stays_onUpdateConcurrency n e e' u : onUpdateConcurrency clk n e = Some (u, e') -> stays e e'.
Proof. unfold onUpdateConcurrency. intros Hm. einv. by eapply (stays_start_queued _ (set_concurrency n e)). Qed.

Lemma stays_onCanceled t e e' u : onCanceled t e = Some (u, e') -> stays e e'.
Proof.
  unfold onCanceled. intros Hm. einv; repeat case_match; einv;
    repeat match goal with
    | Hx : queue_remove _ _ = _ |- _ => apply queue_remove_quiet, quiet_loop in Hx
    | Hx : sched_remove _ _ = _ |- _ => apply sched_remove_quiet, quiet_loop in Hx
    end; unfold stays in *; cbn in *; congruence.
Qed.

Lemma stays_onCancel e e' b : onCancel clk e = Some (b, e') -> stays e e'.
Proof.
  unfold onCancel. intros Hm. einv; [done|..];
    match goal with Hx : run_next_or_return _ _ = _ |- _ => by apply stays_run_next in Hx end.
Qed.
End kept.
