(* ===== verification/ExecutorSystem.v ===== *)
(** * executors: the executor with its clients and goroutines

    One label per step: an event received by the loop, the steps of the case of
    the completed event, the pieces of a client's call between which others may
    run, the phases of a task's goroutine.  The other cases of the loop are one
    step each: they touch what others write only by the status of a task, which
    they load ([Runnable]) and then swap ([setRunning]); a [Cancel] that falls
    in between makes the swap fail, so that nothing is started, as when it comes
    before the load.  [sys_do] executes a label, [sys_run] a list of labels;
    [Stuck] is a step that is not possible in the state, [Crash] a panic that
    nobody recovers. *)

From S2P Require Import Prelude.
From S2P Require Import ContainerList.
From S2P Require Import QueueInterface.
From S2P Require Import Task.
From S2P Require Import Executor.
From S2P Require Import ExecutorInvariant.

Inductive Outcome (A : Type) : Type :=
| Stuck
| Crash
| Next (a : A).
Arguments Stuck {A}.
Arguments Crash {A}.
Arguments Next {A} a.

Inductive Label :=
| LSchedule (ty : TaskType) (initialDelay dl : Z)  (** a client's [schedule], up to its send *)
| LSubmitted (t : nat)                              (** the loop receives the submitted event *)
| LTimer                                            (** the timer fires *)
| LReturn (t : nat) (v : option nat) (er : option TaskErr)  (** the user's function returns *)
| LPanic (t : nat)                                  (** or panics *)
| LSetDone (t : nat)                                (** the compare-and-swap of [setDone] *)
| LCompleted (t : nat)                              (** the loop receives the completed event *)
| LLoop                                             (** and goes one step on in its case *)
| LCancelTask (t : nat)                             (** a client's [Cancel]: its compare-and-swap *)
| LCancelMark (t : nat)                             (** [canceled = true], [ctxCancel()] *)
| LCanceled (t : nat)                               (** the loop receives the canceled event *)
| LAwait (t : nat)
| LCtxCancel                                        (** the parent context is cancelled *)
| LCtxDone                                          (** the loop sees it and starts [go e.Cancel()] *)
| LCancelCall                                       (** a client's [Cancel] passes its check *)
| LCancel                                           (** the loop receives the cancel event *)
| LCancelNow
| LSetConcurrency (n : Z)
| LSetQueueCapacity (n : Z).

Fixpoint remove_first (t : nat) (l : list nat) : list nat :=
  match l with
  | [] => []
  | x :: l => if decide (x = t) then l else x :: remove_first t l
  end.

Definition phase_of (t : nat) (l : list (nat * GoPhase)) : option GoPhase :=
  snd <$> head (filter (fun g => g.1 = t) l).
Definition set_phase (t : nat) (p : GoPhase) (l : list (nat * GoPhase)) : list (nat * GoPhase) :=
  (fun g => if decide (g.1 = t) then (t, p) else g) <$> l.

Section system.
Context {Q H : Type} `{TaskQueue Q H} (clk : nat -> Z).

Record Sys := MkSys {
  sy_exec : Exec Q H;
  sy_pending : list nat;   (** tasks whose submitted event is being sent *)
  sy_marks : list nat;     (** tasks whose [Cancel] has made them Cancelling, and no more yet *)
  sy_cancels : list nat;   (** tasks whose canceled event is being sent *)
  sy_ctx : bool;           (** the context is cancelled *)
  sy_calls : nat;          (** cancel events being sent *)
}.

Definition upd_exec (e : Exec Q H) (s : Sys) : Sys :=
  MkSys e (sy_pending s) (sy_marks s) (sy_cancels s) (sy_ctx s) (sy_calls s).
Definition upd_pending (l : list nat) (s : Sys) : Sys :=
  MkSys (sy_exec s) l (sy_marks s) (sy_cancels s) (sy_ctx s) (sy_calls s).
Definition upd_marks (l : list nat) (s : Sys) : Sys :=
  MkSys (sy_exec s) (sy_pending s) l (sy_cancels s) (sy_ctx s) (sy_calls s).
Definition upd_cancels (l : list nat) (s : Sys) : Sys :=
  MkSys (sy_exec s) (sy_pending s) (sy_marks s) l (sy_ctx s) (sy_calls s).
Definition upd_ctx (b : bool) (s : Sys) : Sys :=
  MkSys (sy_exec s) (sy_pending s) (sy_marks s) (sy_cancels s) b (sy_calls s).
Definition upd_calls (n : nat) (s : Sys) : Sys :=
  MkSys (sy_exec s) (sy_pending s) (sy_marks s) (sy_cancels s) (sy_ctx s) n.

(** What the loop does; a loop that has returned does nothing. *)
Definition loop_run {A} (m : M (Exec Q H) A) (s : Sys) : Outcome Sys :=
  if ex_stopped (sy_exec s) then Stuck
  else match m (sy_exec s) with
       | None => Crash
       | Some (_, e) => Next (upd_exec e s)
       end.

(** A case of the loop's select statement. *)
Definition loop_event {A} (m : M (Exec Q H) A) (s : Sys) : Outcome Sys :=
  if decide (ex_loop (sy_exec s) = AtSelect) then loop_run m s else Stuck.

(** A write to the task [t] by another goroutine than the loop. *)
Definition write_task (t : nat) (tk : Task H) (s : Sys) : Sys :=
  upd_exec (set_tasks (<[t := tk]> (ex_tasks (sy_exec s))) (sy_exec s)) s.

Definition write_phase (t : nat) (p : GoPhase) (s : Sys) : Sys :=
  upd_exec (set_live (ex_running (sy_exec s)) (set_phase t p (ex_live (sy_exec s))) (sy_exec s)) s.

(** The goroutine of [t] calls [setDone(v, er)]: the load of the status. *)
Definition start_setDone (t : nat) (tk : Task H) (v : option nat) (er : option TaskErr) (s : Sys) : Sys :=
  write_phase t (if Done tk then GoSend else GoSetDone (task_status tk) v er) s.

Definition sys_do (l : Label) (s : Sys) : Outcome Sys :=
  let e := sy_exec s in
  match l with
  | LSchedule ty d dl =>
      match schedule clk ty d dl e with
      | None => Crash
      | Some (inl _, e') => Next (upd_exec e' s)
      | Some (inr t, e') => Next (upd_pending (sy_pending s ++ [t]) (upd_exec e' s))
      end
  | LSubmitted t =>
      if decide (t ∈ sy_pending s)
      then loop_event (onSubmitted clk t) (upd_pending (remove_first t (sy_pending s)) s)
      else Stuck
  | LTimer =>
      match ex_timer e with
      | Some d => if decide (d <= clk (ex_ticks e)) then loop_event (onTimer clk) s else Stuck
      | None => Stuck
      end
  | LReturn t v er =>
      match phase_of t (ex_live e), ex_tasks e !! t with
      | Some GoRun, Some tk =>
          if negb (bool_decide (er = None)) || negb (Periodic tk) then Next (start_setDone t tk v er s)
          else Next (write_phase t GoSend s)
      | _, _ => Stuck
      end
  | LPanic t =>
      match phase_of t (ex_live e), ex_tasks e !! t with
      | Some GoRun, Some tk => Next (start_setDone t tk None (Some ErrTaskPanic) s)
      | _, _ => Stuck
      end
  | LSetDone t =>
      match phase_of t (ex_live e), ex_tasks e !! t with
      | Some (GoSetDone ld v er), Some tk =>
          match setDone_cas ld v er tk with
          | None => Crash
          | Some (_, tk') => Next (write_phase t GoSend (write_task t tk' s))
          end
      | _, _ => Stuck
      end
  | LCompleted t =>
      if decide (phase_of t (ex_live e) = Some GoSend) then loop_event (receive_completed t) s else Stuck
  | LLoop =>
      if decide (ex_loop e = AtSelect) then Stuck
      else loop_run (completed_step clk (ex_loop e)) s
  | LCancelTask t =>
      match ex_tasks e !! t with
      | None => Stuck
      | Some tk =>
          match task_status tk with
          | TaskNew =>
              match cancel_new tk with
              | None => Crash
              | Some tk' => Next (upd_cancels (sy_cancels s ++ [t]) (write_task t tk' s))
              end
          | TaskRunning => Next (upd_marks (sy_marks s ++ [t]) (write_task t (cancel_running_cas tk) s))
          | _ => Next s
          end
      end
  | LCancelMark t =>
      match ex_tasks e !! t with
      | Some tk =>
          if decide (t ∈ sy_marks s)
          then Next (upd_cancels (sy_cancels s ++ [t]) (upd_marks (remove_first t (sy_marks s))
                 (write_task t (cancel_running_mark tk) s)))
          else Stuck
      | None => Stuck
      end
  | LCanceled t =>
      if decide (t ∈ sy_cancels s)
      then loop_event (onCanceled t) (upd_cancels (remove_first t (sy_cancels s)) s)
      else Stuck
  | LAwait t =>
      match ex_tasks e !! t with
      | Some tk => Next (write_task t (Await tk).2 s)
      | None => Stuck
      end
  | LCtxCancel => Next (upd_ctx true s)
  | LCtxDone =>
      if sy_ctx s && negb (ex_stopped e) && bool_decide (ex_loop e = AtSelect)
      then Next (if IsCanceled e then s else upd_calls (S (sy_calls s)) s) else Stuck
  | LCancelCall => Next (if IsCanceled e then s else upd_calls (S (sy_calls s)) s)
  | LCancel =>
      match sy_calls s with
      | O => Stuck
      | S n => loop_event (onCancel clk) (upd_calls n s)
      end
  | LCancelNow => loop_event (onCancelNow clk) s
  | LSetConcurrency n => loop_event (onUpdateConcurrency clk n) s
  | LSetQueueCapacity n => loop_event (onUpdateQueueCapacity n) s
  end.

Fixpoint sys_run (ls : list Label) (s : Sys) : Outcome Sys :=
  match ls with
  | [] => Next s
  | l :: ls =>
      match sys_do l s with
      | Next s' => sys_run ls s'
      | o => o
      end
  end.

Definition sys_start (sched : Q) (concurrency capacity : Z) : Sys :=
  MkSys (NewDefaultExecutor clk sched concurrency capacity) [] [] [] false 0.
End system.
Arguments Sys : clear implicits.

(** ** The invariant of every run *)
Section invariant.
Context {Q H : Type} `{TaskQueue Q H} (clk : nat -> Z).
Implicit Types (e : Exec Q H) (s : Sys Q H) (t : nat) (tk : Task H).

Lemma phase_of_elem t l p : phase_of t l = Some p -> (t, p) ∈ l.
Proof.
  clear clk. unfold phase_of. destruct (filter _ l) as [|[t' p'] l'] eqn:E; [done|]. cbn. intros [= ->].
  assert ((t', p) ∈ filter (fun g : nat * GoPhase => g.1 = t) l) as Hin by (rewrite E; set_solver).
  apply list_elem_of_filter in Hin as [Ht Hin]. cbn in Ht. by subst.
Qed.

Lemma set_phase_fst t p l : fst <$> set_phase t p l = fst <$> l.
Proof.
  unfold set_phase. rewrite <- list_fmap_compose. apply list_fmap_ext. intros i [t' p'] _.
  cbn. case_decide; subst; done.
Qed.

Lemma set_phase_elem t p l t' p' : (t', p') ∈ set_phase t p l ->
  (t' = t /\ p' = p /\ t ∈ fst <$> l) \/ (t', p') ∈ l.
Proof.
  unfold set_phase. intros ([t1 p1] & E & Hin)%list_elem_of_fmap. cbn in E. case_decide; subst.
  - left. injection E as -> ->. split_and!; [done..|]. by apply (list_elem_of_fmap_2 fst) in Hin.
  - right. by injection E as -> ->.
Qed.

Lemma start_phase_ok tk (v v' : option nat) (er er' : option TaskErr) ld :
  (if Done tk then GoSend else GoSetDone (task_status tk) v er) = GoSetDone ld v' er' -> ld <> TaskDone.
Proof. unfold Done. case_bool_decide; [done|]. intros E. injection E as <- _ _. done. Qed.

Lemma exec_inv_put e t tk : exec_inv e -> wf_task tk ->
  (t ∈ executing e -> task_status tk <> TaskNew) ->
  exec_inv (set_tasks (<[t := tk]> (ex_tasks e)) e).
Proof. intros [? Hl] ? ?. split; [by apply live_inv_put|done]. Qed.

(** A goroutine moves on. *)
Lemma exec_inv_phase e t p : exec_inv e ->
  (forall ld v er, p = GoSetDone ld v er -> ld <> TaskDone) ->
  exec_inv (set_live (ex_running e) (set_phase t p (ex_live e)) e).
Proof.
  intros [[Hr Hu Ho Ht Hlp Hc] Hl] Hp. split; [|done]. split; cbn.
  - rewrite Hr. unfold set_phase. by rewrite length_fmap.
  - unfold executing. cbn. by rewrite set_phase_fst.
  - intros t' p' [(-> & -> & Hin)|Hin]%set_phase_elem; [|by apply Ho].
    apply list_elem_of_fmap in Hin as ([t1 p1] & -> & Hin). by destruct (Ho _ _ Hin) as [? _].
  - done.
  - done.
  - done.
Qed.

Lemma loop_run_inv {A} (m : M (Exec Q H) A) s s' :
  exec_inv (sy_exec s) ->
  (forall a e', m (sy_exec s) = Some (a, e') -> running_loop (sy_exec s) -> exec_inv e') ->
  loop_run m s = Next s' -> exec_inv (sy_exec s').
Proof.
  unfold loop_run. intros Hinv Hm. destruct (ex_stopped (sy_exec s)) eqn:Es; [done|].
  destruct (m (sy_exec s)) as [[a e']|] eqn:E; [|done]. intros [= <-]. cbn.
  eapply Hm; [done|]. by apply inv_running_loop.
Qed.

Lemma loop_event_inv {A} (m : M (Exec Q H) A) s s' :
  exec_inv (sy_exec s) ->
  (forall a e', m (sy_exec s) = Some (a, e') -> looping (sy_exec s) -> exec_inv e') ->
  loop_event m s = Next s' -> exec_inv (sy_exec s').
Proof.
  unfold loop_event. intros Hinv Hm. case_decide as Hp; [|done]. apply loop_run_inv; [done|].
  intros a e' E (? & ? & ? & ?). eapply Hm; [done|]. by split_and!.
Qed.

Lemma schedule_inv ty d dl e e' r : schedule clk ty d dl e = Some (r, e') ->
  exec_inv e -> exec_inv e'.
Proof.
  unfold schedule. intros Hm Hinv. einv; try done. cbn in *.
  apply (exec_inv_put (set_ticks _ (set_taskCount _ e))); [|done|].
  - destruct Hinv as [Hli Hl]. split; [|done]. by eapply live_inv_frame.
  - intros Hin. exfalso. destruct (executing_task e _ (proj1 Hinv) Hin) as (tk & Htk & _).
    apply elem_of_dom_2 in Htk. by apply is_fresh in Htk.
Qed.

Lemma sys_do_inv l s s' : exec_inv (sy_exec s) -> sys_do clk l s = Next s' -> exec_inv (sy_exec s').
Proof.
  intros Hinv. pose proof (li_tasks _ (proj1 Hinv)) as Hwf.
  assert (forall t tk, ex_tasks (sy_exec s) !! t = Some tk ->
    t ∈ executing (sy_exec s) -> task_status tk <> TaskNew) as Hnew.
  { intros t tk. apply executing_not_new, Hinv. }
  destruct l; cbn [sys_do].
  - destruct (schedule _ _ _ _ _) as [[[]]|] eqn:E; intros; simplify_eq; cbn; by eapply schedule_inv.
  - case_decide; [|done]. apply loop_event_inv; [done|]. eauto using looping_inv, onSubmitted_inv.
  - repeat case_match; try done. apply loop_event_inv; [done|]. eauto using looping_inv, onTimer_inv.
  - (* LReturn *) repeat case_match; intros; simplify_eq; cbn; apply exec_inv_phase;
      eauto using start_phase_ok; done.
  - (* LPanic *) repeat case_match; intros; simplify_eq; cbn; apply exec_inv_phase;
      eauto using start_phase_ok; done.
  - (* LSetDone *) destruct (phase_of _ _) as [[| ld v er |]|] eqn:Ep; try done.
    destruct (ex_tasks _ !! t) as [tk|] eqn:Et; [|done].
    destruct (setDone_cas ld v er tk) as [[b tk']|] eqn:Ec; [|done]. intros [= <-]. cbn.
    apply (exec_inv_phase (set_tasks _ _)); [|done].
    apply phase_of_elem in Ep. destruct (li_ok _ (proj1 Hinv) _ _ Ep) as [_ Hld].
    specialize (Hld _ _ _ eq_refl). pose proof (Hwf _ _ Et) as Hwt.
    destruct (decide (task_status tk = ld)) as [<-|Hne].
    + destruct (setDone_cas_spec v er tk) as (tk2 & E2 & ? & ? & _); [done..|].
      rewrite E2 in Ec. simplify_eq. apply exec_inv_put; [done|done|congruence].
    + unfold setDone_cas in Ec. rewrite bool_decide_eq_true_2 in Ec by done.
      simplify_eq. apply exec_inv_put; eauto.
  - (* LCompleted *) case_decide as Hp; [|done]. apply phase_of_elem in Hp.
    apply loop_event_inv; [done|]. eauto using running_loop_inv, receive_completed_inv.
  - (* LLoop *) case_decide; [done|]. apply loop_run_inv; [done|]. eauto using completed_step_inv.
  - (* LCancelTask *) destruct (ex_tasks _ !! t) as [tk|] eqn:Et; [|done].
    destruct (task_status tk) eqn:Es; intros; simplify_eq; try done.
    + destruct (cancel_new_spec tk) as (tk' & E & ? & ? & _); [eauto|done|]. rewrite E in *. simplify_eq.
      cbn. apply exec_inv_put; [done|done|congruence].
    + cbn. apply exec_inv_put; [done| |done]. pose proof (Hwf _ _ Et) as Hw.
      unfold wf_task in *. cbn. rewrite Es in Hw. destruct (doneChn tk); [|done].
      destruct Hw as [Hw _]. split; [intros Hc; by specialize (Hw Hc)|done].
  - (* LCancelMark *) destruct (ex_tasks _ !! t) as [tk|] eqn:Et; [|done]. case_decide; [|done].
    intros [= <-]. cbn.
    destruct (call_ctxCancel_fields (with_canceled true tk)) as (Hs1 & Hd1 & _).
    apply exec_inv_put; [done| |].
    + specialize (Hwf _ _ Et). unfold wf_task, cancel_running_mark in *. by rewrite Hs1, Hd1.
    + unfold cancel_running_mark. rewrite Hs1. exact (Hnew _ _ Et).
  - (* LCanceled *) case_decide; [|done]. apply loop_event_inv; [done|].
    eauto using looping_inv, onCanceled_inv.
  - (* LAwait *) destruct (ex_tasks _ !! t) as [tk|] eqn:Et; [|done]. intros [= <-]. cbn.
    apply exec_inv_put; [done|..].
    + eapply task_call_wf; [eauto|apply call_Await].
    + intros Hin. unfold Await. destruct (doneChn tk); cbn; eauto.
  - intros [= <-]. done.
  - repeat case_match; intros; simplify_eq; done.
  - repeat case_match; intros; simplify_eq; done.
  - repeat case_match; [done|]. apply loop_event_inv; [done|]. eauto using onCancel_inv.
  - apply loop_event_inv; [done|]. eauto using onCancelNow_inv.
  - apply loop_event_inv; [done|]. eauto using onUpdateConcurrency_inv.
  - apply loop_event_inv; [done|]. eauto using looping_inv, onUpdateQueueCapacity_inv.
Qed.

Lemma sys_run_inv ls s s' : exec_inv (sy_exec s) -> sys_run clk ls s = Next s' -> exec_inv (sy_exec s').
Proof.
  revert s. induction ls as [|l ls IH]; intros s Hinv Hr; cbn in Hr; [by simplify_eq|].
  destruct (sys_do clk l s) as [| |s1] eqn:E; try done. eauto using sys_do_inv.
Qed.

Lemma sys_start_inv q c k : exec_inv (sy_exec (sys_start clk q c k)).
Proof.
  split; [split|right]; cbn; try done.
  - constructor.
  - intros t p Hin. by apply elem_of_nil in Hin.
  - intros t Hin. by apply elem_of_nil in Hin.
Qed.
End invariant.

(** ** Theorems about every run *)
Section runs.
Context {Q H : Type} `{TaskQueue Q H} (clk : nat -> Z).
Implicit Types (e : Exec Q H) (s : Sys Q H) (t : nat) (tk : Task H).

(** The limit that a label sets. *)
Definition sets_limit (l : Label) : option Z :=
  match l with LSetConcurrency n => Some n | _ => None end.

Lemma loop_run_evolves {A} (m : M (Exec Q H) A) s s' :
  (forall a e', m (sy_exec s) = Some (a, e') -> evolves (sy_exec s) e') ->
  loop_run m s = Next s' -> evolves (sy_exec s) (sy_exec s').
Proof.
  unfold loop_run. intros Hm. destruct (ex_stopped (sy_exec s)); [done|].
  destruct (m (sy_exec s)) as [[a e']|] eqn:E; [|done]. intros [= <-]. eauto.
Qed.

Lemma loop_event_run {A} (m : M (Exec Q H) A) s s' : loop_event m s = Next s' -> loop_run m s = Next s'.
Proof. unfold loop_event. by case_decide. Qed.

Lemma sys_do_evolves l s s' : sys_do clk l s = Next s' -> sets_limit l = None ->
  evolves (sy_exec s) (sy_exec s').
Proof.
  destruct l; cbn [sys_do sets_limit]; intros Hs Hl; try discriminate Hl.
  1: destruct (schedule clk ty initialDelay dl (sy_exec s)) as [[r e']|] eqn:E; [|done];
     unfold schedule in E; einv; simplify_eq; by apply evolves_same.
  all: repeat case_match; simplify_eq; try (by apply evolves_same).
  all: try apply loop_event_run in Hs.
  all: eapply loop_run_evolves in Hs; [exact Hs|]; cbn; intros a e' Hm.
  - by eapply evolves_soq, tryExecuteTask_effect.
  - by eapply evolves_soq, onTimer_effect.
  - by eapply evolves_receive_completed.
  - by eapply evolves_completed_step.
  - by eapply evolves_onCanceled.
  - by eapply evolves_onCancel.
  - by eapply evolves_onCancelNow.
  - unfold onUpdateQueueCapacity in Hm. einv. by apply evolves_same.
Qed.

Lemma sys_do_status l s s' : sys_do clk l s = Next s' ->
  exec_status_code (ex_status (sy_exec s)) <= exec_status_code (ex_status (sy_exec s')).
Proof.
  intros Hs. destruct (sets_limit l) as [n|] eqn:El.
  - destruct l; try discriminate El. cbn [sys_do] in Hs. apply loop_event_run in Hs. unfold loop_run in Hs.
    destruct (ex_stopped _); [done|].
    destruct (onUpdateConcurrency clk n0 (sy_exec s)) as [[u e']|] eqn:Em; [|done].
    simplify_eq. cbn. unfold onUpdateConcurrency in Em. einv.
    match goal with Hx : start_queued _ _ _ = _ |- _ => apply evolves_start_queued in Hx as [Hx _ _] end.
    done.
  - by destruct (sys_do_evolves _ _ _ Hs El).
Qed.

Lemma sys_do_limit l s s' N : sys_do clk l s = Next s' ->
  (forall n, sets_limit l = Some n -> 0 <= n <= N) ->
  0 <= ex_concurrency (sy_exec s) <= N -> ex_running (sy_exec s) <= N ->
  0 <= ex_concurrency (sy_exec s') <= N /\ ex_running (sy_exec s') <= N.
Proof.
  intros Hs Hn Hc Hr. destruct (sets_limit l) as [n|] eqn:El.
  - destruct l; try discriminate El. cbn [sys_do] in Hs. apply loop_event_run in Hs. unfold loop_run in Hs.
    destruct (ex_stopped _); [done|].
    destruct (onUpdateConcurrency clk n0 (sy_exec s)) as [[u e']|] eqn:Em; [|done].
    simplify_eq/=. specialize (Hn _ eq_refl). unfold onUpdateConcurrency in Em. einv.
    match goal with Hx : start_queued _ _ _ = _ |- _ => apply evolves_start_queued in Hx as [_ E' Hx] end.
    cbn in *. lia.
  - destruct (sys_do_evolves _ _ _ Hs El). lia.
Qed.

Lemma sys_run_status ls s s' : sys_run clk ls s = Next s' ->
  exec_status_code (ex_status (sy_exec s)) <= exec_status_code (ex_status (sy_exec s')).
Proof.
  revert s. induction ls as [|l ls IH]; intros s Hr; cbn in Hr; [simplify_eq; lia|].
  destruct (sys_do clk l s) as [| |s1] eqn:E; try done.
  pose proof (sys_do_status _ _ _ E). specialize (IH _ Hr). lia.
Qed.

(** Nothing happens to a loop that has returned. *)
Lemma terminated_stays ls s s' : exec_inv (sy_exec s) -> ex_stopped (sy_exec s) = true ->
  sys_run clk ls s = Next s' ->
  ex_status (sy_exec s') = Terminated /\ ex_stopped (sy_exec s') = true /\
  ex_live (sy_exec s') = [] /\ QueueLength (sy_exec s') = 0.
Proof.
  intros Hinv Hst Hr. pose proof (sys_run_status _ _ _ Hr) as Hle.
  assert (exec_inv (sy_exec s')) as Hinv' by by eapply sys_run_inv.
  destruct Hinv as [_ [(Hs & _)|(_ & _ & ?)]]; [|congruence]. rewrite Hs in Hle.
  destruct Hinv' as [[Hrun _ _ _ _ _] [(Hs' & _ & ? & Hz & ?)|(Hs' & _)]].
  - split_and!; [done|done| |done]. apply length_zero_iff_nil. lia.
  - by destruct (ex_status (sy_exec s')).
Qed.

(** C1: in every run of the executor with its clients and goroutines, whatever
    the interleaving: [running] counts the live goroutines; executions of one
    task never overlap; and the termination channel is closed, and the loop has
    returned, exactly when the status is Terminated, with nothing running and
    nothing queued. *)
Theorem executor_accounting ls q c k s :
  sys_run clk ls (sys_start clk q c k) = Next s ->
  let e := sy_exec s in
  ex_running e = Z.of_nat (length (ex_live e)) /\
  NoDup (fst <$> ex_live e) /\
  (ex_terminationChn e = true <-> ex_status e = Terminated) /\
  (ex_stopped e = true <-> ex_status e = Terminated) /\
  (ex_status e = Terminated -> ex_live e = [] /\ QueueLength e = 0).
Proof.
  intros Hr e. destruct (sys_run_inv clk ls _ _ (sys_start_inv clk q c k) Hr) as [Hli Hl].
  pose proof Hli as [Hrun _ _ _ _ _]. apply live_unique in Hli as Hu.
  subst e. split_and!; [done|done|..].
  - destruct Hl as [(-> & -> & _)|(? & -> & _)]; [done|]. by split.
  - destruct Hl as [(-> & _ & -> & _)|(? & _ & ->)]; [done|]. by split.
  - intros Hs. destruct Hl as [(_ & _ & _ & Hz & ?)|[? _]]; [|done]. split; [|done].
    apply length_zero_iff_nil. lia.
Qed.

(** C5: as long as the limits set by [SetConcurrency] stay between 0 and [N], at
    most [N] tasks run at the same time. *)
Theorem concurrency_bound ls q c k N s :
  0 <= c <= N -> (forall l n, l ∈ ls -> sets_limit l = Some n -> 0 <= n <= N) ->
  sys_run clk ls (sys_start clk q c k) = Next s -> ex_running (sy_exec s) <= N.
Proof.
  intros Hc Hls Hr. enough (forall s0, sys_run clk ls s0 = Next s ->
    0 <= ex_concurrency (sy_exec s0) <= N -> ex_running (sy_exec s0) <= N ->
    ex_running (sy_exec s) <= N) as Hgen by (eapply Hgen; [exact Hr|done|cbn; lia]).
  clear Hr. induction ls as [|l ls IH]; intros s0 Hr Hc0 Hr0; cbn in Hr; [by simplify_eq|].
  destruct (sys_do clk l s0) as [| |s1] eqn:E; try done.
  destruct (sys_do_limit _ _ _ N E) as [? ?]; [|done|done|].
  - intros n Hn. eapply Hls; [|done]. set_solver.
  - eapply IH; [|done..]. intros l' n Hl' Hn. eapply Hls; [|done]. set_solver.
Qed.

(** the status only advances from Running over ShuttingDown and
    WaitingTermination to Terminated, and an executor whose loop has returned
    receives nothing any more: Terminated is final. *)
Theorem status_monotone ls q c k ls' s s' :
  sys_run clk ls (sys_start clk q c k) = Next s -> sys_run clk ls' s = Next s' ->
  exec_status_code (ex_status (sy_exec s)) <= exec_status_code (ex_status (sy_exec s')) /\
  (ex_stopped (sy_exec s) = true ->
   ex_status (sy_exec s') = Terminated /\ ex_live (sy_exec s') = [] /\ QueueLength (sy_exec s') = 0).
Proof.
  intros Hr Hr'. assert (exec_inv (sy_exec s)) as Hinv.
  { eapply sys_run_inv; [|exact Hr]. apply sys_start_inv. }
  split; [by eapply sys_run_status|]. intros Hst.
  by destruct (terminated_stays _ _ _ Hinv Hst Hr') as (? & _ & ? & ?).
Qed.
End runs.
