(* ===== verification/ExecutorSpec.v ===== *)
(** * executors: what the interfaces promise

    An abstract executor, read off the comments of [executors/executors.go]: the
    states of a [Future], the commands that run, the limit on them and the phase
    of the executor.  [spec_step] is what may happen, by named actions, and
    [permits] says which of them a step of the detailed model may be: only
    [SetConcurrency] changes the limit, only a [Cancel] cancels, and so on.  The
    detailed model of the files Executor and ExecutorSystem refines it: every
    step of loop, clients and goroutines is a sequence of actions that it is
    permitted. *)

From S2P Require Import Prelude.
From S2P Require Import ContainerList.
From S2P Require Import QueueInterface.
From S2P Require Import Task.
From S2P Require Import Executor.
From S2P Require Import ExecutorInvariant.
From S2P Require Import ExecutorSystem.

(** ** The abstract executor *)

(** A [Future]: waiting for its (next) execution, executing, asked to stop while
    it executes, or Done with its value. *)
Inductive FState := FPending | FRunning | FCancelling | FDone (v : option nat).
#[global] Instance FState_eq_dec : EqDecision FState.
Proof. solve_decision. Defined.

(** Accepting commands; after [Cancel], executing those it has; terminated. *)
Inductive Phase := Accepting | Draining | Ended.
#[global] Instance Phase_eq_dec : EqDecision Phase.
Proof. solve_decision. Defined.

Record Spec := MkSpec {
  sp_phase : Phase;
  sp_limit : Z;               (** [Concurrency]; negative: no limit *)
  sp_running : gset nat;      (** the running commands *)
  sp_futures : gmap nat FState;
}.

Definition sp_room (σ : Spec) : Prop :=
  sp_limit σ < 0 \/ Z.of_nat (size (sp_running σ)) < sp_limit σ.

Definition sp_put (t : nat) (f : FState) (σ : Spec) : Spec :=
  MkSpec (sp_phase σ) (sp_limit σ) (sp_running σ) (<[t := f]> (sp_futures σ)).
Definition sp_set_running (r : gset nat) (σ : Spec) : Spec :=
  MkSpec (sp_phase σ) (sp_limit σ) r (sp_futures σ).
Definition sp_set_phase (p : Phase) (σ : Spec) : Spec :=
  MkSpec p (sp_limit σ) (sp_running σ) (sp_futures σ).
Definition sp_set_limit (n : Z) (σ : Spec) : Spec :=
  MkSpec (sp_phase σ) n (sp_running σ) (sp_futures σ).

Inductive SpecAct :=
| ActSubmit (t : nat)
| ActStart (t : nat)
| ActCancelPending (t : nat)
| ActCancelRunning (t : nat)
| ActFinish (t : nat) (v : option nat)
| ActEnd (t : nat)
| ActAgain (t : nat)
| ActShutdown
| ActTerminate
| ActSetLimit (n : Z).

Inductive spec_step (σ : Spec) : SpecAct -> Spec -> Prop :=
(** A new command, before [Cancel] only. *)
| sp_submit t : sp_phase σ = Accepting -> sp_futures σ !! t = None ->
    spec_step σ (ActSubmit t) (sp_put t FPending σ)
(** A command starts when it does not run already and there is room. *)
| sp_start t : sp_phase σ <> Ended -> sp_futures σ !! t = Some FPending ->
    t ∉ sp_running σ -> sp_room σ ->
    spec_step σ (ActStart t) (sp_set_running ({[t]} ∪ sp_running σ) (sp_put t FRunning σ))
(** [Future.Cancel] of a command that waits, and of one that runs. *)
| sp_cancel_pending t : sp_futures σ !! t = Some FPending ->
    spec_step σ (ActCancelPending t) (sp_put t (FDone None) σ)
| sp_cancel_running t : sp_futures σ !! t = Some FRunning ->
    spec_step σ (ActCancelRunning t) (sp_put t FCancelling σ)
(** The future of a running command is Done. *)
| sp_finish t f v : t ∈ sp_running σ -> sp_futures σ !! t = Some f ->
    f = FRunning \/ f = FCancelling ->
    spec_step σ (ActFinish t v) (sp_put t (FDone v) σ)
(** The execution ends: for good, or a periodic command waits for the next. *)
| sp_end t f : t ∈ sp_running σ -> sp_futures σ !! t = Some f ->
    f <> FPending -> f <> FRunning ->
    spec_step σ (ActEnd t) (sp_set_running (sp_running σ ∖ {[t]}) σ)
| sp_again t : t ∈ sp_running σ -> sp_futures σ !! t = Some FRunning ->
    spec_step σ (ActAgain t) (sp_set_running (sp_running σ ∖ {[t]}) (sp_put t FPending σ))
(** [Cancel], the end, and [SetConcurrency]. *)
| sp_shutdown : sp_phase σ = Accepting -> spec_step σ ActShutdown (sp_set_phase Draining σ)
| sp_terminate : sp_phase σ = Draining -> sp_running σ = ∅ ->
    spec_step σ ActTerminate (sp_set_phase Ended σ)
| sp_limit_set n : spec_step σ (ActSetLimit n) (sp_set_limit n σ).

Fixpoint spec_run (σ : Spec) (acts : list SpecAct) (σ' : Spec) : Prop :=
  match acts with
  | [] => σ' = σ
  | a :: acts => exists σ1, spec_step σ a σ1 /\ spec_run σ1 acts σ'
  end.

(** What the loop may do when it looks for the next command. *)
Definition next_acts (acts : list SpecAct) : Prop :=
  acts = [] \/ (exists t, acts = [ActStart t]) \/ acts = [ActTerminate].

(** The actions that a step of the detailed model stands for. *)
Definition permits (l : Label) (acts : list SpecAct) : Prop :=
  match l with
  | LSchedule _ _ _ => acts = [] \/ exists t, acts = [ActSubmit t]
  | LSubmitted t => acts = [] \/ acts = [ActStart t]
  | LTimer => acts = [] \/ exists t, acts = [ActStart t]
  | LSetDone t => acts = [] \/ exists v, acts = [ActFinish t v]
  | LLoop => next_acts acts \/
      exists t, acts = [ActEnd t] \/ acts = [ActFinish t None; ActEnd t] \/ acts = [ActAgain t]
  | LCancelTask t => acts = [] \/ acts = [ActCancelPending t] \/ acts = [ActCancelRunning t]
  | LCancel => acts = [] \/ exists rest, acts = ActShutdown :: rest /\ next_acts rest
  | LCancelNow => next_acts acts
  | LSetConcurrency n => exists ts, acts = ActSetLimit n :: (ActStart <$> ts)
  | _ => acts = []
  end.

Lemma spec_run_app σ1 a1 σ2 a2 σ3 : spec_run σ1 a1 σ2 -> spec_run σ2 a2 σ3 -> spec_run σ1 (a1 ++ a2) σ3.
Proof. revert σ1. induction a1 as [|a a1 IH]; intros σ1; cbn; [by intros ->|naive_solver]. Qed.

Lemma spec_run_once σ a σ' : spec_step σ a σ' -> spec_run σ [a] σ'.
Proof. cbn. eauto. Qed.

Definition spec_start (n : Z) : Spec := MkSpec Accepting n ∅ ∅.

(** ** What holds of the abstract executor *)
Definition sp_wf (σ : Spec) : Prop :=
  (forall t, t ∈ sp_running σ ->
     exists f, sp_futures σ !! t = Some f /\ f <> FPending) /\
  (forall t, sp_futures σ !! t = Some FRunning -> t ∈ sp_running σ) /\
  (sp_phase σ = Ended -> sp_running σ = ∅).

(** What no step takes back. *)
Record sp_later (σ σ' : Spec) : Prop := {
  later_done : forall t v, sp_futures σ !! t = Some (FDone v) -> sp_futures σ' !! t = Some (FDone v);
  later_stopped : forall t v, sp_futures σ !! t = Some (FDone v) -> t ∉ sp_running σ -> t ∉ sp_running σ';
  later_cancelling : forall t, sp_futures σ !! t = Some FCancelling ->
    sp_futures σ' !! t = Some FCancelling \/ exists v, sp_futures σ' !! t = Some (FDone v);
  later_futures : sp_phase σ <> Accepting -> dom (sp_futures σ') = dom (sp_futures σ);
  later_phase : sp_phase σ <> Accepting -> sp_phase σ' <> Accepting;
  later_ended : sp_phase σ = Ended -> sp_phase σ' = Ended;
}.

Lemma sp_later_refl σ : sp_later σ σ.
Proof. split; eauto. Qed.

Lemma sp_later_trans σ1 σ2 σ3 : sp_later σ1 σ2 -> sp_later σ2 σ3 -> sp_later σ1 σ3.
Proof.
  intros [A1 B1 C1 D1 E1 F1] [A2 B2 C2 D2 E2 F2]. split; eauto.
  - intros t [?|(v & ?)]%C1; eauto.
  - intros Hp. rewrite D2; auto.
Qed.

Lemma spec_step_wf σ a σ' : spec_step σ a σ' -> sp_wf σ -> sp_wf σ'.
Proof.
  intros Hs (Hrun & Hlive & Hend). destruct Hs; unfold sp_wf; cbn; split_and!.
  all: try done.
  all: try (intros t0; rewrite ?elem_of_union, ?elem_of_difference, ?elem_of_singleton;
    destruct (decide (t0 = t)) as [->|]; rewrite ?lookup_insert_eq, ?lookup_insert_ne by done;
    naive_solver).
  all: set_solver.
Qed.

Lemma spec_step_later σ a σ' : spec_step σ a σ' -> sp_wf σ -> sp_later σ σ'.
Proof.
  intros Hs (Hrun & Hlive & _). destruct Hs; split; cbn; try done; try (by eauto).
  all: try (intros t0; destruct (decide (t0 = t)) as [->|];
    rewrite ?lookup_insert_eq, ?lookup_insert_ne by done; set_solver).
  all: try (intros _; rewrite dom_insert_lookup_L; [done|by eexists]).
  all: congruence.
Qed.

Lemma spec_run_later acts σ σ' : spec_run σ acts σ' -> sp_wf σ -> sp_later σ σ' /\ sp_wf σ'.
Proof.
  revert σ. induction acts as [|a acts IH]; cbn; intros σ Hr Hwf; [subst; split; [apply sp_later_refl|done]|].
  destruct Hr as (σ1 & Hs & Hr). destruct (IH _ Hr) as [? ?]; [by eapply spec_step_wf|].
  split; [|done]. eapply sp_later_trans; [by eapply spec_step_later|done].
Qed.

Lemma sp_start_wf n : sp_wf (spec_start n).
Proof. split_and!; cbn; set_solver. Qed.

(** ** The abstraction *)
Section abstraction.
Context {Q H : Type} `{TaskQueue Q H} (clk : nat -> Z).
Implicit Types (e : Exec Q H) (s : Sys Q H) (t : nat) (tk : Task H).

Definition abs_phase (x : ExecutorStatus) : Phase :=
  match x with
  | ExecRunning => Accepting
  | ShuttingDown | WaitingTermination => Draining
  | Terminated => Ended
  end.

Definition abs_task tk : FState :=
  match task_status tk with
  | TaskNew => FPending
  | TaskRunning => FRunning
  | TaskCancelling => FCancelling
  | TaskDone => FDone (value tk)
  end.

Definition abs e : Spec :=
  MkSpec (abs_phase (ex_status e)) (ex_concurrency e) (list_to_set (executing e))
    (abs_task <$> ex_tasks e).

(** What the goroutine of a task in phase [p] knows about the task: what it
    loaded is not New, and no function that ended leaves a task Running unless
    it is periodic. *)
Definition cas_ok (ld : TaskStatus) tk : Prop :=
  ld = TaskRunning \/ (ld = TaskCancelling /\ task_status tk <> TaskRunning).
Definition ended_ok tk : Prop := task_status tk = TaskRunning -> Periodic tk = true.

Definition phase_ok (p : GoPhase) tk : Prop :=
  match p with
  | GoRun => True
  | GoSetDone ld _ _ => cas_ok ld tk
  | GoSend => ended_ok tk
  end.

(** And what the loop knows in the case of the task's completed event. *)
Definition pc_ok (pc : LoopPc) tk : Prop :=
  match pc with
  | AtDone _ | AtCanceled _ => ended_ok tk
  | AtSetDoneCas _ ld => cas_ok ld tk
  | _ => True
  end.

(** Everybody who knows something about the task [t] is right about [tk]. *)
Definition known_ok e t tk : Prop :=
  (forall p, (t, p) ∈ ex_live e -> phase_ok p tk) /\
  (t ∈ loop_task (ex_loop e) -> pc_ok (ex_loop e) tk) /\
  (task_status tk <> TaskDone -> value tk = None).

Definition go_inv e : Prop := forall t tk, ex_tasks e !! t = Some tk -> known_ok e t tk.

(** What every handler and every step is shown to do. *)
Definition tracks (acts : list SpecAct) e e' : Prop :=
  go_inv e -> go_inv e' /\ spec_run (abs e) acts (abs e').

Lemma tracks_trans a1 a2 e1 e2 e3 : tracks a1 e1 e2 -> tracks a2 e2 e3 -> tracks (a1 ++ a2) e1 e3.
Proof.
  intros T1 T2 Hg. destruct (T1 Hg) as [Hg2 ?]. destruct (T2 Hg2). split; [done|].
  by eapply spec_run_app.
Qed.

(** Steps that the abstract executor does not see. *)
Lemma tracks_quiet_l acts e1 e2 e3 : tracks [] e1 e2 -> tracks acts e2 e3 -> tracks acts e1 e3.
Proof. apply (tracks_trans []). Qed.
Lemma tracks_quiet_r acts e1 e2 e3 : tracks acts e1 e2 -> tracks [] e2 e3 -> tracks acts e1 e3.
Proof. intros T1 T2. rewrite <- (app_nil_r acts). by eapply tracks_trans. Qed.

Lemma tracks_same e e' : abs e' = abs e -> ex_live e' = ex_live e -> ex_loop e' = ex_loop e ->
  ex_tasks e' = ex_tasks e -> tracks [] e e'.
Proof.
  intros Ea El Ep Et Hg. split; [|exact Ea]. intros t tk. unfold known_ok. rewrite El, Ep, Et. apply Hg.
Qed.

Lemma abs_task_life tk tk' : life tk = life tk' -> abs_task tk = abs_task tk'.
Proof. intros Hl. destruct (life_fields _ _ Hl) as (Es & _ & _ & _ & _ & _ & Ev). unfold abs_task. by rewrite Es, Ev. Qed.

Lemma known_ok_same e t tk tk' : task_status tk = task_status tk' -> task_type tk = task_type tk' ->
  value tk = value tk' -> known_ok e t tk -> known_ok e t tk'.
Proof.
  intros Es Ety Ev (Hp & Hl & Hv). unfold known_ok, pc_ok, phase_ok, ended_ok, cas_ok, Periodic in *.
  by rewrite <- Es, <- Ety, <- Ev.
Qed.

Lemma abs_quiet e e' : quiet e e' -> abs e' = abs e.
Proof.
  intros Hq. destruct (quiet_fields _ _ Hq) as (Hs & _ & Hc & _ & _ & _ & _ & Hl).
  unfold abs, executing. rewrite Hs, Hc, Hl, (quiet_loop _ _ Hq).
  f_equal. apply map_eq. intros t. rewrite !lookup_fmap.
  destruct (ex_tasks e !! t) as [tk|] eqn:Et.
  - destruct (quiet_task _ _ _ _ Hq Et) as (tk' & -> & Hlf). cbn. f_equal. symmetry. by apply abs_task_life.
  - destruct (ex_tasks e' !! t) as [tk'|] eqn:Et'; [|done].
    destruct (quiet_task e' e t tk') as (tk & ? & _); [done..|congruence].
Qed.

Lemma tracks_quiet e e' : quiet e e' -> tracks [] e e'.
Proof.
  intros Hq Hg. split; [|by apply abs_quiet]. intros t tk' Ht.
  destruct (quiet_fields _ _ Hq) as (_ & _ & _ & _ & _ & _ & _ & Hl).
  destruct (quiet_task e' e t tk') as (tk & Htk & Hlf); [done..|].
  destruct (life_fields _ _ Hlf) as (Es & _ & Ety & _ & _ & _ & Ev).
  unfold known_ok. rewrite Hl, (quiet_loop _ _ Hq).
  apply (known_ok_same e t tk tk'); [done..|eauto].
Qed.

Lemma go_inv_put e t tk : go_inv e -> known_ok e t tk ->
  go_inv (set_tasks (<[t := tk]> (ex_tasks e)) e).
Proof.
  intros Hg Hp t' tk'. cbn in *. rewrite lookup_insert. case_decide; intros; simplify_eq; [done|].
  by apply Hg.
Qed.

(** A task that does not execute is known to nobody. *)
Lemma known_ok_idle e t tk : t ∉ executing e -> (task_status tk <> TaskDone -> value tk = None) ->
  known_ok e t tk.
Proof.
  intros Hn Hv. split_and!; [|intros Hin|done].
  - intros p Hin. by apply live_executing in Hin.
  - exfalso. apply Hn, elem_of_app. by right.
Qed.

(** A write to a task that the abstract executor does not see. *)
Lemma tracks_put_same e t tk tk' : ex_tasks e !! t = Some tk -> task_status tk' = task_status tk ->
  task_type tk' = task_type tk -> value tk' = value tk ->
  tracks [] e (set_tasks (<[t := tk']> (ex_tasks e)) e).
Proof.
  intros Ht Es Ety Ev Hg. split.
  - apply go_inv_put; [done|]. apply (known_ok_same e t tk); [done..|eauto].
  - unfold abs. cbn. rewrite fmap_insert, insert_id; [done|]. rewrite lookup_fmap, Ht. cbn.
    unfold abs_task. by rewrite Es, Ev.
Qed.

Lemma abs_room e : live_inv e -> ex_loop e = AtSelect -> canStartNewTask e = true -> sp_room (abs e).
Proof.
  intros Hl Hp. pose proof Hl as [Hr _ _ _ _ _]. apply live_unique in Hl as Hu.
  unfold canStartNewTask, sp_room, abs, executing. cbn. rewrite Hp, app_nil_r, size_list_to_set by done.
  rewrite length_fmap, <- Hr. repeat case_bool_decide; intros; try done; lia.
Qed.

Lemma abs_step e e' a σ : spec_step (abs e) a σ -> abs e' = σ -> spec_run (abs e) [a] (abs e').
Proof. intros ? ->. by apply spec_run_once. Qed.

Lemma tracks_started t e e' : canStartNewTask e = true -> started t e e' -> looping e ->
  tracks [ActStart t] e e'.
Proof.
  intros Hcan (tk & Ht & Hs & Hq) (Hl & Hst & _ & _ & Hp).
  eapply tracks_quiet_r; [|by apply tracks_quiet]. intros Hg.
  assert (t ∉ executing e) as Hnin by (intros Hin; by apply (executing_not_new _ _ _ Hl Ht Hin)).
  assert (t ∉ fst <$> ex_live e) as Hnl by (intros ?; apply Hnin, elem_of_app; by left).
  split.
  - intros t' tk' Ht'. cbn in *. rewrite lookup_insert in Ht'.
    unfold known_ok. cbn. rewrite Hp. case_decide; simplify_eq.
    + split_and!; [|by intros ?%elem_of_nil|].
      * intros p [Hin|Hin]%elem_of_app; [by apply (list_elem_of_fmap_2 fst) in Hin|].
        by apply list_elem_of_singleton in Hin as [= ->].
      * intros _. cbn. apply (Hg _ _ Ht). congruence.
    + destruct (Hg _ _ Ht') as (Hpo & _ & Hv). split_and!; [|by intros ?%elem_of_nil|done].
      intros p [Hin|Hin]%elem_of_app; [eauto|]. apply list_elem_of_singleton in Hin as [= -> ->]. done.
  - eapply abs_step.
    + apply (sp_start (abs e) t); cbn; [by destruct (ex_status e)| |set_solver|by apply abs_room].
      rewrite lookup_fmap, Ht. cbn. unfold abs_task. by rewrite Hs.
    + unfold abs, sp_set_running, sp_put, executing. cbn. rewrite fmap_insert. f_equal.
      rewrite fmap_app, !list_to_set_app_L. cbn. set_solver.
Qed.

Lemma tracks_soq e e' : started_or_quiet e e' -> looping e ->
  exists acts, (acts = [] \/ exists t, acts = [ActStart t]) /\ tracks acts e e'.
Proof.
  intros [Hq|(Hcan & t & Hst)] Hl.
  - exists []. split; [by left|by apply tracks_quiet].
  - exists [ActStart t]. split; [by right; exists t|by apply tracks_started].
Qed.

Lemma tracks_next e b e' : next_effect e b e' -> looping e ->
  exists acts, next_acts acts /\ tracks acts e e' /\ (QueueLength e <> 0 -> acts <> [ActTerminate]).
Proof.
  unfold next_acts. intros [e1 Hsq|Hs _ Hz|Hs Hr Hz _] Hl.
  - destruct (tracks_soq _ _ Hsq Hl) as (acts & [->|[t ->]] & Ht); eexists; (split; [|split; [exact Ht|done]]).
    + by left.
    + right. left. by exists t.
  - exists []. split; [by left|]. split; [|done]. by apply tracks_same; unfold abs; cbn; rewrite ?Hs.
  - exists [ActTerminate]. split; [by right; right|]. split; [|done].
    intros Hg. split; [exact Hg|]. eapply abs_step; [|done].
    destruct Hl as ([Hrun _ _ _ _ _] & _ & _ & _ & Hp). apply sp_terminate; cbn.
    + by destruct Hs as [-> | ->].
    + unfold executing. rewrite Hp.
      assert (ex_live e = []) as -> by (apply length_zero_iff_nil; lia). done.
Qed.

Lemma tracks_stopped e b : tracks [] e (set_stopped b e).
Proof. by apply tracks_same. Qed.

Lemma tracks_run_next e e' u : run_next_or_return clk e = Some (u, e') -> looping e ->
  exists acts, next_acts acts /\ tracks acts e e'.
Proof.
  unfold run_next_or_return. intros Hm Hl. einv.
  all: match goal with Hx : tryRunNextTask _ _ = _ |- _ => apply tryRunNextTask_effect, tracks_next in Hx; [|done] end.
  all: match goal with Hx : exists _, _ |- _ => destruct Hx as (acts & ? & ? & _); exists acts end.
  - done.
  - split; [done|]. by eapply tracks_quiet_r, tracks_stopped.
Qed.

Lemma tracks_start_queued fuel e e' u : start_queued clk fuel e = Some (u, e') -> looping e ->
  exists ts, tracks (ActStart <$> ts) e e'.
Proof.
  revert e. induction fuel as [|fuel IH]; intros e Hm Hl; cbn [start_queued] in Hm; einv.
  1, 2: exists []; by apply tracks_same.
  all: match goal with Hb : negb _ = false |- _ =>
         apply negb_false_iff, andb_true_iff in Hb as [_ Hb%bool_decide_eq_true] end.
  all: assert (QueueLength e <> 0) as Hz by (unfold QueueLength; lia).
  all: match goal with Hx : tryRunNextTask _ _ = _ |- _ => apply tryRunNextTask_effect in Hx; rename Hx into Hn end.
  all: destruct (tracks_next _ _ _ Hn Hl) as (acts & Ha & Ht & Hnt); specialize (Hnt Hz).
  all: assert (exists ts, acts = ActStart <$> ts) as [ts ->] by
    (destruct Ha as [->|[[t ->]| ->]]; [by exists []|by exists [t]|done]).
  - destruct (IH _ Hm) as [ts' Ht']; [by eapply next_effect_true|]. exists (ts ++ ts').
    rewrite fmap_app. by eapply tracks_trans.
  - exists ts. by eapply tracks_quiet_r, tracks_stopped.
Qed.
End abstraction.

(** ** Every handler and every step *)
Section refinement.
Context {Q H : Type} `{TaskQueue Q H} (clk : nat -> Z).
Implicit Types (e : Exec Q H) (s : Sys Q H) (t : nat) (tk : Task H).

Lemma tracks_onSubmitted t e e' u : onSubmitted clk t e = Some (u, e') -> looping e ->
  exists acts, permits (LSubmitted t) acts /\ tracks acts e e'.
Proof.
  intros [Hq|[Hcan Hst]]%tryExecuteTask_starts Hl; eexists; (split; [|by eauto using tracks_quiet, tracks_started]).
  - by left.
  - by right.
Qed.

Lemma tracks_onUpdateConcurrency n e e' u :
  onUpdateConcurrency clk n e = Some (u, e') -> looping e ->
  exists acts, permits (LSetConcurrency n) acts /\ tracks acts e e'.
Proof.
  unfold onUpdateConcurrency. intros Hm Hl. einv.
  match goal with Hx : start_queued _ _ _ = _ |- _ => apply tracks_start_queued in Hx as [ts Ht] end.
  - exists (ActSetLimit n :: (ActStart <$> ts)). split; [by exists ts|].
    eapply (tracks_trans [ActSetLimit n]); [|exact Ht].
    intros Hg. split; [exact Hg|]. eapply abs_step; [apply (sp_limit_set _ n)|done].
  - eapply looping_frame; [exact Hl|done..|apply Hl|done|done].
Qed.

Lemma tracks_onUpdateQueueCapacity n e e' u :
  onUpdateQueueCapacity n e = Some (u, e') -> tracks [] e e'.
Proof. unfold onUpdateQueueCapacity. intros Hm. einv. by apply tracks_same. Qed.

Lemma tracks_shutdown e : ex_status e = ExecRunning -> tracks [ActShutdown] e (set_status ShuttingDown e).
Proof.
  intros Hs Hg. split; [exact Hg|]. eapply abs_step; [apply sp_shutdown|done]. cbn. by rewrite Hs.
Qed.

Lemma tracks_onCancel e e' b : onCancel clk e = Some (b, e') -> looping e ->
  exists acts, permits LCancel acts /\ tracks acts e e'.
Proof.
  unfold onCancel. intros Hm Hl. einv; [exists []; split; [by left|by apply tracks_same]|..].
  - match goal with Hb : bool_decide (_ = ExecRunning) = true |- _ => apply bool_decide_eq_true in Hb end.
    match goal with Hx : run_next_or_return _ _ = _ |- _ => apply tracks_run_next in Hx as (acts & Ha & Ht) end.
    + exists (ActShutdown :: acts). split; [right; by exists acts|].
      eapply (tracks_trans [ActShutdown]); [by apply tracks_shutdown|done].
    + by eapply looping_frame; [exact Hl|done..].
  - exfalso. unfold IsCanceled in *. repeat match goal with
      | Hb : bool_decide _ = false |- _ => apply bool_decide_eq_false in Hb end.
    destruct (ex_status e); cbn in *; done || lia.
Qed.

Lemma tracks_onCancelNow e e' r : onCancelNow clk e = Some (r, e') -> looping e ->
  exists acts, permits LCancelNow acts /\ tracks acts e e'.
Proof.
  unfold onCancelNow. intros Hm Hl. einv; [exists []; split; [by left|by apply tracks_same]|..].
  all: match goal with Hx : run_next_or_return _ _ = _ |- _ => apply tracks_run_next in Hx as (acts & Ha & Ht) end.
  1, 3: exists acts; split; [done|]; eapply tracks_quiet_l; [|exact Ht].
  - apply tracks_same; [|done..]. unfold abs. cbn.
    match goal with Hb : bool_decide (_ = ShuttingDown) = true |- _ => apply bool_decide_eq_true in Hb end.
    by match goal with Hb : _ = ShuttingDown |- _ => rewrite Hb end.
  - by apply tracks_same.
  - by eapply looping_frame; [exact Hl|done..].
  - eapply looping_frame; [exact Hl|done..|apply Hl|done|done].
Qed.

Lemma tracks_onCanceled t e e' u : onCanceled t e = Some (u, e') -> tracks [] e e'.
Proof.
  unfold onCanceled. intros Hm. einv; repeat case_match; einv;
    repeat match goal with
    | Hx : queue_remove _ _ = _ |- _ => apply queue_remove_quiet, tracks_quiet in Hx
    | Hx : sched_remove _ _ = _ |- _ => apply sched_remove_quiet, tracks_quiet in Hx
    end;
    repeat (eapply tracks_quiet_r; [|eassumption]);
    first [by apply tracks_same | by eapply tracks_put_same].
Qed.

(** *** The completed event *)

(** The loop takes over from the goroutine. *)
Lemma tracks_receive_completed t e e' u : receive_completed t e = Some (u, e') -> looping e ->
  (t, GoSend) ∈ ex_live e -> tracks [] e e'.
Proof.
  unfold receive_completed, loop_goto. intros Hm (Hl & _ & _ & _ & Hp) Hin Hg. einv.
  pose proof (executing_receive clk t e Hl Hin Hp) as Hex. split.
  - intros t' tk' Ht'. destruct (Hg _ _ Ht') as (Hph & _ & Hv). split_and!; [|cbn|done].
    + intros p Hin'. apply Hph. cbn in Hin'. unfold drop_live in Hin'.
      apply list_elem_of_filter in Hin'. tauto.
    + intros ->%list_elem_of_singleton. exact (Hph _ Hin).
  - unfold abs. cbn. by rewrite Hex.
Qed.

(** The loop leaves the task, or goes on with it. *)
Lemma tracks_goto pc e t : loop_task pc = loop_task (ex_loop e) -> loop_task pc = [t] ->
  (forall tk, ex_tasks e !! t = Some tk -> pc_ok pc tk) -> tracks [] e (set_loop pc e).
Proof.
  intros Hsame Ht Hok Hg. split.
  - intros t' tk' Ht'. destruct (Hg _ _ Ht') as (Hph & _ & Hv). split_and!; [done|cbn|done].
    rewrite Ht. intros ->%list_elem_of_singleton. by apply Hok.
  - unfold abs, executing. cbn. by rewrite Hsame.
Qed.

Lemma abs_leave e pc t : NoDup (executing e) -> loop_task (ex_loop e) = [t] -> loop_task pc = [] ->
  list_to_set (C := gset nat) (executing (set_loop pc e)) = list_to_set (executing e) ∖ {[t]}.
Proof.
  unfold executing. cbn. intros Hu E ->. rewrite E in *. apply NoDup_app in Hu as (_ & Hd & _).
  assert (t ∉ fst <$> ex_live e) by (intros Hin; apply (Hd _ Hin); by left).
  rewrite !list_to_set_app_L. cbn. set_solver.
Qed.

Lemma go_inv_leave e pc : go_inv e -> loop_task pc = [] -> go_inv (set_loop pc e).
Proof.
  intros Hg Hp t tk Ht. destruct (Hg _ _ Ht) as (? & _ & ?). split_and!; [done| |done].
  cbn. rewrite Hp. by intros ?%elem_of_nil.
Qed.

(** The execution of a task that is not left Running ends. *)
Lemma tracks_end e pc t tk : live_inv e -> loop_task (ex_loop e) = [t] -> loop_task pc = [] ->
  ex_tasks e !! t = Some tk -> task_status tk <> TaskRunning ->
  tracks [ActEnd t] e (set_loop pc e).
Proof.
  intros Hl Hp Hpc Ht Hs Hg. split; [by apply go_inv_leave|].
  assert (t ∈ executing e) as Hin by (apply elem_of_app; right; rewrite Hp; by left).
  pose proof (executing_not_new _ _ _ Hl Ht Hin) as Hn.
  eapply abs_step; [apply (sp_end _ t (abs_task tk)); cbn|].
  - by apply elem_of_list_to_set.
  - by rewrite lookup_fmap, Ht.
  - unfold abs_task. by destruct (task_status tk).
  - unfold abs_task. by destruct (task_status tk).
  - unfold abs, sp_set_running. cbn. f_equal. by apply abs_leave; [apply Hl|..].
Qed.

Lemma tracks_again e pc t tk : live_inv e -> loop_task (ex_loop e) = [t] -> loop_task pc = [] ->
  ex_tasks e !! t = Some tk -> task_status tk = TaskRunning ->
  tracks [ActAgain t] e (set_loop pc (set_tasks (<[t := with_status TaskNew tk]> (ex_tasks e)) e)).
Proof.
  intros Hl Hp Hpc Ht Hs Hg.
  assert (t ∈ executing e) as Hin by (apply elem_of_app; right; rewrite Hp; by left). split.
  - assert (go_inv (set_tasks (<[t := with_status TaskNew tk]> (ex_tasks (set_loop pc e))) (set_loop pc e)));
      [|done]. apply go_inv_put; [by apply go_inv_leave|]. apply known_ok_idle.
    + unfold executing. cbn. rewrite Hpc, app_nil_r. destruct Hl as [_ Hu _ _ _ _].
      unfold executing in Hu. rewrite Hp in Hu. apply NoDup_app in Hu as (_ & Hd & _).
      intros Hin'. apply (Hd _ Hin'). by left.
    + intros _. cbn. apply (Hg _ _ Ht). congruence.
  - eapply abs_step; [apply (sp_again _ t); cbn|].
    + by apply elem_of_list_to_set.
    + rewrite lookup_fmap, Ht. cbn. unfold abs_task. by rewrite Hs.
    + unfold abs, sp_set_running, sp_put. cbn [sp_running sp_phase sp_limit sp_futures].
      rewrite (abs_leave _ pc t) by (done || apply Hl). cbn. by rewrite fmap_insert.
Qed.

(** The future of a running command becomes Done. *)
Lemma tracks_finish e t tk tk' : live_inv e -> t ∈ executing e -> ex_tasks e !! t = Some tk ->
  task_status tk <> TaskDone -> task_status tk' = TaskDone -> known_ok e t tk' ->
  tracks [ActFinish t (value tk')] e (set_tasks (<[t := tk']> (ex_tasks e)) e).
Proof.
  intros Hl Hin Ht Hs Hs' Hk Hg. pose proof (executing_not_new _ _ _ Hl Ht Hin) as Hn.
  split; [by apply go_inv_put|].
  eapply abs_step.
  - apply (sp_finish _ t (abs_task tk) (value tk')); cbn.
    + by apply elem_of_list_to_set.
    + by rewrite lookup_fmap, Ht.
    + unfold abs_task. destruct (task_status tk); tauto.
  - unfold abs, sp_put. cbn. rewrite fmap_insert. do 2 f_equal. unfold abs_task. by rewrite Hs'.
Qed.

Lemma cas_ok_running ld tk : cas_ok ld tk -> task_status tk <> ld -> task_status tk <> TaskNew ->
  task_status tk <> TaskRunning.
Proof. intros [->|[-> ?]] ? ?; done. Qed.

(** Knowing that a task is Done contradicts nobody who loaded another status. *)
Lemma known_ok_done e t tk tk' : known_ok e t tk -> task_status tk' = TaskDone ->
  (forall p, (t, p) ∈ ex_live e -> p = GoSend \/ exists ld v er, p = GoSetDone ld v er) ->
  (t ∈ loop_task (ex_loop e) -> ended_ok tk' -> pc_ok (ex_loop e) tk -> pc_ok (ex_loop e) tk') ->
  known_ok e t tk'.
Proof.
  intros (Hp & Hl & _) Hs Hph Hpc.
  assert (ended_ok tk') by (unfold ended_ok; congruence).
  split_and!; [|by eauto|done]. intros p Hin. destruct (Hph p Hin) as [->|(ld & v & er & ->)]; [done|].
  specialize (Hp _ Hin). cbn in *. unfold cas_ok in *. rewrite Hs. naive_solver.
Qed.

(** The loop's own [setDone]. *)
Lemma tracks_AtSetDoneCas t ld e tk b tk' : running_loop e -> ex_loop e = AtSetDoneCas t ld ->
  ex_tasks e !! t = Some tk -> setDone_cas ld None (Some ErrCanceled) tk = Some (b, tk') ->
  exists acts, permits LLoop acts /\
    tracks acts e (set_loop AtRunNext (set_tasks (<[t := tk']> (ex_tasks e)) e)).
Proof.
  intros (Hl & _) Hp Ht Hc. pose proof (li_cas _ Hl _ _ Hp) as Hld. pose proof (li_tasks _ Hl _ _ Ht) as Hwf.
  assert (t ∈ executing e) as Hin by (apply elem_of_app; right; rewrite Hp; by left).
  assert (forall p, (t, p) ∉ ex_live e) as Hno.
  { intros p Hin'. destruct Hl as [_ Hu _ _ _ _]. unfold executing in Hu. rewrite Hp in Hu.
    apply NoDup_app in Hu as (_ & Hd & _). apply (list_elem_of_fmap_2 fst) in Hin'.
    apply (Hd _ Hin'). by left. }
  destruct (decide (task_status tk = ld)) as [<-|Hne].
  - destruct (setDone_cas_spec None (Some ErrCanceled) tk) as (tk2 & E & Hw & Hs' & _ & _ & Hv); [done..|].
    rewrite E in Hc. simplify_eq. exists [ActFinish t None; ActEnd t]. split; [right; exists t; tauto|].
    rewrite <- Hv. eapply (tracks_trans [_] [_]).
    + intros Hg. revert Hg. eapply tracks_finish; [done..|].
      split_and!; [|rewrite Hp; intros _; cbn; unfold cas_ok; rewrite Hs'|done].
      * intros p Hin'. by apply Hno in Hin'.
      * destruct (task_status tk) eqn:Es; try done; [|by left|by right].
        by destruct (executing_not_new _ _ _ Hl Ht Hin).
    + eapply tracks_end; [|cbn; by rewrite Hp|done|apply lookup_insert_eq|congruence].
      apply live_inv_put; [done..|congruence].
  - unfold setDone_cas in Hc. rewrite bool_decide_eq_true_2 in Hc by done. simplify_eq.
    exists [ActEnd t]. split; [right; exists t; tauto|]. intros Hg.
    pose proof (proj1 (proj2 (Hg _ _ Ht))) as Hk. rewrite Hp in Hk. specialize (Hk ltac:(by left)).
    revert Hg. change (tracks [ActEnd t] e (set_loop AtRunNext (set_tasks (<[t := tk']> (ex_tasks e)) e))).
    eapply tracks_quiet_l; [by eapply tracks_put_same|].
    eapply tracks_end; [|cbn; by rewrite Hp|done|apply lookup_insert_eq|].
    + apply live_inv_put; [done..|]. eauto using executing_not_new.
    + eapply cas_ok_running; [exact Hk|done|]. eauto using executing_not_new.
Qed.

Lemma tracks_completed_step pc e e' u : completed_step clk pc e = Some (u, e') -> running_loop e ->
  ex_loop e = pc -> go_inv e -> exists acts, permits LLoop acts /\ tracks acts e e'.
Proof.
  intros Hm Hl Hp Hg0. pose proof Hl as (Hli & ? & ? & ?).
  assert (permits LLoop []) as Hnil by (left; by left).
  destruct pc; cbn [completed_step] in Hm; unfold loop_goto in *; einv;
    try match goal with Ht : ex_tasks _ !! ?t = Some ?tk |- _ =>
      destruct (Hg0 _ _ Ht) as (_ & Hk & _); rewrite Hp in Hk; cbn in Hk end.
  - exists []. split; [done|]. by apply tracks_same.
  - (* AtDone *) unfold Done. case_bool_decide.
    + exists [ActEnd t]. split; [right; exists t; tauto|].
      eapply tracks_end; [done|by rewrite Hp|done..|congruence].
    + exists []. split; [done|]. eapply (tracks_goto _ _ t); [by rewrite Hp|done|].
      intros tk Ht. simplify_eq. apply Hk. by left.
  - (* AtCanceled *) destruct (Canceled _) eqn:Ec; [|destruct (Periodic _) eqn:Ep].
    1, 2: exists []; split; [done|]; by eapply (tracks_goto _ _ t); [rewrite Hp|..].
    exists [ActEnd t]. split; [right; exists t; tauto|].
    eapply tracks_end; [done|by rewrite Hp|done..|]. intros Hr.
    specialize (Hk ltac:(by left) Hr). congruence.
  - (* AtSetDoneLoad *) unfold Done. case_bool_decide.
    + exists [ActEnd t]. split; [right; exists t; tauto|].
      eapply tracks_end; [done|by rewrite Hp|done..|congruence].
    + exists []. split; [done|]. eapply (tracks_goto _ _ t); [by rewrite Hp|done|].
      match goal with Hx : ex_tasks _ !! _ = Some ?tk |- _ => rename Hx into Ht, tk into tk0 end.
      intros tk Htk. simplify_eq. cbn. unfold cas_ok.
      assert (t ∈ executing e) as Hin by (apply elem_of_app; right; rewrite Hp; by left).
      pose proof (executing_not_new _ _ _ Hli Ht Hin).
      destruct (task_status tk0) eqn:Es; try done; [by left|by right].
  - match goal with Hx : setDone_cas _ _ _ _ = Some ?r |- _ => destruct r as [b tk']; cbn end.
    by eapply tracks_AtSetDoneCas.
  - exists []. split; [done|]. by eapply (tracks_goto _ _ t); [rewrite Hp|..].
  - match goal with Hx : next_cas _ = _ |- _ => apply next_cas_spec in Hx as [Hr ->] end.
    exists [ActAgain t]. split; [right; exists t; tauto|]. by eapply tracks_again; [|rewrite Hp|..].
  - match goal with Hx : requeue _ _ _ = _ |- _ => apply requeue_effect in Hx as (now & tk & tk1 & Ht & E & Hq) end.
    destruct (next_set_fields _ _ _ E) as (Es & _ & _ & Ev & _ & Ety & _).
    exists []. split; [done|]. eapply tracks_quiet_l; [by apply (tracks_put_same e t tk (configureContext tk1))|].
    eapply tracks_quiet_l; [by apply tracks_quiet|].
    assert (ex_loop s = AtRequeue t) as Hps by (by rewrite (quiet_loop _ _ Hq)).
    intros Hg. split; [by apply go_inv_leave|]. unfold abs, executing. cbn. by rewrite Hps.
  - match goal with Hx : run_next_or_return _ _ = _ |- _ => apply tracks_run_next in Hx as (acts & Ha & Ht) end.
    + exists acts. split; [by left|]. eapply tracks_quiet_l; [|exact Ht].
      intros Hg. split; [by apply go_inv_leave|]. unfold abs, executing. cbn. by rewrite Hp.
    + destruct (running_loop_goto e AtSelect Hl) as (? & ? & ? & ?); [set_solver|done|]. by split_and!.
Qed.

(** *** The steps *)
Lemma tracks_phase e t p tk : ex_tasks e !! t = Some tk -> phase_ok p tk ->
  tracks [] e (set_live (ex_running e) (set_phase t p (ex_live e)) e).
Proof.
  intros Ht Hp Hg. split.
  - intros t' tk' Ht'. destruct (Hg _ _ Ht') as (Hph & Hl & Hv). split_and!; [|done|done].
    intros p' Hin. cbn in *.
    apply set_phase_elem in Hin as [(-> & -> & _)|Hin]; [congruence|eauto].
  - unfold abs, executing. cbn. by rewrite set_phase_fst.
Qed.

Lemma loop_run_tracks {A} (m : M (Exec Q H) A) l e s s' : sy_exec s = e -> exec_inv e -> go_inv e ->
  (forall a e', m e = Some (a, e') -> running_loop e -> exists acts, permits l acts /\ tracks acts e e') ->
  loop_run m s = Next s' -> exists acts, permits l acts /\ tracks acts e (sy_exec s').
Proof.
  unfold loop_run. intros <- Hinv Hg Hm. destruct (ex_stopped (sy_exec s)) eqn:Es; [done|].
  destruct (m (sy_exec s)) as [[a e']|] eqn:E; [|done]. intros [= <-]. cbn.
  eapply Hm; [done|]. by apply inv_running_loop.
Qed.

Lemma loop_event_tracks {A} (m : M (Exec Q H) A) l e s s' : sy_exec s = e -> exec_inv e -> go_inv e ->
  (forall a e', m e = Some (a, e') -> looping e -> exists acts, permits l acts /\ tracks acts e e') ->
  loop_event m s = Next s' -> exists acts, permits l acts /\ tracks acts e (sy_exec s').
Proof.
  unfold loop_event. intros He Hinv Hg Hm. case_decide as Hp; [|done]. apply loop_run_tracks; [done..|].
  intros a e' E (? & ? & ? & ?). eapply Hm; [done|]. subst. by split_and!.
Qed.

Lemma tracks_schedule ty d dl e e' r : schedule clk ty d dl e = Some (r, e') ->
  live_inv e -> exists acts, permits (LSchedule ty d dl) acts /\ tracks acts e e'.
Proof.
  unfold schedule. intros Hm Hl. einv; try (exists []; split; [by left|by apply tracks_same]).
  match goal with Hx : IsCanceled _ = false |- _ => unfold IsCanceled in Hx; apply bool_decide_eq_false in Hx; rename Hx into Hst end.
  cbn. set (t := fresh _).
  assert (ex_tasks e !! t = None) as Ht by apply not_elem_of_dom, is_fresh.
  clearbody t. exists [ActSubmit t]. split; [right; by exists t|]. intros Hg.
  split.
  - intros t' tk. cbn. rewrite lookup_insert. destruct (decide (t = t')) as [<-|]; [|exact (Hg t' tk)].
    intros [= <-]. apply (known_ok_idle e); [|done].
    intros (? & ? & _)%(executing_task _ _ Hl). congruence.
  - eapply abs_step; [apply (sp_submit _ t)|].
    + cbn. destruct (ex_status e); cbn in Hst; [done|lia..].
    + cbn. by rewrite lookup_fmap, Ht.
    + unfold abs, sp_put. cbn. by rewrite fmap_insert.
Qed.

Lemma live_phase_unique e t p p' : live_inv e -> (t, p) ∈ ex_live e -> (t, p') ∈ ex_live e -> p = p'.
Proof.
  intros Hu%live_unique (i & Hi)%list_elem_of_lookup (j & Hj)%list_elem_of_lookup.
  enough (i = j) by congruence. eapply NoDup_lookup; [exact Hu|..]; rewrite list_lookup_fmap.
  - by rewrite Hi.
  - by rewrite Hj.
Qed.

Lemma tracks_LSetDone t ld v er tk b tk' e : exec_inv e -> (t, GoSetDone ld v er) ∈ ex_live e ->
  ex_tasks e !! t = Some tk -> setDone_cas ld v er tk = Some (b, tk') -> go_inv e ->
  exists acts, permits (LSetDone t) acts /\
    tracks acts e (set_live (ex_running e) (set_phase t GoSend (ex_live e))
      (set_tasks (<[t := tk']> (ex_tasks e)) e)).
Proof.
  intros [Hl _] Hin Ht Hc Hg0. destruct (Hg0 _ _ Ht) as (Hp & _ & _). specialize (Hp _ Hin). cbn in Hp.
  destruct (li_ok _ Hl _ _ Hin) as [_ Hld]. specialize (Hld _ _ _ eq_refl).
  pose proof (li_tasks _ Hl _ _ Ht) as Hwf. pose proof (live_executing _ _ _ Hin) as Hin'.
  destruct (decide (task_status tk = ld)) as [<-|Hne].
  - destruct (setDone_cas_spec v er tk) as (tk2 & E2 & ? & Hs & _ & _ & Hv); [done..|].
    rewrite E2 in Hc. simplify_eq. exists [ActFinish t (value tk')]. split; [right; eauto|].
    eapply tracks_quiet_r.
    + eapply tracks_finish; [done..|]. eapply (known_ok_done _ _ tk); [by apply Hg0|done|..].
      * intros p Hpin. rewrite (live_phase_unique _ _ _ _ Hl Hpin Hin). eauto 10.
      * intros Hlp. by destruct (live_not_loop _ _ _ Hl Hin).
    + eapply (tracks_phase (set_tasks (<[t := tk']> (ex_tasks e)) e)); [apply lookup_insert_eq|].
      unfold phase_ok, ended_ok. congruence.
  - unfold setDone_cas in Hc. rewrite bool_decide_eq_true_2 in Hc by done. simplify_eq.
    exists []. split; [by left|]. eapply tracks_quiet_l; [by eapply tracks_put_same|].
    eapply (tracks_phase (set_tasks (<[t := tk']> (ex_tasks e)) e)); [apply lookup_insert_eq|].
    intros Hr. by destruct (cas_ok_running _ _ Hp Hne (executing_not_new _ _ _ Hl Ht Hin')).
Qed.

Lemma cancel_new_value tk tk' : cancel_new tk = Some tk' -> value tk' = value tk.
Proof.
  unfold cancel_new. set (t1 := with_canceled true _).
  destruct (call_ctxCancel_fields t1) as (_ & _ & _ & _ & Hv & _).
  destruct (close_chn _); cbn; [by intros [= <-]|done].
Qed.

Lemma tracks_cancel_new t e tk tk' : exec_inv e -> ex_tasks e !! t = Some tk -> task_status tk = TaskNew ->
  cancel_new tk = Some tk' ->
  tracks [ActCancelPending t] e (set_tasks (<[t := tk']> (ex_tasks e)) e).
Proof.
  intros [Hl _] Ht Hs Hc Hg. pose proof (li_tasks _ Hl _ _ Ht) as Hwf.
  assert (t ∉ executing e) as Hn by (intros Hin; by destruct (executing_not_new _ _ _ Hl Ht Hin)).
  assert (value tk' = None) as Hv.
  { rewrite (cancel_new_value _ _ Hc). apply (Hg _ _ Ht). congruence. }
  destruct (cancel_new_spec tk) as (tk2 & E & _ & Hd & _); [done..|]. rewrite E in Hc. simplify_eq. split.
  - apply go_inv_put; [done|]. by apply known_ok_idle.
  - eapply abs_step; [apply (sp_cancel_pending _ t)|].
    + cbn. rewrite lookup_fmap, Ht. cbn. unfold abs_task. by rewrite Hs.
    + unfold abs, sp_put. cbn. rewrite fmap_insert. do 2 f_equal. unfold abs_task. by rewrite Hd, Hv.
Qed.

Lemma tracks_cancel_running t e tk : ex_tasks e !! t = Some tk -> task_status tk = TaskRunning ->
  tracks [ActCancelRunning t] e (set_tasks (<[t := cancel_running_cas tk]> (ex_tasks e)) e).
Proof.
  intros Ht Hs Hg. destruct (Hg _ _ Ht) as (Hp & Hlp & Hv).
  assert (forall ld, cas_ok ld tk -> cas_ok ld (cancel_running_cas tk)) as Hcas.
  { intros ld [->|[-> _]]; [by left|by right]. }
  split.
  - apply go_inv_put; [done|]. split_and!.
    + intros p Hin. specialize (Hp _ Hin). destruct p; cbn in *; [done|by apply Hcas|done].
    + intros Hin. specialize (Hlp Hin). destruct (ex_loop e); cbn in *; try done. by apply Hcas.
    + intros _. cbn. apply Hv. congruence.
  - eapply abs_step; [apply (sp_cancel_running _ t)|].
    + cbn. rewrite lookup_fmap, Ht. cbn. unfold abs_task. by rewrite Hs.
    + unfold abs, sp_put. cbn. by rewrite fmap_insert.
Qed.

Lemma phase_ok_start tk v er : task_status tk <> TaskNew ->
  phase_ok (if Done tk then GoSend else GoSetDone (task_status tk) v er) tk.
Proof.
  unfold Done. intros Hn. case_bool_decide as Hd; cbn; [unfold ended_ok; congruence|].
  unfold cas_ok. destruct (task_status tk); try done; [by left|by right].
Qed.

Lemma sys_do_tracks l s s' : exec_inv (sy_exec s) -> go_inv (sy_exec s) -> sys_do clk l s = Next s' ->
  exists acts, permits l acts /\ tracks acts (sy_exec s) (sy_exec s').
Proof.
  intros Hinv Hg. pose proof Hinv as [Hl _].
  assert (forall t p tk, phase_of t (ex_live (sy_exec s)) = Some p ->
    ex_tasks (sy_exec s) !! t = Some tk -> task_status tk <> TaskNew) as Hnew.
  { intros t p tk Hp Ht. eapply executing_not_new; [done..|]. by eapply live_executing, phase_of_elem. }
  assert (forall e', abs e' = abs (sy_exec s) -> ex_live e' = ex_live (sy_exec s) ->
    ex_loop e' = ex_loop (sy_exec s) -> ex_tasks e' = ex_tasks (sy_exec s) ->
    exists acts, acts = [] /\ tracks acts (sy_exec s) e') as Hsame by eauto using tracks_same.
  destruct l; cbn [sys_do].
  - destruct (schedule _ _ _ _ _) as [[[]]|] eqn:E; intros; simplify_eq; cbn; by eapply tracks_schedule.
  - case_decide; [|done]. apply loop_event_tracks; [done..|]. intros ? ?. apply tracks_onSubmitted.
  - repeat case_match; try done. apply loop_event_tracks; [done..|]. intros ? ? Hm.
    by apply tracks_soq, (onTimer_effect _ _ _ _ Hm).
  - (* LReturn *) destruct (phase_of _ _) as [[]|] eqn:Ep; try done.
    destruct (ex_tasks _ !! t) as [tk|] eqn:Et; [|done]. case_match eqn:Eb; intros [= <-]; cbn;
      eexists; (split; [done|]); (eapply tracks_phase; [done..|]); [eauto using phase_ok_start|]. cbn. intros _.
    apply orb_false_iff in Eb as [_ Eb]. by apply negb_false_iff.
  - (* LPanic *) destruct (phase_of _ _) as [[]|] eqn:Ep; try done.
    destruct (ex_tasks _ !! t) as [tk|] eqn:Et; [|done]. intros [= <-]; cbn.
    eexists; (split; [done|]). eapply tracks_phase; [done..|]. eauto using phase_ok_start.
  - (* LSetDone *) destruct (phase_of _ _) as [[| ld v er |]|] eqn:Ep; try done.
    destruct (ex_tasks _ !! t) as [tk|] eqn:Et; [|done].
    destruct (setDone_cas ld v er tk) as [[b tk']|] eqn:Ec; [|done]. intros [= <-].
    exact (tracks_LSetDone _ _ _ _ _ _ _ _ Hinv (phase_of_elem _ _ _ Ep) Et Ec Hg).
  - (* LCompleted *) case_decide as Hp; [|done]. apply phase_of_elem in Hp.
    apply loop_event_tracks; [done..|]. intros ? ? ? ?. eexists. split; [done|].
    by eapply tracks_receive_completed.
  - (* LLoop *) case_decide; [done|]. apply loop_run_tracks; [done..|].
    intros ? ? ? ?. by eapply tracks_completed_step.
  - (* LCancelTask *) destruct (ex_tasks _ !! t) as [tk|] eqn:Et; [|done].
    destruct (task_status tk) eqn:Es; intros; simplify_eq.
    3, 4: exists []; split; [by left|by apply tracks_same].
    + destruct (cancel_new tk) eqn:Ec; [|done]. simplify_eq. eexists. split; [right; by left|].
      by eapply tracks_cancel_new.
    + eexists. split; [right; by right|]. by eapply tracks_cancel_running.
  - (* LCancelMark *) destruct (ex_tasks _ !! t) as [tk|] eqn:Et; [|done]. case_decide; [|done].
    intros [= <-]. destruct (call_ctxCancel_fields (with_canceled true tk)) as (Hs1 & _ & _ & _ & Hv & Hty).
    eexists. split; [done|]. by eapply tracks_put_same.
  - (* LCanceled *) case_decide; [|done]. apply loop_event_tracks; [done..|].
    intros ? ? ? _. eexists. split; [done|]. by eapply tracks_onCanceled.
  - (* LAwait *) destruct (ex_tasks _ !! t) as [tk|] eqn:Et; [|done]. intros [= <-].
    eexists. split; [done|]. eapply tracks_put_same; [done|..]; unfold Await; by destruct (doneChn tk).
  - intros [= <-]. by apply Hsame.
  - repeat case_match; intros; simplify_eq; by apply Hsame.
  - repeat case_match; intros; simplify_eq; by apply Hsame.
  - repeat case_match; [done|]. apply loop_event_tracks; [done..|]. intros ? ?. apply tracks_onCancel.
  - apply loop_event_tracks; [done..|]. intros ? ?. apply tracks_onCancelNow.
  - apply loop_event_tracks; [done..|]. intros ? ?. apply tracks_onUpdateConcurrency.
  - apply loop_event_tracks; [done..|]. intros ? ? ? _. eexists. split; [done|].
    by eapply tracks_onUpdateQueueCapacity.
Qed.

Lemma sys_run_tracks ls s s' : exec_inv (sy_exec s) -> go_inv (sy_exec s) -> sys_run clk ls s = Next s' ->
  exists parts, Forall2 permits ls parts /\ tracks (concat parts) (sy_exec s) (sy_exec s').
Proof.
  revert s. induction ls as [|l ls IH]; intros s Hinv Hg Hr; cbn in Hr.
  { simplify_eq. exists []. split; [done|]. by apply tracks_same. }
  destruct (sys_do clk l s) as [| |s1] eqn:E; try done.
  destruct (sys_do_tracks _ _ _ Hinv Hg E) as (acts & Ha & Ht). destruct (Ht Hg) as [Hg1 _].
  destruct (IH s1) as (parts & Hps & Hts); [by eapply sys_do_inv|done|done|].
  exists (acts :: parts). split; [by constructor|]. cbn. by eapply tracks_trans.
Qed.

Lemma go_inv_start (q : Q) c k : go_inv (H := H) (sy_exec (sys_start clk q c k)).
Proof. intros t tk Ht. cbn in Ht. by rewrite lookup_empty in Ht. Qed.

(** A run, and what it becomes, are runs of the abstract executor. *)
Lemma sys_run_abs ls (q : Q) c k (s : Sys Q H) : sys_run clk ls (sys_start clk q c k) = Next s ->
  go_inv (sy_exec s) /\ exec_inv (sy_exec s) /\
  exists parts, Forall2 permits ls parts /\ spec_run (spec_start c) (concat parts) (abs (sy_exec s)).
Proof.
  intros Hr. pose proof (sys_start_inv clk q c k) as Hinv.
  destruct (sys_run_tracks _ _ _ Hinv (go_inv_start q c k) Hr) as (parts & Hps & Ht).
  destruct (Ht (go_inv_start q c k)) as [Hg Hs].
  split_and!; [done|by eapply sys_run_inv|by exists parts].
Qed.

(** C2: the executor keeps to its interface: under every interleaving of loop,
    clients and goroutines, every step of a run is a sequence of actions of the
    abstract executor that its label is permitted, and the run is the run of
    these actions.  A command starts only while its future waits, while it is not
    running and while there is room under the limit that the last
    [SetConcurrency] set; a future becomes Done only by its own [Cancel] or by
    its execution; no command enters after [Cancel]; the end comes after
    [Cancel], when nothing runs. *)
Theorem executor_refines_spec ls q c k s :
  sys_run clk ls (sys_start clk q c k) = Next s ->
  (exists parts, Forall2 permits ls parts /\
     spec_run (spec_start c) (concat parts) (abs (sy_exec s))) /\
  forall l s', sys_do clk l s = Next s' ->
    exists acts, permits l acts /\ spec_run (abs (sy_exec s)) acts (abs (sy_exec s')).
Proof.
  intros Hr. destruct (sys_run_abs _ _ _ _ _ Hr) as (Hg & Hinv & Hs). split; [done|].
  intros l s' Hd. destruct (sys_do_tracks _ _ _ Hinv Hg Hd) as (acts & ? & Ht).
  exists acts. split; [done|]. by apply Ht.
Qed.

(** C3: what a client can rely on in every run and in every continuation of it:
    a future that is Done stays Done with its value, and its command never runs
    again once its execution has ended; a future that was asked to stop while
    running is never taken up again; after [Cancel] there is no new future; a
    command that is executing is running, and an executor that has terminated
    runs nothing. *)
Theorem executor_promises ls q c k ls' s s' :
  sys_run clk ls (sys_start clk q c k) = Next s -> sys_run clk ls' s = Next s' ->
  sp_later (abs (sy_exec s)) (abs (sy_exec s')) /\ sp_wf (abs (sy_exec s')).
Proof.
  intros Hr Hr'. destruct (sys_run_abs _ _ _ _ _ Hr) as (Hg & Hinv & parts & _ & Hs).
  destruct (spec_run_later _ _ _ Hs (sp_start_wf c)) as [_ Hwf].
  destruct (sys_run_tracks _ _ _ Hinv Hg Hr') as (parts' & _ & Ht). destruct (Ht Hg) as [_ Hs'].
  by eapply spec_run_later.
Qed.
End refinement.
