(* ===== verification/ExecutorSafety.v ===== *)
(** * executors: the event loop does not crash

    [safe]: the list of ready tasks is a well-formed ring, the scheduled queue
    is well formed, and what they and the tasks point to exists.  The handlers
    other than [onCancelNow] keep it and do not panic, as long as no [Cancel] of a
    task cuts across the case of its completed event: [tame] says how. *)

From S2P Require Import Prelude.
From S2P Require Import ContainerList.
From S2P Require Import QueueInterface.
From S2P Require Import Task.
From S2P Require Import Executor.
From S2P Require Import ExecutorInvariant.
From S2P Require Import ExecutorSystem.

Section safety.
Context {Q H : Type} `{TaskQueueLaws Q H} (clk : nat -> Z).
Implicit Types (e : Exec Q H) (t : nat) (tk : Task H).

Definition ptrs_ok (q : LList) (sq : Q) (tk : Task H) : Prop :=
  (forall x, queueElement tk = Some x -> is_Some (nodes q !! x)) /\
  (forall h, sQueueElement tk = Some h -> tq_known sq h).

Record safe e : Prop := {
  sf_queue : exists xs, is_list (ex_queue e) xs /\ Forall (fun x => is_Some (ex_tasks e !! x.2)) xs;
  sf_sched : tq_ok (ex_sched e);
  sf_items : Forall (fun x => is_Some (ex_tasks e !! x.1.2)) (tq_items (ex_sched e));
  sf_ptrs : forall t tk, ex_tasks e !! t = Some tk -> ptrs_ok (ex_queue e) (ex_sched e) tk;
}.

Lemma ptrs_ok_same tk tk' q sq : same_elements tk tk' -> ptrs_ok q sq tk -> ptrs_ok q sq tk'.
Proof. unfold ptrs_ok. by intros [-> ->]. Qed.

(** ** Frames *)
Lemma safe_frame e e' : safe e -> ex_queue e' = ex_queue e -> ex_sched e' = ex_sched e ->
  ex_tasks e' = ex_tasks e -> safe e'.
Proof. intros [] E1 E2 E3. split; rewrite ?E1, ?E2, ?E3; done. Qed.

Lemma safe_put e t tk : safe e -> ptrs_ok (ex_queue e) (ex_sched e) tk ->
  safe (set_tasks (<[t := tk]> (ex_tasks e)) e).
Proof.
  intros [(xs & Hq & HF) Hs Hi Hp] Hk.
  assert (forall t', is_Some (ex_tasks e !! t') -> is_Some (<[t := tk]> (ex_tasks e) !! t')) as Hmono.
  { intros t' ?. apply lookup_insert_is_Some. destruct (decide (t = t')); auto. }
  split; cbn; [exists xs; split; [done|]| |..].
  - eapply Forall_impl; [exact HF|]. eauto.
  - done.
  - eapply Forall_impl; [exact Hi|]. eauto.
  - intros t' tk'. rewrite lookup_insert. case_decide; intros; simplify_eq; eauto.
Qed.

(** ** The queues *)
Definition more_tasks e e' : Prop := forall t, is_Some (ex_tasks e !! t) -> is_Some (ex_tasks e' !! t).

Lemma ptrs_ok_grow q q' sq sq' tk : ptrs_ok q sq tk ->
  dom (nodes q) ⊆ dom (nodes q') -> (forall h, tq_known sq h -> tq_known sq' h) ->
  ptrs_ok q' sq' tk.
Proof.
  intros [Hq Hs] Hd Hk. split; [|eauto]. intros x Hx. apply elem_of_dom, Hd, elem_of_dom. eauto.
Qed.

Lemma more_tasks_same e e' : ex_tasks e' = ex_tasks e -> more_tasks e e'.
Proof. intros E t. by rewrite E. Qed.

Lemma queue_push_wp e t (Q' : nat -> Exec Q H -> Prop) : safe e -> is_Some (ex_tasks e !! t) ->
  (forall x q', nodes (ex_queue e) !! x = None -> safe (set_queue q' e) ->
     is_Some (nodes q' !! x) -> list_Len q' = list_Len (ex_queue e) + 1 ->
     (forall xs, is_list (ex_queue e) xs -> is_list q' (xs ++ [(x, t)])) ->
     Q' x (set_queue q' e)) ->
  wp (queue_push t) Q' e.
Proof.
  intros [(xs & Hq & HF) Hs Hi Hp] Ht HQ.
  destruct (is_list_PushBack _ _ t Hq) as (q' & x & E & Hx & Hq').
  pose proof (list_PushBack_dom _ _ _ _ E) as Hd.
  unfold wp, queue_push. rewrite E. cbn. apply HQ.
  - done.
  - split; cbn; [exists (xs ++ [(x, t)]); split; [done|]|done|done|].
    + apply Forall_app. split; [done|]. by constructor.
    + intros t' tk' Ht'. eapply ptrs_ok_grow; [eauto|set_solver|done].
  - apply elem_of_dom. rewrite Hd. set_solver.
  - rewrite (is_list_Len _ _ Hq), (is_list_Len _ _ Hq'), length_app. cbn. lia.
  - intros xs2 Hq2. destruct (is_list_PushBack _ _ t Hq2) as (q2 & x2 & E2 & _ & ?). congruence.
Qed.

Lemma sched_push_wp e t tk (Q' : H -> Exec Q H -> Prop) : safe e -> is_Some (ex_tasks e !! t) ->
  (forall h q', safe (set_sched q' e) -> tq_known q' h ->
     tq_items q' ≡ₚ (h, t, int64_wrap (nextRun tk)) :: tq_items (ex_sched e) ->
     Q' h (set_sched q' e)) ->
  wp (sched_push t tk) Q' e.
Proof.
  intros [Hq Hs Hi Hp] Ht HQ.
  destruct (tq_push_law (ex_sched e) t (int64_wrap (nextRun tk)) Hs) as (q' & h & E & Hs' & Hit & Hk & Hks).
  unfold wp, sched_push. rewrite E. cbn. apply HQ; [|done|done].
  split; cbn; [done|done| |].
  - rewrite Hit. by constructor.
  - intros t' tk' Ht'. eapply ptrs_ok_grow; [eauto|done|done].
Qed.

Lemma queue_pop_front_wp e x t xs (Q' : nat -> Exec Q H -> Prop) :
  safe e -> is_list (ex_queue e) ((x, t) :: xs) ->
  (forall q', safe (set_queue q' e) -> is_list q' xs -> is_Some (ex_tasks e !! t) ->
     list_Len q' = list_Len (ex_queue e) - 1 -> Q' t (set_queue q' e)) ->
  wp queue_pop_front Q' e.
Proof.
  intros [(xs0 & Hq0 & HF) Hs Hi Hp] Hq HQ.
  assert (is_Some (ex_tasks e !! t) /\ Forall (fun x => is_Some (ex_tasks e !! x.2)) xs) as [Ht HF'].
  { pose proof (list_values_spec _ _ Hq0) as E0. rewrite (list_values_spec _ _ Hq) in E0.
    assert (Forall (fun t => is_Some (ex_tasks e !! t)) (snd <$> xs0)) as HF0 by by apply Forall_fmap.
    injection E0 as E0. rewrite <- E0 in HF0. apply Forall_cons in HF0 as [? HF0].
    split; [done|]. change (list_fmap _ _ snd xs) with (snd <$> xs) in HF0.
    apply Forall_forall. intros y Hy. rewrite Forall_forall in HF0.
    apply HF0. by apply (list_elem_of_fmap_2 snd). }
  destruct (is_list_Remove _ [] _ _ _ Hq) as (q' & E & Hq'). cbn [app] in Hq'.
  unfold wp, queue_pop_front. rewrite (is_list_Front _ _ Hq).
  cbn [mbind option_bind head fmap option_fmap option_map fst]. rewrite E.
  cbn [mbind option_bind snd fst]. apply HQ; [|done|done|].
  - split; cbn; [by exists xs|done|done|].
    intros t' tk' Ht'. eapply ptrs_ok_grow; [eauto| |done].
    by rewrite (list_Remove_dom _ _ _ _ E).
  - rewrite (is_list_Len _ _ Hq), (is_list_Len _ _ Hq'). cbn. lia.
Qed.

Lemma queue_remove_wp e x (Q' : unit -> Exec Q H -> Prop) :
  safe e -> is_Some (nodes (ex_queue e) !! x) ->
  (forall q', safe (set_queue q' e) -> Q' tt (set_queue q' e)) -> wp (queue_remove x) Q' e.
Proof.
  intros [(xs & Hq & HF) Hs Hi Hp] [n Hn] HQ. unfold wp, queue_remove.
  destruct (nd_list n) eqn:En.
  - pose proof Hq as (_ & _ & _ & _ & Hout). specialize (Hout _ _ Hn En).
    apply list_elem_of_fmap in Hout as ([x' v] & -> & Hin). cbn in *.
    apply list_elem_of_split in Hin as (xs1 & xs2 & ->).
    destruct (is_list_Remove _ _ _ _ _ Hq) as (q' & E & Hq'). rewrite E. cbn. apply HQ.
    split; cbn; [exists (xs1 ++ xs2); split; [done|]|done|done|].
    + rewrite Forall_app, Forall_cons in HF. apply Forall_app. tauto.
    + intros t' tk' Ht'. eapply ptrs_ok_grow; [eauto| |done]. by rewrite (list_Remove_dom _ _ _ _ E).
  - rewrite (list_Remove_detached _ _ _ Hn En). cbn. apply HQ. split; cbn; eauto.
Qed.

Lemma sched_remove_wp e h (Q' : unit -> Exec Q H -> Prop) :
  safe e -> tq_known (ex_sched e) h ->
  (forall q', safe (set_sched q' e) -> Q' tt (set_sched q' e)) -> wp (sched_remove h) Q' e.
Proof.
  intros [Hq Hs Hi Hp] Hk HQ. unfold wp, sched_remove.
  destruct (tq_remove_law _ _ Hs Hk) as [(q' & t & p & -> & Hs' & Hit & Hks)|[-> _]]; cbn; apply HQ.
  - split; cbn; [done|done| |].
    + rewrite Hit in Hi. by apply Forall_cons in Hi as [_ ?].
    + intros t' tk' Ht'. eapply ptrs_ok_grow; [eauto|done|done].
  - by split.
Qed.

Ltac frames := cbn; split_and!;
  first [done | by apply more_tasks_same | by eapply safe_frame | idtac].

(** ** The operations *)
Lemma get_task_wp e t (Q' : Task H -> Exec Q H -> Prop) tk :
  ex_tasks e !! t = Some tk -> Q' tk e -> wp (get_task t) Q' e.
Proof. unfold wp, get_task. by intros ->. Qed.

Lemma peek_wp e (Q' : nat -> Exec Q H -> Prop) :
  safe e -> tq_len (ex_sched e) <> 0%nat ->
  (forall t, is_Some (ex_tasks e !! t) -> Q' t e) -> wp (lift_option (tq_peek (ex_sched e))) Q' e.
Proof.
  intros [_ Hs Hi _] Hn HQ. rewrite (tq_len_items _ Hs) in Hn.
  destruct (tq_pop_law _ Hs) as (q' & h & t & p & _ & -> & _ & Hit & _); [by destruct (tq_items _)|].
  cbn. apply HQ. rewrite Hit in Hi. by apply Forall_cons in Hi as [? _].
Qed.

Lemma configureSchedulerTimer_wp e : safe e ->
  wp (configureSchedulerTimer clk) (fun _ e' => safe e' /\ ex_tasks e' = ex_tasks e /\
    ex_queue e' = ex_queue e /\ ex_sched e' = ex_sched e) e.
Proof.
  intros Hs. unfold configureSchedulerTimer. apply wp_bind. cbn.
  case_bool_decide as Hn; [by frames|]. apply wp_bind, peek_wp; [done|done|]. intros t [tk Ht].
  apply wp_bind. eapply get_task_wp; [done|]. case_bool_decide; [by frames|].
  apply wp_bind. cbn. split; [by eapply safe_frame|done].
Qed.

Lemma executeTask_wp e t : safe e -> is_Some (ex_tasks e !! t) ->
  wp (executeTask clk t) (fun _ e' => safe e' /\ more_tasks e e' /\ ex_queue e' = ex_queue e) e.
Proof.
  intros Hs [tk Ht]. unfold executeTask. apply wp_bind. eapply get_task_wp; [done|].
  apply wp_bind. cbn. destruct (setRunning _ tk) as [[] tk'] eqn:Er; cbn.
  - split_and!; [|intros t' Ht'; cbn; apply lookup_insert_is_Some; destruct (decide (t = t')); tauto|done].
    eapply (safe_frame (set_tasks (<[t := tk']> (ex_tasks e)) e)); [|done..].
    apply safe_put; [done|]. pose proof (sf_ptrs _ Hs _ _ Ht) as Hp.
    unfold setRunning in Er. destruct (_ || _); [done|]. by simplify_eq.
  - split_and!; [by eapply safe_frame|by apply more_tasks_same|done].
Qed.

Lemma more_tasks_put e t tk : more_tasks e (set_tasks (<[t := tk]> (ex_tasks e)) e).
Proof. intros t' ?. cbn. apply lookup_insert_is_Some. destruct (decide (t = t')); auto. Qed.

(** Running or queueing one task; the list of ready tasks grows only when there
    is no room. *)
Lemma tryExecuteTask_wp e t : safe e -> is_Some (ex_tasks e !! t) ->
  wp (tryExecuteTask clk t) (fun _ e' => safe e' /\ more_tasks e e' /\
    (canStartNewTask e = true -> ex_queue e' = ex_queue e)) e.
Proof.
  intros Hs [tk Ht]. unfold tryExecuteTask. apply wp_bind. eapply get_task_wp; [done|].
  pose proof (sf_ptrs _ Hs _ _ Ht) as Hp. case_match; [frames|]. apply wp_bind. cbn.
  assert (safe (set_ticks (S (ex_ticks e)) e)) as Hs1 by by eapply safe_frame.
  case_bool_decide.
  - apply wp_bind, sched_push_wp; [done|by eexists|]. intros h q' Hs2 Hk _.
    apply wp_bind. cbn. eapply wp_mono; [apply configureSchedulerTimer_wp|].
    + apply (safe_put (set_sched q' (set_ticks (S (ex_ticks e)) e))); [done|]. split; [apply Hp|]. cbn. by intros ? [= <-].
    + intros _ e' (Hs3 & E & Eq & _). split_and!; [done| |done].
      intros t' ?. rewrite E. by apply (more_tasks_put (set_sched q' (set_ticks (S (ex_ticks e)) e))).
  - apply wp_bind. cbn. destruct (canStartNewTask _) eqn:Ec; cbn.
    + eapply wp_mono; [apply executeTask_wp; [done|by eexists]|]. by intros _ e' (? & ? & ?).
    + apply wp_bind, queue_push_wp; [done|by eexists|]. intros x q' _ Hs2 Hx _ _. cbn.
      split_and!; [|by apply (more_tasks_put (set_queue q' (set_ticks (S (ex_ticks e)) e)))|].
      * apply (safe_put (set_queue q' (set_ticks (S (ex_ticks e)) e))); [done|]. split; [|apply Hp]. cbn. by intros ? [= <-].
      * intros Hc. change (canStartNewTask (set_ticks _ e)) with (canStartNewTask e) in Ec. congruence.
Qed.

Lemma more_tasks_trans e1 e2 e3 : more_tasks e1 e2 -> more_tasks e2 e3 -> more_tasks e1 e3.
Proof. unfold more_tasks. eauto. Qed.

Lemma tryRunNextTask_wp e : safe e -> ex_terminationChn e = false ->
  wp (tryRunNextTask clk) (fun b e' => safe e' /\ more_tasks e e' /\
    (canStartNewTask e = true -> list_Len (ex_queue e) > 0 -> exec_status_code (ex_status e) < 3 ->
       list_Len (ex_queue e') = list_Len (ex_queue e) - 1)) e.
Proof.
  intros Hs Hc. unfold tryRunNextTask. apply wp_bind. cbn. unfold IsTerminated.
  case_bool_decide; [cbn in *; frames; lia|].
  case_bool_decide as Hz.
  { unfold QueueLength in Hz. assert (list_Len (ex_queue e) <= 0) by lia.
    rewrite Hc. unfold wp, mbind, M_bind, modify, mret, M_ret.
    destruct (IsCanceled e); [|frames; lia].
    case_bool_decide; repeat case_bool_decide; frames; lia. }
  destruct (sf_queue _ Hs) as (xs & Hq & HF). rewrite (is_list_Len _ _ Hq).
  case_bool_decide; [frames; lia|].
  destruct xs as [|[x t] xs]; [done|].
  destruct (canStartNewTask e) eqn:Ecan; cbn; [|by frames].
  apply wp_bind. eapply queue_pop_front_wp; [done|done|]. intros q' Hs1 Hq' [tk Ht] Hlen.
  apply wp_bind. eapply get_task_wp; [done|]. apply wp_bind. cbn. apply wp_bind.
  eapply wp_mono; [apply tryExecuteTask_wp|].
  - apply (safe_put (set_queue q' e)); [done|].
    destruct (sf_ptrs _ Hs1 _ _ Ht) as [_ ?]. by split.
  - cbn. rewrite lookup_insert_eq. eauto.
  - intros _ e' (Hs2 & Hm & Eq). split_and!; [done| |].
    + eapply more_tasks_trans; [|exact Hm]. by apply (more_tasks_put (set_queue q' e)).
    + intros _ _ _. rewrite Eq by done. cbn. rewrite Hlen, (is_list_Len _ _ Hq). cbn. lia.
Qed.

Lemma run_next_or_return_wp e : safe e -> ex_terminationChn e = false ->
  wp (run_next_or_return clk) (fun _ e' => safe e' /\ more_tasks e e') e.
Proof.
  intros Hs Hc. unfold run_next_or_return. apply wp_bind.
  eapply wp_mono; [by apply tryRunNextTask_wp|]. intros [] e' (? & ? & _); [done|].
  cbn. split; [by eapply safe_frame|done].
Qed.

Lemma start_queued_wp fuel e : safe e -> looping e -> (Z.to_nat (list_Len (ex_queue e)) <= fuel)%nat ->
  wp (start_queued clk fuel) (fun _ e' => safe e' /\ more_tasks e e') e.
Proof.
  revert e. induction fuel as [|fuel IH]; intros e Hs Hl Hf; cbn [start_queued]; apply wp_bind; cbn;
    destruct (canStartNewTask e) eqn:Ecan; cbn; try (by frames); case_bool_decide; try (by frames);
    cbn; [lia|].
  apply wp_bind. pose proof Hl as (_ & Hst & Hc & _).
  destruct (wp_run _ _ _ (tryRunNextTask_wp e Hs Hc)) as (b & e1 & Hm & Hs1 & Hmore & Hlen).
  eapply wp_intro; [exact Hm|]. destruct b; [|by frames].
  apply tryRunNextTask_effect in Hm.
  eapply wp_mono; [apply IH; [done|by eapply next_effect_true|]|].
  - rewrite Hlen by (done || lia || by destruct (ex_status e); cbn). lia.
  - intros _ e2 [? ?]. eauto using more_tasks_trans.
Qed.

(** ** The handlers *)
Lemma onSubmitted_wp e t : safe e -> is_Some (ex_tasks e !! t) ->
  wp (onSubmitted clk t) (fun _ e' => safe e' /\ more_tasks e e') e.
Proof. intros ? ?. eapply wp_mono; [by apply tryExecuteTask_wp|]. by intros _ e' (? & ? & _). Qed.

Lemma sched_pop_wp e (Q' : nat -> Exec Q H -> Prop) : safe e -> tq_len (ex_sched e) <> 0%nat ->
  (forall t q', is_Some (ex_tasks e !! t) -> safe (set_sched q' e) -> Q' t (set_sched q' e)) ->
  wp (fun e => r ← tq_pop (ex_sched e); Some (r.2, set_sched r.1 e)) Q' e.
Proof.
  intros [Hq Hs Hi Hp] Hn HQ. rewrite (tq_len_items _ Hs) in Hn.
  destruct (tq_pop_law _ Hs) as (q' & h & t & p & E & _ & Hs' & Hit & _ & Hk); [by destruct (tq_items _)|].
  unfold wp. rewrite E. cbn. rewrite Hit in Hi. apply Forall_cons in Hi as [? Hi].
  apply HQ; [done|]. split; cbn; [done..|].
  intros t' tk' Ht'. eapply ptrs_ok_grow; [eauto|done|done].
Qed.

Lemma onTimer_wp e : safe e -> wp (onTimer clk) (fun _ e' => safe e' /\ more_tasks e e') e.
Proof.
  intros Hs. unfold onTimer. apply wp_bind. cbn. apply wp_bind. cbn.
  assert (safe (set_timer None e)) as Hs1 by by eapply safe_frame.
  case_bool_decide as Hn; [by frames|]. apply wp_bind, (peek_wp (set_timer None e)); [done|done|].
  intros t [tk Ht]. apply wp_bind. eapply get_task_wp; [done|]. apply wp_bind. cbn.
  set (e1 := set_ticks _ _). assert (safe e1) as Hs2 by by eapply safe_frame.
  assert (more_tasks e e1 /\ ex_sched e1 = ex_sched e) as [Hm E] by (split; [by apply more_tasks_same|done]).
  clearbody e1. apply wp_bind.
  apply (wp_mono _ (fun _ e' => safe e' /\ more_tasks e e')).
  - case_bool_decide; [|done]. apply wp_bind, sched_pop_wp; [done|by rewrite E|].
    intros t' q' [tk' Ht'] Hs3. apply wp_bind. eapply get_task_wp; [done|]. apply wp_bind. cbn.
    eapply wp_mono; [apply tryExecuteTask_wp|].
    + apply (safe_put (set_sched q' e1)); [done|]. destruct (sf_ptrs _ Hs3 _ _ Ht'). by split.
    + cbn. rewrite lookup_insert_eq. eauto.
    + intros _ e' (? & Hm' & _). split; [done|]. eapply more_tasks_trans; [exact Hm|].
      eapply more_tasks_trans; [|exact Hm']. by apply (more_tasks_put (set_sched q' e1)).
  - intros _ e' [Hs3 Hm3]. eapply wp_mono; [by apply configureSchedulerTimer_wp|].
    intros _ e2 (? & E2 & _). split; [done|]. eapply more_tasks_trans; [exact Hm3|].
    by apply more_tasks_same.
Qed.

Lemma requeue_wp e t tk : safe e -> ex_tasks e !! t = Some tk -> Periodic tk = true ->
  wp (requeue clk t) (fun _ e' => safe e' /\ more_tasks e e') e.
Proof.
  intros Hs Ht Hp. unfold requeue. apply wp_bind. eapply get_task_wp; [done|].
  apply wp_bind. cbn. apply wp_bind.
  set (now := clk _). set (e1 := set_ticks _ e).
  destruct (proj2 (next_set_periodic now tk) Hp) as [tk1 E]. rewrite E. cbn.
  assert (ptrs_ok (ex_queue e) (ex_sched e) (configureContext tk1)) as Hk.
  { pose proof (sf_ptrs _ Hs _ _ Ht) as Hk. by eapply (ptrs_ok_same tk tk1); [eapply next_set_elements|]. }
  apply wp_bind. cbn. apply wp_bind. cbn.
  match goal with |- context [wp _ _ ?s] => set (e2 := s) end.
  assert (safe e2) as Hs2 by (eapply safe_frame; [apply (safe_put e t); [exact Hs|exact Hk]|done..]).
  assert (more_tasks e e2 /\ is_Some (ex_tasks e2 !! t)) as [Hm Ht2].
  { split; [|cbn; rewrite lookup_insert_eq; eauto]. by apply (more_tasks_put e). }
  clearbody e2. case_bool_decide; apply wp_bind.
  - apply sched_push_wp; [done|done|]. intros h q' Hs3 _ _.
    eapply wp_mono; [by apply configureSchedulerTimer_wp|]. intros _ e' (? & E' & _).
    split; [done|]. eapply more_tasks_trans; [exact Hm|]. by apply more_tasks_same.
  - apply queue_push_wp; [done|done|]. intros x q' _ Hs3 _ _ _. by split.
Qed.

(** *** The case of the completed event *)

(** What the loop relies on when it has looked at the task [t]. *)
Definition pc_fine (pc : LoopPc) t tk : Prop :=
  match pc with
  | AtCanceled u => u = t -> task_status tk <> TaskDone
  | AtNextCheck u | AtNextCas u => u = t -> task_status tk = TaskRunning /\ Periodic tk = true
  | AtRequeue u => u = t -> Periodic tk = true
  | _ => True
  end.

Definition loop_known e : Prop :=
  (forall t tk, ex_tasks e !! t = Some tk -> pc_fine (ex_loop e) t tk) /\
  (forall t, ex_loop e = AtRequeue t -> is_Some (ex_tasks e !! t)).

Lemma loop_known_put e t tk : loop_known e -> pc_fine (ex_loop e) t tk ->
  loop_known (set_tasks (<[t := tk]> (ex_tasks e)) e).
Proof.
  intros [Hf Hr] Ht. split; cbn.
  - intros t' tk'. rewrite lookup_insert. case_decide; intros; simplify_eq; eauto.
  - intros t' E. by apply more_tasks_put, Hr.
Qed.

Lemma loop_known_select e : ex_loop e = AtSelect -> loop_known e.
Proof. intros E. split; rewrite E; done. Qed.

(** When the loop looks at [canceled], no [Cancel] is halfway. *)
Definition calm e : Prop := forall t tk, ex_loop e = AtCanceled t -> ex_tasks e !! t = Some tk ->
  task_status tk = TaskCancelling -> canceled tk = true.

Ltac fine := split; cbn; intros; subst; simplify_eq; try done.

Lemma completed_step_wp pc e : safe e -> running_loop e -> ex_loop e = pc -> loop_known e -> calm e ->
  wp (completed_step clk pc) (fun _ e' => safe e' /\ more_tasks e e' /\ loop_known e') e.
Proof.
  intros Hs Hl Hp [Hf Hr] Hcalm. pose proof Hl as ([_ _ _ Hwf Hlp Hcas] & _ & Hc & _). rewrite Hp in *.
  assert (forall pc', safe (set_loop pc' e) /\ more_tasks e (set_loop pc' e)) as Hgo.
  { intros pc'. split; [by eapply safe_frame|by apply more_tasks_same]. }
  assert (forall t, t ∈ loop_task pc -> exists tk, ex_tasks e !! t = Some tk /\ task_status tk <> TaskNew /\
    wf_task tk /\ pc_fine pc t tk) as Htask.
  { intros t (tk & Ht & Hn)%Hlp. eauto 10. }
  destruct pc as [|t|t|t|t ld|t|t|t|]; cbn [completed_step loop_task] in *.
  1: { split; [done|]. split; [by apply more_tasks_same|]. by apply loop_known_select. }
  1, 2, 3, 4, 5, 6: destruct (Htask t) as (tk & Ht & Hn & Hw & Hk); [by left|]; cbn in Hk;
    apply wp_bind, (get_task_wp _ _ _ tk); [done|].
  - unfold Done. case_bool_decide; cbn; (split_and!; [by apply Hgo..|]); fine.
  - (* AtCanceled *) cbn. split_and!; [by apply Hgo..|]. specialize (Hk eq_refl).
    unfold Canceled. destruct (canceled tk) eqn:Ec; [by fine|]. destruct (Periodic tk) eqn:Ep; fine.
    split; [|done]. specialize (Hcalm _ _ Hp Ht).
    destruct (task_status tk) eqn:Es; try done. specialize (Hcalm eq_refl). congruence.
  - unfold Done. case_bool_decide; cbn; (split_and!; [by apply Hgo..|]); fine.
  - (* AtSetDoneCas *)
    destruct (setDone_cas_total ld None (Some ErrCanceled) tk Hw) as (b & tk' & E & _); [by eapply Hcas|].
    apply wp_bind. rewrite E. cbn. split_and!; [|by apply (more_tasks_put e)|fine].
    eapply (safe_frame (set_tasks (<[t := tk']> (ex_tasks e)) e)); [|done..]. apply safe_put; [done|].
    eapply ptrs_ok_same; [by eapply setDone_cas_elements|by eapply sf_ptrs].
  - (* AtNextCheck *) destruct (Hk eq_refl). rewrite next_check_running by done. cbn.
    split_and!; [by apply Hgo..|]. fine.
  - (* AtNextCas *) destruct (Hk eq_refl) as [Hrun Hper].
    apply wp_bind. rewrite (proj2 (next_cas_spec tk _) (conj Hrun eq_refl)). cbn.
    split_and!; [|by apply (more_tasks_put e)|].
    + eapply (safe_frame (set_tasks (<[t := with_status TaskNew tk]> (ex_tasks e)) e)); [|done..].
      apply safe_put; [done|]. by eapply (ptrs_ok_same tk); [|by eapply sf_ptrs].
    + split; cbn.
      * intros t' tk' Ht' <-. rewrite lookup_insert_eq in Ht'. by simplify_eq.
      * intros t' [= <-]. rewrite lookup_insert_eq. eauto.
  - (* AtRequeue *) destruct (Hr t eq_refl) as [tk Ht]. apply wp_bind.
    eapply wp_mono; [by apply (requeue_wp e t tk); [| |apply (Hf _ _ Ht)]|].
    intros _ e' [Hs' Hm']. cbn. split_and!; [by eapply safe_frame|done|fine].
  - (* AtRunNext *) apply wp_bind. cbn.
    destruct (wp_run _ _ _ (run_next_or_return_wp (set_loop AtSelect e) (proj1 (Hgo AtSelect)) Hc))
      as (u & e' & Hm & Hs' & Hm').
    eapply wp_intro; [exact Hm|]. split_and!; [done|done|]. apply loop_known_select.
    by apply stays_run_next in Hm.
Qed.

Lemma onCanceled_wp e t : safe e -> is_Some (ex_tasks e !! t) ->
  wp (onCanceled t) (fun _ e' => safe e' /\ more_tasks e e') e.
Proof.
  intros Hs [tk Ht]. unfold onCanceled. apply wp_bind. eapply get_task_wp; [done|].
  pose proof (sf_ptrs _ Hs _ _ Ht) as [Hq Hh]. apply wp_bind.
  apply (wp_mono _ (fun _ e' => safe e' /\ more_tasks e e' /\ ex_queue e' = ex_queue e /\
    ex_sched e' = ex_sched e)).
  { case_bool_decide; cbn; [|by frames]. split_and!; [by apply safe_put|apply more_tasks_put|done|done]. }
  intros _ e1 (Hs1 & Hm1 & E1 & E2). apply wp_bind. cbn. case_bool_decide; [done|]. apply wp_bind.
  apply (wp_mono _ (fun _ e' => safe e' /\ more_tasks e e' /\ ex_sched e' = ex_sched e)).
  - destruct (queueElement tk) as [x|]; [|done]. apply queue_remove_wp; [done|rewrite E1; eauto|].
    by intros q' ?.
  - intros _ e2 (Hs2 & Hm2 & E). destruct (sQueueElement tk) as [h|]; [|done].
    apply sched_remove_wp; [done|rewrite E; eauto|]. by intros q' ?.
Qed.

Lemma onUpdateConcurrency_wp n e : safe e -> looping e ->
  wp (onUpdateConcurrency clk n) (fun _ e' => safe e' /\ more_tasks e e') e.
Proof.
  intros Hs Hl. unfold onUpdateConcurrency. apply wp_bind. cbn. apply wp_bind. cbn.
  assert (safe (set_concurrency n e)) as Hs1 by by eapply safe_frame.
  eapply wp_mono; [apply start_queued_wp; [exact Hs1| |done]|].
  - eapply looping_frame; [exact Hl|done..|apply Hl|done|done].
  - by intros _ e' [? ?].
Qed.

Lemma onCancel_wp e : safe e -> looping e -> wp (onCancel clk) (fun _ e' => safe e' /\ more_tasks e e') e.
Proof.
  intros Hs (_ & _ & Hc & _). unfold onCancel. apply wp_bind. cbn.
  destruct (IsCanceled e); [by frames|]. apply wp_bind.
  assert (forall e1, safe e1 -> ex_terminationChn e1 = false -> ex_tasks e1 = ex_tasks e ->
    wp (_ ← run_next_or_return clk; mret (bool_decide (ex_status e = ExecRunning)))
      (fun _ e' => safe e' /\ more_tasks e e') e1) as Hrun.
  { intros e1 ? ? E. apply wp_bind. eapply wp_mono; [by apply run_next_or_return_wp|].
    intros _ e2 [? ?]. cbn. split; [done|]. eapply more_tasks_trans; [|done]. by apply more_tasks_same. }
  case_bool_decide; apply Hrun; try done. by eapply safe_frame.
Qed.

(** ** Every run *)
Implicit Types (s : Sys Q H).

Record sys_safe s : Prop := {
  ss_safe : safe (sy_exec s);
  ss_inv : exec_inv (sy_exec s);
  ss_tasks : forall t, t ∈ sy_pending s \/ t ∈ sy_marks s \/ t ∈ sy_cancels s ->
    is_Some (ex_tasks (sy_exec s) !! t);
  ss_marks : forall t tk, ex_tasks (sy_exec s) !! t = Some tk -> task_status tk = TaskCancelling ->
    canceled tk = true \/ t ∈ sy_marks s;
  ss_loop : loop_known (sy_exec s);
}.

(** The steps for which the executor is not known to crash: no [CancelNow]; the
    loop does not look at [canceled] while a [Cancel] of the task is between its
    compare-and-swap and its write of [canceled]; and no [Cancel] of the task
    swaps the status after the loop has looked at [canceled] and before it has
    swapped the status itself. *)
Definition tame (l : Label) s : Prop :=
  match l with
  | LCancelNow => False
  | LLoop => forall t, ex_loop (sy_exec s) = AtCanceled t -> t ∉ sy_marks s
  | LCancelTask t => ex_loop (sy_exec s) <> AtNextCheck t /\ ex_loop (sy_exec s) <> AtNextCas t
  | _ => True
  end.

Lemma remove_first_elem t t' l : t' ∈ remove_first t l -> t' ∈ l.
Proof. induction l as [|x l IH]; cbn; [done|]. case_decide; set_solver. Qed.

Lemma remove_first_ne t t' l : t' ∈ l -> t' <> t -> t' ∈ remove_first t l.
Proof. induction l as [|x l IH]; cbn; [done|]. case_decide; set_solver. Qed.

(** What the loop does safely, cancelling nothing. *)
Lemma loop_run_safe {A} (m : M (Exec Q H) A) s :
  sys_safe s ->
  (running_loop (sy_exec s) ->
     wp m (fun _ e' => safe e' /\ more_tasks (sy_exec s) e' /\ loop_known e') (sy_exec s)) ->
  (forall a e', m (sy_exec s) = Some (a, e') -> running_loop (sy_exec s) ->
     kept (sy_exec s) e' /\ exec_inv e') ->
  loop_run m s <> Crash /\ (forall s', loop_run m s = Next s' -> sys_safe s').
Proof.
  intros [Hs Hi Ht Hm Hlk] Hwp Hk. unfold loop_run.
  destruct (ex_stopped (sy_exec s)) eqn:Es; [done|].
  pose proof (inv_running_loop _ Hi Es) as Hl.
  destruct (wp_run _ _ _ (Hwp Hl)) as (a & e' & E & Hs' & Hmore & Hlk').
  destruct (Hk _ _ E Hl) as [Hkept Hi']. rewrite E. split; [done|].
  intros s' [= <-]. split; cbn; [done|done|eauto| |done].
  intros t tk' Htk' Hc. destruct (Hkept _ _ Htk' Hc) as (tk & Htk & Hc' & ->). eauto.
Qed.

Lemma loop_event_safe {A} (m : M (Exec Q H) A) s :
  sys_safe s ->
  (looping (sy_exec s) -> wp m (fun _ e' => safe e' /\ more_tasks (sy_exec s) e') (sy_exec s)) ->
  (forall a e', m (sy_exec s) = Some (a, e') -> kept (sy_exec s) e' /\ stays (sy_exec s) e') ->
  (forall a e', m (sy_exec s) = Some (a, e') -> looping (sy_exec s) -> exec_inv e') ->
  loop_event m s <> Crash /\ (forall s', loop_event m s = Next s' -> sys_safe s').
Proof.
  intros Hss Hwp Hk Hinv. unfold loop_event. case_decide as Hp; [|done].
  assert (running_loop (sy_exec s) -> looping (sy_exec s)) as Hlp by (intros (? & ? & ? & ?); by split_and!).
  apply loop_run_safe; [done|..].
  - intros Hl. destruct (wp_run _ _ _ (Hwp (Hlp Hl))) as (a & e' & E & ? & ?).
    eapply wp_intro; [exact E|]. split_and!; [done..|]. apply loop_known_select.
    destruct (Hk _ _ E) as [_ ->]. done.
  - intros a e' E Hl. split; [by eapply Hk|eauto].
Qed.

(** A client or a goroutine writes a task. *)
Lemma write_task_safe t tk tk' s : sys_safe s -> ex_tasks (sy_exec s) !! t = Some tk ->
  same_elements tk tk' -> exec_inv (sy_exec (write_task t tk' s)) ->
  (task_status tk' = TaskCancelling -> canceled tk' = true \/ t ∈ sy_marks s) ->
  (pc_fine (ex_loop (sy_exec s)) t tk -> pc_fine (ex_loop (sy_exec s)) t tk') ->
  sys_safe (write_task t tk' s).
Proof.
  clear clk. intros [Hs Hi Ht Hm Hlk] Htk He Hinv Hc Hf. split; cbn.
  - apply safe_put; [done|]. eapply ptrs_ok_same; [done|]. by eapply sf_ptrs.
  - done.
  - intros t' ?. apply more_tasks_put. eauto.
  - intros t' tk2. rewrite lookup_insert. case_decide; intros; simplify_eq; eauto.
  - apply loop_known_put; [done|]. by apply Hf, Hlk.
Qed.

(** The loop does not rely on a task of which it knows that it does not work on. *)
Lemma pc_fine_other pc t tk tk' : t ∉ loop_task pc -> task_type tk' = task_type tk ->
  pc_fine pc t tk -> pc_fine pc t tk'.
Proof.
  clear clk. intros Hn E. unfold Periodic in *.
  destruct pc; cbn in *; unfold Periodic; rewrite ?E; try done; intros _ ->; exfalso; apply Hn; by left.
Qed.

Lemma pc_fine_same pc t tk tk' : task_status tk' = task_status tk -> task_type tk' = task_type tk ->
  pc_fine pc t tk -> pc_fine pc t tk'.
Proof. clear clk. intros Es E. destruct pc; cbn; unfold Periodic; by rewrite ?Es, ?E. Qed.

Lemma write_phase_safe t p s : sys_safe s -> exec_inv (sy_exec (write_phase t p s)) ->
  sys_safe (write_phase t p s).
Proof. clear clk. intros [Hs Hi Ht Hm Hl] Hinv. split; [by eapply safe_frame|done..]. Qed.

Lemma sys_safe_lists s pe ma ca cx ct : sys_safe s ->
  (forall t, t ∈ pe \/ t ∈ ma \/ t ∈ ca -> is_Some (ex_tasks (sy_exec s) !! t)) ->
  (forall t tk, ex_tasks (sy_exec s) !! t = Some tk -> task_status tk = TaskCancelling ->
     canceled tk = true \/ t ∈ ma) ->
  sys_safe (MkSys (sy_exec s) pe ma ca cx ct).
Proof. clear clk. intros [Hs Hi _ _ Hl] ? ?. by split. Qed.

Lemma schedule_safe ty d dl e : safe e ->
  wp (schedule clk ty d dl) (fun r e' => safe e' /\ more_tasks e e' /\ kept e e' /\
    match r with inr t => is_Some (ex_tasks e' !! t) | inl _ => True end) e.
Proof.
  intros Hs. unfold schedule. apply wp_bind. cbn.
  destruct (IsCanceled e); [cbn; split_and!; first [done|by apply more_tasks_same|by apply kept_same]|].
  case_bool_decide; [cbn; split_and!; first [done|by apply more_tasks_same|by apply kept_same]|].
  apply wp_bind. cbn. apply wp_bind. cbn. apply wp_bind. cbn.
  set (tk := configureContext _). set (e1 := set_ticks _ _).
  assert (safe e1) as Hs1 by by eapply safe_frame.
  split_and!.
  - by apply (safe_put e1).
  - exact (more_tasks_put e1 _ tk).
  - exact (kept_put e1 _ tk (fun E => ltac:(discriminate E))).
  - rewrite lookup_insert_eq. eauto.
Qed.

(** The loop relies on no task that does not exist. *)
Lemma pc_fine_fresh e t tk : live_inv e -> loop_known e -> ex_tasks e !! t = None ->
  pc_fine (ex_loop e) t tk.
Proof.
  intros Hl [_ Hr] Ht. assert (t ∉ loop_task (ex_loop e)) as Hn.
  { intros (? & ? & _)%(li_loop _ Hl). congruence. }
  destruct (ex_loop e) as [|u|u|u|u ld|u|u|u|] eqn:Ep; cbn in *; try done; intros ->.
  1, 2, 3: exfalso; apply Hn; by left.
  destruct (Hr _ eq_refl). congruence.
Qed.

Lemma schedule_known ty d dl e e' r : schedule clk ty d dl e = Some (r, e') -> live_inv e ->
  loop_known e -> loop_known e'.
Proof.
  unfold schedule. intros Hm Hl Hlk. einv; try done. cbn. set (t := fresh _).
  assert (ex_tasks e !! t = None) as Ht by apply not_elem_of_dom, is_fresh. clearbody t.
  set (tk := configureContext _).
  apply (loop_known_put (set_ticks _ (set_taskCount _ e)) t tk); [done|]. exact (pc_fine_fresh e t tk Hl Hlk Ht).
Qed.

Lemma cancel_phase_safe t tk s : sys_safe s -> ex_tasks (sy_exec s) !! t = Some tk ->
  task_status tk = TaskRunning -> tame (LCancelTask t) s ->
  sys_safe (upd_marks (sy_marks s ++ [t]) (write_task t (cancel_running_cas tk) s)).
Proof.
  intros [Hs Hi Ht Hm Hlk] Htk Hr [Hn1 Hn2].
  assert (exec_inv (sy_exec (write_task t (cancel_running_cas tk) s))) as Hi'.
  { apply (sys_do_inv clk (LCancelTask t) s
      (upd_marks (sy_marks s ++ [t]) (write_task t (cancel_running_cas tk) s)) Hi).
    cbn. by rewrite Htk, Hr. }
  split; cbn.
  - by apply safe_put; [|eapply (ptrs_ok_same tk); [|by eapply sf_ptrs]].
  - done.
  - intros t' Ht'. apply more_tasks_put. rewrite elem_of_app, list_elem_of_singleton in Ht'.
    destruct Ht' as [?|[[?| ->]|?]]; eauto.
  - intros t' tk2. rewrite lookup_insert. rewrite elem_of_app, list_elem_of_singleton.
    case_decide as Hd; intros Ht' Hc; [simplify_eq; tauto|]. destruct (Hm _ _ Ht' Hc); tauto.
  - apply loop_known_put; [done|]. pose proof (proj1 Hlk _ _ Htk) as Hf.
    destruct (ex_loop (sy_exec s)); cbn in *; try done; intros ->; done.
Qed.

Lemma sys_do_safe l s : sys_safe s -> tame l s ->
  sys_do clk l s <> Crash /\ (forall s', sys_do clk l s = Next s' -> sys_safe s').
Proof.
  intros Hss Htame. pose proof Hss as [Hs Hi Ht Hm Hlk].
  assert (forall s', sys_do clk l s = Next s' -> exec_inv (sy_exec s')) as Hinv'
    by (intros s' ?; by eapply sys_do_inv).
  destruct l; cbn [sys_do] in *.
  - (* LSchedule *)
    destruct (wp_run _ _ _ (schedule_safe ty initialDelay dl _ Hs)) as (r & e' & E & Hs' & Hmore & Hk & Hr).
    rewrite E in *. split; [by destruct r|]. intros s' Hn. specialize (Hinv' _ Hn).
    assert (loop_known e') as Hlk' by (eapply schedule_known; [exact E|apply Hi|done]).
    assert (forall t tk, ex_tasks e' !! t = Some tk -> task_status tk = TaskCancelling ->
      canceled tk = true \/ t ∈ sy_marks s) as Hm'.
    { intros t tk' Htk' Hc. destruct (Hk _ _ Htk' Hc) as (tk & ? & ? & ->). eauto. }
    destruct r; simplify_eq; (split; [done|done| |done|done]); cbn; intros t' Ht'; [by eauto|].
    rewrite elem_of_app, list_elem_of_singleton in Ht'. destruct Ht' as [[?| ->]|?]; eauto.
  - (* LSubmitted *) case_decide as Hin; [|done]. apply loop_event_safe; cbn.
    + apply sys_safe_lists; [done| |done]. intros t' Ht'. apply Ht.
      destruct Ht' as [?%remove_first_elem|?]; tauto.
    + intros _. apply onSubmitted_wp; eauto.
    + intros a e' E%tryExecuteTask_effect. by split; [apply kept_soq|apply stays_soq].
    + intros. by eapply looping_inv, onSubmitted_inv.
  - (* LTimer *) destruct (ex_timer _) as [d|]; [|done]. case_decide; [|done]. apply loop_event_safe.
    + done.
    + intros _. by apply onTimer_wp.
    + intros a e' E%onTimer_effect. by split; [apply kept_soq|apply stays_soq].
    + intros. by eapply looping_inv, onTimer_inv.
  - (* LReturn *) destruct (phase_of _ _) as [[]|]; try done. destruct (ex_tasks _ !! t) as [tk|]; [|done].
    destruct (_ || _); (split; [done|]); intros s' Hn; specialize (Hinv' _ Hn); simplify_eq;
      by apply write_phase_safe.
  - (* LPanic *) destruct (phase_of _ _) as [[]|]; try done. destruct (ex_tasks _ !! t) as [tk|]; [|done].
    split; [done|]. intros s' Hn. specialize (Hinv' _ Hn). simplify_eq. by apply write_phase_safe.
  - (* LSetDone *) destruct (phase_of _ _) as [[|ld v er|]|] eqn:Ep; try done.
    destruct (ex_tasks _ !! t) as [tk|] eqn:Et; [|done].
    apply phase_of_elem in Ep. destruct (li_ok _ (proj1 Hi) _ _ Ep) as [(tk0 & Htk0 & Hnew) Hld].
    destruct (setDone_cas_total ld v er tk) as (b & tk' & Ec & Hwf' & Hst);
      [by apply (proj1 Hi) in Et|by eapply Hld|].
    rewrite Ec in *. split; [done|]. intros s' Hn. specialize (Hinv' _ Hn). simplify_eq.
    assert (exec_inv (sy_exec (write_task t tk' s))) as Hw.
    { apply exec_inv_put; [done|done|]. intros _. destruct Hst as [->| ->]; congruence. }
    apply write_phase_safe; [|done]. apply (write_task_safe _ tk); [done|done| |done|..].
    + by eapply setDone_cas_elements.
    + intros Hc. destruct Hst as [->|?]; [eauto|congruence].
    + apply pc_fine_other; [by eapply live_not_loop, Ep; apply Hi|by eapply setDone_cas_type].
  - (* LCompleted *) case_decide as Hp; [|done]. apply phase_of_elem in Hp.
    unfold loop_event. case_decide; [|done]. apply loop_run_safe; [done|..].
    + intros _. cbn. split_and!; [by eapply safe_frame|by apply more_tasks_same|by split].
    + intros a e' E (? & ? & ? & ?). split; [by eapply kept_receive_completed|].
      eapply running_loop_inv, (receive_completed_inv clk); [exact E|by split_and!|done].
  - (* LLoop *) case_decide as Hp; [done|]. apply loop_run_safe; [done|..].
    + intros Hl. apply completed_step_wp; [done..|]. intros t tk Hpc Htk Hc.
      destruct (Hm _ _ Htk Hc) as [|Hin]; [done|]. by destruct (Htame _ Hpc).
    + intros a e' E Hl. split; [by eapply kept_completed_step|by eapply completed_step_inv].
  - (* LCancelTask *) destruct (ex_tasks _ !! t) as [tk|] eqn:Et; [|done].
    destruct (task_status tk) eqn:Es; try (split; [done|]; by intros s' [= <-]).
    + destruct (cancel_new_spec tk) as (tk' & E & Hw' & Hs' & _); [by apply (proj1 Hi) in Et|done|].
      rewrite E in *. split; [done|]. intros s' Hn. specialize (Hinv' _ Hn). simplify_eq.
      assert (sys_safe (write_task t tk' s)) as Hss'.
      { apply (write_task_safe _ tk); [done|done|by apply cancel_new_elements|done|congruence|].
        apply pc_fine_other; [|by apply cancel_new_type]. intros (? & ? & ?)%(li_loop _ (proj1 Hi)). congruence. }
      apply (sys_safe_lists (write_task t tk' s)); [done| |apply Hss'].
      intros t' Ht'. rewrite elem_of_app, list_elem_of_singleton in Ht'.
      apply (more_tasks_put (sy_exec s)). destruct Ht' as [?|[?|[?| ->]]]; eauto.
    + split; [done|]. intros s' [= <-]. by apply cancel_phase_safe.
  - (* LCancelMark *) destruct (ex_tasks _ !! t) as [tk|] eqn:Et; [|done]. case_decide as Hin; [|done].
    split; [done|]. intros s' Hn. specialize (Hinv' _ Hn). simplify_eq.
    destruct (call_ctxCancel_fields (with_canceled true tk)) as (Hcs & _ & Hcan & _ & _ & Hct).
    assert (sys_safe (write_task t (cancel_running_mark tk) s)) as Hss'.
    { apply (write_task_safe _ tk); [done|done| |done|by left|by apply pc_fine_same].
      apply (call_ctxCancel_elements (with_canceled true tk)). }
    apply (sys_safe_lists (write_task t (cancel_running_mark tk) s)); [done|..].
    + intros t' Ht'. rewrite elem_of_app, list_elem_of_singleton in Ht'. apply (more_tasks_put (sy_exec s)).
      destruct Ht' as [?|[?%remove_first_elem|[?| ->]]]; eauto.
    + intros t' tk2 Ht' Hc. destruct (decide (t' = t)) as [->|Hne].
      * left. cbn in Ht'. rewrite lookup_insert_eq in Ht'. by simplify_eq.
      * destruct (ss_marks _ Hss' _ _ Ht' Hc); [by left|right]. by apply remove_first_ne.
  - (* LCanceled *) case_decide as Hin; [|done]. apply loop_event_safe; cbn.
    + apply sys_safe_lists; [done| |done]. intros t' Ht'. apply Ht.
      destruct Ht' as [?|[?|?%remove_first_elem]]; tauto.
    + intros _. apply onCanceled_wp; eauto.
    + intros. split; [by eapply kept_onCanceled|by eapply stays_onCanceled].
    + intros. by eapply looping_inv, onCanceled_inv.
  - (* LAwait *) destruct (ex_tasks _ !! t) as [tk|] eqn:Et; [|done].
    split; [done|]. intros s' Hn. specialize (Hinv' _ Hn). simplify_eq.
    apply (write_task_safe _ tk); [done|done| |done|..]; unfold Await; destruct (doneChn tk); cbn; try done.
    all: intros; eauto.
  - split; [done|]. intros s' [= <-]. by apply sys_safe_lists.
  - destruct (_ && _); [|done]. split; [done|]. intros s' [= <-].
    destruct (IsCanceled _); [done|]. by apply sys_safe_lists.
  - split; [done|]. intros s' [= <-]. destruct (IsCanceled _); [done|]. by apply sys_safe_lists.
  - (* LCancel *) destruct (sy_calls s) as [|n]; [done|]. apply loop_event_safe; cbn.
    + by apply sys_safe_lists.
    + intros. by apply onCancel_wp.
    + intros. split; [by eapply kept_onCancel|by eapply stays_onCancel].
    + intros. by eapply onCancel_inv.
  - done.
  - (* LSetConcurrency *) apply loop_event_safe; [done|..].
    + intros. by apply onUpdateConcurrency_wp.
    + intros. split; [by eapply kept_onUpdateConcurrency|by eapply stays_onUpdateConcurrency].
    + intros. by eapply onUpdateConcurrency_inv.
  - (* LSetQueueCapacity *) apply loop_event_safe; [done|..].
    + intros _. cbn. by frames.
    + intros a e' [= <- <-]. by split; [apply kept_same|].
    + intros. by eapply looping_inv, onUpdateQueueCapacity_inv.
Qed.

Fixpoint tame_run (ls : list Label) s : Prop :=
  match ls with
  | [] => True
  | l :: ls => tame l s /\ match sys_do clk l s with Next s' => tame_run ls s' | _ => True end
  end.

Lemma sys_start_safe q c k : tq_ok q -> tq_items q = [] -> sys_safe (sys_start clk q c k).
Proof.
  intros Hq Hi. split; cbn.
  - split; cbn; [exists []; split; [apply list_New_is_list|constructor]|done|by rewrite Hi|].
    intros t tk Ht. by rewrite lookup_empty in Ht.
  - apply sys_start_inv.
  - intros t. set_solver.
  - intros t tk Ht. by rewrite lookup_empty in Ht.
  - by apply loop_known_select.
Qed.

Lemma tame_run_safe ls s s' : sys_safe s -> tame_run ls s -> sys_run clk ls s = Next s' -> sys_safe s'.
Proof.
  revert s. induction ls as [|l ls IH]; intros s Hs Hf Hr; cbn in *; [by simplify_eq|].
  destruct Hf as [Hl Hf]. destruct (sys_do_safe l s Hs Hl) as [_ Hn].
  destruct (sys_do clk l s) as [| |s1]; [done|done|]. eauto.
Qed.

(** C4: over any queue that keeps the promises of the interface, the executor
    does not crash: whatever clients and tasks do, and however their steps fall
    between those of the loop's case of the completed event, nothing panics, as
    long as [CancelNow] is not called, the loop does not read a task's [canceled]
    while a [Cancel] of it is between its swap of the status and its write of
    [canceled], and no [Cancel] swaps the status of a task between that read and
    the loop's own swap of the status. *)
Theorem no_crash ls q c k : tq_ok q -> tq_items q = [] ->
  tame_run ls (sys_start clk q c k) -> sys_run clk ls (sys_start clk q c k) <> Crash.
Proof.
  intros Hq Hi. pose proof (sys_start_safe q c k Hq Hi) as Hs. revert Hs.
  generalize (sys_start (H := H) clk q c k). induction ls as [|l ls IH]; intros s Hs Hf; cbn in *; [done|].
  destruct Hf as [Hl Hf]. destruct (sys_do_safe l s Hs Hl) as [Hc Hn].
  destruct (sys_do clk l s) as [| |s1]; [done|done|]. eauto.
Qed.

(** ** What one event does *)

(** The dispatch of a submitted task, on a clock that does not go back: a
    task whose time has not come goes to the scheduled queue under its next run;
    otherwise it runs at once when there is room, and else waits behind the
    other ready tasks. *)
Theorem submitted_dispatch e t tk xs :
  (forall n, clk n <= clk (S n)) -> safe e -> is_list (ex_queue e) xs ->
  ex_tasks e !! t = Some tk -> task_status tk = TaskNew ->
  exists e', onSubmitted clk t e = Some (tt, e') /\
    if bool_decide (Delay (clk (ex_ticks e)) tk > 0) then
      (exists h, tq_items (ex_sched e') ≡ₚ (h, t, int64_wrap (nextRun tk)) :: tq_items (ex_sched e)) /\
      ex_queue e' = ex_queue e /\ ex_live e' = ex_live e
    else if canStartNewTask e then
      ex_live e' = ex_live e ++ [(t, GoRun)] /\ ex_running e' = ex_running e + 1 /\
      ex_queue e' = ex_queue e /\ ex_sched e' = ex_sched e
    else
      (exists x, is_list (ex_queue e') (xs ++ [(x, t)])) /\
      ex_live e' = ex_live e /\ ex_sched e' = ex_sched e.
Proof.
  intros Hclk Hs Hq Ht Hnew.
  enough (wp (onSubmitted clk t) (fun _ e' => if bool_decide (Delay (clk (ex_ticks e)) tk > 0) then
      (exists h, tq_items (ex_sched e') ≡ₚ (h, t, int64_wrap (nextRun tk)) :: tq_items (ex_sched e)) /\
      ex_queue e' = ex_queue e /\ ex_live e' = ex_live e
    else if canStartNewTask e then
      ex_live e' = ex_live e ++ [(t, GoRun)] /\ ex_running e' = ex_running e + 1 /\
      ex_queue e' = ex_queue e /\ ex_sched e' = ex_sched e
    else
      (exists x, is_list (ex_queue e') (xs ++ [(x, t)])) /\
      ex_live e' = ex_live e /\ ex_sched e' = ex_sched e) e) as Hwp.
  { destruct (wp_run _ _ _ Hwp) as ([] & e' & ? & ?). eauto. }
  unfold onSubmitted, tryExecuteTask. apply wp_bind. eapply get_task_wp; [done|].
  unfold Runnable. rewrite (bool_decide_eq_true_2 (task_status tk = TaskNew)) by done. cbn [negb].
  apply wp_bind. cbn [wp time_now].
  assert (safe (set_ticks (S (ex_ticks e)) e)) as Hs1 by by eapply safe_frame.
  case_bool_decide as Hd.
  - apply wp_bind, sched_push_wp; [done|by eexists|]. intros h q' Hs2 Hk Hit. apply wp_bind. cbn.
    match goal with |- wp _ _ ?s => assert (safe s) as Hs3 end.
    { apply (safe_put (set_sched q' (set_ticks (S (ex_ticks e)) e))); [done|].
      split; [apply (sf_ptrs _ Hs _ _ Ht)|]. cbn. by intros ? [= <-]. }
    destruct (wp_run _ _ _ (configureSchedulerTimer_wp _ Hs3)) as (u & e' & Hm & _ & _ & E1 & E2).
    eapply wp_intro; [exact Hm|]. apply configureSchedulerTimer_quiet in Hm.
    destruct (quiet_fields _ _ Hm) as (_ & _ & _ & _ & _ & _ & _ & El).
    rewrite E2, E1, El. cbn. eauto.
  - apply wp_bind. cbn. change (canStartNewTask (set_ticks _ e)) with (canStartNewTask e).
    destruct (canStartNewTask e); cbn.
    + unfold executeTask. apply wp_bind. eapply get_task_wp; [done|]. apply wp_bind. cbn.
      unfold setRunning, Runnable. rewrite (bool_decide_eq_true_2 (task_status tk = TaskNew)) by done.
      rewrite bool_decide_eq_false_2; [by cbn|]. specialize (Hclk (ex_ticks e)). unfold Delay in *. lia.
    + apply wp_bind, queue_push_wp; [done|by eexists|]. intros x q' _ _ _ _ Hq'. cbn. eauto.
Qed.

Lemma run_next_terminates e : ex_running e = 0 -> QueueLength e = 0 -> ex_terminationChn e = false ->
  IsCanceled e = true -> ex_status e <> Terminated ->
  run_next_or_return clk e = Some (tt, set_stopped true (set_terminationChn true (set_status Terminated e))).
Proof.
  intros Hr Hl Hch Hcan Ht. unfold run_next_or_return, tryRunNextTask.
  unfold mbind, M_bind, get_state. cbn.
  assert (IsTerminated e = false) as -> by (unfold IsTerminated, IsCanceled in *; by destruct (ex_status e)).
  rewrite Hl, Hcan, Hr, Hch. cbn.
  unfold IsCanceled in Hcan. by destruct (ex_status e).
Qed.

Lemma onCancel_idle e : ex_terminationChn e = false -> QueueLength e = 0 ->
  ex_status e = ExecRunning -> ex_running e = 0 ->
  onCancel clk e = Some (true, set_stopped true (set_terminationChn true
    (set_status Terminated (set_status ShuttingDown e)))).
Proof.
  intros Hc Hl Hs Hr. unfold onCancel. rewrite (M_bind_run _ _ e e e) by done.
  assert (IsCanceled e = false) as -> by (unfold IsCanceled; by rewrite Hs).
  rewrite (bool_decide_eq_true_2 (ex_status e = ExecRunning)) by done. cbv zeta.
  rewrite (M_bind_run _ _ e tt (set_status ShuttingDown e)) by done.
  erewrite M_bind_run by by apply run_next_terminates. done.
Qed.

(** C7: an orderly shutdown: [Cancel] of an idle executor terminates it, and so
    does the completion of the last running task once it was canceled and nothing
    is queued. *)
Theorem orderly_shutdown e :
  looping e -> QueueLength e = 0 ->
  (ex_status e = ExecRunning -> ex_running e = 0 ->
   exists e', onCancel clk e = Some (true, e') /\ ex_status e' = Terminated /\
     ex_terminationChn e' = true /\ ex_stopped e' = true) /\
  (forall t tk, IsCanceled e = true -> ex_running e = 1 -> (t, GoSend) ∈ ex_live e ->
   ex_tasks e !! t = Some tk -> Done tk = true ->
   exists e', onCompleted clk t e = Some (tt, e') /\ ex_status e' = Terminated /\
     ex_terminationChn e' = true /\ ex_stopped e' = true).
Proof.
  intros (_ & Hst & Hc & _) Hql.
  split.
  - intros Hs Hr. eexists. split; [by apply onCancel_idle|done].
  - intros t tk Hcan Hr Hin Ht Hd. set (e1 := set_live (ex_running e - 1) (drop_live t (ex_live e)) e).
    set (e2 := set_loop AtSelect (set_loop AtRunNext (set_loop (AtDone t) e1))).
    assert (run_next_or_return clk e2 =
      Some (tt, set_stopped true (set_terminationChn true (set_status Terminated e2)))) as E.
    { apply run_next_terminates; try done. cbn. lia. }
    exists (set_stopped true (set_terminationChn true (set_status Terminated e2))).
    split_and!; [|done..]. unfold onCompleted.
    rewrite (M_bind_run _ _ e tt (set_loop (AtDone t) e1)) by done. unfold complete.
    rewrite (M_bind_run _ _ _ (set_loop (AtDone t) e1) (set_loop (AtDone t) e1)) by done. cbn [ex_loop set_loop].
    rewrite (M_bind_run _ _ _ tt (set_loop AtRunNext (set_loop (AtDone t) e1))).
    2: { cbn [completed_step]. erewrite M_bind_run by (unfold get_task; cbn; by rewrite Ht). by rewrite Hd. }
    rewrite (M_bind_run _ _ _ (set_loop AtRunNext (set_loop (AtDone t) e1)) _) by done. cbn [ex_loop set_loop].
    erewrite M_bind_run by (cbn [completed_step]; by erewrite M_bind_run).
    done.
Qed.

(** [CancelNow] on an idle executor never returns: the [Cancel] it makes
    first terminates the loop, so that nobody receives its own event. *)
Theorem cancel_now_blocks s s1 s2 ls :
  exec_inv (sy_exec s) -> ex_status (sy_exec s) = ExecRunning ->
  ex_running (sy_exec s) = 0 -> QueueLength (sy_exec s) = 0 ->
  sys_run clk [LCancelCall; LCancel] s = Next s1 -> sys_run clk ls s1 = Next s2 ->
  sys_do clk LCancelNow s2 = Stuck.
Proof.
  intros Hinv Hs Hr Hl H1' H2'.
  assert (ex_terminationChn (sy_exec s) = false /\ ex_stopped (sy_exec s) = false) as [Hc Hst].
  { destruct Hinv as [_ [(? & _)|(_ & ? & ?)]]; [congruence|done]. }
  cbn [sys_run sys_do] in H1'.
  assert (IsCanceled (sy_exec s) = false) as E by (unfold IsCanceled; by rewrite Hs).
  rewrite E in H1'. cbn [sy_calls upd_calls] in H1'. unfold loop_event, loop_run in H1'.
  change (sy_exec (upd_calls _ (upd_calls _ s))) with (sy_exec s) in H1'.
  case_decide as Hp; [|done].
  rewrite Hst, onCancel_idle in H1' by done. injection H1' as <-.
  match type of H2' with sys_run _ _ ?s1 = _ => assert (exec_inv (sy_exec s1)) as Hinv1 end.
  { eapply (onCancel_inv clk (sy_exec s)); [by apply onCancel_idle|]. by apply inv_looping. }
  destruct (terminated_stays clk ls _ _ Hinv1 eq_refl H2') as (_ & Hst2 & _).
  cbn. unfold loop_event, loop_run. rewrite Hst2. by case_decide.
Qed.
End safety.
