(* ===== verification/ExecutorScenarios.v ===== *)
(** * executors: the executor over the heap, and runs worth knowing

    The executor of file ExecutorSystem with the priority queue of file
    PriorityQueue, executed on concrete lists of labels. *)

From S2P Require Import Prelude.
From S2P Require Import Heap.
From S2P Require Import ContainerList.
From S2P Require Import QueueInterface.
From S2P Require Import PriorityQueue.
From S2P Require Import Task.
From S2P Require Import Executor.
From S2P Require Import ExecutorInvariant.
From S2P Require Import ExecutorSystem.
From S2P Require Import ExecutorSpec.
From S2P Require Import ExecutorSafety.

Section scenarios.
(** The executor's queue is the first queue of an empty store. *)
Definition hq : nat := (NewPriorityQueue (V := nat) empty_world).2.
Definition hq_store : World nat := (NewPriorityQueue empty_world).1.
#[local] Existing Instance PriorityQueue_TaskQueue.
#[local] Instance hq_TaskQueue : TaskQueue (World nat) nat := PriorityQueue_TaskQueue hq.

Definition start (clk : nat -> Z) (concurrency capacity : Z) : Sys (World nat) nat :=
  sys_start clk hq_store concurrency capacity.

Definition run_from (clk : nat -> Z) (c k : Z) (ls : list Label) : Outcome (Sys (World nat) nat) :=
  sys_run clk ls (start clk c k).

(** A clock that jumps to 10000 at its [n]-th reading. *)
Definition jump (n : nat) : nat -> Z := fun i => if decide (i < n)%nat then Z.of_nat i else 10000.

(** No event reaches the loop any more. *)
Definition nothing_left (s : Sys (World nat) nat) : Prop :=
  ex_timer (sy_exec s) = None /\ ex_live (sy_exec s) = [] /\ sy_pending s = [] /\ sy_marks s = [] /\
  sy_cancels s = [] /\ sy_calls s = O.

Definition shutdown_script : list Label :=
  [LTimer; LSchedule TaskTypeOnce 5000 0; LSubmitted 0; LCancelTask 0; LCanceled 0;
   LCancelCall; LCancel; LTimer].

(** The completed event of [t], and [n] steps of the loop's case of it. *)
Definition completed (t n : nat) : list Label := LCompleted t :: replicate n LLoop.

(** A periodic task that completes; its client cancels it. *)
Definition race_script : list Label :=
  [LSchedule TaskTypeFixedDelay 0 50; LSubmitted 0; LReturn 0 None None].

Definition cancel_now_script : list Label :=
  [LSchedule TaskTypeFixedDelay 0 0; LSubmitted 0; LSchedule TaskTypeFixedDelay 0 0; LSubmitted 1;
   LSchedule TaskTypeOnce 0 0; LSubmitted 2; LSchedule TaskTypeOnce 0 0; LSubmitted 3;
   LSchedule TaskTypeOnce 0 0; LSubmitted 4; LCancelCall; LCancel; LCancelNow; LSetConcurrency 1] ++
  LReturn 0 None None :: completed 0 6 ++ LReturn 1 None None :: completed 1 6 ++
  [LCancelTask 3; LCanceled 3; LReturn 2 None None; LSetDone 2] ++ completed 2 2.

Definition twins_script : list Label :=
  [LSchedule TaskTypeOnce 100 0; LSubmitted 0; LSchedule TaskTypeOnce 100 0; LSubmitted 1;
   LTimer; LReturn 0 None None; LSetDone 0] ++ completed 0 2.

(** Three tasks on two slots, and their orderly end. *)
Definition busy_script : list Label :=
  [LSchedule TaskTypeOnce 0 0; LSubmitted 0; LSchedule TaskTypeOnce 0 0; LSubmitted 1;
   LSchedule TaskTypeOnce 0 0; LSubmitted 2; LReturn 1 (Some 7%nat) None; LSetDone 1] ++ completed 1 2.
Definition stop_script : list Label :=
  [LCancelCall; LCancel; LReturn 0 None None; LSetDone 0] ++ completed 0 2 ++
  [LReturn 2 None None; LSetDone 2] ++ completed 2 2.

(** ** What happens in them *)

(** a scheduled task that is cancelled while no task is ready stays in the
    scheduled queue, and when its timer pops it the loop does not look at the
    status: the executor stays in ShuttingDown for ever, with empty queues and
    nothing running, and nothing left that could wake the loop. *)
Theorem cancelled_task_blocks_shutdown : exists s,
  run_from (jump 5) 2 5 shutdown_script = Next s /\
  ex_status (sy_exec s) = ShuttingDown /\ QueueLength (sy_exec s) = 0 /\ nothing_left s.
Proof. eexists. split; [vm_compute; reflexivity|]. by vm_compute. Qed.

(** [Cancel] of a periodic task crashes the executor when it falls into the
    loop's case of the task's completed event: between the load of the status and
    the read of [canceled], when [Cancel] has swapped the status and not yet
    written [canceled] ([half]); and with all of [Cancel] between the read of
    [canceled] and the check of [configureNextRun] ([early]) or between the check
    and its compare-and-swap ([late]).  A whole [Cancel] before the loop reads
    [canceled] does no harm. *)
Theorem cancel_race_crashes :
  let run ls := run_from Z.of_nat 2 5 (race_script ++ ls) in
  let cancel := [LCancelTask 0; LCancelMark 0] in
  let half := completed 0 1 ++ [LCancelTask 0; LLoop; LLoop] in
  let early := completed 0 2 ++ cancel ++ [LLoop] in
  let late := completed 0 3 ++ cancel ++ [LLoop] in
  run half = Crash /\ run early = Crash /\ run late = Crash /\
  exists s, run (completed 0 1 ++ cancel ++ replicate 4 LLoop) = Next s /\
    sp_futures (abs (sy_exec s)) !! 0%nat = Some (FDone None) /\ ex_loop (sy_exec s) = AtSelect.
Proof.
  cbv zeta. split_and!; [vm_compute; reflexivity..|]. eexists. split; [vm_compute; reflexivity|].
  by vm_compute.
Qed.

(** [CancelNow] empties the list of ready tasks without detaching its
    elements.  Cancelling one of the futures it returned then removes the stale
    element from the list again, which makes the list lead to another returned
    task: that task is run although [CancelNow] handed it back. *)
Theorem returned_task_is_run : exists s0 s,
  run_from Z.of_nat 3 5 (take 12 cancel_now_script) = Next s0 /\
  (exists e', onCancelNow Z.of_nat (sy_exec s0) = Some (Some [3; 4]%nat, e')) /\
  run_from Z.of_nat 3 5 cancel_now_script = Next s /\
  ex_live (sy_exec s) = [(4%nat, GoRun)].
Proof.
  eexists _, _. split; [vm_compute; reflexivity|]. split; [eexists; vm_compute; reflexivity|].
  split; [vm_compute; reflexivity|]. by vm_compute.
Qed.

(** Two tasks scheduled for the same instant: after the first has run the
    timer is not set again, because its target is the instant it was set for
    before; the second task is never run. *)
Theorem twin_is_never_run : exists s,
  run_from (fun n => if decide (n < 7)%nat then 0 else 10000) 3 5 twins_script = Next s /\
  tq_len (ex_sched (sy_exec s)) = 1%nat /\ (task_status <$> ex_tasks (sy_exec s) !! 1%nat) = Some TaskNew /\
  nothing_left s.
Proof. eexists. split; [vm_compute; reflexivity|]. by vm_compute. Qed.

(** ** Witnesses of the theorems of file ExecutorSystem *)
Lemma executor_accounting_witness : exists s,
  run_from Z.of_nat 2 5 (busy_script ++ stop_script) = Next s /\
  ex_status (sy_exec s) = Terminated /\ ex_terminationChn (sy_exec s) = true /\ ex_live (sy_exec s) = [].
Proof.
  eexists. split; [vm_compute; reflexivity|]. split; [vm_compute; reflexivity|].
  match goal with |- context [sy_exec ?s] =>
    destruct (executor_accounting Z.of_nat (busy_script ++ stop_script) hq_store 2 5 s) as (_ & _ & Hc & _ & Ht) end;
    [vm_compute; reflexivity|].
  split; [by apply Hc|]. by apply Ht.
Defined.

Lemma concurrency_bound_witness : exists s,
  run_from Z.of_nat 2 5 (busy_script ++ [LSetConcurrency 1]) = Next s /\ ex_running (sy_exec s) <= 2.
Proof.
  eexists. split; [vm_compute; reflexivity|].
  apply (concurrency_bound Z.of_nat (busy_script ++ [LSetConcurrency 1]) hq_store 2 5 2);
    [lia| |vm_compute; reflexivity].
  intros l n Hl. unfold busy_script, completed in Hl. cbn in Hl.
  repeat (apply elem_of_cons in Hl as [->|Hl]; [cbn; intros; simplify_eq; lia|]).
  by apply elem_of_nil in Hl.
Defined.

Lemma status_monotone_witness : exists s s',
  run_from Z.of_nat 2 5 (busy_script ++ stop_script) = Next s /\
  sys_run Z.of_nat [LSchedule TaskTypeOnce 0 0; LCancelCall; LCtxCancel] s = Next s' /\
  ex_status (sy_exec s') = Terminated.
Proof.
  eexists _, _. split; [vm_compute; reflexivity|]. split; [vm_compute; reflexivity|].
  eapply (status_monotone Z.of_nat (busy_script ++ stop_script) hq_store 2 5
    [LSchedule TaskTypeOnce 0 0; LCancelCall; LCtxCancel]); [vm_compute; reflexivity..|].
  vm_compute. reflexivity.
Defined.

(** ** Witnesses of the theorems of file ExecutorSpec *)
Lemma executor_refines_spec_witness : exists s,
  run_from Z.of_nat 2 5 busy_script = Next s /\
  (exists parts, Forall2 permits busy_script parts /\ spec_run (spec_start 2) (concat parts) (abs (sy_exec s))) /\
  sp_futures (abs (sy_exec s)) !! 1%nat = Some (FDone (Some 7%nat)).
Proof.
  eexists. split; [vm_compute; reflexivity|].
  split; [|vm_compute; reflexivity].
  eapply (executor_refines_spec Z.of_nat busy_script hq_store 2 5). vm_compute. reflexivity.
Defined.

Lemma executor_promises_witness : exists s s',
  run_from Z.of_nat 2 5 busy_script = Next s /\ sys_run Z.of_nat stop_script s = Next s' /\
  sp_futures (abs (sy_exec s')) !! 1%nat = Some (FDone (Some 7%nat)).
Proof.
  eexists _, _. split; [vm_compute; reflexivity|]. split; [vm_compute; reflexivity|].
  unshelve refine (later_done _ _ (proj1 (executor_promises Z.of_nat busy_script hq_store 2 5 stop_script _ _ _ _)) _ _ _);
    [|vm_compute; reflexivity..].
Defined.

(** ** Witnesses of the theorems of file ExecutorSafety *)
#[local] Instance hq_TaskQueueLaws : TaskQueueLaws (World nat) nat := PriorityQueue_TaskQueueLaws hq.

Lemma hq_ok : tq_ok hq_store.
Proof. destruct demo0_wf as (_ & _ & Hwf). apply Hwf, is_Some_check. vm_compute. reflexivity. Qed.

(** Among them a [Cancel] between the loop's load of the status and its read of
    [canceled]. *)
Definition calm_script : list Label :=
  race_script ++ completed 0 1 ++ [LCancelTask 0; LCancelMark 0] ++ replicate 4 LLoop ++
  [LSchedule TaskTypeOnce 0 0; LSubmitted 1; LCancelCall; LCancel; LReturn 1 None None; LSetDone 1] ++
  completed 1 2.

Lemma no_crash_witness : run_from Z.of_nat 2 5 calm_script <> Crash.
Proof.
  apply (no_crash Z.of_nat calm_script hq_store 2 5 hq_ok); [vm_compute; reflexivity|].
  vm_compute. repeat split; intros; try discriminate. by eapply elem_of_nil.
Defined.

(** A task that was created but whose event is not received yet. *)
Lemma submitted_dispatch_witness : exists s,
  run_from Z.of_nat 2 5 [LSchedule TaskTypeOnce 0 0] = Next s /\
  exists e', onSubmitted Z.of_nat 0%nat (sy_exec s) = Some (tt, e') /\
    ex_live e' = [(0%nat, GoRun)] /\ ex_running e' = 1.
Proof.
  eexists. split; [vm_compute; reflexivity|].
  match goal with |- context [sy_exec ?s0] => set (s := s0) end.
  assert (sys_safe s) as [Hs _ _ _].
  { apply (tame_run_safe Z.of_nat [LSchedule TaskTypeOnce 0 0] (start Z.of_nat 2 5)).
    - apply (sys_start_safe Z.of_nat hq_store 2 5 hq_ok). vm_compute. reflexivity.
    - vm_compute. by split.
    - vm_compute. reflexivity. }
  destruct (ex_tasks (sy_exec s) !! 0%nat) as [tk|] eqn:Et; [|vm_compute in Et; discriminate].
  destruct (submitted_dispatch Z.of_nat (sy_exec s) 0%nat tk []) as (e' & Hm & Hd).
  - intros n. lia.
  - exact Hs.
  - apply list_New_is_list.
  - exact Et.
  - vm_compute in Et. by injection Et as <-.
  - exists e'. split; [exact Hm|]. vm_compute in Et. injection Et as <-.
    rewrite bool_decide_eq_false_2 in Hd by (vm_compute; discriminate).
    destruct Hd as (-> & -> & _). by vm_compute.
Defined.

(** Canceled, with one command left whose completed event is being sent. *)
Definition last_script : list Label :=
  busy_script ++ [LCancelCall; LCancel; LReturn 0 None None; LSetDone 0] ++ completed 0 2 ++
  [LReturn 2 None None; LSetDone 2].

Lemma orderly_shutdown_witness :
  (exists e', onCancel Z.of_nat (sy_exec (start Z.of_nat 2 5)) = Some (true, e') /\ ex_status e' = Terminated) /\
  (exists s e', run_from Z.of_nat 2 5 last_script = Next s /\
     onCompleted Z.of_nat 2%nat (sy_exec s) = Some (tt, e') /\ ex_status e' = Terminated).
Proof.
  split.
  - destruct (orderly_shutdown Z.of_nat (sy_exec (start Z.of_nat 2 5))) as [Hc _].
    + apply inv_looping; [apply sys_start_inv|done..].
    + vm_compute. reflexivity.
    + destruct Hc as (e' & ? & ? & _); [done..|]. eauto.
  - destruct (run_from Z.of_nat 2 5 last_script) as [| |s] eqn:E; [by vm_compute in E..|].
    pose proof E as E'. vm_compute in E'. injection E' as Es.
    destruct (orderly_shutdown Z.of_nat (sy_exec s)) as [_ Hc].
    + apply inv_looping; [by eapply sys_run_inv, E; apply sys_start_inv|subst s; done..].
    + subst s. vm_compute. reflexivity.
    + exists s. destruct (Hc 2%nat (default (newTask 0 TaskTypeOnce 0 0 0) (ex_tasks (sy_exec s) !! 2%nat)))
        as (e' & ? & ? & _); subst s; try (vm_compute; reflexivity); [|by eauto].
      apply list_elem_of_here.
Defined.

Lemma cancel_now_blocks_witness : exists s1,
  run_from Z.of_nat 2 5 [LCancelCall; LCancel] = Next s1 /\ sys_do Z.of_nat LCancelNow s1 = Stuck.
Proof.
  eexists. split; [vm_compute; reflexivity|].
  eapply (cancel_now_blocks Z.of_nat (start Z.of_nat 2 5) _ _ []); [apply sys_start_inv|..].
  - done.
  - done.
  - vm_compute. reflexivity.
  - vm_compute. reflexivity.
  - done.
Defined.
End scenarios.
